(** * fairscale.experimental.nn.multiprocess_pipe: a shallow embedding

    The module graph, the partitioner [_split_module], the per-partition
    record [DistributedPipelineRecord], the executor [PartitionHandler] and
    the orchestrator [DistributedPipeline] of
    [fairscale/experimental/nn/multiprocess_pipe.py], with the properties the
    design document states about them. *)

From Stdlib Require Import Ascii String.
From stdpp Require Import base numbers list strings gmap.

Open Scope string_scope.
Open Scope list_scope.
Open Scope nat_scope.

(** ** Python outcomes *)

(** The exceptions the file can raise.  [MOVING_DENIED] is the module-level
    [TypeError] instance; [Exception] is the plain exception of
    [check_pytorch_version]; [ModuleError] stands for whatever a module's
    [forward] raises inside a compute task. *)
Inductive exc : Type :=
  | AssertionError
  | IndexError
  | AttributeError (attr : string)
  | ValueError (msg : string)
  | TypeError (msg : string)
  | StopIteration
  | KeyError
  | UnboundLocalError (var : string)
  | Exception (msg : string)
  | ModuleError (payload : nat).

#[global] Instance exc_eq_dec : EqDecision exc.
Proof. solve_decision. Defined.

(** A call returns a value, raises, or does not return at all ([Hang]: a
    [Condition.wait] that nobody wakes, or a loop that never leaves). *)
Inductive res (A : Type) : Type :=
  | Ok (a : A)
  | Raise (e : exc)
  | Hang.
Arguments Ok {A} a.
Arguments Raise {A} e.
Arguments Hang {A}.

#[global] Instance res_ret : MRet res := fun A a => Ok a.
#[global] Instance res_bind : MBind res := fun A B f m =>
  match m with
  | Ok a => f a
  | Raise e => Raise e
  | Hang => Hang
  end.

Definition returns {A} (r : res A) : Prop := ∃ a, r = Ok a.
Definition raises {A} (r : res A) : Prop := ∃ e, r = Raise e.

(** [l[i]] for an index that is known to be non-negative (an [enumerate]
    or [range] counter): [IndexError] past the end. *)
Definition py_get {A} (l : list A) (i : nat) : res A :=
  match l !! i with
  | Some a => Ok a
  | None => Raise IndexError
  end.

(** [l[i]] for an arbitrary Python integer: negative indices count from
    the end. *)
Definition py_norm (len : nat) (i : Z) : option nat :=
  let k := (if decide (i < 0)%Z then i + Z.of_nat len else i)%Z in
  if decide (0 ≤ k < Z.of_nat len)%Z then Some (Z.to_nat k) else None.

Definition py_index {A} (l : list A) (i : Z) : res A :=
  match py_norm (length l) i with
  | Some k => py_get l k
  | None => Raise IndexError
  end.

(** [l[i] = x] for an arbitrary Python integer. *)
Definition py_store {A} (l : list A) (i : Z) (x : A) : res (list A) :=
  match py_norm (length l) i with
  | Some k => Ok (<[k := x]> l)
  | None => Raise IndexError
  end.

(** [for i, a in enumerate(l)] threading a state, stopping at the first
    exception. *)
Fixpoint for_enumerate {A St} (f : nat → A → St → res St) (i : nat) (l : list A) (s : St) : res St :=
  match l with
  | [] => Ok s
  | a :: l' => s' ← f i a s; for_enumerate f (S i) l' s'
  end.

(** [[f(a) for a in l]], stopping at the first exception. *)
Fixpoint py_map {A B} (f : A → res B) (l : list A) : res (list B) :=
  match l with
  | [] => Ok []
  | a :: l' => b ← f a; bs ← py_map f l'; Ok (b :: bs)
  end.

(** [s.split(sep)] for a one-character separator. *)
Fixpoint split_on (sep : Ascii.ascii) (s : string) : list string :=
  match s with
  | EmptyString => [EmptyString]
  | String c s' =>
      if Ascii.eqb c sep then EmptyString :: split_on sep s'
      else match split_on sep s' with
           | [] => [String c EmptyString]
           | p :: ps => String c p :: ps
           end
  end.

(** ** Remote references *)

(** What [rpc.remote] hands back for the two kinds of remote module the
    file creates: a module built by [PipelineModule._create_module] on
    worker [owner], or a [RemoteSequential] over already remote modules. *)
Inductive ModuleRef : Type :=
  | CreateModuleRef (owner : string) (module_args : nat) (dev : string).

Inductive RRef : Type :=
  | SingleRef (m : ModuleRef)
  | RemoteSequentialRef (owner : string) (rrefs : list ModuleRef).

Definition owner (r : RRef) : string :=
  match r with
  | SingleRef (CreateModuleRef o _ _) => o
  | RemoteSequentialRef o _ => o
  end.

(** ** PipelineModule *)

(** The attributes [instantiate] sets; they exist together or not at all. *)
Record Remote : Type := mkRemote {
  on : string;
  device : string;
  module_rref : ModuleRef
}.

Record PipelineModule : Type := mkPipelineModule {
  num_inputs : Z;
  num_outputs : option Z;
  module_args : nat;
  remote : option Remote
}.

(** Module objects are shared and mutated in place ([instantiate]), so
    they live in a store and the graph holds their addresses. *)
Definition loc := nat.
Definition Heap := loc → PipelineModule.

Definition heap_set (h : Heap) (l : loc) (m : PipelineModule) : Heap :=
  fun l' => if decide (l' = l) then m else h l'.

Definition get_on (m : PipelineModule) : res string :=
  match remote m with Some r => Ok (on r) | None => Raise (AttributeError "on") end.
Definition get_device (m : PipelineModule) : res string :=
  match remote m with Some r => Ok (device r) | None => Raise (AttributeError "device") end.
Definition get_module_rref (m : PipelineModule) : res ModuleRef :=
  match remote m with Some r => Ok (module_rref r) | None => Raise (AttributeError "module_rref") end.

Definition instantiate (h : Heap) (l : loc) (remote_device : string) : res Heap :=
  match split_on "/"%char remote_device with
  | [on_; device_] =>
      let m := h l in
      Ok (heap_set h l
            (mkPipelineModule (num_inputs m) (num_outputs m) (module_args m)
               (Some (mkRemote on_ device_ (CreateModuleRef on_ (module_args m) device_)))))
  | _ => Raise (ValueError "unpack")
  end.

(** ** PipelineModulesGraph *)

(** [output_users] and [model_input_users] are the attributes
    [compute_output_users] sets; they are only read after it has run. *)
Record PipelineModulesGraph : Type := mkGraph {
  modules_list : list loc;
  inputs : list (option (list (Z * Z)));
  output_users : list (list (nat * nat * Z));
  model_input_users : list (nat * nat * Z)
}.

Definition new_graph : PipelineModulesGraph := mkGraph [] [] [] [].

Definition set_inputs (g : PipelineModulesGraph) (ins : list (option (list (Z * Z)))) : PipelineModulesGraph :=
  mkGraph (modules_list g) ins (output_users g) (model_input_users g).

Definition _add_new_module (g : PipelineModulesGraph) (num : nat) : PipelineModulesGraph :=
  set_inputs g (inputs g ++ replicate num None).

(** [list.index]: position of the first occurrence. *)
Fixpoint list_index (l : list loc) (x : loc) : option nat :=
  match l with
  | [] => None
  | y :: l' => if decide (y = x) then Some 0 else S <$> list_index l' x
  end.

Definition index (l : list loc) (x : loc) : res nat :=
  match list_index l x with
  | Some i => Ok i
  | None => Raise (ValueError "not in list")
  end.

Definition _find_or_add (g : PipelineModulesGraph) (module : loc) : PipelineModulesGraph * nat :=
  match list_index (modules_list g) module with
  | Some i => (g, i)
  | None =>
      let g1 := _add_new_module g 1 in
      let g2 := mkGraph (modules_list g1 ++ [module]) (inputs g1) (output_users g1) (model_input_users g1) in
      (g2, length (modules_list g2) - 1)
  end.

(** [self.inputs[i] = v] where [i] is a list position computed by the
    builder. *)
Definition assign_input (g : PipelineModulesGraph) (i : nat) (v : list (Z * Z)) : res PipelineModulesGraph :=
  match inputs g !! i with
  | Some _ => Ok (set_inputs g (<[i := Some v]> (inputs g)))
  | None => Raise IndexError
  end.

Definition add_sequence (g : PipelineModulesGraph) (modules : list loc) (first_input : option loc) : res PipelineModulesGraph :=
  let old_m := length (modules_list g) in
  let m := length modules in
  let g1 := _add_new_module g m in
  let g2 := mkGraph (modules_list g1 ++ modules) (inputs g1) (output_users g1) (model_input_users g1) in
  g3 ← foldl (fun acc i => a ← acc; assign_input a i [(Z.of_nat i - 1, 0)%Z])
          (Ok g2) (seq (old_m + 1) (m - 1));
  match first_input with
  | None => Ok g3
  | Some fi =>
      k ← index (modules_list g3) fi;
      assign_input g3 old_m [(Z.of_nat k, 0%Z)]
  end.

Definition feed_model_input (g : PipelineModulesGraph) (module : loc) (ind : Z) : res PipelineModulesGraph :=
  let '(g1, i) := _find_or_add g module in
  assign_input g1 i [((-1)%Z, ind)].

Definition add_multi_input_layer (g : PipelineModulesGraph) (module : loc) (ins : list loc) : res PipelineModulesGraph :=
  v ← py_map (fun m => k ← index (modules_list g) m; Ok (Z.of_nat k, 0%Z)) ins;
  let '(g1, i) := _find_or_add g module in
  assign_input g1 i v.

Definition fan_out (g : PipelineModulesGraph) (module : loc) (outputs : list loc) : res PipelineModulesGraph :=
  mi ← index (modules_list g) module;
  for_enumerate
    (fun i m acc => let '(g1, k) := _find_or_add acc m in
                    assign_input g1 k [(Z.of_nat mi, Z.of_nat i)])
    0 outputs g.

Definition replicate_output (g : PipelineModulesGraph) (module : loc) (outputs : list loc) : res PipelineModulesGraph :=
  mi ← index (modules_list g) module;
  for_enumerate
    (fun _ m acc => let '(g1, k) := _find_or_add acc m in
                    assign_input g1 k [(Z.of_nat mi, 0%Z)])
    0 outputs g.

Definition validate_graph (g : PipelineModulesGraph) : res unit := Ok ().

(** One [input_item] of module [i], slot [j]. *)
Definition record_user (i j : nat) (input_item : Z * Z)
    (st : list (list (nat * nat * Z)) * list (nat * nat * Z))
    : res (list (list (nat * nat * Z)) * list (nat * nat * Z)) :=
  let '(ou, miu) := st in
  if decide (0 ≤ input_item.1)%Z then
    match ou !! Z.to_nat input_item.1 with
    | Some l => Ok (<[Z.to_nat input_item.1 := l ++ [(i, j, input_item.2)]]> ou, miu)
    | None => Raise IndexError
    end
  else Ok (ou, miu ++ [(i, j, input_item.2)]).

Definition record_users (i : nat) (input : option (list (Z * Z)))
    (st : list (list (nat * nat * Z)) * list (nat * nat * Z))
    : res (list (list (nat * nat * Z)) * list (nat * nat * Z)) :=
  match input with
  | None => Raise AssertionError
  | Some items => for_enumerate (record_user i) 0 items st
  end.

Definition compute_output_users (g : PipelineModulesGraph) : res PipelineModulesGraph :=
  let m := length (modules_list g) in
  '(ou, miu) ← for_enumerate record_users 0 (inputs g) (replicate m [], []);
  Ok (mkGraph (modules_list g) (inputs g) ou miu).

(** ** _split_module *)

(** The [while True] loop that grows one partition.  Every turn marks one
    more module as used (or leaves), so [fuel] turns are enough when [fuel]
    exceeds the number of modules; see [grow_partition_total]. *)
Fixpoint grow_partition (fuel : nat) (h : Heap) (g : PipelineModulesGraph)
    (module_used : list bool) (partition : list nat)
    (current_module_idx : nat) (current_module : loc) : res (list bool * list nat) :=
  match fuel with
  | 0 => Hang
  | S fuel' =>
      used ← py_get module_used current_module_idx;
      if (used : bool) then Raise AssertionError else
      let module_used := <[current_module_idx := true]> module_used in
      let partition := partition ++ [current_module_idx] in
      users ← py_get (output_users g) current_module_idx;
      if decide (length users ≠ 1) then Ok (module_used, partition) else
      cm ← py_get (modules_list g) current_module_idx;
      if decide (num_outputs (h cm) ≠ None) then Ok (module_used, partition) else
      u0 ← py_get users 0;
      let next_module_idx := u0.1.1 in
      next_module ← py_get (modules_list g) next_module_idx;
      next_inputs ← py_get (inputs g) next_module_idx;
      if decide (next_inputs ≠ Some [(Z.of_nat current_module_idx, 0%Z)]) then Ok (module_used, partition) else
      on_next ← get_on (h next_module);
      on_cur ← get_on (h current_module);
      if decide (on_next ≠ on_cur) then Ok (module_used, partition) else
      dev_next ← get_device (h next_module);
      dev_cur ← get_device (h current_module);
      if decide (dev_next ≠ dev_cur) then Ok (module_used, partition) else
      grow_partition fuel' h g module_used partition next_module_idx next_module
  end.

(** The remote module of a finished partition. *)
Definition remote_module_of (h : Heap) (g : PipelineModulesGraph) (partition : list nat) : res RRef :=
  if decide (length partition = 1) then
    p0 ← py_get partition 0;
    m ← py_get (modules_list g) p0;
    r ← get_module_rref (h m);
    Ok (SingleRef r)
  else
    p0 ← py_get partition 0;
    m ← py_get (modules_list g) p0;
    o ← get_on (h m);
    rrefs ← py_map (fun p => m ← py_get (modules_list g) p; get_module_rref (h m)) partition;
    Ok (RemoteSequentialRef o rrefs).

(** One turn of [for module_idx, module in enumerate(graph.modules_list)]. *)
Definition split_step (fuel : nat) (h : Heap) (g : PipelineModulesGraph)
    (module_idx : nat) (module : loc)
    (st : list bool * list (list nat * RRef)) : res (list bool * list (list nat * RRef)) :=
  let '(module_used, partitions) := st in
  used ← py_get module_used module_idx;
  if (used : bool) then Ok (module_used, partitions) else
  '(module_used, partition) ← grow_partition fuel h g module_used [] module_idx module;
  remote_module ← remote_module_of h g partition;
  Ok (module_used, partitions ++ [(partition, remote_module)]).

(** [_split_module] returns the partitions; the graph it has called
    [compute_output_users] on is returned with them, since the caller reads
    the attributes set on it. *)
Definition _split_module (h : Heap) (graph : PipelineModulesGraph)
    : res (PipelineModulesGraph * list (list nat * RRef)) :=
  g ← compute_output_users graph;
  let n := length (modules_list g) in
  '(_, partitions) ← for_enumerate (split_step (S n) h g) 0 (modules_list g) (replicate n false, []);
  Ok (g, partitions).


(** ** Tensors, batches and dependency tokens *)

Record TorchDevice : Type := mkDevice { dev_type : string; dev_index : option string }.

(** [torch.device(s)] for a string such as [cpu] or [cuda:0]. *)
Definition torch_device (s : string) : TorchDevice :=
  match split_on ":"%char s with
  | [ty] => mkDevice ty None
  | ty :: ix :: _ => mkDevice ty (Some ix)
  | [] => mkDevice s None
  end.

#[global] Instance TorchDevice_eq_dec : EqDecision TorchDevice.
Proof. solve_decision. Defined.

(** Modelled from the spec: [fork] and [join] of
    [fairscale.nn.pipe.dependency] are not part of the file.  [fork] hands
    back its tensor with a dependency token for it; [join] makes a tensor
    depend on a token and leaves its value alone. *)
Inductive Phony : Type := PhonyOf (data : nat).

#[global] Instance Phony_eq_dec : EqDecision Phony.
Proof. solve_decision. Defined.

Record Tensor : Type := mkTensor {
  t_device : TorchDevice;
  t_data : nat;
  t_deps : list Phony
}.

#[global] Instance Tensor_eq_dec : EqDecision Tensor.
Proof. solve_decision. Defined.

Definition tensor_to (t : Tensor) (d : TorchDevice) : Tensor :=
  mkTensor d (t_data t) (t_deps t).
Definition fork (t : Tensor) : Tensor * Phony := (t, PhonyOf (t_data t)).
Definition join (t : Tensor) (ph : Phony) : Tensor :=
  mkTensor (t_device t) (t_data t) (t_deps t ++ [ph]).

(** Modelled from the spec: [Batch] of [fairscale.nn.pipe.microbatch] is
    not part of the file.  A batch is the tuple of tensors of one chunk
    together with the index of the chunk. *)
Record Batch : Type := mkBatch { value : list Tensor; batch_index : Z }.

Inductive CudaEvent : Type := EventOn (d : TorchDevice).

(** The remote record of a partition, named by the partition it belongs
    to, and the reference [user.remote().feed(chunk, input_idx, v)] returns. *)
Definition RecordRef := nat.
Inductive PhonyRRef : Type := FeedRef (user : RecordRef) (chunk input_idx : Z) (v : Tensor).

(** The two kinds of task [compute] puts on the queue of its worker. *)
Inductive ComputeStep : Type := chk_checkpoint | direct_compute.
Inductive FinalizeStep : Type := chk_recompute.
Record Task : Type := mkTask { task_compute : ComputeStep; task_finalize : option FinalizeStep }.

(** What a partition does to the world outside its record. *)
Inductive Event : Type :=
  | Submit (chunk : Z) (task : Task)
  | RemoteFeed (user : RecordRef) (chunk input_idx : Z) (v : Tensor).

(** ** Methods that mutate an object *)

(** A method runs on the object's state, leaves a state behind also when
    it raises, and lists what it did outside. *)
Definition Act (St E A : Type) : Type := St → res A * St * list E.

Definition act_ret {St E A} (a : A) : Act St E A := fun s => (Ok a, s, []).
Definition act_bind {St E A B} (m : Act St E A) (f : A → Act St E B) : Act St E B :=
  fun s =>
    match m s with
    | (Ok a, s1, t1) => let '(x, s2, t2) := f a s1 in (x, s2, t1 ++ t2)
    | (Raise e, s1, t1) => (Raise e, s1, t1)
    | (Hang, s1, t1) => (Hang, s1, t1)
    end.
Definition act_lift {St E A} (r : res A) : Act St E A := fun s => (r, s, []).
Definition act_get {St E} : Act St E St := fun s => (Ok s, s, []).
Definition act_put {St E} (s' : St) : Act St E unit := fun _ => (Ok (), s', []).
Definition act_emit {St E} (e : E) : Act St E unit := fun s => (Ok (), s, [e]).

Notation "x ⇐ m ;; k" := (act_bind m (fun x => k))
  (at level 100, m at next level, right associativity, only parsing).
Notation "m ;;; k" := (act_bind m (fun _ => k))
  (at level 100, right associativity, only parsing).

(** [for a in l: body(a)]. *)
Fixpoint act_for {St E A} (l : list A) (body : A → Act St E unit) : Act St E unit :=
  match l with
  | [] => act_ret ()
  | a :: l' => body a ;;; act_for l' body
  end.

(** The values of a list without [None], if it has none. *)
Fixpoint all_some {A} (l : list (option A)) : option (list A) :=
  match l with
  | [] => Some []
  | Some a :: l' => cons a <$> all_some l'
  | None :: _ => None
  end.

(** ** DistributedPipelineRecord *)

Module DistributedPipelineRecord.

Record t : Type := mk {
  tensors : list (list (option Tensor));
  recv_events : list (list (option CudaEvent));
  batches : list (option Batch);
  forwarded_phony : list (list (list PhonyRRef));
  users : list (option RecordRef * Z * Z);
  rank : Z;
  device : TorchDevice
}.

Definition __init__ (device : TorchDevice) (rank chunks num_input : Z)
    (users : list (option RecordRef * Z * Z)) : t :=
  mk (replicate (Z.to_nat chunks) (replicate (Z.to_nat num_input) None))
     (replicate (Z.to_nat chunks) (replicate (Z.to_nat num_input) None))
     (replicate (Z.to_nat chunks) None)
     (replicate (Z.to_nat chunks) (replicate (Z.to_nat num_input) []))
     users rank device.

Definition set_batches (self : t) (bs : list (option Batch)) : t :=
  mk (tensors self) (recv_events self) bs (forwarded_phony self) (users self) (rank self) (device self).
Definition set_forwarded_phony (self : t) (fp : list (list (list PhonyRRef))) : t :=
  mk (tensors self) (recv_events self) (batches self) fp (users self) (rank self) (device self).

(** The body of [feed] under the lock.  Everything that can raise does so
    before the first assignment. *)
Definition feed_locked (self : t) (chunk input_idx : Z) (input : Tensor) : res (Phony * t) :=
  let input := if decide (dev_type (t_device input) = "cpu") then tensor_to input (device self) else input in
  let cuda_stream := if decide (dev_type (t_device input) = "cuda") then Some (t_device input) else None in
  row ← py_index (tensors self) chunk;
  slot ← py_index row input_idx;
  if decide (slot ≠ None) then Raise AssertionError else
  let '(input, phony) := fork input in
  erow ← py_index (recv_events self) chunk;
  erow' ← py_store erow input_idx (EventOn <$> cuda_stream);
  events' ← py_store (recv_events self) chunk erow';
  row' ← py_store row input_idx (Some input);
  tensors' ← py_store (tensors self) chunk row';
  Ok (phony, mk tensors' events' (batches self) (forwarded_phony self) (users self) (rank self) (device self)).

Definition feed (self : t) (chunk input_idx : Z) (input : Tensor) : res Phony * t :=
  match feed_locked self chunk input_idx input with
  | Ok (phony, self') => (Ok phony, self')
  | Raise e => (Raise e, self)
  | Hang => (Hang, self)
  end.

(** [wait_for]: with the feeds of the chunk delivered it assembles the
    batch; with one missing and nobody left to deliver it, it waits for
    ever. *)
Definition wait_for (chunk : Z) : Act t Event unit :=
  self ⇐ act_get ;;
  b ⇐ act_lift (py_index (batches self) chunk) ;;
  match b with
  | Some _ => act_ret ()
  | None =>
      row ⇐ act_lift (py_index (tensors self) chunk) ;;
      match all_some row with
      | None => fun s => (Hang, s, [])
      | Some ts =>
          bs ⇐ act_lift (py_store (batches self) chunk (Some (mkBatch ts chunk))) ;;
          act_put (set_batches self bs)
      end
  end.

Definition get_batch (self : t) (chunk : Z) : res Batch :=
  b ← py_index (batches self) chunk;
  match b with
  | Some batch => Ok batch
  | None => Raise AssertionError
  end.

End DistributedPipelineRecord.

(** ** PartitionHandler *)

Module PartitionHandler.

Import DistributedPipelineRecord.

(** [module_forward] is the call of [self.module] on the tensors of a
    batch, with the result made a tuple; [module_training] is
    [self.module.training]. *)
Record t : Type := mk {
  module_training : bool;
  module_forward : list Tensor → res (list Tensor);
  chunks : Z;
  device : TorchDevice;
  checkpoint_stop : Z;
  rank : Z;
  num_input : Z;
  num_output : option Z
}.

(** [__init__]: [module_training] and [module_forward] describe
    [module_rref.local_value()]; the other arguments are those the pipeline
    passed to [rpc.remote]. *)
Definition __init__ (module_training : bool) (module_forward : list Tensor → res (list Tensor))
    (device : string) (num_input : Z) (num_output : option Z) (rank chunks checkpoint_stop : Z) : t :=
  mk module_training module_forward chunks (torch_device device) checkpoint_stop rank num_input num_output.

Definition make_pipeline_record (self : t) (users : list (option RecordRef * Z * Z)) : DistributedPipelineRecord.t :=
  DistributedPipelineRecord.__init__ (device self) (rank self) (chunks self) (num_input self) users.

Section rpc.
(** [remote_ph.to_here()]: the token of the remote [feed], or what that
    call raised. *)
Variable to_here : PhonyRRef → res Phony.
(** [microbatch.gather], on the batches of the record. *)
Variable gather : list (option Batch) → res (list Tensor).

Definition join_all (b : Tensor) (remote_ph_list : list PhonyRRef) : res Tensor :=
  foldl (fun acc remote_ph => r ← acc; ph ← to_here remote_ph; Ok (join r ph)) (Ok b) remote_ph_list.

Definition fence (self : t) (chunk : Z) : Act DistributedPipelineRecord.t Event unit :=
  pipeline_record ⇐ act_get ;;
  if decide (chunk ≠ 0%Z ∧ users pipeline_record ≠ [] ∧ (0 < DistributedPipelineRecord.rank pipeline_record)%Z) then
    b ⇐ act_lift (py_index (batches pipeline_record) chunk) ;;
    match b with
    | None => act_lift (Raise AssertionError)
    | Some batch =>
        prev ⇐ act_lift (py_index (forwarded_phony pipeline_record) (chunk - 1)) ;;
        t ⇐ act_lift (py_map (fun bp => join_all bp.1 bp.2) (zip (value batch) prev)) ;;
        bs ⇐ act_lift (py_store (batches pipeline_record) chunk (Some (mkBatch t chunk))) ;;
        act_put (set_batches pipeline_record bs)
    end
  else act_ret ().

(** The cutoff [compute] works with. *)
Definition effective_checkpoint_stop (self : t) : Z :=
  if module_training self then checkpoint_stop self else 0%Z.

Definition make_task (self : t) (chunk : Z) : Task :=
  if decide (chunk < effective_checkpoint_stop self)%Z
  then mkTask chk_checkpoint (Some chk_recompute)
  else mkTask direct_compute None.

Definition compute (self : t) (chunk : Z) : Act DistributedPipelineRecord.t Event unit :=
  pipeline_record ⇐ act_get ;;
  batch ⇐ act_lift (get_batch pipeline_record chunk) ;;
  (if decide (0 ≤ DistributedPipelineRecord.rank pipeline_record)%Z
   then act_lift (py_index (recv_events pipeline_record) chunk) ;;; act_ret ()
   else act_ret ()) ;;;
  act_emit (Submit chunk (make_task self chunk)) ;;;
  result ⇐ act_lift (module_forward self (value batch)) ;;
  bs ⇐ act_lift (py_store (batches pipeline_record) chunk (Some (mkBatch result chunk))) ;;
  act_put (set_batches pipeline_record bs).

(** One consumer of [forward_results].  The list to append to is looked
    up before the remote [feed] is issued; a consumer whose record is [None]
    has no [remote]. *)
Definition forward_one (chunk : Z) (u : option RecordRef * Z * Z) : Act DistributedPipelineRecord.t Event unit :=
  let '(user_ref, input_idx, output_idx) := u in
  pipeline_record ⇐ act_get ;;
  batch ⇐ act_lift (get_batch pipeline_record chunk) ;;
  v ⇐ act_lift (py_index (value batch) output_idx) ;;
  row ⇐ act_lift (py_index (forwarded_phony pipeline_record) chunk) ;;
  cell ⇐ act_lift (py_index row output_idx) ;;
  user ⇐ act_lift (match user_ref with Some u => Ok u | None => Raise (AttributeError "remote") end) ;;
  act_emit (RemoteFeed user chunk input_idx v) ;;;
  row' ⇐ act_lift (py_store row output_idx (cell ++ [FeedRef user chunk input_idx v])) ;;
  fp ⇐ act_lift (py_store (forwarded_phony pipeline_record) chunk row') ;;
  act_put (set_forwarded_phony pipeline_record fp).

Definition forward_results (self : t) (chunk : Z) : Act DistributedPipelineRecord.t Event unit :=
  pipeline_record ⇐ act_get ;;
  act_for (users pipeline_record) (forward_one chunk).

Definition run (self : t) : Act DistributedPipelineRecord.t Event unit :=
  pipeline_record ⇐ act_get ;;
  let m := length (batches pipeline_record) in
  act_for (seq 0 m) (fun i =>
    wait_for (Z.of_nat i) ;;;
    fence self (Z.of_nat i) ;;;
    compute self (Z.of_nat i) ;;;
    forward_results self (Z.of_nat i)).

Definition run_pipeline (self : t) : Act DistributedPipelineRecord.t Event (option Tensor) :=
  run self ;;;
  pipeline_record ⇐ act_get ;;
  if decide (users pipeline_record = []) then
    result ⇐ act_lift (gather (batches pipeline_record)) ;;
    if decide (length result ≠ 1) then act_lift (Raise AssertionError) else
    r0 ⇐ act_lift (py_get result 0) ;;
    act_ret (Some r0)
  else act_ret None.

End rpc.

End PartitionHandler.


(** ** DistributedPipeline *)

(** [a < b] on Python lists of strings. *)
Fixpoint list_string_lt (a b : list string) : bool :=
  match a, b with
  | [], [] => false
  | [], _ :: _ => true
  | _ :: _, [] => false
  | x :: a', y :: b' =>
      match String.compare x y with
      | Lt => true
      | Gt => false
      | Eq => list_string_lt a' b'
      end
  end.

(** [torch.__version__] is the parameter [torch_version]. *)
Definition check_pytorch_version (torch_version : string) : res unit :=
  let v := take 2 (split_on "."%char (default "" (head (split_on "+"%char torch_version)))) in
  if list_string_lt v ["1"; "9"]
  then Raise (Exception "DistributedPipeline requires PyTorch version 1.9 or higher")
  else Ok ().

(** [next(i for i, (p, m) in enumerate(partitions) if p[0] == user)],
    counting from [i]. *)
Fixpoint find_partition (i : nat) (partitions : list (list nat * RRef)) (user : nat) : res nat :=
  match partitions with
  | [] => Raise StopIteration
  | pm :: rest =>
      p0 ← py_get pm.1 0;
      if decide (p0 = user) then Ok i else find_partition (S i) rest user
  end.

(** The arguments of one [rpc.remote(m.owner(), PartitionHandler, args=...)]. *)
Record HandlerRef : Type := mkHandlerRef {
  hr_owner : string;
  hr_module : RRef;
  hr_device : string;
  hr_num_input : Z;
  hr_num_output : option Z;
  hr_rank : nat;
  hr_chunks : Z;
  hr_checkpoint_stop : Z
}.

Definition MOVING_DENIED : exc :=
  TypeError "denied to move parameters and buffers, because DistributedPipeline should manage device placement".

(** What a caller can pass to [to]. *)
Inductive PyArg : Type :=
  | ArgDevice (d : TorchDevice)
  | ArgInt (n : Z)
  | ArgBool (b : bool)
  | ArgStr (s : string)
  | ArgTensor (t : Tensor)
  | ArgDtype (name : string)
  | ArgNone.

(** [isinstance(a, (torch.device, int, str))]; a [bool] is an [int]. *)
Definition is_device_int_str (a : PyArg) : bool :=
  match a with
  | ArgDevice _ | ArgInt _ | ArgBool _ | ArgStr _ => true
  | _ => false
  end.

Definition is_tensor (a : PyArg) : bool :=
  match a with
  | ArgTensor _ => true
  | _ => false
  end.

(** The calls [forward] makes on the handlers and on the records, and
    the reference [r_handler.run_pipeline(record)] returns.  [Feed] is the
    call of [feed] on a record, through [rpc_async] or, for a record of the
    caller's own worker, on [local_value()]. *)
Inductive Call : Type :=
  | MakeRecord (part_idx : nat) (users : list (option RecordRef * Z * Z))
  | RunPipeline (part_idx : nat) (record : RecordRef)
  | Feed (record : RecordRef) (chunk : Z) (input_idx : Z) (v : Tensor).

Inductive ResultRef : Type := RunPipelineResult (part_idx : nat) (record : RecordRef).

(** [zip( *ls)]: the columns of [ls], as many as its shortest row has. *)
Fixpoint zip_star {A} (ls : list (list A)) : list (list A) :=
  match ls with
  | [] => []
  | [l] => (fun a => [a]) <$> l
  | l :: ls' => zip_with cons l (zip_star ls')
  end.

(** [range(a, b)]. *)
Definition py_range (a b : Z) : list Z :=
  (fun k => (a + Z.of_nat k)%Z) <$> seq 0 (Z.to_nat (b - a)).

Module DistributedPipeline.

Record t : Type := mk {
  chunks : Z;
  partitions : list (list nat * RRef);
  input_feeds : list (nat * nat * Z);
  partition_handlers : list HandlerRef;
  graph : PipelineModulesGraph
}.

Definition checkpoint_stop_of (chunks : Z) (checkpoint : string) : res Z :=
  match ({[ "always" := chunks; "except_last" := (chunks - 1)%Z; "never" := 0%Z ]} : gmap string Z) !! checkpoint with
  | Some v => Ok v
  | None => Raise KeyError
  end.

Definition handler_args (h : Heap) (g : PipelineModulesGraph) (chunks checkpoint_stop : Z)
    (i : nat) (pm : list nat * RRef) : res HandlerRef :=
  let '(p, m) := pm in
  p0 ← py_get p 0;
  m0 ← py_get (modules_list g) p0;
  dev ← get_device (h m0);
  plast ← py_index p (-1);
  mlast ← py_get (modules_list g) plast;
  Ok (mkHandlerRef (owner m) m dev (num_inputs (h m0)) (num_outputs (h mlast)) i chunks checkpoint_stop).

(** The list comprehension that creates the handlers, with the handlers
    created before it stopped. *)
Fixpoint create_handlers (h : Heap) (g : PipelineModulesGraph) (chunks checkpoint_stop : Z)
    (i : nat) (partitions : list (list nat * RRef)) (created : list HandlerRef)
    : list HandlerRef * res (list HandlerRef) :=
  match partitions with
  | [] => (created, Ok created)
  | pm :: rest =>
      match handler_args h g chunks checkpoint_stop i pm with
      | Ok hr => create_handlers h g chunks checkpoint_stop (S i) rest (created ++ [hr])
      | Raise e => (created, Raise e)
      | Hang => (created, Hang)
      end
  end.

Definition find_input_feeds (g : PipelineModulesGraph) (partitions : list (list nat * RRef))
    : res (list (nat * nat * Z)) :=
  py_map (fun u : nat * nat * Z => i ← find_partition 0 partitions u.1.1; Ok (i, u.1.2, u.2))
         (model_input_users g).

(** Everything [__init__] does before it creates the first handler. *)
Definition prepare (torch_version : string) (h : Heap) (graph : PipelineModulesGraph)
    (chunks : Z) (checkpoint : string)
    : res (PipelineModulesGraph * list (list nat * RRef) * list (nat * nat * Z) * Z) :=
  _ ← check_pytorch_version torch_version;
  _ ← validate_graph graph;
  if decide (chunks ≤ 0)%Z then Raise (ValueError "number of chunks must be positive integer") else
  if decide (checkpoint ∉ ["always"; "except_last"; "never"])
  then Raise (ValueError "checkpoint is not one of 'always', 'except_last', or 'never'") else
  gp ← _split_module h graph;
  input_feeds ← find_input_feeds gp.1 gp.2;
  checkpoint_stop ← checkpoint_stop_of chunks checkpoint;
  Ok (gp.1, gp.2, input_feeds, checkpoint_stop).

(** [__init__]: the handlers it has created, and the pipeline or the
    exception. *)
Definition __init__ (torch_version : string) (h : Heap) (graph : PipelineModulesGraph)
    (chunks : Z) (checkpoint : string) : list HandlerRef * res t :=
  match prepare torch_version h graph chunks checkpoint with
  | Ok (g, partitions, input_feeds, checkpoint_stop) =>
      let '(created, r) := create_handlers h g chunks checkpoint_stop 0 partitions [] in
      (created, handlers ← r; Ok (mk chunks partitions input_feeds handlers g))
  | Raise e => ([], Raise e)
  | Hang => ([], Hang)
  end.

(** [cuda], [cpu] and [to]: the outcome and the pipeline afterwards. *)
Definition cuda (self : t) (device : option PyArg) : res t * t := (Raise MOVING_DENIED, self).
Definition cpu (self : t) : res t * t := (Raise MOVING_DENIED, self).

Section torch.
(** [nn.Module.to], the method [to] defers to. *)
Variable nn_Module_to : t → list PyArg → gmap string PyArg → res t * t.
(** [microbatch.check] and [microbatch.scatter] (the values of the batches). *)
Variable check : Tensor → res unit.
Variable scatter : Tensor → Z → res (list Tensor).
(** [rpc.get_worker_info().name]: the worker [forward] is called on. *)
Variable worker_name : string.

Definition to (self : t) (args : list PyArg) (kwargs : gmap string PyArg) : res t * t :=
  if decide (is_Some (kwargs !! "device") ∨ is_Some (kwargs !! "tensor")) then (Raise MOVING_DENIED, self) else
  match args with
  | a0 :: _ =>
      if is_device_int_str a0 then (Raise MOVING_DENIED, self) else
      if is_tensor a0 then (Raise MOVING_DENIED, self) else
      nn_Module_to self args kwargs
  | [] => nn_Module_to self args kwargs
  end.

(** The consumers of partition [part_idx], resolved to the records built
    so far. *)
Definition resolve_user (self : t) (part_idx : nat) (pipeline_records : list (option RecordRef))
    (u : nat * nat * Z) : res (option RecordRef * Z * Z) :=
  let '(user, input_idx, output_idx) := u in
  user_partition ← find_partition 0 (partitions self) user;
  if decide (part_idx < user_partition) then
    rr ← py_get pipeline_records user_partition;
    Ok (rr, Z.of_nat input_idx, output_idx)
  else Raise AssertionError.

(** The record [make_pipeline_record(users)] builds on the handler that
    was created with the arguments [hr]. *)
Definition record_of (hr : HandlerRef) (users : list (option RecordRef * Z * Z))
    : DistributedPipelineRecord.t :=
  DistributedPipelineRecord.__init__ (torch_device (hr_device hr)) (Z.of_nat (hr_rank hr))
    (hr_chunks hr) (hr_num_input hr) users.

(** [pipeline_record.owner().name]: the record lives with its handler. *)
Definition record_owner (self : t) (r : RecordRef) : option string :=
  hr_owner <$> partition_handlers self !! (r : nat).

(** The state of [forward]: [pipeline_records], [result] (unbound at
    first) and the records that live on the caller's own worker, by the
    number of their partition, which [local_value()] reaches.  [forward] is
    read on its own: what the handlers do to these records meanwhile is
    left out; they and the feeds of other partitions write cells [forward]
    does not feed. *)
Definition ForwardState : Type :=
  list (option RecordRef) * option ResultRef * gmap nat DistributedPipelineRecord.t.

(** [pipeline_record.local_value()] waits for the record to exist. *)
Definition local_value (records : gmap nat DistributedPipelineRecord.t) (r : RecordRef)
    : res DistributedPipelineRecord.t :=
  match records !! (r : nat) with
  | Some record => Ok record
  | None => Hang
  end.

(** One turn of [for part_idx in reversed(range(num_partitions))].  The
    record of a handler on the caller's own worker is kept as
    [make_pipeline_record] builds it. *)
Definition launch (self : t) (part_idx : nat) : Act ForwardState Call unit :=
  st ⇐ act_get ;;
  let pipeline_records := st.1.1 in
  let num_partitions := length (partition_handlers self) in
  hr ⇐ act_lift (py_get (partition_handlers self) part_idx) ;;
  pm ⇐ act_lift (py_get (partitions self) part_idx) ;;
  last ⇐ act_lift (py_index pm.1 (-1)) ;;
  ou ⇐ act_lift (py_get (output_users (graph self)) last) ;;
  users ⇐ act_lift (py_map (resolve_user self part_idx pipeline_records) ou) ;;
  act_emit (MakeRecord part_idx users) ;;;
  recs ⇐ act_lift (py_store pipeline_records (Z.of_nat part_idx) (Some part_idx)) ;;
  act_emit (RunPipeline part_idx part_idx) ;;;
  act_put (recs,
           if decide (part_idx = num_partitions - 1)
           then Some (RunPipelineResult part_idx part_idx) else st.1.2,
           if decide (hr_owner hr = worker_name)
           then <[part_idx := record_of hr users]> st.2 else st.2).

(** One turn of [for fi, fj, feed_idx in self.input_feeds] for chunk [i],
    whose slices are [b].  On a record of the caller's worker [feed] runs at
    once and what it raises leaves [forward]; the [rpc_async] call to
    another worker returns a future nobody waits for. *)
Definition feed_one (self : t) (pipeline_records : list (option RecordRef)) (i : nat)
    (b : list Tensor) (f : nat * nat * Z) : Act ForwardState Call unit :=
  let '(fi, fj, feed_idx) := f in
  pipeline_record ⇐ act_lift (py_get pipeline_records fi) ;;
  match pipeline_record with
  | None => act_lift (Raise AssertionError)
  | Some r =>
      if decide (record_owner self r = Some worker_name) then
        st ⇐ act_get ;;
        record ⇐ act_lift (local_value st.2 r) ;;
        v ⇐ act_lift (py_index b feed_idx) ;;
        act_emit (Feed r (Z.of_nat i) (Z.of_nat fj) v) ;;;
        let '(phony, record') := DistributedPipelineRecord.feed record (Z.of_nat i) (Z.of_nat fj) v in
        act_put (st.1, <[(r : nat) := record']> st.2) ;;;
        _ ⇐ act_lift phony ;;
        act_ret ()
      else
        v ⇐ act_lift (py_index b feed_idx) ;;
        act_emit (Feed r (Z.of_nat i) (Z.of_nat fj) v)
  end.

(** The feeds of chunk [i]. *)
Definition feed_chunk (self : t) (pipeline_records : list (option RecordRef)) (i : nat) (b : list Tensor)
    : Act ForwardState Call unit :=
  act_for (input_feeds self) (feed_one self pipeline_records i b).

Definition forward_body (self : t) (inputs : list Tensor) : Act ForwardState Call ResultRef :=
  _ ⇐ act_lift (py_map check inputs) ;;
  batches_list ⇐ act_lift (py_map (fun input => scatter input (chunks self)) inputs) ;;
  let num_partitions := length (partition_handlers self) in
  act_put (replicate (num_partitions + 1) None, None, ∅) ;;;
  act_for (reverse (seq 0 num_partitions)) (launch self) ;;;
  st ⇐ act_get ;;
  act_for (imap (fun i b => (i, b)) (zip_star batches_list))
          (fun ib => feed_chunk self st.1.1 ib.1 ib.2) ;;;
  st ⇐ act_get ;;
  match st.1.2 with
  | Some result => act_ret result
  | None => act_lift (Raise (UnboundLocalError "result"))
  end.

(** [forward]: the outcome and the calls made, in order. *)
Definition forward (self : t) (inputs : list Tensor) : res ResultRef * list Call :=
  let '(r, _, calls) := forward_body self inputs ([], None, ∅) in (r, calls).

End torch.

End DistributedPipeline.

(** ** create_sequence_pipeline *)

(** [for li in range(index, next_index): layers[li].instantiate(remote_device)]. *)
Definition instantiate_range (h : Heap) (layers : list loc) (index next_index : Z)
    (remote_device : string) : res Heap :=
  foldl (fun acc li => h ← acc; l ← py_index layers li; instantiate h l remote_device)
        (Ok h) (py_range index next_index).

Fixpoint instantiate_layers (h : Heap) (layers : list loc) (index : Z)
    (pairs : list (Z * string)) : res Heap :=
  match pairs with
  | [] => Ok h
  | (num_layers, remote_device) :: rest =>
      let next_index := (index + num_layers)%Z in
      h' ← instantiate_range h layers index next_index remote_device;
      instantiate_layers h' layers next_index rest
  end.

(** The keyword arguments are those of [DistributedPipeline]: [chunks] and
    [checkpoint]. *)
Definition create_sequence_pipeline (torch_version : string) (h : Heap)
    (layers : list loc) (balance : list Z) (devices : list string)
    (chunks : Z) (checkpoint : string) : res (Heap * DistributedPipeline.t) :=
  h' ← instantiate_layers h layers 0 (zip balance devices);
  graph ← add_sequence new_graph layers None;
  l0 ← py_get layers 0;
  graph ← feed_model_input graph l0 0;
  p ← (DistributedPipeline.__init__ torch_version h' graph chunks checkpoint).2;
  Ok (h', p).


(** ** PipelineModule.__init__ *)

(** [PipelineModule(module_cls, args, kwargs, num_inputs, num_outputs,
    remote_device)], the new object being stored at [self].  The triple
    [(module_cls, args, kwargs or {})] is [module_args]. *)
Definition PipelineModule_init (h : Heap) (self : loc) (module_args : nat)
    (num_inputs : Z) (num_outputs : option Z) (remote_device : option string) : res Heap :=
  let h := heap_set h self (mkPipelineModule num_inputs num_outputs module_args None) in
  match remote_device with
  | Some remote_device => instantiate h self remote_device
  | None => Ok h
  end.

(** ** MultiInputSequential *)

Module MultiInputSequential.

Section forward.
(** The values the modules work on; a module is called with the list of
    its positional arguments. *)
Context {V : Type}.

Definition forward (modules_list : list (list V → res V)) (inputs : list V) : res V :=
  m0 ← py_get modules_list 0;
  input ← m0 inputs;
  foldl (fun acc module => input ← acc; module [input]) (Ok input) (drop 1 modules_list).

End forward.

End MultiInputSequential.

(** ** Predicates used by the statements *)

(** [u] is listed among the users of output [a]. *)
Definition user_of (ou : list (list (nat * nat * Z))) (a : nat) (u : nat * nat * Z) : Prop :=
  ∃ l, ou !! a = Some l ∧ u ∈ l.

(** Slot [j] of module [i] is wired to source [(p, s)]. *)
Definition wired (g : PipelineModulesGraph) (i j : nat) (p s : Z) : Prop :=
  ∃ l, inputs g !! i = Some (Some l) ∧ l !! j = Some (p, s).

(** What [compute_output_users] leaves on the graph: the user tables list
    exactly the wiring of [inputs]. *)
Record users_computed (g : PipelineModulesGraph) : Prop := mkUsersComputed {
  uc_length : length (output_users g) = length (modules_list g);
  uc_assigned : ∀ i, i < length (inputs g) → ∃ l, inputs g !! i = Some (Some l);
  uc_output : ∀ a u, user_of (output_users g) a u ↔ wired g u.1.1 u.1.2 (Z.of_nat a) u.2;
  uc_input : ∀ u, u ∈ model_input_users g ↔ ∃ p, wired g u.1.1 u.1.2 p u.2 ∧ (p < 0)%Z
}.

(** Both modules were instantiated on the same worker and device. *)
Definition same_place (h : Heap) (a b : loc) : Prop :=
  ∃ ra rb, remote (h a) = Some ra ∧ remote (h b) = Some rb ∧
           on ra = on rb ∧ device ra = device rb.

(** The test the loop makes before it moves from module [a] to module
    [b]: [a] has one user, [b], and no tuple output; the inputs of [b] are
    [[(a, 0)]]; both sit on the same worker and device. *)
Definition extends (h : Heap) (g : PipelineModulesGraph) (a b : nat) : Prop :=
  ∃ ma mb u,
    modules_list g !! a = Some ma ∧ modules_list g !! b = Some mb ∧
    output_users g !! a = Some [u] ∧ u.1.1 = b ∧
    num_outputs (h ma) = None ∧
    inputs g !! b = Some (Some [(Z.of_nat a, 0%Z)]) ∧
    same_place h mb ma.

Fixpoint chain (h : Heap) (g : PipelineModulesGraph) (l : list nat) : Prop :=
  match l with
  | a :: l' => match l' with b :: _ => extends h g a b | [] => True end ∧ chain h g l'
  | [] => True
  end.

(** The state of the outer loop before it looks at module [k]. *)
Record split_inv (h : Heap) (g : PipelineModulesGraph) (k : nat) (used : list bool) (parts : list (list nat * RRef)) : Prop := mkSplitInv {
  si_length : length used = length (modules_list g);
  si_used : ∀ i, used !! i = Some true ↔ i ∈ concat parts.*1;
  si_nodup : NoDup (concat parts.*1);
  si_chain : ∀ p, p ∈ parts.*1 → chain h g p;
  si_head : ∀ p, p ∈ parts.*1 → ∃ hd, head p = Some hd ∧ hd < k;
  si_done : ∀ i, i < k → i < length (modules_list g) → used !! i = Some true;
  si_remote : ∀ p r, (p, r) ∈ parts → remote_module_of h g p = Ok r
}.

(** The result is a value, or the [AttributeError] of reading an
    attribute of a module that was never instantiated. *)
Definition ok_or_uninstantiated {A} (h : Heap) (g : PipelineModulesGraph) (r : res A) : Prop :=
  (∃ a, r = Ok a) ∨
  (∃ attr m, r = Raise (AttributeError attr) ∧ m ∈ modules_list g ∧ remote (h m) = None).

(** Module [p] feeds module [i]. *)
Definition feeds (g : PipelineModulesGraph) (p i : nat) : Prop :=
  ∃ j s, wired g i j (Z.of_nat p) s.

Definition acyclic (g : PipelineModulesGraph) : Prop :=
  ∀ i, ¬ tc (feeds g) i i.

(** Every module has its input list assigned. *)
Definition fully_wired (g : PipelineModulesGraph) : Prop :=
  length (inputs g) = length (modules_list g) ∧
  ∀ i, i < length (inputs g) → ∃ l, inputs g !! i = Some (Some l).

(** The condition [validate_graph] is meant to check: every input comes
    from the model input or from a module with a smaller index. *)
Definition index_ordered (g : PipelineModulesGraph) : Prop :=
  ∀ i j p s, wired g i j p s → (p < Z.of_nat i)%Z.

Definition all_instantiated (h : Heap) (g : PipelineModulesGraph) : Prop :=
  ∀ m, m ∈ modules_list g → is_Some (remote (h m)).

(** The extension rule between consecutive members [a], [b] of a
    partition, read on the wiring of the graph: [a] has a single, non-tuple
    output whose one consumer is slot 0 of [b], the only input source of [b]
    is output 0 of [a], and both are on the same worker and device. *)
Definition extension_rule (h : Heap) (g : PipelineModulesGraph) (a b : nat) : Prop :=
  ∃ ma mb,
    modules_list g !! a = Some ma ∧ modules_list g !! b = Some mb ∧
    num_outputs (h ma) = None ∧
    (∀ i j s, wired g i j (Z.of_nat a) s ↔ i = b ∧ j = 0 ∧ s = 0%Z) ∧
    inputs g !! b = Some (Some [(Z.of_nat a, 0%Z)]) ∧
    same_place h ma mb.

Fixpoint count_unused (used : list bool) : nat :=
  match used with
  | [] => 0
  | b :: used' => (if b then 0 else 1) + count_unused used'
  end.

(** ** Example graphs *)

Definition fresh_module : PipelineModule := mkPipelineModule 1 None 0 None.
Definition placed (o d : string) : PipelineModule :=
  mkPipelineModule 1 None 0 (Some (mkRemote o d (CreateModuleRef o 0 d))).

Definition heap0 : Heap := fun _ => placed "w0" "cpu".

Definition build (ops : list (PipelineModulesGraph → res PipelineModulesGraph)) : res PipelineModulesGraph :=
  foldl (fun acc op => g ← acc; op g) (Ok new_graph) ops.

Definition chain3 : PipelineModulesGraph :=
  mkGraph [0; 1; 2] [Some [((-1)%Z, 0%Z)]; Some [(0%Z, 0%Z)]; Some [(1%Z, 0%Z)]] [] [].

(** Module 1 takes the model input and feeds module 0. *)
Definition backwards2 : PipelineModulesGraph :=
  mkGraph [0; 1] [Some [(1%Z, 0%Z)]; Some [((-1)%Z, 0%Z)]] [] [].

(** ** Predicates on records and pipelines *)

(** The tensor in slot [input_idx] of chunk [chunk], if the slot exists. *)
Definition slot (self : DistributedPipelineRecord.t) (chunk input_idx : Z) : res (option Tensor) :=
  row ← py_index (DistributedPipelineRecord.tensors self) chunk;
  py_index row input_idx.

(** [recv_events] has a cell for every cell of [tensors], as [__init__]
    allocates them. *)
Definition same_shape (self : DistributedPipelineRecord.t) : Prop :=
  Forall2 (fun (a : list (option Tensor)) (b : list (option CudaEvent)) => length a = length b)
          (DistributedPipelineRecord.tensors self) (DistributedPipelineRecord.recv_events self).

(** What [feed] stores for [input] in a record on [device]. *)
Definition delivered (device : TorchDevice) (input : Tensor) : Tensor :=
  if decide (dev_type (t_device input) = "cpu") then tensor_to input device else input.

(** Every chunk of [forwarded_phony] has [n] token lists. *)
Definition phony_rows (self : DistributedPipelineRecord.t) (n : nat) : Prop :=
  Forall (fun row : list (list PhonyRRef) => length row = n)
         (DistributedPipelineRecord.forwarded_phony self).

(** A checkpointed [Task] pairs the checkpoint step with its recompute step;
    a direct one runs the module in its compute step. *)
Definition checkpointed (t : Task) : Prop :=
  t = mkTask chk_checkpoint (Some chk_recompute).
Definition direct (t : Task) : Prop :=
  t = mkTask direct_compute None.

Definition not_ValueError (e : exc) : Prop :=
  match e with ValueError _ => False | _ => True end.

(** [r] raises nothing outside [P]. *)
Definition raises_only {A} (P : exc → Prop) (r : res A) : Prop :=
  ∀ e, r = Raise e → P e.

(** Partition [part_idx] receives a model input directly. *)
Definition entry_partition (p : DistributedPipeline.t) (part_idx : nat) : Prop :=
  ∃ fj feed_idx, (part_idx, fj, feed_idx) ∈ DistributedPipeline.input_feeds p.

Definition valid_checkpoint (checkpoint : string) : Prop :=
  checkpoint ∈ ["always"; "except_last"; "never"].

(** The graphs the builder methods produce, starting from an empty
    graph. *)
Inductive built : PipelineModulesGraph → Prop :=
  | built_new : built new_graph
  | built_add_sequence g modules first_input g' :
      built g → add_sequence g modules first_input = Ok g' → built g'
  | built_feed_model_input g module ind g' :
      built g → feed_model_input g module ind = Ok g' → built g'
  | built_add_multi_input_layer g module ins g' :
      built g → add_multi_input_layer g module ins = Ok g' → built g'
  | built_fan_out g module outputs g' :
      built g → fan_out g module outputs = Ok g' → built g'
  | built_replicate_output g module outputs g' :
      built g → replicate_output g module outputs = Ok g' → built g'
  | built_compute_output_users g g' :
      built g → compute_output_users g = Ok g' → built g'.

(** [inputs] has one entry per module. *)
Definition balanced (g : PipelineModulesGraph) : Prop :=
  length (inputs g) = length (modules_list g).

(** ** Example pipeline: two entry partitions *)

(** Modules 0 and 1 take model inputs 0 and 1; module 2 takes both. *)
Definition two_inputs : PipelineModulesGraph :=
  mkGraph [0; 1; 2]
    [Some [((-1)%Z, 0%Z)]; Some [((-1)%Z, 1%Z)]; Some [(0%Z, 0%Z); (1%Z, 0%Z)]] [] [].

Definition cpu_device : TorchDevice := mkDevice "cpu" None.
Definition input_tensor (n : nat) : Tensor := mkTensor cpu_device n [].

(** Every remote [feed] is taken to have returned its token. *)
Definition to_here_ok (r : PhonyRRef) : res Phony :=
  match r with FeedRef _ _ _ v => Ok (PhonyOf (t_data v)) end.

(** The handler of partition 1 of [two_inputs] with two chunks, around a
    module that hands its input back, and its record as [forward] makes it:
    the only user is slot 1 of the record of partition 2. *)
Definition handler1 : PartitionHandler.t :=
  PartitionHandler.__init__ true (fun ts => Ok ts) "cpu" 1 None 1 2 0.
Definition record1 : DistributedPipelineRecord.t :=
  PartitionHandler.make_pipeline_record handler1 [(Some 2, 1%Z, 0%Z)].
(** Both chunks of model input 1 delivered. *)
Definition record1_fed : DistributedPipelineRecord.t :=
  (DistributedPipelineRecord.feed
     (DistributedPipelineRecord.feed record1 0 0 (input_tensor 10)).2
     1 0 (input_tensor 11)).2.
(** Chunk 0 processed and chunk 1 assembled: the state [fence] finds for
    chunk 1. *)
Definition record1_before_fence : DistributedPipelineRecord.t :=
  (act_bind (DistributedPipelineRecord.wait_for 0) (fun _ =>
   act_bind (PartitionHandler.fence to_here_ok handler1 0) (fun _ =>
   act_bind (PartitionHandler.compute handler1 0) (fun _ =>
   act_bind (PartitionHandler.forward_results handler1 0) (fun _ =>
   DistributedPipelineRecord.wait_for 1)))) record1_fed).1.2.

(** The pipeline [__init__] builds for [two_inputs], with two chunks and
    no checkpointing. *)
Definition pipeline2 : DistributedPipeline.t :=
  Eval vm_compute in
    match (DistributedPipeline.__init__ "1.9.0" heap0 two_inputs 2 "never").2 with
    | Ok p => p
    | _ => DistributedPipeline.mk 0 [] [] [] new_graph
    end.

(** ** Predicates for create_sequence_pipeline *)

(** [sum(balance)]. *)
Definition sum_Z (l : list Z) : Z := foldr Z.add 0%Z l.

(** No module of [layers] has been given a remote device. *)
Definition fresh_layers (h : Heap) (layers : list loc) : Prop :=
  ∀ l, l ∈ layers → remote (h l) = None.

Definition fresh_heap : Heap := fun _ => fresh_module.

(** The terminal partition of [two_inputs]: two input slots, no user. *)
Definition handler2 : PartitionHandler.t :=
  PartitionHandler.__init__ true (fun ts => Ok (take 1 ts)) "cpu" 2 None 2 2 0.
Definition record2_fed : DistributedPipelineRecord.t :=
  let r0 := PartitionHandler.make_pipeline_record handler2 [] in
  let r1 := (DistributedPipelineRecord.feed r0 0 0 (input_tensor 10)).2 in
  let r2 := (DistributedPipelineRecord.feed r1 0 1 (input_tensor 20)).2 in
  let r3 := (DistributedPipelineRecord.feed r2 1 0 (input_tensor 11)).2 in
  (DistributedPipelineRecord.feed r3 1 1 (input_tensor 21)).2.

(** A stand-in for [microbatch.gather]: one tensor for all the chunks. *)
Definition gather_one (bs : list (option Batch)) : res (list Tensor) :=
  match all_some bs with
  | Some l => Ok [mkTensor cpu_device (sum_list ((fun b => default 0 (t_data <$> head (value b))) <$> l)) []]
  | None => Raise (AttributeError "atomic")
  end.

(** A record of two chunks with two input slots each, and a tensor to
    feed it. *)
Definition tensor7 : Tensor := mkTensor cpu_device 7 [].
Definition record22 : DistributedPipelineRecord.t :=
  DistributedPipelineRecord.__init__ cpu_device 0 2 2 [].

(** ** Predicates on methods *)

(** A method that leaves the users of the record as they were. *)
Definition keeps_users {A} (m : Act DistributedPipelineRecord.t Event A) : Prop :=
  ∀ s a s' evs, m s = (Ok a, s', evs) →
    DistributedPipelineRecord.users s' = DistributedPipelineRecord.users s.

(** The call returns or raises. *)
Definition halts {A} (r : res A) : Prop := r ≠ Hang.


(** ** Further predicates *)

(** The number of occurrences of [c] in [s]. *)
Fixpoint count_char (c : Ascii.ascii) (s : string) : nat :=
  match s with
  | EmptyString => 0
  | String x s' => (if Ascii.eqb x c then 1 else 0) + count_char c s'
  end.

Definition too_old : exc := Exception "DistributedPipeline requires PyTorch version 1.9 or higher".

(** Every source of an input list is the model input, written [-1], or a
    module of the graph. *)
Definition sources_in_range (g : PipelineModulesGraph) : Prop :=
  ∀ i j p s, wired g i j p s → (p = -1 ∨ 0 ≤ p < Z.of_nat (length (modules_list g)))%Z.

(** The tasks a trace has put on the queue, with their chunks, in order. *)
Definition submitted (evs : list Event) : list (Z * Task) :=
  omap (fun e => match e with Submit c t => Some (c, t) | _ => None end) evs.

(** [s'] is [s] except for the batch of chunk [i] and the forwarded
    tokens. *)
Definition same_but_batch (i : nat) (s s' : DistributedPipelineRecord.t) : Prop :=
  DistributedPipelineRecord.tensors s' = DistributedPipelineRecord.tensors s ∧
  length (DistributedPipelineRecord.batches s') = length (DistributedPipelineRecord.batches s) ∧
  ∀ c, c ≠ i → DistributedPipelineRecord.batches s' !! c = DistributedPipelineRecord.batches s !! c.

(** A method that submits no task, however it ends. *)
Definition no_submit {St A} (m : Act St Event A) : Prop :=
  ∀ s, submitted (m s).2 = [].

(** The first module of every partition lies below [k]. *)
Definition heads_below (k : nat) (parts : list (list nat * RRef)) : Prop :=
  ∀ p, p ∈ parts.*1 → ∃ hd, head p = Some hd ∧ hd < k.

(** Later partitions start at later modules. *)
Definition heads_increase (parts : list (list nat * RRef)) : Prop :=
  ∀ k1 k2 p1 p2 a b,
    parts.*1 !! k1 = Some p1 → parts.*1 !! k2 = Some p2 → k1 < k2 →
    head p1 = Some a → head p2 = Some b → a < b.

(** The state of a record after chunk 0 has been computed. *)
Definition record1_computed : DistributedPipelineRecord.t :=
  (act_bind (DistributedPipelineRecord.wait_for 0) (fun _ =>
   act_bind (PartitionHandler.fence to_here_ok handler1 0) (fun _ =>
   PartitionHandler.compute handler1 0)) record1_fed).1.2.

(** A list of module indices in strictly increasing order. *)
Definition increasing (p : list nat) : Prop :=
  ∀ i j a b, p !! i = Some a → p !! j = Some b → i < j → a < b.

(** The two calls that start partition [k], and the feed of one model
    input to one consumer. *)
Definition launch_calls (k : nat) (cs : list Call) : Prop :=
  ∃ users, cs = [MakeRecord k users; RunPipeline k k].

Definition feed_call (i : nat) (b : list Tensor) (f : nat * nat * Z) (c : Call) : Prop :=
  ∃ v, py_index b f.2 = Ok v ∧ c = Feed f.1.1 (Z.of_nat i) (Z.of_nat f.1.2) v.

(** Module [l] has been instantiated with the remote device [dev]. *)
Definition placed_on (h : Heap) (l : loc) (dev : string) : Prop :=
  ∃ r, remote (h l) = Some r ∧ dev = on r +:+ String "/" (device r).

(** One turn of the loop of [run], and the tasks [n] turns from chunk [i]
    on are to submit. *)
Definition run_turn (to_here : PhonyRRef → res Phony) (self : PartitionHandler.t) (i : nat)
    : Act DistributedPipelineRecord.t Event unit :=
  act_bind (DistributedPipelineRecord.wait_for (Z.of_nat i)) (fun _ =>
  act_bind (PartitionHandler.fence to_here self (Z.of_nat i)) (fun _ =>
  act_bind (PartitionHandler.compute self (Z.of_nat i)) (fun _ =>
  PartitionHandler.forward_results self (Z.of_nat i)))).

Definition expected_tasks (self : PartitionHandler.t) (i n : nat) : list (Z * Task) :=
  (fun k => (Z.of_nat k, PartitionHandler.make_task self (Z.of_nat k))) <$> seq i n.

(** [num_partitions] of [forward]. *)
Definition num_partitions (self : DistributedPipeline.t) : nat :=
  length (DistributedPipeline.partition_handlers self).

(** ** The records on the caller's worker *)

(** The module, or the partition, and the input slot a user or a feed
    names. *)
Definition slot_of (u : nat * nat * Z) : nat * nat := (u.1.1, u.1.2).

(** The cell of chunk [c] and slot [j] of the tensor table, if the record
    has it. *)
Definition cell (r : DistributedPipelineRecord.t) (c j : nat) : option (option Tensor) :=
  DistributedPipelineRecord.tensors r !! c ≫= fun row => row !! j.

(** A record of [nr] chunks with [nc] slots each. *)
Definition shaped (nr nc : nat) (r : DistributedPipelineRecord.t) : Prop :=
  same_shape r ∧ length (DistributedPipelineRecord.tensors r) = nr ∧
  Forall (fun row => length row = nc) (DistributedPipelineRecord.tensors r).

(** The records [forward] has created on [worker] for the partitions of
    [l], each as [make_pipeline_record] leaves it. *)
Definition fresh_records (worker : string) (self : DistributedPipeline.t) (l : list nat)
    (records : gmap nat DistributedPipelineRecord.t) : Prop :=
  (∀ (k : nat) hr, k ∈ l → DistributedPipeline.partition_handlers self !! k = Some hr →
     hr_owner hr = worker → is_Some (records !! k)) ∧
  (∀ (k : nat) r, records !! k = Some r →
     ∃ hr users, DistributedPipeline.partition_handlers self !! k = Some hr ∧
       r = DistributedPipeline.record_of hr users).

(** Every handler on [worker] has its record in [records], and every
    record there has the chunks and the slots of its handler. *)
Definition local_records (worker : string) (self : DistributedPipeline.t)
    (records : gmap nat DistributedPipelineRecord.t) : Prop :=
  (∀ (k : nat) hr, DistributedPipeline.partition_handlers self !! k = Some hr →
     hr_owner hr = worker → is_Some (records !! k)) ∧
  (∀ (k : nat) r, records !! k = Some r →
     ∃ hr, DistributedPipeline.partition_handlers self !! k = Some hr ∧
       shaped (Z.to_nat (hr_chunks hr)) (Z.to_nat (hr_num_input hr)) r).

(** The cells that hold a tensor are those of the chunks before [i], and
    cells of chunk [i] that no feed of [rest] goes to. *)
Definition fed_before (i : nat) (rest : list (nat * nat * Z))
    (records : gmap nat DistributedPipelineRecord.t) : Prop :=
  ∀ (k : nat) r c j t, records !! k = Some r → cell r c j = Some (Some t) →
    c < i ∨ (c = i ∧ (k, j) ∉ slot_of <$> rest).

(** The feed [f] of chunk [i] goes to another worker, or to a cell its
    record has. *)
Definition feed_fits (worker : string) (self : DistributedPipeline.t) (i : nat)
    (f : nat * nat * Z) : Prop :=
  ∀ hr, DistributedPipeline.partition_handlers self !! f.1.1 = Some hr →
    hr_owner hr = worker →
    (Z.of_nat f.1.2 < hr_num_input hr)%Z ∧ (Z.of_nat i < hr_chunks hr)%Z.

(** Every feed of [cols] chunks that [forward] makes on a record of
    [worker] goes to a cell the record has. *)
Definition local_feeds_fit (worker : string) (self : DistributedPipeline.t) (cols : nat) : Prop :=
  ∀ i f, i < cols → f ∈ DistributedPipeline.input_feeds self → feed_fits worker self i f.

(** The chunks are numbered from [i0] on. *)
Definition numbered_from {A} (i0 : nat) (cols : list (nat * A)) : Prop :=
  ∀ k ib, cols !! k = Some ib → ib.1 = i0 + k.

(** A module on worker [w0] that declares no input, and the graph that
    feeds it model input 0 all the same. *)
Definition heap_no_input : Heap :=
  fun _ => mkPipelineModule 0 None 0 (Some (mkRemote "w0" "cpu" (CreateModuleRef "w0" 0 "cpu"))).
Definition one_module : PipelineModulesGraph := mkGraph [0] [Some [((-1)%Z, 0%Z)]] [] [].

(** * Properties *)

(** ** The outcome monad *)

Lemma bind_Ok {A B} (m : res A) (f : A → res B) (b : B) :
  (m ≫= f) = Ok b ↔ ∃ a, m = Ok a ∧ f a = Ok b.
Proof.
  destruct m as [a|e|]; simpl; split.
  - intros H. by exists a.
  - by intros (a' & [= ->] & H).
  - discriminate.
  - by intros (a' & [=] & _).
  - discriminate.
  - by intros (a' & [=] & _).
Qed.

Lemma bind_Raise {A B} (m : res A) (f : A → res B) (e : exc) :
  (m ≫= f) = Raise e ↔ m = Raise e ∨ ∃ a, m = Ok a ∧ f a = Raise e.
Proof.
  destruct m as [a|e'|]; simpl; split.
  - intros H. right. by exists a.
  - intros [[=]|(a' & [= ->] & H)]. done.
  - intros [= ->]. by left.
  - intros [[= ->]|(a' & [=] & _)]. done.
  - discriminate.
  - intros [[=]|(a' & [=] & _)].
Qed.

Lemma bind_Hang {A B} (m : res A) (f : A → res B) :
  (m ≫= f) = Hang ↔ m = Hang ∨ ∃ a, m = Ok a ∧ f a = Hang.
Proof.
  destruct m as [a|e'|]; simpl; split.
  - intros H. right. by exists a.
  - intros [[=]|(a' & [= ->] & H)]. done.
  - discriminate.
  - intros [[=]|(a' & [=] & _)].
  - by left.
  - done.
Qed.

Lemma for_enumerate_cons {A St} (f : nat → A → St → res St) i a l s :
  for_enumerate f i (a :: l) s = (f i a s ≫= for_enumerate f (S i) l).
Proof. reflexivity. Qed.

Lemma py_get_Ok {A} (l : list A) (i : nat) (a : A) :
  py_get l i = Ok a ↔ l !! i = Some a.
Proof. unfold py_get. destruct (l !! i); split; congruence. Qed.

Lemma py_get_lt {A} (l : list A) (i : nat) :
  i < length l → ∃ a, py_get l i = Ok a ∧ l !! i = Some a.
Proof.
  intros Hi. destruct (lookup_lt_is_Some_2 l i Hi) as [a Ha].
  exists a. by rewrite py_get_Ok.
Qed.

Lemma py_get_not_Hang {A} (l : list A) (i : nat) : py_get l i ≠ Hang.
Proof. unfold py_get. by destruct (l !! i). Qed.

(** ** compute_output_users *)

Lemma record_user_Ok i j p s ou miu ou' miu' :
  record_user i j (p, s) (ou, miu) = Ok (ou', miu') →
  length ou' = length ou ∧
  (∀ a u, user_of ou' a u ↔ user_of ou a u ∨ (p = Z.of_nat a ∧ u = (i, j, s))) ∧
  (∀ u, u ∈ miu' ↔ u ∈ miu ∨ ((p < 0)%Z ∧ u = (i, j, s))).
Proof.
  unfold record_user; simpl. case_decide as Hp.
  - destruct (ou !! Z.to_nat p) as [l|] eqn:El; [|discriminate].
    intros [= <- <-]. split; [by rewrite length_insert|]. split.
    + intros a u. unfold user_of. destruct (decide (a = Z.to_nat p)) as [->|Hne].
      * rewrite list_lookup_insert_eq by (by eapply lookup_lt_Some). split.
        -- intros (l' & [= <-] & Hu). apply elem_of_app in Hu as [Hu|Hu].
           ++ left. eauto.
           ++ right. apply list_elem_of_singleton in Hu. split; [lia|done].
        -- intros [(l' & Hl' & Hu)|[_ ->]].
           ++ exists (l ++ [(i, j, s)]). split; [done|]. apply elem_of_app. left. congruence.
           ++ exists (l ++ [(i, j, s)]). split; [done|]. apply elem_of_app. right. by apply list_elem_of_singleton.
      * rewrite list_lookup_insert_ne by done. split; [tauto|].
        intros [H|[-> _]]; [done|]. exfalso. apply Hne. lia.
    + intros u. split; [tauto|]. intros [H|[Hlt _]]; [done|lia].
  - intros [= <- <-]. split; [done|]. split.
    + intros a u. split; [tauto|]. intros [H|[-> _]]; [done|lia].
    + intros u. rewrite elem_of_app, list_elem_of_singleton. split.
      * intros [H| ->]; [by left|]. right. split; [lia|done].
      * intros [H|[_ ->]]; [by left|by right].
Qed.

Lemma record_user_loop i items : ∀ j0 ou miu ou' miu',
  for_enumerate (record_user i) j0 items (ou, miu) = Ok (ou', miu') →
  length ou' = length ou ∧
  (∀ a u, user_of ou' a u ↔
     user_of ou a u ∨ ∃ k s, items !! k = Some (Z.of_nat a, s) ∧ u = (i, j0 + k, s)) ∧
  (∀ u, u ∈ miu' ↔
     u ∈ miu ∨ ∃ k p s, items !! k = Some (p, s) ∧ (p < 0)%Z ∧ u = (i, j0 + k, s)).
Proof.
  induction items as [|[p s] items IH]; intros j0 ou miu ou' miu' H; simpl in H.
  - injection H as <- <-. split; [done|]. split.
    + intros a u. split; [tauto|]. intros [?|(k & s & Hk & _)]; [done|]. by rewrite lookup_nil in Hk.
    + intros u. split; [tauto|]. intros [?|(k & p & s & Hk & _)]; [done|]. by rewrite lookup_nil in Hk.
  - apply bind_Ok in H as ([ou1 miu1] & H1 & H).
    apply record_user_Ok in H1 as (Hlen1 & Hou1 & Hmiu1).
    apply IH in H as (Hlen & Hou & Hmiu).
    split; [congruence|]. split.
    + intros a u. rewrite Hou, Hou1. split.
      * intros [[H|[-> ->]]|(k & s' & Hk & ->)].
        -- by left.
        -- right. exists 0, s. split; [done|]. f_equal. f_equal. lia.
        -- right. exists (S k), s'. split; [done|]. f_equal. f_equal. lia.
      * intros [H|(k & s' & Hk & ->)]; [by left; left|].
        destruct k as [|k]; simpl in Hk.
        -- injection Hk as -> ->. left. right. split; [done|]. f_equal. f_equal. lia.
        -- right. exists k, s'. split; [done|]. f_equal. f_equal. lia.
    + intros u. rewrite Hmiu, Hmiu1. split.
      * intros [[H|[Hp ->]]|(k & p' & s' & Hk & Hp & ->)].
        -- by left.
        -- right. exists 0, p, s. split; [done|]. split; [done|]. f_equal. f_equal. lia.
        -- right. exists (S k), p', s'. split; [done|]. split; [done|]. f_equal. f_equal. lia.
      * intros [H|(k & p' & s' & Hk & Hp & ->)]; [by left; left|].
        destruct k as [|k]; simpl in Hk.
        -- injection Hk as -> ->. left. right. split; [done|]. f_equal. f_equal. lia.
        -- right. exists k, p', s'. split; [done|]. split; [done|]. f_equal. f_equal. lia.
Qed.

Lemma record_users_loop ins : ∀ i0 ou miu ou' miu',
  for_enumerate record_users i0 ins (ou, miu) = Ok (ou', miu') →
  length ou' = length ou ∧
  (∀ k, k < length ins → ∃ l, ins !! k = Some (Some l)) ∧
  (∀ a u, user_of ou' a u ↔
     user_of ou a u ∨ ∃ k l j s, ins !! k = Some (Some l) ∧ l !! j = Some (Z.of_nat a, s) ∧ u = (i0 + k, j, s)) ∧
  (∀ u, u ∈ miu' ↔
     u ∈ miu ∨ ∃ k l j p s, ins !! k = Some (Some l) ∧ l !! j = Some (p, s) ∧ (p < 0)%Z ∧ u = (i0 + k, j, s)).
Proof.
  induction ins as [|input ins IH]; intros i0 ou miu ou' miu' H; simpl in H.
  - injection H as <- <-. split; [done|]. split; [simpl; lia|]. split.
    + intros a u. split; [tauto|]. intros [?|(k & l & j & s & Hk & _)]; [done|]. by rewrite lookup_nil in Hk.
    + intros u. split; [tauto|]. intros [?|(k & l & j & p & s & Hk & _)]; [done|]. by rewrite lookup_nil in Hk.
  - apply bind_Ok in H as ([ou1 miu1] & H1 & H).
    destruct input as [items|]; [|discriminate]. simpl in H1.
    apply record_user_loop in H1 as (Hlen1 & Hou1 & Hmiu1).
    apply IH in H as (Hlen & Hall & Hou & Hmiu).
    split; [congruence|]. split; [|split].
    + intros [|k] Hk; simpl in *; [eauto|]. apply Hall. lia.
    + intros a u. rewrite Hou, Hou1. split.
      * intros [[H|(j & s & Hj & ->)]|(k & l & j & s & Hk & Hj & ->)].
        -- by left.
        -- right. exists 0, items, j, s. split; [done|]. split; [done|]. f_equal. f_equal. lia.
        -- right. exists (S k), l, j, s. split; [done|]. split; [done|]. f_equal. f_equal. lia.
      * intros [H|(k & l & j & s & Hk & Hj & ->)]; [by left; left|].
        destruct k as [|k]; simpl in Hk.
        -- injection Hk as ->. left. right. exists j, s. split; [done|]. f_equal. f_equal. lia.
        -- right. exists k, l, j, s. split; [done|]. split; [done|]. f_equal. f_equal. lia.
    + intros u. rewrite Hmiu, Hmiu1. split.
      * intros [[H|(j & p & s & Hj & Hp & ->)]|(k & l & j & p & s & Hk & Hj & Hp & ->)].
        -- by left.
        -- right. exists 0, items, j, p, s. repeat (split; [done|]). f_equal. f_equal. lia.
        -- right. exists (S k), l, j, p, s. repeat (split; [done|]). f_equal. f_equal. lia.
      * intros [H|(k & l & j & p & s & Hk & Hj & Hp & ->)]; [by left; left|].
        destruct k as [|k]; simpl in Hk.
        -- injection Hk as ->. left. right. exists j, p, s. repeat (split; [done|]). f_equal. f_equal. lia.
        -- right. exists k, l, j, p, s. repeat (split; [done|]). f_equal. f_equal. lia.
Qed.

Lemma compute_output_users_Ok g g' :
  compute_output_users g = Ok g' →
  modules_list g' = modules_list g ∧ inputs g' = inputs g ∧ users_computed g'.
Proof.
  unfold compute_output_users. intros H.
  apply bind_Ok in H as ([ou miu] & H & [= <-]).
  apply record_users_loop in H as (Hlen & Hall & Hou & Hmiu).
  split; [done|]. split; [done|]. split; simpl.
  - by rewrite Hlen, length_replicate.
  - done.
  - intros a [[i j] s]. rewrite Hou. unfold wired; simpl. split.
    + intros [(l & Hl & Hu)|(k & l & j' & s' & Hk & Hj & [= -> -> ->])].
      * apply lookup_replicate in Hl as [-> _]. by apply elem_of_nil in Hu.
      * eauto.
    + intros (l & Hl & Hj). right. exists i, l, j, s. done.
  - intros [[i j] s]. rewrite Hmiu. unfold wired; simpl. split.
    + intros [Hu|(k & l & j' & p & s' & Hk & Hj & Hp & [= -> -> ->])].
      * by apply elem_of_nil in Hu.
      * eauto.
    + intros (p & (l & Hl & Hj) & Hp). right. exists i, l, j, p, s. done.
Qed.

(** ** The partitions of _split_module *)

Section partitions.
Variable h : Heap.
Variable g : PipelineModulesGraph.

Lemma chain_lookup l : ∀ k a b,
  chain h g l → l !! k = Some a → l !! S k = Some b → extends h g a b.
Proof.
  induction l as [|x l IH]; intros k a b Hc Ha Hb; [by rewrite lookup_nil in Ha|].
  destruct Hc as [Hx Hc]. destruct k as [|k]; simpl in *.
  - injection Ha as ->. destruct l as [|y l]; [done|]. simpl in Hb. by injection Hb as ->.
  - eauto.
Qed.

Lemma chain_singleton a : chain h g [a].
Proof. by simpl. Qed.

(** The turn of the loop that leaves after adding [cur]. *)
Lemma grow_stop (used : list bool) part cur :
  used !! cur = Some false →
  ∃ ext,
    part ++ [cur] = part ++ cur :: ext ∧
    chain h g (cur :: ext) ∧
    NoDup (cur :: ext) ∧
    length (<[cur := true]> used) = length used ∧
    (∀ i, i ∈ cur :: ext → used !! i = Some false) ∧
    (∀ i, <[cur := true]> used !! i = Some true ↔ used !! i = Some true ∨ i ∈ cur :: ext).
Proof.
  intros Hcur. exists []. split; [done|]. split; [done|].
  split; [apply NoDup_singleton|]. split; [by rewrite length_insert|]. split.
  - intros i Hi. apply list_elem_of_singleton in Hi. by subst.
  - intros i. rewrite list_elem_of_singleton. destruct (decide (i = cur)) as [->|Hne].
    + rewrite list_lookup_insert_eq by (by eapply lookup_lt_Some). split; [by right|done].
    + rewrite list_lookup_insert_ne by done. split; [by left|]. by intros [?|?].
Qed.

Lemma grow_partition_Ok fuel : ∀ used part cur cm used' part',
  grow_partition fuel h g used part cur cm = Ok (used', part') →
  modules_list g !! cur = Some cm →
  ∃ ext,
    part' = part ++ cur :: ext ∧
    chain h g (cur :: ext) ∧
    NoDup (cur :: ext) ∧
    length used' = length used ∧
    (∀ i, i ∈ cur :: ext → used !! i = Some false) ∧
    (∀ i, used' !! i = Some true ↔ used !! i = Some true ∨ i ∈ cur :: ext).
Proof.
  induction fuel as [|fuel IH]; intros used part cur cm used' part' H Hcm; [discriminate|].
  simpl in H.
  apply bind_Ok in H as (b & Hused & H). apply py_get_Ok in Hused.
  destruct b; [discriminate|].
  apply bind_Ok in H as (users & Husers & H). apply py_get_Ok in Husers.
  case_decide as Hlen; [injection H as <- <-; by apply grow_stop|].
  apply bind_Ok in H as (cm' & Hcm' & H). apply py_get_Ok in Hcm'.
  case_decide as Hout; [injection H as <- <-; by apply grow_stop|].
  apply bind_Ok in H as (u0 & Hu0 & H). apply py_get_Ok in Hu0.
  apply bind_Ok in H as (nm & Hnm & H). apply py_get_Ok in Hnm.
  apply bind_Ok in H as (nin & Hnin & H). apply py_get_Ok in Hnin.
  case_decide as Hin; [injection H as <- <-; by apply grow_stop|].
  apply bind_Ok in H as (on_n & Hon_n & H).
  apply bind_Ok in H as (on_c & Hon_c & H).
  case_decide as Hon; [injection H as <- <-; by apply grow_stop|].
  apply bind_Ok in H as (dev_n & Hdev_n & H).
  apply bind_Ok in H as (dev_c & Hdev_c & H).
  case_decide as Hdev; [injection H as <- <-; by apply grow_stop|].
  apply IH in H as (ext & -> & Hchain & Hnd & Hlen' & Hfalse & Htrue); [|done].
  assert (Hext : extends h g cur u0.1.1).
  { exists cm, nm, u0. split; [done|]. split; [done|].
    assert (users = [u0]) as ->.
    { destruct users as [|x [|y users]]; simpl in *; try done. congruence. }
    split; [done|]. split; [done|].
    split; [by destruct (num_outputs (h cm')) eqn:E; [destruct Hout; congruence|congruence]|].
    split; [by destruct (decide (nin = Some [(Z.of_nat cur, 0%Z)])); [subst|]|].
    unfold get_on, get_device in *.
    destruct (remote (h nm)) as [rn|] eqn:En; [|discriminate].
    destruct (remote (h cm)) as [rc|] eqn:Ec; [|discriminate].
    exists rn, rc. split; [done|]. split; [done|].
    injection Hon_n as <-. injection Hon_c as <-.
    injection Hdev_n as <-. injection Hdev_c as <-.
    split; [by destruct (decide (on rn = on rc))|by destruct (decide (device rn = device rc))]. }
  assert (Hcur_not : cur ∉ u0.1.1 :: ext).
  { intros Hc. apply Hfalse in Hc.
    rewrite list_lookup_insert_eq in Hc by (by eapply lookup_lt_Some). done. }
  exists (u0.1.1 :: ext). split; [by rewrite <- app_assoc|].
  split; [by split|]. split; [by apply NoDup_cons|].
  split; [by rewrite Hlen', length_insert|]. split.
  - intros i Hi. apply elem_of_cons in Hi as [->|Hi]; [done|].
    specialize (Hfalse i Hi). destruct (decide (i = cur)) as [->|Hne]; [done|].
    by rewrite list_lookup_insert_ne in Hfalse.
  - intros i. rewrite Htrue. destruct (decide (i = cur)) as [->|Hne].
    + rewrite list_lookup_insert_eq by (by eapply lookup_lt_Some). split; [|by left].
      intros _. right. apply elem_of_cons. by left.
    + rewrite list_lookup_insert_ne by done. rewrite (elem_of_cons (_ :: _) i cur).
      split; [intros [?|?]; [by left|by right; right]|].
      intros [?|[?|?]]; [by left|done|by right].
Qed.

Lemma split_inv_init : split_inv h g 0 (replicate (length (modules_list g)) false) [].
Proof.
  split; simpl.
  - by rewrite length_replicate.
  - intros i. split; [|by intros ?%elem_of_nil].
    by intros [[=] _]%lookup_replicate.
  - apply NoDup_nil_2.
  - by intros p ?%elem_of_nil.
  - by intros p ?%elem_of_nil.
  - lia.
  - by intros p r ?%elem_of_nil.
Qed.

Lemma split_step_Ok fuel k m used parts used' parts' :
  split_inv h g k used parts →
  modules_list g !! k = Some m →
  split_step fuel h g k m (used, parts) = Ok (used', parts') →
  split_inv h g (S k) used' parts'.
Proof.
  intros [Hlen Hused Hnd Hchain Hhead Hdone Hremote] Hm H.
  unfold split_step in H.
  apply bind_Ok in H as (b & Hb & H). apply py_get_Ok in Hb.
  destruct b.
  - injection H as <- <-. split; try done.
    + intros p Hp. destruct (Hhead p Hp) as (hd & ? & ?). exists hd. split; [done|lia].
    + intros i Hi Hin. destruct (decide (i = k)) as [->|Hne]; [done|]. apply Hdone; lia.
  - apply bind_Ok in H as ([used1 part] & Hgrow & H).
    apply bind_Ok in H as (r & Hr & H). injection H as <- <-.
    apply grow_partition_Ok in Hgrow as (ext & Hpart & Hc & Hnd' & Hlen' & Hfalse & Htrue); [|done].
    simpl in Hpart. subst part.
    split.
    + congruence.
    + intros i. rewrite fmap_app, concat_app, elem_of_app. simpl. rewrite app_nil_r.
      by rewrite Htrue, Hused.
    + rewrite fmap_app, concat_app. simpl. rewrite app_nil_r.
      apply NoDup_app. split; [done|]. split; [|done].
      intros i Hi Hi'. apply Hused in Hi. apply Hfalse in Hi'. congruence.
    + intros p. rewrite fmap_app, elem_of_app. simpl. rewrite list_elem_of_singleton.
      intros [Hp| ->]; [by apply Hchain|done].
    + intros p. rewrite fmap_app, elem_of_app. simpl. rewrite list_elem_of_singleton.
      intros [Hp| ->].
      * destruct (Hhead p Hp) as (hd & ? & ?). exists hd. split; [done|lia].
      * exists k. split; [done|lia].
    + intros i Hi Hin. apply Htrue. destruct (decide (i = k)) as [->|Hne].
      * right. apply elem_of_cons. by left.
      * left. apply Hdone; lia.
    + intros p r'. rewrite elem_of_app, list_elem_of_singleton.
      intros [Hp|[= -> ->]]; [by apply Hremote|done].
Qed.

Lemma split_loop_Ok fuel ms : ∀ k used parts used' parts',
  split_inv h g k used parts →
  (∀ j m, ms !! j = Some m → modules_list g !! (k + j) = Some m) →
  for_enumerate (split_step fuel h g) k ms (used, parts) = Ok (used', parts') →
  split_inv h g (k + length ms) used' parts'.
Proof.
  induction ms as [|m ms IH]; intros k used parts used' parts' Hinv Hms H; simpl in H.
  - injection H as <- <-. simpl. by rewrite Nat.add_0_r.
  - apply bind_Ok in H as ([used1 parts1] & Hstep & H).
    eapply split_step_Ok in Hstep; [|done|].
    2:{ specialize (Hms 0 m eq_refl). by rewrite Nat.add_0_r in Hms. }
    eapply IH in H; [|done|].
    + simpl. by rewrite <- Nat.add_succ_comm.
    + intros j m' Hj. specialize (Hms (S j) m' Hj). by rewrite <- Nat.add_succ_comm in Hms.
Qed.

(** A partition with a remote module has every member instantiated. *)
Lemma py_map_rref_Ok (p : list nat) rrefs :
  py_map (fun i => m ← py_get (modules_list g) i; get_module_rref (h m)) p = Ok rrefs →
  ∀ i, i ∈ p → ∃ m, modules_list g !! i = Some m ∧ is_Some (remote (h m)).
Proof.
  revert rrefs. induction p as [|x p IH]; intros rrefs H i Hi; [by apply elem_of_nil in Hi|].
  simpl in H. apply bind_Ok in H as (r & Hr & H).
  apply bind_Ok in H as (rs & Hrs & _).
  apply elem_of_cons in Hi as [->|Hi]; [|by eapply IH].
  apply bind_Ok in Hr as (m & Hm & Hr). apply py_get_Ok in Hm.
  exists m. split; [done|]. unfold get_module_rref in Hr.
  by destruct (remote (h m)).
Qed.

Lemma remote_module_of_Ok p r :
  remote_module_of h g p = Ok r →
  ∀ i, i ∈ p → ∃ m, modules_list g !! i = Some m ∧ is_Some (remote (h m)).
Proof.
  unfold remote_module_of. case_decide as Hlen.
  - intros H i Hi. destruct p as [|x [|y p]]; simpl in Hlen; try done.
    apply list_elem_of_singleton in Hi as ->.
    apply bind_Ok in H as (p0 & Hp0 & H). injection Hp0 as <-.
    apply bind_Ok in H as (m & Hm & H). apply py_get_Ok in Hm.
    apply bind_Ok in H as (rr & Hrr & _).
    exists m. split; [done|]. unfold get_module_rref in Hrr. by destruct (remote (h m)).
  - intros H.
    apply bind_Ok in H as (p0 & Hp0 & H).
    apply bind_Ok in H as (m & Hm & H).
    apply bind_Ok in H as (o & Ho & H).
    apply bind_Ok in H as (rrefs & Hrrefs & _).
    by eapply py_map_rref_Ok.
Qed.
End partitions.

Lemma elem_of_concat {A} (ls : list (list A)) (x : A) :
  x ∈ concat ls ↔ ∃ l, l ∈ ls ∧ x ∈ l.
Proof.
  induction ls as [|l ls IH]; simpl.
  - split; [by intros ?%elem_of_nil|by intros (l & ?%elem_of_nil & _)].
  - rewrite elem_of_app, IH. split.
    + intros [H|(l' & Hl' & H)]; [exists l|exists l']; (split; [|done]); apply elem_of_cons; auto.
    + intros (l' & [->|Hl']%elem_of_cons & H); [by left|right; eauto].
  Qed.

(** A member of a chain is its head or extends the member before it. *)
Lemma chain_member h g (l : list nat) (i : nat) :
  i ∈ l → chain h g l →
  head l = Some i ∨ ∃ k a, l !! k = Some a ∧ l !! S k = Some i ∧ extends h g a i.
Proof.
  induction l as [|x l IH]; [by intros ?%elem_of_nil|].
  intros [->|Hi]%elem_of_cons [Hx Hc]; [by left|]. right.
  destruct (IH Hi Hc) as [Hhd|(k & a & Ha & Hk & Hext)].
  - destruct l as [|y l]; [done|]. injection Hhd as ->. by exists 0, x.
  - by exists (S k), a.
Qed.

(** ** _split_module returns on index-ordered graphs *)

Section ordered.
Variable h : Heap.
Variable g : PipelineModulesGraph.
Hypothesis Huc : users_computed g.
Hypothesis Hlen : length (inputs g) = length (modules_list g).
(** Every source is a model input or a module with a smaller index. *)
Hypothesis Hord : ∀ i j p s, wired g i j p s → (p < Z.of_nat i)%Z.

Lemma get_on_cases m :
  m ∈ modules_list g →
  (∃ r, remote (h m) = Some r ∧ get_on (h m) = Ok (on r) ∧ get_device (h m) = Ok (device r)
        ∧ get_module_rref (h m) = Ok (module_rref r)) ∨
  (remote (h m) = None ∧ get_on (h m) = Raise (AttributeError "on")
        ∧ get_module_rref (h m) = Raise (AttributeError "module_rref")).
Proof.
  intros _. unfold get_on, get_device, get_module_rref.
  destruct (remote (h m)) as [r|]; [left; eauto|right; eauto].
Qed.

Lemma grow_partition_total (parts : list (list nat * RRef)) (k fuel : nat) :
  (∀ p, p ∈ parts.*1 → chain h g p) →
  (∀ p, p ∈ parts.*1 → ∃ hd, head p = Some hd ∧ hd < k) →
  ∀ (used : list bool) (part : list nat) (cur : nat) (cm : loc),
  length used = length (modules_list g) →
  modules_list g !! cur = Some cm →
  length (modules_list g) - cur ≤ fuel →
  k ≤ cur →
  cur ∉ concat parts.*1 →
  (∀ i, used !! i = Some true → i ∈ concat parts.*1 ∨ i < cur) →
  ok_or_uninstantiated h g (grow_partition fuel h g used part cur cm).
Proof.
  intros Hchain Hhead.
  induction fuel as [|fuel IH]; intros used part cur cm Hused Hcm Hfuel Hk Hcur Htrue.
  { apply lookup_lt_Some in Hcm. lia. }
  assert (Hcur_lt : cur < length (modules_list g)) by by eapply lookup_lt_Some.
  simpl.
  destruct (py_get_lt used cur) as (b & -> & Hb); [lia|]. simpl.
  destruct b. { destruct (Htrue cur Hb); [done|lia]. }
  destruct (py_get_lt (output_users g) cur) as (users & -> & Husers);
    [rewrite (uc_length g Huc); lia|]. simpl.
  case_decide as Hl; [left; eauto|].
  rewrite (proj2 (py_get_Ok _ _ _) Hcm). simpl.
  case_decide as Hout; [left; eauto|].
  destruct users as [|u0 [|u1 users]]; simpl in Hl; try done. simpl.
  assert (Hw : wired g u0.1.1 u0.1.2 (Z.of_nat cur) u0.2).
  { apply (uc_output g Huc). exists [u0]. split; [done|]. by apply list_elem_of_singleton. }
  assert (Hnext_gt : cur < u0.1.1) by (apply Hord in Hw; lia).
  destruct Hw as (l & Hin & Hj).
  assert (Hnext_lt : u0.1.1 < length (modules_list g)).
  { rewrite <- Hlen. by eapply lookup_lt_Some. }
  destruct (py_get_lt (modules_list g) u0.1.1) as (nm & -> & Hnm); [done|]. simpl.
  rewrite (proj2 (py_get_Ok _ _ _) Hin). simpl.
  case_decide as Hne; [left; eauto|].
  destruct (get_on_cases nm) as [(rn & Ern & -> & Hdn & _)|(Ern & -> & _)];
    [by eapply list_elem_of_lookup_2| |right; exists "on", nm; split; [done|];
       split; [by eapply list_elem_of_lookup_2|done]].
  simpl.
  destruct (get_on_cases cm) as [(rc & Erc & -> & Hdc & _)|(Erc & -> & _)];
    [by eapply list_elem_of_lookup_2| |right; exists "on", cm; split; [done|];
       split; [by eapply list_elem_of_lookup_2|done]].
  simpl. case_decide as Hon; [left; eauto|].
  rewrite Hdn, Hdc. simpl. case_decide as Hdev; [left; eauto|].
  apply IH.
  - by rewrite length_insert.
  - done.
  - lia.
  - lia.
  - intros (p & Hp & Hi)%elem_of_concat.
    destruct (chain_member h g p u0.1.1 Hi (Hchain p Hp)) as [Hhd|(ka & a & Ha & _ & Hext)].
    2: apply list_elem_of_lookup_2 in Ha.
    + destruct (Hhead p Hp) as (hd & Hhd' & Hlt). rewrite Hhd in Hhd'.
      injection Hhd' as <-. lia.
    + destruct Hext as (ma & mb & u & _ & _ & _ & _ & _ & Hin' & _).
      rewrite Hin in Hin'. injection Hin' as ->.
      assert (a = cur) as ->.
      { destruct (decide (Some [(Z.of_nat a, 0%Z)] = Some [(Z.of_nat cur, 0%Z)])) as [[= E]|]; [lia|done]. }
      apply Hcur. apply elem_of_concat. eauto.
  - intros i. destruct (decide (i = cur)) as [->|Hi].
    + intros _. right. lia.
    + rewrite list_lookup_insert_ne by done. intros [?|?]%Htrue; [by left|right; lia].
Qed.

Lemma py_map_rref_total (p : list nat) :
  (∀ i, i ∈ p → i < length (modules_list g)) →
  ok_or_uninstantiated h g
    (py_map (fun i => m ← py_get (modules_list g) i; get_module_rref (h m)) p).
Proof.
  induction p as [|x p IH]; intros Hp; simpl; [left; eauto|].
  destruct (py_get_lt (modules_list g) x) as (m & -> & Hm);
    [apply Hp, elem_of_cons; by left|]. simpl.
  destruct (get_on_cases m) as [(r & _ & _ & _ & ->)|(E & _ & ->)];
    [by eapply list_elem_of_lookup_2| |right; exists "module_rref", m; split; [done|];
       split; [by eapply list_elem_of_lookup_2|done]].
  simpl. destruct IH as [(rs & ->)|(attr & m' & -> & ?)].
  - intros i Hi. apply Hp, elem_of_cons. by right.
  - left. simpl. eauto.
  - right. simpl. eauto.
Qed.

Lemma remote_module_of_total (x : nat) (p : list nat) :
  (∀ i, i ∈ x :: p → i < length (modules_list g)) →
  ok_or_uninstantiated h g (remote_module_of h g (x :: p)).
Proof.
  intros Hp. unfold remote_module_of.
  destruct (py_get_lt (modules_list g) x) as (m & Hget & Hm);
    [apply Hp, elem_of_cons; by left|].
  assert (Hin : m ∈ modules_list g) by by eapply list_elem_of_lookup_2.
  case_decide as Hl; simpl; rewrite Hget; simpl.
  - destruct (get_on_cases m Hin) as [(r & _ & _ & _ & ->)|(E & _ & ->)];
      [left; simpl; eauto|right; exists "module_rref", m; eauto].
  - destruct (get_on_cases m Hin) as [(r & _ & -> & _ & Hr)|(E & -> & _)];
      [|right; exists "on", m; eauto].
    simpl. rewrite Hr. simpl.
    destruct (py_map_rref_total p) as [(rs & ->)|(attr & m' & -> & ?)].
    + intros i Hi. apply Hp, elem_of_cons. by right.
    + left. simpl. eauto.
    + right. simpl. eauto.
Qed.

Lemma split_step_total (k : nat) (m : loc) (used : list bool) parts :
  split_inv h g k used parts →
  modules_list g !! k = Some m →
  ok_or_uninstantiated h g
    (split_step (S (length (modules_list g))) h g k m (used, parts)).
Proof.
  intros Hinv Hm. unfold split_step.
  assert (Hk : k < length (modules_list g)) by by eapply lookup_lt_Some.
  remember (S (length (modules_list g))) as fuel eqn:Hfuel.
  destruct (py_get_lt used k) as (b & -> & Hb); [rewrite (si_length _ _ _ _ _ Hinv); lia|].
  simpl. destruct b; [left; eauto|].
  destruct (grow_partition_total parts k fuel
              (si_chain _ _ _ _ _ Hinv) (si_head _ _ _ _ _ Hinv) used [] k m)
    as [([used1 part1] & Hgrow)|(attr & m' & Hgrow & ?)].
  - apply (si_length _ _ _ _ _ Hinv).
  - done.
  - lia.
  - lia.
  - intros Hin. apply (si_used _ _ _ _ _ Hinv) in Hin. congruence.
  - intros i Hi. left. by apply (si_used _ _ _ _ _ Hinv).
  - rewrite Hgrow. simpl.
    apply grow_partition_Ok in Hgrow as (ext & -> & _ & _ & _ & Hfalse & _); [|done].
    simpl.
    destruct (remote_module_of_total k ext) as [(r & ->)|(attr & m' & -> & ?)].
    + intros i Hi. apply Hfalse in Hi. apply lookup_lt_Some in Hi.
      by rewrite (si_length _ _ _ _ _ Hinv) in Hi.
    + left. simpl. eauto.
    + right. simpl. eauto.
  - right. rewrite Hgrow. simpl. eauto.
Qed.

Lemma split_loop_total (ms : list loc) : ∀ (k : nat) (used : list bool) parts,
  split_inv h g k used parts →
  (∀ j m, ms !! j = Some m → modules_list g !! (k + j) = Some m) →
  ok_or_uninstantiated h g
    (for_enumerate (split_step (S (length (modules_list g))) h g) k ms (used, parts)).
Proof.
  induction ms as [|m ms IH]; intros k used parts Hinv Hms; [left; simpl; eauto|].
  assert (Hm : modules_list g !! k = Some m).
  { specialize (Hms 0 m eq_refl). by rewrite Nat.add_0_r in Hms. }
  rewrite for_enumerate_cons.
  destruct (split_step_total k m used parts Hinv Hm) as [([used1 parts1] & Hstep)|(attr & m' & Hstep & ?)].
  - rewrite Hstep. simpl. apply IH.
    + by eapply split_step_Ok.
    + intros j m' Hj. specialize (Hms (S j) m' Hj). by rewrite <- Nat.add_succ_comm in Hms.
  - right. rewrite Hstep. simpl. eauto.
Qed.
End ordered.

(** ** Graph conditions *)

Lemma index_ordered_tc g x y : index_ordered g → tc (feeds g) x y → x < y.
Proof.
  intros Hord. induction 1 as [x y (j & s & Hw)|x y z (j & s & Hw) _ IH].
  - apply Hord in Hw. lia.
  - apply Hord in Hw. lia.
Qed.

Lemma index_ordered_acyclic g : index_ordered g → acyclic g.
Proof. intros Hord i Hi. apply (index_ordered_tc g i i Hord) in Hi. lia. Qed.

Lemma extends_extension_rule h g a b :
  users_computed g → extends h g a b → extension_rule h g a b.
Proof.
  intros Huc (ma & mb & u & Hma & Hmb & Hou & Hu & Hout & Hin & (rb & ra & ? & ? & ? & ?)).
  exists ma, mb. split; [done|]. split; [done|]. split; [done|].
  assert (Hw : wired g b 0 (Z.of_nat a) 0%Z) by (by exists [(Z.of_nat a, 0%Z)]).
  assert (Hub : u = (b, 0, 0%Z)).
  { apply (uc_output g Huc a (b, 0, 0%Z)) in Hw as (l & Hl & Hmem).
    rewrite Hou in Hl. injection Hl as <-. by apply list_elem_of_singleton in Hmem. }
  split; [|split; [done|by exists ra, rb]].
  intros i j s. split.
  - intros Hw'. apply (uc_output g Huc a (i, j, s)) in Hw' as (l & Hl & Hmem).
    rewrite Hou in Hl. injection Hl as <-. apply list_elem_of_singleton in Hmem.
    rewrite Hub in Hmem. by injection Hmem as -> -> ->.
  - by intros (-> & -> & ->).
Qed.

Lemma NoDup_concat_unique {A} (ls : list (list A)) : ∀ k1 k2 l1 l2 x,
  NoDup (concat ls) →
  ls !! k1 = Some l1 → ls !! k2 = Some l2 → x ∈ l1 → x ∈ l2 → k1 = k2.
Proof.
  induction ls as [|l ls IH]; intros k1 k2 l1 l2 x Hnd H1 H2 Hx1 Hx2;
    [by rewrite lookup_nil in H1|].
  simpl in Hnd. apply NoDup_app in Hnd as (_ & Hdisj & Hnd).
  destruct k1 as [|k1], k2 as [|k2]; simpl in *.
  - done.
  - injection H1 as ->. exfalso. apply (Hdisj x Hx1). apply elem_of_concat.
    exists l2. split; [by eapply list_elem_of_lookup_2|done].
  - injection H2 as ->. exfalso. apply (Hdisj x Hx2). apply elem_of_concat.
    exists l1. split; [by eapply list_elem_of_lookup_2|done].
  - f_equal. by eapply IH.
Qed.

(** ** compute_output_users returns on wired graphs with sources in range *)

Lemma record_user_loop_total i items : ∀ j0 ou miu,
  (∀ k p s, items !! k = Some (p, s) → (p < Z.of_nat (length ou))%Z) →
  ∃ st, for_enumerate (record_user i) j0 items (ou, miu) = Ok st ∧ length st.1 = length ou.
Proof.
  induction items as [|[p s] items IH]; intros j0 ou miu Hr; [by eexists|].
  rewrite for_enumerate_cons.
  assert (∃ st1, record_user i j0 (p, s) (ou, miu) = Ok st1 ∧ length st1.1 = length ou)
    as ([ou1 miu1] & -> & Hl1).
  { unfold record_user. simpl. case_decide as Hp; [|by eexists].
    specialize (Hr 0 p s eq_refl).
    destruct (lookup_lt_is_Some_2 ou (Z.to_nat p)) as [l ->]; [lia|].
    eexists. split; [done|]. simpl. by rewrite length_insert. }
  simpl in *. destruct (IH (S j0) ou1 miu1) as (st & -> & Hl).
  - intros k p' s' Hk. rewrite Hl1. by apply (Hr (S k) p' s').
  - exists st. split; [done|congruence].
Qed.

Lemma record_users_loop_total ins : ∀ i0 ou miu,
  (∀ k, k < length ins → ∃ l, ins !! k = Some (Some l)) →
  (∀ k l j p s, ins !! k = Some (Some l) → l !! j = Some (p, s) → (p < Z.of_nat (length ou))%Z) →
  ∃ st, for_enumerate record_users i0 ins (ou, miu) = Ok st ∧ length st.1 = length ou.
Proof.
  induction ins as [|input ins IH]; intros i0 ou miu Hall Hr; [by eexists|].
  rewrite for_enumerate_cons.
  destruct (Hall 0) as (l & [= ->]); [simpl; lia|].
  destruct (record_user_loop_total i0 l 0 ou miu) as ([ou1 miu1] & H1 & Hl1).
  { intros k p s Hk. by apply (Hr 0 l k p s). }
  simpl in *. rewrite H1. simpl.
  destruct (IH (S i0) ou1 miu1) as (st & -> & Hl).
  - intros k Hk. apply (Hall (S k)). lia.
  - intros k l' j p s Hk Hj. rewrite Hl1. by apply (Hr (S k) l' j p s).
  - exists st. split; [done|congruence].
Qed.

Lemma compute_output_users_total g :
  fully_wired g → index_ordered g → ∃ g', compute_output_users g = Ok g'.
Proof.
  intros [Hlen Hall] Hord. unfold compute_output_users.
  destruct (record_users_loop_total (inputs g) 0 (replicate (length (modules_list g)) []) [])
    as ([ou miu] & -> & _); [done| |by eexists].
  intros k l j p s Hk Hj. rewrite length_replicate.
  assert (wired g k j p s) as Hw%Hord by (by exists l).
  apply lookup_lt_Some in Hk. lia.
Qed.

(** ** _split_module as a whole *)

Lemma _split_module_Ok h graph g parts :
  _split_module h graph = Ok (g, parts) →
  modules_list g = modules_list graph ∧ inputs g = inputs graph ∧
  users_computed g ∧
  ∃ used, split_inv h g (length (modules_list g)) used parts.
Proof.
  unfold _split_module. intros H.
  apply bind_Ok in H as (g' & Hg' & H).
  apply bind_Ok in H as ([used parts'] & Hloop & [= <- <-]).
  apply compute_output_users_Ok in Hg' as (Hml & Hin & Huc).
  split; [done|]. split; [done|]. split; [done|]. exists used.
  eapply (split_loop_Ok h g' _ (modules_list g') 0) in Hloop; [done|apply split_inv_init|done].
Qed.

Lemma _split_module_total h graph :
  fully_wired graph → index_ordered graph →
  ok_or_uninstantiated h graph (_split_module h graph).
Proof.
  intros Hfw Hord. unfold _split_module.
  destruct (compute_output_users_total graph Hfw Hord) as (g & Hg). rewrite Hg. simpl.
  apply compute_output_users_Ok in Hg as (Hml & Hin & Huc).
  assert (Hord' : ∀ i j p s, wired g i j p s → (p < Z.of_nat i)%Z).
  { intros i j p s Hw. apply (Hord i j p s). unfold wired in *. by rewrite <- Hin. }
  assert (Hlen' : length (inputs g) = length (modules_list g)).
  { rewrite Hml, Hin. apply Hfw. }
  destruct (split_loop_total h g Huc Hlen' Hord' (modules_list g) 0
              (replicate (length (modules_list g)) false) [])
    as [([used parts] & ->)|(attr & m & -> & Hm & Hnone)].
  - apply split_inv_init.
  - done.
  - left. simpl. eauto.
  - right. simpl. exists attr, m. by rewrite <- Hml.
Qed.

Lemma extension_rule_same_wiring h g g' a b :
  modules_list g = modules_list g' → inputs g = inputs g' →
  extension_rule h g a b → extension_rule h g' a b.
Proof.
  unfold extension_rule, wired. intros <- <-. done.
Qed.

(** The partitions of any successful split: they cover the module
    indices, no index occurs twice, and consecutive members obey the
    extension rule. *)
Lemma _split_module_partitions h graph g parts :
  _split_module h graph = Ok (g, parts) →
  (∀ i, i ∈ concat parts.*1 ↔ i < length (modules_list graph)) ∧
  NoDup (concat parts.*1) ∧
  (∀ p, p ∈ parts.*1 → p ≠ []) ∧
  (∀ p k a b, p ∈ parts.*1 → p !! k = Some a → p !! S k = Some b →
     extension_rule h graph a b).
Proof.
  intros H. apply _split_module_Ok in H as (Hml & Hin & Huc & used & Hinv).
  split; [|split; [|split]].
  - intros i. rewrite <- (si_used _ _ _ _ _ Hinv). split.
    + intros Hi%lookup_lt_Some. by rewrite (si_length _ _ _ _ _ Hinv), Hml in Hi.
    + intros Hi. apply (si_done _ _ _ _ _ Hinv); by rewrite Hml.
  - apply (si_nodup _ _ _ _ _ Hinv).
  - intros p Hp Hnil. subst p. by destruct (si_head _ _ _ _ _ Hinv [] Hp) as (hd & ? & _).
  - intros p k a b Hp Ha Hb.
    apply (extension_rule_same_wiring h g graph a b Hml Hin).
    apply extends_extension_rule; [done|].
    eapply chain_lookup; [by apply (si_chain _ _ _ _ _ Hinv)|done|done].
Qed.

(** In a successful split every module index lies in one partition and in
    no other. *)
Lemma _split_module_one_partition h graph g parts i :
  _split_module h graph = Ok (g, parts) →
  i < length (modules_list graph) →
  ∃ k p, parts.*1 !! k = Some p ∧ i ∈ p ∧
    ∀ k' p', parts.*1 !! k' = Some p' → i ∈ p' → k' = k.
Proof.
  intros H Hi.
  destruct (_split_module_partitions h graph g parts H) as (Hcover & Hnd & _).
  apply Hcover, elem_of_concat in Hi as (p & Hp & Hip).
  apply list_elem_of_lookup_1 in Hp as (k & Hk).
  exists k, p. split; [done|]. split; [done|].
  intros k' p' Hk' Hip'. by eapply (NoDup_concat_unique parts.*1 k' k p' p i).
Qed.

(** C1, as the code has it: on a fully wired graph whose inputs come from
    the model input or from modules of smaller index, with every module
    instantiated, [_split_module] returns partitions whose index lists
    together hold exactly the module indices of the graph, every index lies
    in exactly one partition (and once in it), and in every partition
    consecutive members obey the extension rule (single non-tuple output
    with one consumer, that consumer's only input is output 0 of its
    predecessor, same worker and device). *)
Theorem split_module_index_ordered (h : Heap) (graph : PipelineModulesGraph) :
  fully_wired graph → index_ordered graph → all_instantiated h graph →
  ∃ g parts,
    _split_module h graph = Ok (g, parts) ∧
    (∀ i, i ∈ concat parts.*1 ↔ i < length (modules_list graph)) ∧
    (∀ i, i < length (modules_list graph) →
       ∃ k p, parts.*1 !! k = Some p ∧ i ∈ p ∧
         ∀ k' p', parts.*1 !! k' = Some p' → i ∈ p' → k' = k) ∧
    NoDup (concat parts.*1) ∧
    (∀ p, p ∈ parts.*1 → p ≠ []) ∧
    (∀ p k a b, p ∈ parts.*1 → p !! k = Some a → p !! S k = Some b →
       extension_rule h graph a b).
Proof.
  intros Hfw Hord Hinst.
  destruct (_split_module_total h graph Hfw Hord) as [([g parts] & H)|(attr & m & _ & Hm & Hnone)].
  - exists g, parts. split; [done|].
    destruct (_split_module_partitions h graph g parts H) as (Hcover & Hnd & Hne & Hrule).
    split; [done|]. split; [|done].
    intros i Hi. by apply (_split_module_one_partition h graph g parts i).
  - apply Hinst in Hm as [r Hr]. congruence.
Qed.

(** *** Examples *)

Example chain3_built :
  build [ (fun g => add_sequence g [0; 1; 2] None); (fun g => feed_model_input g 0 0) ] = Ok chain3.
Proof. reflexivity. Qed.

Example backwards2_built :
  build [ (fun g => add_sequence g [0; 1] None); (fun g => feed_model_input g 1 0);
          (fun g => add_multi_input_layer g 0 [1]) ] = Ok backwards2.
Proof. reflexivity. Qed.

Lemma backwards2_acyclic : acyclic backwards2.
Proof.
  assert (Hedge : ∀ x y, feeds backwards2 x y → x = 1 ∧ y = 0).
  { intros x y (j & s & l & Hl & Hj). unfold backwards2 in Hl; simpl in Hl.
    destruct y as [|[|y]]; simpl in Hl; try done.
    - injection Hl as <-. destruct j as [|j]; simpl in Hj; [|done].
      injection Hj as Hx _. split; [lia|done].
    - injection Hl as <-. destruct j as [|j]; simpl in Hj; [|done].
      injection Hj as Hx _. lia. }
  assert (Htc : ∀ x y, tc (feeds backwards2) x y → x = 1 ∧ y = 0).
  { induction 1 as [x y H|x y z H _ IH]; [by apply Hedge|].
    apply Hedge in H. lia. }
  intros i Hi%Htc. lia.
Qed.

(** C1 as stated fails: this graph is acyclic (module 1 feeds module 0),
    fully wired and instantiated, and [_split_module] leaves with the
    [AssertionError] of [assert not module_used[current_module_idx]]. *)
Lemma split_module_acyclic_counterexample :
  acyclic backwards2 ∧ fully_wired backwards2 ∧ all_instantiated heap0 backwards2 ∧
  _split_module heap0 backwards2 = Raise AssertionError.
Proof.
  split; [apply backwards2_acyclic|]. split; [|split].
  - split; [done|]. intros [|[|i]] Hi; simpl in *; [eauto|eauto|lia].
  - intros m _. by eexists.
  - reflexivity.
Qed.

(** ** The loops of _split_module always leave *)

Lemma count_unused_le used : count_unused used ≤ length used.
Proof. induction used as [|[] used IH]; simpl; lia. Qed.

Lemma count_unused_mark (used : list bool) : ∀ i,
  used !! i = Some false → S (count_unused (<[i := true]> used)) = count_unused used.
Proof.
  induction used as [|b used IH]; intros [|i] Hi; simpl in *; try done.
  - by injection Hi as ->.
  - rewrite <- (IH i Hi). lia.
Qed.

Lemma get_on_not_Hang m : get_on m ≠ Hang.
Proof. unfold get_on. by destruct (remote m). Qed.
Lemma get_device_not_Hang m : get_device m ≠ Hang.
Proof. unfold get_device. by destruct (remote m). Qed.
Lemma get_module_rref_not_Hang m : get_module_rref m ≠ Hang.
Proof. unfold get_module_rref. by destruct (remote m). Qed.

Lemma grow_partition_not_Hang h g (fuel : nat) : ∀ (used : list bool) part cur cm,
  count_unused used < fuel → grow_partition fuel h g used part cur cm ≠ Hang.
Proof.
  induction fuel as [|fuel IH]; intros used part cur cm Hfuel H; [lia|].
  simpl in H.
  apply bind_Hang in H as [H|(b & Hb & H)]; [by apply py_get_not_Hang in H|].
  apply py_get_Ok in Hb. destruct b; [done|].
  apply bind_Hang in H as [H|(users & _ & H)]; [by apply py_get_not_Hang in H|].
  case_decide; [done|].
  apply bind_Hang in H as [H|(cm' & _ & H)]; [by apply py_get_not_Hang in H|].
  case_decide; [done|].
  apply bind_Hang in H as [H|(u0 & _ & H)]; [by apply py_get_not_Hang in H|].
  apply bind_Hang in H as [H|(nm & _ & H)]; [by apply py_get_not_Hang in H|].
  apply bind_Hang in H as [H|(nin & _ & H)]; [by apply py_get_not_Hang in H|].
  case_decide; [done|].
  apply bind_Hang in H as [H|(? & _ & H)]; [by apply get_on_not_Hang in H|].
  apply bind_Hang in H as [H|(? & _ & H)]; [by apply get_on_not_Hang in H|].
  case_decide; [done|].
  apply bind_Hang in H as [H|(? & _ & H)]; [by apply get_device_not_Hang in H|].
  apply bind_Hang in H as [H|(? & _ & H)]; [by apply get_device_not_Hang in H|].
  case_decide; [done|].
  apply IH in H; [done|]. apply count_unused_mark in Hb. lia.
Qed.

Lemma grow_partition_length h g (fuel : nat) : ∀ (used : list bool) part cur cm used' part',
  grow_partition fuel h g used part cur cm = Ok (used', part') → length used' = length used.
Proof.
  induction fuel as [|fuel IH]; intros used part cur cm used' part' H; [done|].
  simpl in H.
  apply bind_Ok in H as (b & _ & H). destruct b; [done|].
  apply bind_Ok in H as (users & _ & H).
  case_decide; [injection H as <- <-; by rewrite length_insert|].
  apply bind_Ok in H as (? & _ & H).
  case_decide; [injection H as <- <-; by rewrite length_insert|].
  apply bind_Ok in H as (? & _ & H).
  apply bind_Ok in H as (? & _ & H).
  apply bind_Ok in H as (? & _ & H).
  case_decide; [injection H as <- <-; by rewrite length_insert|].
  apply bind_Ok in H as (? & _ & H).
  apply bind_Ok in H as (? & _ & H).
  case_decide; [injection H as <- <-; by rewrite length_insert|].
  apply bind_Ok in H as (? & _ & H).
  apply bind_Ok in H as (? & _ & H).
  case_decide; [injection H as <- <-; by rewrite length_insert|].
  apply IH in H. by rewrite length_insert in H.
Qed.

Lemma py_map_not_Hang {A B} (f : A → res B) (l : list A) :
  (∀ a, f a ≠ Hang) → py_map f l ≠ Hang.
Proof.
  intros Hf. induction l as [|a l IH]; [done|]. simpl. intros H.
  apply bind_Hang in H as [H|(b & _ & H)]; [by apply Hf in H|].
  apply bind_Hang in H as [H|(bs & _ & H)]; [done|done].
Qed.

Lemma remote_module_of_not_Hang h g p : remote_module_of h g p ≠ Hang.
Proof.
  unfold remote_module_of. intros H. case_decide.
  - apply bind_Hang in H as [H|(? & _ & H)]; [by apply py_get_not_Hang in H|].
    apply bind_Hang in H as [H|(? & _ & H)]; [by apply py_get_not_Hang in H|].
    apply bind_Hang in H as [H|(? & _ & H)]; [by apply get_module_rref_not_Hang in H|done].
  - apply bind_Hang in H as [H|(? & _ & H)]; [by apply py_get_not_Hang in H|].
    apply bind_Hang in H as [H|(? & _ & H)]; [by apply py_get_not_Hang in H|].
    apply bind_Hang in H as [H|(? & _ & H)]; [by apply get_on_not_Hang in H|].
    apply bind_Hang in H as [H|(? & _ & H)]; [|done].
    apply py_map_not_Hang in H; [done|]. intros a Ha.
    apply bind_Hang in Ha as [Ha|(? & _ & Ha)]; [by apply py_get_not_Hang in Ha|].
    by apply get_module_rref_not_Hang in Ha.
Qed.

Lemma for_enumerate_not_Hang {A St} (f : nat → A → St → res St) (P : St → Prop) (l : list A) :
  (∀ i a s, P s → f i a s ≠ Hang) →
  (∀ i a s s', P s → f i a s = Ok s' → P s') →
  ∀ i s, P s → for_enumerate f i l s ≠ Hang.
Proof.
  intros Hf HP. induction l as [|a l IH]; intros i s Hs; [done|].
  rewrite for_enumerate_cons. intros H.
  apply bind_Hang in H as [H|(s' & Hs' & H)]; [by apply Hf in H|].
  apply IH in H; [done|]. by eapply HP.
Qed.

Lemma compute_output_users_not_Hang g : compute_output_users g ≠ Hang.
Proof.
  unfold compute_output_users. intros H.
  apply bind_Hang in H as [H|([? ?] & _ & H)]; [|done].
  apply (for_enumerate_not_Hang record_users (fun _ => True)) in H; [done| |done|done].
  intros i [items|] s _; [|done]. simpl.
  apply (for_enumerate_not_Hang (record_user i) (fun _ => True)); [|done|done].
  intros j [p q] [ou miu] _. unfold record_user. simpl.
  case_decide; [|done]. by destruct (ou !! Z.to_nat p).
Qed.

(** [_split_module] never runs out of turns: it returns or raises. *)
Lemma _split_module_not_Hang h graph : _split_module h graph ≠ Hang.
Proof.
  unfold _split_module. intros H.
  apply bind_Hang in H as [H|(g & _ & H)]; [by apply compute_output_users_not_Hang in H|].
  apply bind_Hang in H as [H|([? ?] & _ & H)]; [|done].
  remember (S (length (modules_list g))) as fuel eqn:Hfuel.
  apply (for_enumerate_not_Hang (split_step fuel h g)
           (fun st => length st.1 = length (modules_list g))) in H; [done| | |].
  - intros i m [used parts] Hlen Hs. simpl in Hlen. unfold split_step in Hs.
    apply bind_Hang in Hs as [Hs|(b & _ & Hs)]; [by apply py_get_not_Hang in Hs|].
    destruct b; [done|].
    apply bind_Hang in Hs as [Hs|([used1 part1] & _ & Hs)].
    + apply grow_partition_not_Hang in Hs; [done|].
      pose proof (count_unused_le used). lia.
    + apply bind_Hang in Hs as [Hs|(? & _ & Hs)]; [by apply remote_module_of_not_Hang in Hs|done].
  - intros i m [used parts] [used' parts'] Hlen Hs. simpl in *. unfold split_step in Hs.
    apply bind_Ok in Hs as (b & Hb & Hs). destruct b; [by injection Hs as <- <-|].
    apply bind_Ok in Hs as ([used1 part1] & Hgrow & Hs).
    apply bind_Ok in Hs as (r & _ & [= <- <-]).
    apply grow_partition_length in Hgrow. congruence.
  - simpl. by rewrite length_replicate.
Qed.


(** ** Python indexing *)

Lemma py_norm_lt len i k : py_norm len i = Some k → k < len.
Proof.
  unfold py_norm. destruct (decide (i < 0)%Z);
    match goal with |- context [decide ?P] => destruct (decide P) end;
    intros [= <-]; lia.
Qed.

Lemma py_index_Ok {A} (l : list A) i x :
  py_index l i = Ok x ↔ ∃ k, py_norm (length l) i = Some k ∧ l !! k = Some x.
Proof.
  unfold py_index. destruct (py_norm (length l) i) as [k|].
  - rewrite py_get_Ok. split; [eauto|]. by intros (k' & [= <-] & H).
  - split; [done|]. by intros (k' & [=] & _).
Qed.

Lemma py_store_Ok {A} (l : list A) i x l' :
  py_store l i x = Ok l' ↔ ∃ k, py_norm (length l) i = Some k ∧ l' = <[k := x]> l.
Proof.
  unfold py_store. destruct (py_norm (length l) i) as [k|].
  - split; [intros [= <-]; eauto|]. by intros (k' & [= <-] & ->).
  - split; [done|]. by intros (k' & [=] & _).
Qed.

Lemma py_index_lt {A} (l : list A) i x :
  py_index l i = Ok x → (i < Z.of_nat (length l))%Z.
Proof.
  intros H. apply py_index_Ok in H as (k & Hk & _). unfold py_norm in Hk.
  destruct (decide (i < 0)%Z) as [?|?]; [lia|].
  destruct (decide (0 ≤ i < Z.of_nat (length l))%Z); [lia|done].
Qed.

Lemma py_index_in_range {A} (l : list A) i :
  (0 ≤ i < Z.of_nat (length l))%Z → ∃ x, py_index l i = Ok x.
Proof.
  intros Hi. assert (Hn : py_norm (length l) i = Some (Z.to_nat i)).
  { unfold py_norm. destruct (decide (i < 0)%Z) as [?|_]; [lia|].
    destruct (decide (0 ≤ i < Z.of_nat (length l))%Z); [done|lia]. }
  destruct (lookup_lt_is_Some_2 l (Z.to_nat i)) as [x Hx]; [lia|].
  exists x. apply py_index_Ok. eauto.
Qed.

Lemma py_index_insert {A} (l : list A) i k x :
  py_norm (length l) i = Some k → py_index (<[k := x]> l) i = Ok x.
Proof.
  intros Hk. apply py_index_Ok. exists k. rewrite length_insert. split; [done|].
  apply list_lookup_insert_eq. by eapply py_norm_lt.
Qed.

(** ** feed *)

Lemma init_same_shape device rank chunks num_input users :
  same_shape (DistributedPipelineRecord.__init__ device rank chunks num_input users).
Proof.
  unfold same_shape. simpl. apply Forall2_replicate. by rewrite !length_replicate.
Qed.

Lemma feed_filled (self : DistributedPipelineRecord.t) chunk input_idx input t :
  slot self chunk input_idx = Ok (Some t) →
  DistributedPipelineRecord.feed self chunk input_idx input = (Raise AssertionError, self).
Proof.
  unfold slot. intros H. apply bind_Ok in H as (row & Hrow & Hslot).
  unfold DistributedPipelineRecord.feed, DistributedPipelineRecord.feed_locked.
  rewrite Hrow. simpl. rewrite Hslot. done.
Qed.

Lemma feed_empty (self : DistributedPipelineRecord.t) chunk input_idx input :
  same_shape self →
  slot self chunk input_idx = Ok None →
  ∃ self',
    DistributedPipelineRecord.feed self chunk input_idx input
      = (Ok (PhonyOf (t_data input)), self') ∧
    slot self' chunk input_idx
      = Ok (Some (delivered (DistributedPipelineRecord.device self) input)) ∧
    same_shape self'.
Proof.
  unfold slot. intros Hshape H. apply bind_Ok in H as (row & Hrow & Hslot).
  pose proof (proj1 (py_index_Ok _ _ _) Hrow) as (kc & Hkc & Hrow').
  pose proof (proj1 (py_index_Ok _ _ _) Hslot) as (ki & Hki & Hslot').
  destruct (Forall2_lookup_l _ _ _ _ _ Hshape Hrow') as (erow & Herow & Hlen).
  assert (Hlen' : length (DistributedPipelineRecord.recv_events self)
                  = length (DistributedPipelineRecord.tensors self))
    by (symmetry; by eapply Forall2_length).
  unfold DistributedPipelineRecord.feed, DistributedPipelineRecord.feed_locked.
  rewrite Hrow. simpl. rewrite Hslot. simpl.
  assert (Hev : py_index (DistributedPipelineRecord.recv_events self) chunk = Ok erow).
  { apply py_index_Ok. exists kc. by rewrite Hlen'. }
  rewrite Hev. simpl.
  unfold py_store. rewrite <- Hlen, Hki, Hlen', Hkc. simpl.
  eexists. split.
  - f_equal. f_equal. unfold delivered. by case_decide.
  - split.
    + simpl. rewrite (py_index_insert _ _ _ _ Hkc). simpl.
      rewrite (py_index_insert _ _ _ _ Hki). done.
    + unfold same_shape. simpl. apply Forall2_insert; [done|].
      by rewrite !length_insert.
Qed.

(** C5: on a record whose event table has the shape of its tensor table
    (as [__init__] builds it), feeding a slot that already holds a tensor
    raises [AssertionError] and leaves the record as it was, the stored
    tensor included; feeding an empty slot returns, stores the value, and
    makes any further feed of that slot fail in the same way. *)
Theorem feed_double_delivery (self : DistributedPipelineRecord.t) (chunk input_idx : Z) (input : Tensor) :
  same_shape self →
  (∀ t, slot self chunk input_idx = Ok (Some t) →
     DistributedPipelineRecord.feed self chunk input_idx input = (Raise AssertionError, self)) ∧
  (slot self chunk input_idx = Ok None →
     ∃ phony self',
       DistributedPipelineRecord.feed self chunk input_idx input = (Ok phony, self') ∧
       slot self' chunk input_idx
         = Ok (Some (delivered (DistributedPipelineRecord.device self) input)) ∧
       t_data (delivered (DistributedPipelineRecord.device self) input) = t_data input ∧
       ∀ again,
         DistributedPipelineRecord.feed self' chunk input_idx again = (Raise AssertionError, self') ∧
         slot self' chunk input_idx
           = Ok (Some (delivered (DistributedPipelineRecord.device self) input))).
Proof.
  intros Hshape. split.
  - intros t Ht. by apply (feed_filled self chunk input_idx input t).
  - intros Hempty.
    destruct (feed_empty self chunk input_idx input Hshape Hempty) as (self' & Hfeed & Hslot & _).
    exists (PhonyOf (t_data input)), self'. split; [done|]. split; [done|]. split.
    + unfold delivered. by case_decide.
    + intros again. split; [|done].
      by apply (feed_filled self' chunk input_idx again
                  (delivered (DistributedPipelineRecord.device self) input)).
Qed.

Lemma feed_double_delivery_witness :
  ∃ phony self',
    DistributedPipelineRecord.feed record22 1 0 tensor7 = (Ok phony, self') ∧
    DistributedPipelineRecord.feed self' 1 0 tensor7 = (Raise AssertionError, self').
Proof.
  destruct (feed_double_delivery record22 1 0 tensor7 (init_same_shape _ _ _ _ _))
    as [_ H].
  destruct (H eq_refl) as (phony & self' & Hfeed & _ & _ & Hagain).
  exists phony, self'. split; [exact Hfeed|]. exact (proj1 (Hagain tensor7)).
Defined.

(** ** Methods on a state *)

Lemma act_bind_Ok {St E A B} (m : Act St E A) (f : A → Act St E B) s b s' evs :
  act_bind m f s = (Ok b, s', evs) →
  ∃ a s1 t1 t2, m s = (Ok a, s1, t1) ∧ f a s1 = (Ok b, s', t2) ∧ evs = t1 ++ t2.
Proof.
  unfold act_bind. destruct (m s) as [[[a|e|] s1] t1]; [|done|done].
  destruct (f a s1) as [[x s2] t2] eqn:Ef. intros [= -> -> <-].
  by exists a, s1, t1, t2.
Qed.

Lemma act_lift_Ok {St E A} (r : res A) (s : St) a s' (evs : list E) :
  act_lift r s = (Ok a, s', evs) → r = Ok a ∧ s' = s ∧ evs = [].
Proof. unfold act_lift. by intros [= -> <- <-]. Qed.

(** Peel a hypothesis [H : (x ⇐ m ;; k) s = (Ok b, s', evs)]. *)
Ltac act_inv H :=
  repeat match type of H with
  | act_bind _ _ _ = (Ok _, _, _) =>
      let a := fresh "a" in let s1 := fresh "s" in
      let t1 := fresh "t" in let t2 := fresh "t" in
      let Hm := fresh "Hm" in let Ht := fresh "Ht" in
      apply act_bind_Ok in H as (a & s1 & t1 & t2 & Hm & H & Ht);
      first [ apply act_lift_Ok in Hm as (Hm & -> & ->)
            | (unfold act_get in Hm; injection Hm as <- <- <-)
            | (unfold act_emit in Hm; injection Hm as <- <- <-)
            | (unfold act_put in Hm; injection Hm as <- <- <-)
            | (unfold act_ret in Hm; injection Hm as <- <- <-)
            | idtac ]
  end.

(** ** The checkpointing cutoff *)

Lemma checkpoint_stop_values (n : Z) :
  DistributedPipeline.checkpoint_stop_of n "always" = Ok n ∧
  DistributedPipeline.checkpoint_stop_of n "except_last" = Ok (n - 1)%Z ∧
  DistributedPipeline.checkpoint_stop_of n "never" = Ok 0%Z.
Proof. by vm_compute. Qed.


Lemma compute_submits (self : PartitionHandler.t) (c : Z) r r' evs :
  PartitionHandler.compute self c r = (Ok (), r', evs) →
  evs = [Submit c (PartitionHandler.make_task self c)].
Proof.
  unfold PartitionHandler.compute. intros H. act_inv H.
  unfold act_put in H. simplify_eq. simpl.
  case_decide.
  - act_inv Hm1. unfold act_ret in Hm1. by simplify_eq.
  - unfold act_ret in Hm1. by simplify_eq.
Qed.



(** The boundary of the design document: four chunks, "except_last". *)
Example checkpoint_boundary_except_last :
  let h := PartitionHandler.__init__ true (fun ts => Ok ts) "cpu" 1 None 0 4 3 in
  checkpointed (PartitionHandler.make_task h 0) ∧ checkpointed (PartitionHandler.make_task h 1) ∧
  checkpointed (PartitionHandler.make_task h 2) ∧ direct (PartitionHandler.make_task h 3).
Proof. by vm_compute. Qed.

(** ** Device moves *)

(** C8: [cuda], [cpu], [to] with a [device] or [tensor] keyword and [to]
    whose first positional argument is a device, an int, a string or a
    tensor raise [MOVING_DENIED], a [TypeError], and leave the pipeline as it
    was; [to] called with a dtype first (or with keywords only) and neither a
    [device] nor a [tensor] keyword is [nn.Module.to]. *)
Theorem moving_denied (nn_Module_to : DistributedPipeline.t → list PyArg → gmap string PyArg
                                      → res DistributedPipeline.t * DistributedPipeline.t)
    (self : DistributedPipeline.t) :
  (∀ device, DistributedPipeline.cuda self device = (Raise MOVING_DENIED, self)) ∧
  DistributedPipeline.cpu self = (Raise MOVING_DENIED, self) ∧
  (∀ args kwargs,
     is_Some (kwargs !! "device") ∨ is_Some (kwargs !! "tensor") ∨
     (∃ a0 rest, args = a0 :: rest ∧ (is_device_int_str a0 = true ∨ is_tensor a0 = true)) →
     DistributedPipeline.to nn_Module_to self args kwargs = (Raise MOVING_DENIED, self)) ∧
  (∀ args kwargs,
     kwargs !! "device" = None → kwargs !! "tensor" = None →
     (args = [] ∨ ∃ name rest, args = ArgDtype name :: rest) →
     DistributedPipeline.to nn_Module_to self args kwargs = nn_Module_to self args kwargs) ∧
  (∃ msg, MOVING_DENIED = TypeError msg).
Proof.
  split; [done|]. split; [done|]. split; [|split].
  - intros args kwargs H. unfold DistributedPipeline.to.
    case_decide as Hk; [done|].
    destruct H as [H|[H|(a0 & rest & -> & [H|H])]]; [tauto|tauto| |].
    + by rewrite H.
    + rewrite H. by destruct (is_device_int_str a0).
  - intros args kwargs Hd Ht Hargs. unfold DistributedPipeline.to.
    case_decide as Hk.
    + rewrite Hd, Ht in Hk. destruct Hk as [[? [=]]|[? [=]]].
    + by destruct Hargs as [->|(name & rest & ->)].
  - by eexists.
Qed.

(** ** What construction can raise *)

Lemma raises_only_bind {A B} P (m : res A) (f : A → res B) :
  raises_only P m → (∀ a, raises_only P (f a)) → raises_only P (m ≫= f).
Proof.
  intros Hm Hf e H. apply bind_Raise in H as [H|(a & _ & H)]; [by apply Hm|by eapply Hf].
Qed.

Lemma raises_only_Ok {A} P (a : A) : raises_only P (Ok a).
Proof. by intros e. Qed.

Lemma raises_only_Raise {A} (P : exc → Prop) e : P e → raises_only P (Raise e : res A).
Proof. by intros He e' [= <-]. Qed.

Lemma raises_only_py_get {A} (P : exc → Prop) (l : list A) i :
  P IndexError → raises_only P (py_get l i).
Proof. intros HP e. unfold py_get. destruct (l !! i); [done|]. by intros [= <-]. Qed.

Lemma raises_only_py_index {A} (P : exc → Prop) (l : list A) i :
  P IndexError → raises_only P (py_index l i).
Proof.
  intros HP. unfold py_index. destruct (py_norm _ _); [by apply raises_only_py_get|].
  by apply raises_only_Raise.
Qed.

Lemma raises_only_for_enumerate {A St} P (f : nat → A → St → res St) (l : list A) :
  (∀ i a s, raises_only P (f i a s)) → ∀ i s, raises_only P (for_enumerate f i l s).
Proof.
  intros Hf. induction l as [|a l IH]; intros i s; [apply raises_only_Ok|].
  rewrite for_enumerate_cons. apply raises_only_bind; [apply Hf|]. intros s'. apply IH.
Qed.

Lemma raises_only_py_map {A B} P (f : A → res B) (l : list A) :
  (∀ a, raises_only P (f a)) → raises_only P (py_map f l).
Proof.
  intros Hf. induction l as [|a l IH]; [apply raises_only_Ok|]. simpl.
  apply raises_only_bind; [apply Hf|]. intros b.
  apply raises_only_bind; [apply IH|]. intros bs. apply raises_only_Ok.
Qed.

Lemma not_ValueError_attr (m : PipelineModule) :
  raises_only not_ValueError (get_on m) ∧ raises_only not_ValueError (get_device m) ∧
  raises_only not_ValueError (get_module_rref m).
Proof.
  unfold get_on, get_device, get_module_rref.
  destruct (remote m); repeat split; by intros e [= <-].
Qed.

(** Closes [raises_only not_ValueError r] for a body made of binds, tests
    and the look-ups above. *)
Ltac no_value_error :=
  repeat first
    [ apply raises_only_Ok
    | apply raises_only_Raise; exact I
    | apply raises_only_py_get; exact I
    | apply raises_only_py_index; exact I
    | apply (proj1 (not_ValueError_attr _))
    | apply (proj1 (proj2 (not_ValueError_attr _)))
    | apply (proj2 (proj2 (not_ValueError_attr _)))
    | (apply raises_only_bind; [|intros ?])
    | case_decide ].

Lemma grow_partition_no_ValueError h g (fuel : nat) : ∀ used part cur cm,
  raises_only not_ValueError (grow_partition fuel h g used part cur cm).
Proof.
  induction fuel as [|fuel IH]; intros used part cur cm; [by intros e|].
  simpl. apply raises_only_bind; [no_value_error|]. intros [|]; [no_value_error|].
  no_value_error. apply IH.
Qed.

Lemma split_module_no_ValueError h graph :
  raises_only not_ValueError (_split_module h graph).
Proof.
  unfold _split_module. apply raises_only_bind.
  - unfold compute_output_users. apply raises_only_bind; [|intros [? ?]; no_value_error].
    apply raises_only_for_enumerate. intros i [items|] s; [|no_value_error]. simpl.
    apply raises_only_for_enumerate. intros j [p q] [ou miu]. unfold record_user. simpl.
    case_decide; [|no_value_error]. destruct (ou !! Z.to_nat p); no_value_error.
  - intros g. apply raises_only_bind; [|intros [? ?]; no_value_error].
    apply raises_only_for_enumerate. intros i m [used parts]. unfold split_step.
    apply raises_only_bind; [no_value_error|]. intros [|]; [no_value_error|].
    apply raises_only_bind; [apply grow_partition_no_ValueError|]. intros [used1 part1].
    apply raises_only_bind; [|intros ?; no_value_error].
    unfold remote_module_of. case_decide; no_value_error.
    apply raises_only_py_map. intros ?. no_value_error.
Qed.

Lemma find_partition_no_ValueError parts user : ∀ i,
  raises_only not_ValueError (find_partition i parts user).
Proof.
  induction parts as [|pm parts IH]; intros i; simpl; [no_value_error|].
  no_value_error. apply IH.
Qed.

Lemma create_handlers_no_ValueError h g chunks cs : ∀ parts i created,
  raises_only not_ValueError (DistributedPipeline.create_handlers h g chunks cs i parts created).2.
Proof.
  induction parts as [|pm parts IH]; intros i created; simpl; [no_value_error|].
  destruct (DistributedPipeline.handler_args h g chunks cs i pm) as [hr|e|] eqn:E;
    [apply IH| |by intros e].
  simpl. intros e' [= <-].
  assert (Hr : raises_only not_ValueError (DistributedPipeline.handler_args h g chunks cs i pm)).
  { unfold DistributedPipeline.handler_args. destruct pm as [p m]. no_value_error. }
  by apply Hr.
Qed.

(** ** Construction errors *)

Lemma init_ValueError torch_version h graph chunks checkpoint :
  check_pytorch_version torch_version = Ok () →
  ((∃ msg, (DistributedPipeline.__init__ torch_version h graph chunks checkpoint).2
           = Raise (ValueError msg)) ↔
   ((chunks ≤ 0)%Z ∨ ¬ valid_checkpoint checkpoint)).
Proof.
  intros Hv. unfold DistributedPipeline.__init__, DistributedPipeline.prepare.
  rewrite Hv. simpl. unfold valid_checkpoint.
  case_decide as Hc; [split; [intros _; left; exact Hc|intros _; simpl; by eexists]|].
  case_decide as Hcp; [split; [intros _; right; exact Hcp|intros _; simpl; by eexists]|].
  split; [|intros [?|?]; [lia|tauto]].
  intros (msg & H). exfalso.
  assert (Hprep : raises_only not_ValueError
    (gp ← _split_module h graph;
     input_feeds ← DistributedPipeline.find_input_feeds gp.1 gp.2;
     checkpoint_stop ← DistributedPipeline.checkpoint_stop_of chunks checkpoint;
     Ok (gp.1, gp.2, input_feeds, checkpoint_stop))).
  { apply raises_only_bind; [apply split_module_no_ValueError|]. intros gp.
    apply raises_only_bind.
    - apply raises_only_py_map. intros u.
      apply raises_only_bind; [apply find_partition_no_ValueError|]. intros ?. no_value_error.
    - intros feeds. apply raises_only_bind; [|intros ?; no_value_error].
      unfold DistributedPipeline.checkpoint_stop_of. destruct (_ !! _); no_value_error. }
  destruct (gp ← _split_module h graph; _) as [[[[g' parts] feeds] cs]|e|] eqn:Ep.
  - pose proof (create_handlers_no_ValueError h g' chunks cs parts 0 []) as Hh.
    destruct (DistributedPipeline.create_handlers h g' chunks cs 0 parts []) as [created r].
    simpl in *. apply bind_Raise in H as [H|(? & _ & [=])]. by apply Hh in H.
  - simpl in H. injection H as ->. by apply (Hprep (ValueError msg)).
  - done.
Qed.

Lemma init_ValueError_eager torch_version h graph chunks checkpoint :
  check_pytorch_version torch_version = Ok () →
  (chunks ≤ 0)%Z ∨ ¬ valid_checkpoint checkpoint →
  (DistributedPipeline.__init__ torch_version h graph chunks checkpoint).1 = [].
Proof.
  intros Hv H. unfold DistributedPipeline.__init__, DistributedPipeline.prepare.
  rewrite Hv. simpl. unfold valid_checkpoint in H.
  case_decide; [done|]. case_decide; [done|]. destruct H; [lia|done].
Qed.

(** C6, as the code has it: once [check_pytorch_version] has passed,
    constructing a [DistributedPipeline] raises [ValueError] exactly when
    [chunks <= 0] or [checkpoint] is not one of "always", "except_last",
    "never"; and then no partition handler has been created. *)
Theorem init_configuration_error torch_version h graph chunks checkpoint :
  check_pytorch_version torch_version = Ok () →
  ((∃ msg, (DistributedPipeline.__init__ torch_version h graph chunks checkpoint).2
           = Raise (ValueError msg)) ↔
   ((chunks ≤ 0)%Z ∨ ¬ valid_checkpoint checkpoint)) ∧
  ((chunks ≤ 0)%Z ∨ ¬ valid_checkpoint checkpoint →
   (DistributedPipeline.__init__ torch_version h graph chunks checkpoint).1 = []).
Proof.
  intros Hv. split; [by apply init_ValueError|by apply init_ValueError_eager].
Qed.

Lemma init_configuration_error_witness :
  (∃ msg, (DistributedPipeline.__init__ "1.9.0" heap0 chain3 0 "never").2 = Raise (ValueError msg)) ∧
  (DistributedPipeline.__init__ "1.9.0" heap0 chain3 0 "never").1 = [].
Proof.
  destruct (init_configuration_error "1.9.0" heap0 chain3 0 "never" eq_refl) as [H1 H2].
  split; [apply H1; left; lia|apply H2; left; lia].
Defined.

(** C6 as stated fails where the version check does not pass: with
    [chunks = 0] the constructor raises the plain [Exception] of
    [check_pytorch_version], not a [ValueError]. *)
Lemma init_configuration_error_counterexample :
  (0 ≤ 0)%Z ∧
  (DistributedPipeline.__init__ "1.8.0" heap0 chain3 0 "never").2
    = Raise (Exception "DistributedPipeline requires PyTorch version 1.9 or higher").
Proof. split; [lia|reflexivity]. Qed.

(** The comparison is one of lists of strings: "10" sorts before "9". *)
Example check_pytorch_version_1_10 :
  check_pytorch_version "1.10.0"
    = Raise (Exception "DistributedPipeline requires PyTorch version 1.9 or higher").
Proof. reflexivity. Qed.

(** ** Graphs made by the builder *)

Lemma assign_input_balanced g i v g' :
  assign_input g i v = Ok g' → balanced g → balanced g'.
Proof.
  unfold assign_input, balanced. destruct (inputs g !! i); [|done].
  intros [= <-]. simpl. by rewrite length_insert.
Qed.

Lemma find_or_add_balanced g module g1 i :
  _find_or_add g module = (g1, i) → balanced g → balanced g1.
Proof.
  unfold _find_or_add, balanced. destruct (list_index (modules_list g) module).
  - by intros [= <- _].
  - intros [= <- _]. simpl. rewrite !length_app. simpl. lia.
Qed.

Lemma foldl_assign_balanced (f : nat → list (Z * Z)) (l : list nat) : ∀ acc g',
  foldl (fun acc i => a ← acc; assign_input a i (f i)) acc l = Ok g' →
  ∃ g0, acc = Ok g0 ∧ (balanced g0 → balanced g').
Proof.
  induction l as [|i l IH]; intros acc g' H; simpl in H; [by exists g'|].
  apply IH in H as (g1 & H1 & Hb). apply bind_Ok in H1 as (g0 & -> & H1).
  exists g0. split; [done|]. intros H0. apply Hb. by eapply assign_input_balanced.
Qed.

Lemma for_enumerate_balanced {A} (f : nat → A → PipelineModulesGraph → res PipelineModulesGraph) (l : list A) :
  (∀ i a g g', f i a g = Ok g' → balanced g → balanced g') →
  ∀ i g g', for_enumerate f i l g = Ok g' → balanced g → balanced g'.
Proof.
  intros Hf. induction l as [|a l IH]; intros i g g' H Hg; simpl in H; [by injection H as <-|].
  apply bind_Ok in H as (g1 & H1 & H). eapply IH; [done|]. by eapply Hf.
Qed.

Lemma compute_output_users_balanced g g' :
  compute_output_users g = Ok g' → balanced g → balanced g'.
Proof.
  intros (Hm & Hi & _)%compute_output_users_Ok. unfold balanced. by rewrite Hm, Hi.
Qed.

Lemma built_balanced g : built g → balanced g.
Proof.
  induction 1 as [|g modules fi g' _ IH H|g m ind g' _ IH H|g m ins g' _ IH H
                  |g m outs g' _ IH H|g m outs g' _ IH H|g g' _ IH H].
  - done.
  - unfold add_sequence in H. apply bind_Ok in H as (g3 & H3 & H).
    apply foldl_assign_balanced in H3 as (g2 & [= <-] & Hb).
    assert (Hb3 : balanced g3).
    { apply Hb. unfold balanced in *. simpl.
      rewrite !length_app, length_replicate. lia. }
    destruct fi as [fi|]; [|by injection H as <-].
    apply bind_Ok in H as (k & _ & H). by eapply assign_input_balanced.
  - unfold feed_model_input in H. destruct (_find_or_add g m) as [g1 i] eqn:E.
    eapply assign_input_balanced; [done|]. by eapply find_or_add_balanced.
  - unfold add_multi_input_layer in H. apply bind_Ok in H as (v & _ & H).
    destruct (_find_or_add g m) as [g1 i] eqn:E.
    eapply assign_input_balanced; [done|]. by eapply find_or_add_balanced.
  - unfold fan_out in H. apply bind_Ok in H as (mi & _ & H).
    eapply for_enumerate_balanced; [|exact H|exact IH].
    intros i a g0 g0' H0 Hb. simpl in H0. destruct (_find_or_add g0 a) as [g1 k] eqn:E.
    eapply assign_input_balanced; [exact H0|]. by eapply find_or_add_balanced.
  - unfold replicate_output in H. apply bind_Ok in H as (mi & _ & H).
    eapply for_enumerate_balanced; [|exact H|exact IH].
    intros i a g0 g0' H0 Hb. simpl in H0. destruct (_find_or_add g0 a) as [g1 k] eqn:E.
    eapply assign_input_balanced; [exact H0|]. by eapply find_or_add_balanced.
  - by eapply compute_output_users_balanced.
Qed.

(** ** Consumers head their partitions *)

Lemma NoDup_concat_member {A} (ls : list (list A)) l :
  NoDup (concat ls) → l ∈ ls → NoDup l.
Proof.
  induction ls as [|l0 ls IH]; [by intros _ ?%elem_of_nil|]. simpl.
  intros (Hl0 & _ & Hls)%NoDup_app [->|Hl]%elem_of_cons; [done|by apply IH].
Qed.

Lemma find_partition_returns (parts : list (list nat * RRef)) (user : nat) : ∀ i,
  (∀ p, p ∈ parts.*1 → p ≠ []) →
  (∃ k p, parts.*1 !! k = Some p ∧ head p = Some user) →
  ∃ k, find_partition i parts user = Ok k.
Proof.
  induction parts as [|pm parts IH]; intros i Hne (k & p & Hk & Hhd); [by destruct k|].
  simpl. destruct pm as [q r]. simpl.
  destruct q as [|q0 q].
  { exfalso. apply (Hne []); [|done]. simpl. apply elem_of_cons. by left. }
  simpl. case_decide as Hq; [eauto|].
  apply IH.
  - intros p' Hp'. apply Hne. simpl. apply elem_of_cons. by right.
  - destruct k as [|k]; simpl in Hk.
    + injection Hk as <-. simpl in Hhd. congruence.
    + eauto.
Qed.

Section heads.
Variable h : Heap.
Variables graph g : PipelineModulesGraph.
Variable parts : list (list nat * RRef).
Hypothesis Hbalanced : balanced graph.
Hypothesis Hsplit : _split_module h graph = Ok (g, parts).

Lemma split_wired_member i j p s :
  wired g i j p s → ∃ k q, parts.*1 !! k = Some q ∧ i ∈ q.
Proof.
  intros (l & Hl & _).
  pose proof (_split_module_Ok h graph g parts Hsplit) as (Hml & Hin & _ & _).
  pose proof (_split_module_partitions h graph g parts Hsplit) as (Hcover & _).
  assert (Hi : i ∈ concat parts.*1).
  { apply Hcover. rewrite <- Hbalanced, <- Hin. by eapply lookup_lt_Some. }
  apply elem_of_concat in Hi as (q & Hq & Hi).
  apply list_elem_of_lookup_1 in Hq as (k & Hk). eauto.
Qed.

Lemma split_chain q : q ∈ parts.*1 → chain h g q.
Proof.
  pose proof (_split_module_Ok h graph g parts Hsplit) as (_ & _ & _ & used & Hinv).
  apply (si_chain _ _ _ _ _ Hinv).
Qed.

(** A module with an input that is not output 0 of the member before it
    is the head of its partition. *)
Lemma split_head_or_prev k q i :
  parts.*1 !! k = Some q → i ∈ q →
  head q = Some i ∨
  ∃ n a, q !! n = Some a ∧ q !! S n = Some i ∧ inputs g !! i = Some (Some [(Z.of_nat a, 0%Z)]).
Proof.
  intros Hk Hi.
  destruct (chain_member h g q i Hi) as [?|(n & a & Ha & Hn & Hext)];
    [apply split_chain; by eapply list_elem_of_lookup_2|by left|right].
  destruct Hext as (_ & _ & _ & _ & _ & _ & _ & _ & Hin & _). eauto.
Qed.

Lemma model_input_user_head u :
  u ∈ model_input_users g → ∃ k q, parts.*1 !! k = Some q ∧ head q = Some u.1.1.
Proof.
  intros Hu.
  pose proof (_split_module_Ok h graph g parts Hsplit) as (_ & _ & Huc & _).
  apply (uc_input g Huc) in Hu as (p & Hw & Hp).
  destruct (split_wired_member _ _ _ _ Hw) as (k & q & Hk & Hi).
  exists k, q. split; [done|].
  destruct (split_head_or_prev k q u.1.1 Hk Hi) as [?|(n & a & _ & _ & Hin)]; [done|].
  destruct Hw as (l & Hl & Hj). rewrite Hin in Hl. injection Hl as <-.
  destruct u.1.2 as [|j]; simpl in Hj; [|done]. injection Hj as <- _. lia.
Qed.

Lemma cross_partition_consumer_head ka kb pa pb a b j s :
  parts.*1 !! ka = Some pa → parts.*1 !! kb = Some pb → ka ≠ kb →
  a ∈ pa → b ∈ pb → wired g b j (Z.of_nat a) s → head pb = Some b.
Proof.
  intros Hka Hkb Hne Ha Hb (l & Hl & Hj).
  destruct (split_head_or_prev kb pb b Hkb Hb) as [?|(n & a' & Ha' & _ & Hin)]; [done|].
  exfalso. rewrite Hin in Hl. injection Hl as <-.
  destruct j as [|j]; simpl in Hj; [|done]. injection Hj as Ha'a _.
  assert (a' = a) as -> by lia.
  pose proof (_split_module_partitions h graph g parts Hsplit) as (_ & Hnd & _).
  apply Hne. eapply (NoDup_concat_unique parts.*1 ka kb pa pb a); try done.
  by eapply list_elem_of_lookup_2.
Qed.

Lemma last_user_head k p l us u :
  parts.*1 !! k = Some p → last p = Some l →
  output_users g !! l = Some us → u ∈ us →
  ∃ k' q, parts.*1 !! k' = Some q ∧ head q = Some u.1.1.
Proof.
  intros Hk Hlast Hus Hu.
  pose proof (_split_module_Ok h graph g parts Hsplit) as (_ & _ & Huc & _).
  pose proof (_split_module_partitions h graph g parts Hsplit) as (_ & Hnd & _).
  assert (Hw : wired g u.1.1 u.1.2 (Z.of_nat l) u.2).
  { apply (uc_output g Huc). by exists us. }
  destruct (split_wired_member _ _ _ _ Hw) as (k' & q & Hk' & Hi).
  exists k', q. split; [done|].
  destruct (split_head_or_prev k' q u.1.1 Hk' Hi) as [?|(n & a & Ha & Hn & Hin)]; [done|].
  exfalso. destruct Hw as (items & Hl & Hj). rewrite Hin in Hl. injection Hl as <-.
  destruct u.1.2 as [|j]; simpl in Hj; [|done]. injection Hj as Hal _.
  assert (a = l) as -> by lia.
  rewrite last_lookup in Hlast.
  assert (k' = k) as ->.
  { eapply (NoDup_concat_unique parts.*1 k' k q p l); try done;
      by eapply list_elem_of_lookup_2. }
  assert (q = p) as -> by congruence.
  assert (Hndp : NoDup p).
  { eapply NoDup_concat_member; [done|]. by eapply list_elem_of_lookup_2. }
  assert (n = pred (length p)) as -> by (by eapply NoDup_lookup).
  apply lookup_lt_Some in Hn. lia.
Qed.
End heads.

(** C9: for a graph made by the builder methods, in the partitions
    [_split_module] returns every module fed by a model input heads a
    partition, and so does every module that consumes the output of a module
    of another partition; hence the look-ups by first module index of
    [__init__] (the model-input users) and of [forward] (the users of a
    partition's last module) find their partition. *)
Theorem consumers_head_partitions h graph g parts :
  built graph →
  _split_module h graph = Ok (g, parts) →
  (∀ u, u ∈ model_input_users g →
     ∃ k q, parts.*1 !! k = Some q ∧ head q = Some u.1.1) ∧
  (∀ ka kb pa pb a b j s,
     parts.*1 !! ka = Some pa → parts.*1 !! kb = Some pb → ka ≠ kb →
     a ∈ pa → b ∈ pb → wired g b j (Z.of_nat a) s → head pb = Some b) ∧
  (∃ feeds, DistributedPipeline.find_input_feeds g parts = Ok feeds) ∧
  (∀ k p l us u,
     parts.*1 !! k = Some p → last p = Some l →
     output_users g !! l = Some us → u ∈ us →
     ∃ k', find_partition 0 parts u.1.1 = Ok k').
Proof.
  intros Hb%built_balanced Hsplit.
  pose proof (_split_module_partitions h graph g parts Hsplit) as (_ & _ & Hne & _).
  split; [|split; [|split]].
  - intros u. by apply (model_input_user_head h graph g parts).
  - by apply (cross_partition_consumer_head h graph g parts).
  - unfold DistributedPipeline.find_input_feeds.
    assert (Hall : ∀ u, u ∈ model_input_users g →
              ∃ k, find_partition 0 parts u.1.1 = Ok k).
    { intros u Hu. apply find_partition_returns; [done|].
      by apply (model_input_user_head h graph g parts). }
    revert Hall. generalize (model_input_users g) as us.
    induction us as [|u us IH]; intros Hall; [by eexists|]. simpl.
    destruct (Hall u) as (k & ->); [apply elem_of_cons; by left|]. simpl.
    destruct IH as (feeds & ->); [intros u' Hu'; apply Hall, elem_of_cons; by right|].
    simpl. by eexists.
  - intros k p l us u Hk Hl Hus Hu. apply find_partition_returns; [done|].
    by apply (last_user_head h graph g parts Hb Hsplit k p l us u).
Qed.

(** ** What run leaves of the record *)


Lemma keeps_users_lift {A} (r : res A) : keeps_users (act_lift r).
Proof. intros s a s' evs H. by apply act_lift_Ok in H as (_ & -> & _). Qed.


Lemma keeps_users_emit e : keeps_users (act_emit e).
Proof. intros s a' s' evs. unfold act_emit. intros H. by simplify_eq. Qed.










(** ** What forward returns *)

Lemma act_for_Ok_inv {St E A} (l : list A) (body : A → Act St E unit) (P : St → Prop) :
  (∀ a s s' evs, a ∈ l → body a s = (Ok (), s', evs) → P s → P s') →
  ∀ s s' evs, act_for l body s = (Ok (), s', evs) → P s → P s'.
Proof.
  induction l as [|a l IH]; intros Hb s s' evs H Hs; simpl in H.
  - unfold act_ret in H. by simplify_eq.
  - apply act_bind_Ok in H as ([] & s1 & t1 & t2 & H1 & H2 & _).
    eapply IH; [|exact H2|].
    + intros a' s0 s0' evs0 Ha'. apply Hb. apply elem_of_cons. by right.
    + eapply Hb; [apply elem_of_cons; by left|exact H1|exact Hs].
Qed.

Section forward.
Variable check : Tensor → res unit.
Variable scatter : Tensor → Z → res (list Tensor).
Variable worker_name : string.
Variable self : DistributedPipeline.t.

Lemma launch_result part_idx s s' evs :
  DistributedPipeline.launch worker_name self part_idx s = (Ok (), s', evs) →
  s'.1.2 = (if decide (part_idx = length (DistributedPipeline.partition_handlers self) - 1)
            then Some (RunPipelineResult part_idx part_idx) else s.1.2) ∧
  RunPipeline part_idx part_idx ∈ evs.
Proof.
  unfold DistributedPipeline.launch. intros H. act_inv H.
  unfold act_put in H. simplify_eq. simpl. split; [done|].
  rewrite !elem_of_cons. tauto.
Qed.

Lemma feed_one_state recs i b f s s' evs :
  DistributedPipeline.feed_one worker_name self recs i b f s = (Ok (), s', evs) → s'.1 = s.1.
Proof.
  destruct f as [[fi fj] feed_idx]. unfold DistributedPipeline.feed_one. intros H.
  act_inv H. destruct a as [r|]; [|done]. case_decide.
  - act_inv H.
    destruct (DistributedPipelineRecord.feed _ _ _ _) as [phony record'].
    act_inv H. unfold act_ret in H. by simplify_eq.
  - act_inv H. unfold act_emit in H. by simplify_eq.
Qed.

Lemma feed_chunk_state recs i b s s' evs :
  DistributedPipeline.feed_chunk worker_name self recs i b s = (Ok (), s', evs) → s'.1 = s.1.
Proof.
  unfold DistributedPipeline.feed_chunk. intros H.
  eapply (act_for_Ok_inv _ _ (fun x => x.1 = s.1)); [|exact H|done].
  intros f s0 s0' evs0 _ H0 <-. by eapply feed_one_state.
Qed.

Lemma forward_result inputs result calls :
  DistributedPipeline.forward check scatter worker_name self inputs = (Ok result, calls) →
  0 < length (DistributedPipeline.partition_handlers self) ∧
  result = RunPipelineResult (length (DistributedPipeline.partition_handlers self) - 1)
                             (length (DistributedPipeline.partition_handlers self) - 1) ∧
  RunPipeline (length (DistributedPipeline.partition_handlers self) - 1)
              (length (DistributedPipeline.partition_handlers self) - 1) ∈ calls.
Proof.
  unfold DistributedPipeline.forward.
  destruct (DistributedPipeline.forward_body check scatter worker_name self inputs ([], None, ∅))
    as [[r st] cs] eqn:E.
  intros [= -> ->]. unfold DistributedPipeline.forward_body in E.
  act_inv E. simplify_eq.
  remember (length (DistributedPipeline.partition_handlers self)) as n eqn:En.
  destruct a2, a4.
  assert (Hfeed : a5.1 = a3.1).
  { eapply (act_for_Ok_inv _ _ (fun x => x.1 = a3.1)); [|exact Hm4|done].
    intros [i b] x x' evs0 _ Hx <-. by eapply feed_chunk_state. }
  destruct n as [|m].
  - simpl in Hm2. unfold act_ret in Hm2. simplify_eq. by rewrite Hfeed in E.
  - replace (reverse (seq 0 (S m))) with (m :: reverse (seq 0 m)) in Hm2
      by (by rewrite seq_S, reverse_snoc).
    simpl in Hm2. apply act_bind_Ok in Hm2 as ([] & s2 & t7 & t9 & Hfirst & Hrest & ->).
    apply launch_result in Hfirst as (Hres & Hcall). rewrite <- En in Hres.
    simpl in Hres. rewrite Nat.sub_0_r in Hres. rewrite decide_True in Hres by done.
    assert (Hkeep : a3.1.2 = Some (RunPipelineResult m m)).
    { eapply (act_for_Ok_inv _ _ (fun x => x.1.2 = Some (RunPipelineResult m m)));
        [|exact Hrest|exact Hres].
      intros i x x' evs0 Hi Hx Hx2. apply launch_result in Hx as (Hx & _).
      rewrite <- En in Hx. simpl in Hx. rewrite Nat.sub_0_r in Hx.
      rewrite decide_False in Hx; [congruence|].
      apply elem_of_reverse, elem_of_seq in Hi. lia. }
    rewrite Hfeed, Hkeep in E. unfold act_ret in E. simplify_eq.
    simpl. rewrite Nat.sub_0_r. split; [lia|]. split; [done|].
    rewrite !elem_of_app. auto.
Qed.
End forward.


(** ** The shape of forwarded_phony *)

Lemma act_for_Ok_all {St E A} (l : list A) (body : A → Act St E unit)
    (Inv : St → Prop) (Q : A → Prop) :
  (∀ a s s' evs, body a s = (Ok (), s', evs) → Inv s → Q a ∧ Inv s') →
  ∀ s s' evs, act_for l body s = (Ok (), s', evs) → Inv s →
    (∀ a, a ∈ l → Q a) ∧ Inv s'.
Proof.
  intros Hb. induction l as [|a l IH]; intros s s' evs H Hs; simpl in H.
  - unfold act_ret in H. simplify_eq. split; [by intros a ?%elem_of_nil|done].
  - apply act_bind_Ok in H as ([] & s1 & t1 & t2 & H1 & H2 & _).
    destruct (Hb a s s1 t1 H1 Hs) as [Ha Hs1].
    destruct (IH s1 s' t2 H2 Hs1) as [Hl Hs'].
    split; [|done]. intros a' [->|?]%elem_of_cons; auto.
Qed.

Lemma init_phony_rows device rank chunks num_input users :
  phony_rows (DistributedPipelineRecord.__init__ device rank chunks num_input users)
             (Z.to_nat num_input).
Proof.
  unfold phony_rows. simpl. apply Forall_replicate. by rewrite length_replicate.
Qed.

Lemma forward_one_bound chunk u n s s' evs :
  PartitionHandler.forward_one chunk u s = (Ok (), s', evs) →
  phony_rows s n →
  (u.2 < Z.of_nat n)%Z ∧
  (phony_rows s' n ∧ DistributedPipelineRecord.users s' = DistributedPipelineRecord.users s).
Proof.
  destruct u as [[user_ref input_idx] output_idx]. unfold PartitionHandler.forward_one.
  intros H Hrows. act_inv H. unfold act_put in H. simplify_eq. simpl.
  pose proof (proj1 (py_index_Ok _ _ _) Hm2) as (kc & Hkc & Hrow).
  assert (Hlen : length a2 = n).
  { unfold phony_rows in Hrows. rewrite Forall_forall in Hrows.
    apply Hrows. by eapply list_elem_of_lookup_2. }
  split; [apply py_index_lt in Hm3; lia|]. split; [|done].
  apply py_store_Ok in Hm5 as (ko & Hko & ->).
  apply py_store_Ok in Hm6 as (kc' & _ & ->).
  unfold phony_rows. simpl. apply Forall_insert; [done|]. by rewrite length_insert.
Qed.

Lemma forward_results_bound self chunk n s s' evs :
  PartitionHandler.forward_results self chunk s = (Ok (), s', evs) →
  phony_rows s n →
  ∀ u, u ∈ DistributedPipelineRecord.users s → (u.2 < Z.of_nat n)%Z.
Proof.
  unfold PartitionHandler.forward_results. intros H Hrows.
  apply act_bind_Ok in H as (r & s1 & t1 & t2 & Hget & H & _).
  assert (r = s ∧ s1 = s) as [-> ->] by (unfold act_get in Hget; by simplify_eq).
  eapply (act_for_Ok_all _ _
            (fun x => phony_rows x n ∧
               DistributedPipelineRecord.users x = DistributedPipelineRecord.users s)
            (fun u => (u.2 < Z.of_nat n)%Z)); [|exact H|done].
  intros u x x' evs0 Hx [Hxr Hxu].
  destruct (forward_one_bound chunk u n x x' evs0 Hx Hxr) as (Hb & Hr' & Hu').
  split; [done|]. split; [done|congruence].
Qed.

(** [wait_for], [fence] and [compute] leave [forwarded_phony] alone. *)
Lemma before_forward_phony to_here self chunk s s' evs :
  act_bind (DistributedPipelineRecord.wait_for chunk) (fun _ =>
    act_bind (PartitionHandler.fence to_here self chunk) (fun _ =>
      PartitionHandler.compute self chunk)) s = (Ok (), s', evs) →
  DistributedPipelineRecord.forwarded_phony s' = DistributedPipelineRecord.forwarded_phony s ∧
  DistributedPipelineRecord.users s' = DistributedPipelineRecord.users s.
Proof.
  intros H.
  apply act_bind_Ok in H as ([] & s1 & t1 & t2 & Hwait & H & _).
  apply act_bind_Ok in H as ([] & s2 & t3 & t4 & Hfence & Hcompute & _).
  assert (H1 : DistributedPipelineRecord.forwarded_phony s1 = DistributedPipelineRecord.forwarded_phony s
             ∧ DistributedPipelineRecord.users s1 = DistributedPipelineRecord.users s).
  { unfold DistributedPipelineRecord.wait_for in Hwait. act_inv Hwait.
    destruct a0 as [b|].
    - unfold act_ret in Hwait. by simplify_eq.
    - act_inv Hwait. destruct (all_some a0) as [ts|]; [|done]. act_inv Hwait.
      unfold act_put in Hwait. by simplify_eq. }
  assert (H2 : DistributedPipelineRecord.forwarded_phony s2 = DistributedPipelineRecord.forwarded_phony s1
             ∧ DistributedPipelineRecord.users s2 = DistributedPipelineRecord.users s1).
  { unfold PartitionHandler.fence in Hfence. act_inv Hfence. case_decide.
    - act_inv Hfence. destruct a0 as [b|]; [|done]. act_inv Hfence.
      unfold act_put in Hfence. by simplify_eq.
    - unfold act_ret in Hfence. by simplify_eq. }
  assert (H3 : DistributedPipelineRecord.forwarded_phony s' = DistributedPipelineRecord.forwarded_phony s2
             ∧ DistributedPipelineRecord.users s' = DistributedPipelineRecord.users s2).
  { unfold PartitionHandler.compute in Hcompute. act_inv Hcompute.
    unfold act_put in Hcompute. by simplify_eq. }
  destruct H1, H2, H3. split; congruence.
Qed.

Lemma run_bound to_here self s s' evs n :
  PartitionHandler.run to_here self s = (Ok (), s', evs) →
  0 < length (DistributedPipelineRecord.batches s) →
  phony_rows s n →
  ∀ u, u ∈ DistributedPipelineRecord.users s → (u.2 < Z.of_nat n)%Z.
Proof.
  unfold PartitionHandler.run. intros H Hm Hrows.
  apply act_bind_Ok in H as (r & s1 & t1 & t2 & Hget & H & _).
  assert (r = s ∧ s1 = s) as [-> ->] by (unfold act_get in Hget; by simplify_eq).
  destruct (length (DistributedPipelineRecord.batches s)) as [|m]; [lia|].
  simpl in H. apply act_bind_Ok in H as ([] & s2 & t3 & t4 & Hfirst & _ & _).
  apply act_bind_Ok in Hfirst as ([] & s3 & t5 & t6 & Hwait & Hfirst & _).
  apply act_bind_Ok in Hfirst as ([] & s4 & t7 & t8 & Hfence & Hfirst & _).
  apply act_bind_Ok in Hfirst as ([] & s5 & t9 & t10 & Hcompute & Hfwd & _).
  destruct (before_forward_phony to_here self (Z.of_nat 0) s s5 (t5 ++ t7 ++ t9)) as [Hfp Hus].
  { unfold act_bind at 1. rewrite Hwait. unfold act_bind at 1. rewrite Hfence.
    rewrite Hcompute. done. }
  rewrite <- Hus. eapply forward_results_bound; [exact Hfwd|].
  unfold phony_rows. by rewrite Hfp.
Qed.

(** C10: a record allocates [chunks] rows of [num_input] token lists;
    [forward_results] indexes a row by the output slot of each user, so on a
    record whose rows have kept that length it returns only when every such
    slot is below [num_input], and a [run] over at least one chunk returns
    only then. *)
Theorem forwarded_phony_bounds (device : TorchDevice) (rank chunks num_input : Z)
    (users : list (option RecordRef * Z * Z)) :
  (0 ≤ chunks)%Z → (0 ≤ num_input)%Z →
  let r := DistributedPipelineRecord.__init__ device rank chunks num_input users in
  Z.of_nat (length (DistributedPipelineRecord.forwarded_phony r)) = chunks ∧
  Forall (fun row => Z.of_nat (length row) = num_input)
         (DistributedPipelineRecord.forwarded_phony r) ∧
  phony_rows r (Z.to_nat num_input) ∧
  (∀ self chunk s s' evs,
     phony_rows s (Z.to_nat num_input) →
     PartitionHandler.forward_results self chunk s = (Ok (), s', evs) →
     ∀ u, u ∈ DistributedPipelineRecord.users s → (u.2 < num_input)%Z) ∧
  (∀ to_here self s s' evs,
     phony_rows s (Z.to_nat num_input) →
     0 < length (DistributedPipelineRecord.batches s) →
     PartitionHandler.run to_here self s = (Ok (), s', evs) →
     ∀ u, u ∈ DistributedPipelineRecord.users s → (u.2 < num_input)%Z).
Proof.
  intros Hc Hn r. split; [|split; [|split; [|split]]].
  - simpl. rewrite length_replicate. lia.
  - simpl. apply Forall_replicate. rewrite length_replicate. lia.
  - apply init_phony_rows.
  - intros self chunk s s' evs Hrows H u Hu.
    pose proof (forward_results_bound self chunk _ s s' evs H Hrows u Hu). lia.
  - intros to_here self s s' evs Hrows Hpos H u Hu.
    pose proof (run_bound to_here self s s' evs (Z.to_nat num_input) H Hpos Hrows u Hu). lia.
Qed.

Lemma feed_phony_rows self chunk input_idx input n :
  phony_rows self n →
  phony_rows (DistributedPipelineRecord.feed self chunk input_idx input).2 n.
Proof.
  unfold DistributedPipelineRecord.feed.
  destruct (DistributedPipelineRecord.feed_locked self chunk input_idx input)
    as [[ph self']|e|] eqn:E; [|done|done].
  unfold DistributedPipelineRecord.feed_locked in E.
  apply bind_Ok in E as (? & _ & E). apply bind_Ok in E as (? & _ & E).
  case_decide; [done|]. simpl in E.
  apply bind_Ok in E as (? & _ & E). apply bind_Ok in E as (? & _ & E).
  apply bind_Ok in E as (? & _ & E). apply bind_Ok in E as (? & _ & E).
  apply bind_Ok in E as (? & _ & E). by simplify_eq.
Qed.

(** The record of partition 1 of [two_inputs], fed and run: its one user
    reads output slot 0, below its input arity 1. *)
Lemma forwarded_phony_bounds_witness :
  Forall (fun u : option RecordRef * Z * Z => (u.2 < 1)%Z)
         (DistributedPipelineRecord.users record1_fed).
Proof.
  apply Forall_forall.
  destruct (forwarded_phony_bounds cpu_device 1 2 1 [(Some 2, 1%Z, 0%Z)]) as (_ & _ & Hrows & _ & Hrun);
    [lia|lia|].
  eapply (Hrun to_here_ok handler1 record1_fed).
  - apply feed_phony_rows, feed_phony_rows. exact Hrows.
  - simpl. lia.
  - reflexivity.
Defined.

(** ** The fence *)

Lemma fence_guard to_here self chunk (r : DistributedPipelineRecord.t) :
  (chunk = 0%Z ∨ DistributedPipelineRecord.users r = [] ∨ (DistributedPipelineRecord.rank r ≤ 0)%Z →
     PartitionHandler.fence to_here self chunk r = (Ok (), r, [])) ∧
  (chunk ≠ 0%Z → DistributedPipelineRecord.users r ≠ [] → (0 < DistributedPipelineRecord.rank r)%Z →
     ∀ batch prev t,
       py_index (DistributedPipelineRecord.batches r) chunk = Ok (Some batch) →
       py_index (DistributedPipelineRecord.forwarded_phony r) (chunk - 1) = Ok prev →
       py_map (fun bp => PartitionHandler.join_all to_here bp.1 bp.2) (zip (value batch) prev) = Ok t →
       ∃ r', PartitionHandler.fence to_here self chunk r = (Ok (), r', []) ∧
             py_index (DistributedPipelineRecord.batches r') chunk = Ok (Some (mkBatch t chunk))).
Proof.
  unfold PartitionHandler.fence. split.
  - intros H. unfold act_bind, act_get. case_decide as Hc; [|done].
    destruct Hc as (? & ? & ?). destruct H as [?|[?|?]]; [done|done|lia].
  - intros H0 Hu Hr batch prev t Hb Hp Ht. unfold act_bind, act_get.
    rewrite decide_True by done. unfold act_lift. rewrite Hb, Hp, Ht.
    pose proof (proj1 (py_index_Ok _ _ _) Hb) as (k & Hk & _).
    unfold py_store at 1. rewrite Hk. unfold act_put. eexists. split; [done|].
    simpl. by apply py_index_insert.
Qed.

(** C2 at the failing input: partition 1 of [two_inputs] receives model
    input 1 directly, yet its rank is 1 and it has a user, so for chunk 1
    [fence] joins the input tensor with the token forwarded for chunk 0. *)
Theorem fence_entry_partition :
  DistributedPipeline.__init__ "1.9.0" heap0 two_inputs 2 "never"
    = (DistributedPipeline.partition_handlers pipeline2, Ok pipeline2) ∧
  entry_partition pipeline2 1 ∧
  (∃ calls,
     DistributedPipeline.forward (fun _ => Ok ()) (fun t _ => Ok [t; t]) "w0" pipeline2
       [input_tensor 1; input_tensor 2] = (Ok (RunPipelineResult 2 2), calls) ∧
     MakeRecord 1 (DistributedPipelineRecord.users record1) ∈ calls) ∧
  DistributedPipelineRecord.rank record1 = 1%Z ∧
  py_index (DistributedPipelineRecord.batches record1_before_fence) 1
    = Ok (Some (mkBatch [input_tensor 11] 1)) ∧
  ∃ r', PartitionHandler.fence to_here_ok handler1 1 record1_before_fence = (Ok (), r', []) ∧
        py_index (DistributedPipelineRecord.batches r') 1
          = Ok (Some (mkBatch [join (input_tensor 11) (PhonyOf 10)] 1)).
Proof.
  split; [by vm_compute|]. split.
  { exists 0, 1%Z. simpl. apply elem_of_cons. right. apply elem_of_cons. by left. }
  split.
  { eexists. split; [by vm_compute|].
    apply elem_of_cons. right. apply elem_of_cons. right. apply elem_of_cons. by left. }
  split; [done|]. split; [by vm_compute|].
  eexists. split; by vm_compute.
Qed.

(** ** A successful split has met every module instantiated *)

Lemma split_module_instantiated h graph g parts :
  _split_module h graph = Ok (g, parts) → all_instantiated h graph.
Proof.
  intros Hsplit m Hm.
  pose proof (_split_module_Ok h graph g parts Hsplit) as (Hml & _ & _ & used & Hinv).
  pose proof (_split_module_partitions h graph g parts Hsplit) as (Hcover & _).
  apply list_elem_of_lookup_1 in Hm as (i & Hi).
  assert (Hin : i ∈ concat parts.*1) by (apply Hcover; by eapply lookup_lt_Some).
  apply elem_of_concat in Hin as (p & Hp & Hip).
  apply list_elem_of_fmap in Hp as ([p' r] & -> & Hpr). simpl in Hip.
  pose proof (si_remote _ _ _ _ _ Hinv p' r Hpr) as Hr.
  destruct (remote_module_of_Ok h g p' r Hr i Hip) as (m' & Hm' & Hsome).
  rewrite Hml, Hi in Hm'. by injection Hm' as <-.
Qed.

(** ** Construction never hangs *)

Lemma halts_bind {A B} (m : res A) (f : A → res B) :
  halts m → (∀ a, halts (f a)) → halts (m ≫= f).
Proof.
  intros Hm Hf H. apply bind_Hang in H as [H|(a & _ & H)]; [done|by apply (Hf a)].
Qed.

Lemma halts_py_map {A B} (f : A → res B) (l : list A) :
  (∀ a, halts (f a)) → halts (py_map f l).
Proof. intros Hf. by apply py_map_not_Hang. Qed.

Lemma halts_for_enumerate {A St} (f : nat → A → St → res St) (l : list A) :
  (∀ i a s, halts (f i a s)) → ∀ i s, halts (for_enumerate f i l s).
Proof.
  intros Hf i s. apply (for_enumerate_not_Hang f (fun _ => True)); [|done|done].
  intros. apply Hf.
Qed.

Lemma halts_find_partition parts user : ∀ i, halts (find_partition i parts user).
Proof.
  induction parts as [|pm parts IH]; intros i; simpl; [done|].
  apply halts_bind; [apply py_get_not_Hang|]. intros p0. case_decide; [done|apply IH].
Qed.

Lemma halts_assign_input g i v : halts (assign_input g i v).
Proof. unfold assign_input. by destruct (inputs g !! i). Qed.

Lemma halts_index l x : halts (index l x).
Proof. unfold index. by destruct (list_index l x). Qed.

Lemma halts_foldl_assign (f : nat → list (Z * Z)) (l : list nat) : ∀ acc,
  halts acc → halts (foldl (fun acc i => a ← acc; assign_input a i (f i)) acc l).
Proof.
  induction l as [|i l IH]; intros acc Hacc; simpl; [done|].
  apply IH. apply halts_bind; [done|]. intros a. apply halts_assign_input.
Qed.

Lemma halts_add_sequence g modules first_input : halts (add_sequence g modules first_input).
Proof.
  unfold add_sequence. apply halts_bind; [by apply halts_foldl_assign|]. intros g3.
  destruct first_input; [|done].
  apply halts_bind; [apply halts_index|]. intros k. apply halts_assign_input.
Qed.

Lemma halts_feed_model_input g module ind : halts (feed_model_input g module ind).
Proof.
  unfold feed_model_input. destruct (_find_or_add g module). apply halts_assign_input.
Qed.

Lemma halts_create_handlers h g chunks cs : ∀ parts i created,
  halts (DistributedPipeline.create_handlers h g chunks cs i parts created).2.
Proof.
  induction parts as [|pm parts IH]; intros i created; simpl; [done|].
  destruct (DistributedPipeline.handler_args h g chunks cs i pm) as [hr|e|] eqn:E;
    [apply IH|done|].
  exfalso. revert E. unfold DistributedPipeline.handler_args. destruct pm as [p m].
  apply halts_bind; [apply py_get_not_Hang|]. intros p0.
  apply halts_bind; [apply py_get_not_Hang|]. intros m0.
  apply halts_bind; [apply get_device_not_Hang|]. intros dev.
  apply halts_bind.
  { unfold py_index. destruct (py_norm _ _); [apply py_get_not_Hang|done]. }
  intros pl. apply halts_bind; [apply py_get_not_Hang|]. by intros ml.
Qed.

Lemma halts_init torch_version h graph chunks checkpoint :
  halts (DistributedPipeline.__init__ torch_version h graph chunks checkpoint).2.
Proof.
  unfold DistributedPipeline.__init__.
  destruct (DistributedPipeline.prepare torch_version h graph chunks checkpoint)
    as [[[[g parts] feeds] cs]|e|] eqn:E.
  - pose proof (halts_create_handlers h g chunks cs parts 0 []) as Hh.
    destruct (DistributedPipeline.create_handlers h g chunks cs 0 parts []) as [created r].
    simpl in *. apply halts_bind; [done|]. by intros hs.
  - done.
  - exfalso. revert E. unfold DistributedPipeline.prepare.
    apply halts_bind.
    { unfold check_pytorch_version. by destruct (list_string_lt _ _). }
    intros _. apply halts_bind; [done|]. intros _.
    case_decide; [done|]. case_decide; [done|].
    apply halts_bind; [apply _split_module_not_Hang|]. intros gp.
    apply halts_bind.
    { apply halts_py_map. intros u. apply halts_bind; [apply halts_find_partition|]. by intros k. }
    intros fs. apply halts_bind; [|by intros c].
    unfold DistributedPipeline.checkpoint_stop_of. by destruct (_ !! _).
Qed.

(** ** Instantiating the layers of a sequence *)

Lemma py_range_cons (a b : Z) : (a < b)%Z → py_range a b = a :: py_range (a + 1) b.
Proof.
  intros Hab. unfold py_range.
  replace (Z.to_nat (b - a)) with (S (Z.to_nat (b - (a + 1)))) by lia.
  simpl. f_equal; [lia|]. rewrite <- fmap_S_seq, <- list_fmap_compose.
  apply list_fmap_ext. intros i x _. simpl. lia.
Qed.

Lemma py_range_nil (a b : Z) : (b ≤ a)%Z → py_range a b = [].
Proof. intros Hab. unfold py_range. by replace (Z.to_nat (b - a)) with 0 by lia. Qed.

Lemma foldl_res_Raise {A B} (f : A → B → res A) (l : list B) e :
  foldl (fun acc x => a ← acc; f a x) (Raise e) l = Raise e.
Proof. induction l as [|x l IH]; [done|]. simpl. apply IH. Qed.

Lemma foldl_res_Hang {A B} (f : A → B → res A) (l : list B) :
  foldl (fun acc x => a ← acc; f a x) Hang l = Hang.
Proof. induction l as [|x l IH]; [done|]. simpl. apply IH. Qed.

Lemma instantiate_cases h l remote_device :
  (∃ m, instantiate h l remote_device = Ok (heap_set h l m)) ∨
  instantiate h l remote_device = Raise (ValueError "unpack").
Proof.
  unfold instantiate. destruct (split_on "/" remote_device) as [|o [|d [|x rest]]]; eauto.
Qed.

Lemma instantiate_range_spec layers remote_device (n : nat) : ∀ h (a : Z),
  (0 ≤ a ≤ Z.of_nat (length layers))%Z →
  match instantiate_range h layers a (a + Z.of_nat n) remote_device with
  | Ok h' =>
      (a + Z.of_nat n ≤ Z.of_nat (length layers))%Z ∧
      ∀ l, (∀ k, Z.to_nat a ≤ k < Z.to_nat a + n → layers !! k ≠ Some l) → h' l = h l
  | Raise e => e = IndexError ∨ e = ValueError "unpack"
  | Hang => False
  end.
Proof.
  induction n as [|n IH]; intros h a Ha; unfold instantiate_range.
  - rewrite py_range_nil by lia. simpl. split; [lia|done].
  - rewrite py_range_cons by lia. simpl.
    destruct (decide (a < Z.of_nat (length layers))%Z) as [Hlt|Hge].
    + destruct (py_index_in_range layers a) as (l & Hl); [lia|]. rewrite Hl. simpl.
      destruct (instantiate_cases h l remote_device) as [(m & ->)| ->];
        [|rewrite foldl_res_Raise; by right].
      specialize (IH (heap_set h l m) (a + 1)%Z).
      unfold instantiate_range in IH.
      replace (a + 1 + Z.of_nat n)%Z with (a + Z.of_nat (S n))%Z in IH by lia.
      destruct (foldl _ _ _) as [h'|e|]; [|apply IH; lia|apply IH; lia].
      destruct IH as [Hb Hsame]; [lia|]. split; [done|].
      intros l0 Hl0. rewrite Hsame.
      * unfold heap_set. case_decide as Heq; [|done]. subst l0. exfalso.
        apply (Hl0 (Z.to_nat a)); [lia|].
        apply py_index_Ok in Hl as (k & Hk & Hlk). unfold py_norm in Hk.
        destruct (decide (a < 0)%Z); [lia|].
        destruct (decide (0 ≤ a < Z.of_nat (length layers))%Z); [|done].
        by injection Hk as <-.
      * intros k Hk. apply Hl0. lia.
    + assert (Hidx : py_index layers a = Raise IndexError).
      { unfold py_index, py_norm. destruct (decide (a < 0)%Z); [lia|].
        destruct (decide (0 ≤ a < Z.of_nat (length layers))%Z); [lia|done]. }
      rewrite Hidx. simpl. rewrite foldl_res_Raise. by left.
Qed.

Lemma sum_Z_nonneg (l : list Z) : Forall (fun n => 0 ≤ n)%Z l → (0 ≤ sum_Z l)%Z.
Proof. induction 1 as [|x l Hx _ IH]; unfold sum_Z in *; simpl; lia. Qed.

Lemma sum_Z_cons (x : Z) (l : list Z) : sum_Z (x :: l) = (x + sum_Z l)%Z.
Proof. reflexivity. Qed.

Lemma instantiate_layers_cons h layers a num dev pairs :
  instantiate_layers h layers a ((num, dev) :: pairs)
  = (instantiate_range h layers a (a + num) dev
       ≫= fun h' => instantiate_layers h' layers (a + num) pairs).
Proof. reflexivity. Qed.

Lemma instantiate_layers_spec layers (pairs : list (Z * string)) : ∀ h (a : Z),
  (0 ≤ a ≤ Z.of_nat (length layers))%Z →
  Forall (fun n => 0 ≤ n)%Z pairs.*1 →
  match instantiate_layers h layers a pairs with
  | Ok h' =>
      (a + sum_Z pairs.*1 ≤ Z.of_nat (length layers))%Z ∧
      ∀ l, (∀ k, Z.to_nat a ≤ k < Z.to_nat (a + sum_Z pairs.*1) → layers !! k ≠ Some l) →
           h' l = h l
  | Raise e => e = IndexError ∨ e = ValueError "unpack"
  | Hang => False
  end.
Proof.
  induction pairs as [|[num dev] pairs IH]; intros h a Ha Hnn.
  - change (sum_Z ([] : list (Z * string)).*1) with 0%Z. simpl. split; [lia|done].
  - rewrite fmap_cons in *. apply Forall_cons in Hnn as [Hnum Hnn]. simpl in Hnum.
    rewrite sum_Z_cons, instantiate_layers_cons. simpl fst.
    pose proof (instantiate_range_spec layers dev (Z.to_nat num) h a Ha) as Hr.
    replace (a + Z.of_nat (Z.to_nat num))%Z with (a + num)%Z in Hr by lia.
    destruct (instantiate_range h layers a (a + num) dev) as [h1|e|]; [|done|done].
    destruct Hr as [Hb1 Hsame1].
    specialize (IH h1 (a + num)%Z).
    change (Ok h1 ≫= _) with (instantiate_layers h1 layers (a + num) pairs).
    destruct (instantiate_layers h1 layers (a + num) pairs) as [h'|e|];
      [|apply IH; [lia|done]|apply IH; [lia|done]].
    destruct IH as [Hb Hsame]; [lia|done|].
    pose proof (sum_Z_nonneg _ Hnn) as Hsum.
    split; [lia|]. intros l Hl. rewrite Hsame, Hsame1; [done| |].
    + intros k Hk. apply Hl. lia.
    + intros k Hk. apply Hl. lia.
Qed.

(** ** create_sequence_pipeline with a balance that does not add up *)

Lemma assign_input_modules g i v g' :
  assign_input g i v = Ok g' → modules_list g' = modules_list g.
Proof. unfold assign_input. destruct (inputs g !! i); [|done]. by intros [= <-]. Qed.

Lemma foldl_assign_modules (f : nat → list (Z * Z)) (l : list nat) : ∀ acc g',
  foldl (fun acc i => a ← acc; assign_input a i (f i)) acc l = Ok g' →
  ∃ g0, acc = Ok g0 ∧ modules_list g' = modules_list g0.
Proof.
  induction l as [|i l IH]; intros acc g' H; simpl in H; [by exists g'|].
  apply IH in H as (g1 & H1 & Hm). apply bind_Ok in H1 as (g0 & -> & H1).
  exists g0. split; [done|]. rewrite Hm. by eapply assign_input_modules.
Qed.

Lemma add_sequence_modules g modules g' :
  add_sequence g modules None = Ok g' → modules_list g' = modules_list g ++ modules.
Proof.
  unfold add_sequence. intros H. apply bind_Ok in H as (g3 & H3 & [= <-]).
  by apply foldl_assign_modules in H3 as (g2 & [= <-] & ->).
Qed.

Lemma feed_model_input_modules g module ind g' m :
  feed_model_input g module ind = Ok g' → m ∈ modules_list g → m ∈ modules_list g'.
Proof.
  unfold feed_model_input, _find_or_add. intros H Hm.
  destruct (list_index (modules_list g) module).
  - apply assign_input_modules in H. by rewrite H.
  - apply assign_input_modules in H. rewrite H. simpl. apply elem_of_app. by left.
Qed.

Lemma init_Ok_split torch_version h graph chunks checkpoint p :
  (DistributedPipeline.__init__ torch_version h graph chunks checkpoint).2 = Ok p →
  ∃ g parts, _split_module h graph = Ok (g, parts).
Proof.
  unfold DistributedPipeline.__init__.
  destruct (DistributedPipeline.prepare torch_version h graph chunks checkpoint)
    as [[[[g parts] feeds] cs]|e|] eqn:E; [|done|done].
  intros _. unfold DistributedPipeline.prepare in E.
  apply bind_Ok in E as (? & _ & E). apply bind_Ok in E as (? & _ & E).
  case_decide; [done|]. case_decide; [done|].
  apply bind_Ok in E as ([g' parts'] & Hs & _). eauto.
Qed.

(** C7 as stated fails: two fresh modules, balance [2; 5] and one device.
    [zip] stops after the first entry, both modules are instantiated, and
    the pipeline is built although the balance sums to 7.  With balance [1]
    the call does raise, but the [AttributeError] for the attribute [on] of
    the module left uninstantiated. *)
Lemma create_sequence_pipeline_counterexample :
  sum_Z [2; 5]%Z ≠ Z.of_nat (length [0; 1]) ∧
  returns (create_sequence_pipeline "1.9.0" fresh_heap [0; 1] [2; 5]%Z ["w0/cpu"] 1 "except_last") ∧
  sum_Z [1]%Z ≠ Z.of_nat (length [0; 1]) ∧
  create_sequence_pipeline "1.9.0" fresh_heap [0; 1] [1%Z] ["w0/cpu"] 1 "except_last"
    = Raise (AttributeError "on").
Proof.
  split; [vm_compute; discriminate|]. split; [|split; [vm_compute; discriminate|by vm_compute]].
  eexists. vm_compute. reflexivity.
Qed.

(** Two more inputs the call accepts although the balance does not add
    up: a negative entry, and modules that already have a remote device. *)
Example create_sequence_pipeline_negative_balance :
  returns (create_sequence_pipeline "1.9.0" fresh_heap [0; 1] [-1; 2]%Z ["w0/cpu"; "w1/cpu"] 1 "except_last").
Proof. eexists. vm_compute. reflexivity. Qed.

Example create_sequence_pipeline_placed_layers :
  returns (create_sequence_pipeline "1.9.0" heap0 [0; 1] [1%Z] ["w0/cpu"] 1 "except_last").
Proof. eexists. vm_compute. reflexivity. Qed.

(** ** The statements on example graphs *)

Lemma chain3_fully_wired : fully_wired chain3.
Proof. split; [done|]. intros [|[|[|i]]] Hi; simpl in *; eauto; lia. Qed.

Lemma chain3_index_ordered : index_ordered chain3.
Proof.
  intros i j p s (l & Hl & Hj). unfold chain3 in Hl. simpl in Hl.
  destruct i as [|[|[|i]]]; simpl in Hl; try done; injection Hl as <-;
    (destruct j as [|j]; simpl in Hj; [|done]); injection Hj as <- _; lia.
Qed.

Lemma heap0_all_instantiated g : all_instantiated heap0 g.
Proof. intros m _. by eexists. Qed.

Lemma split_module_index_ordered_witness :
  ∃ g parts,
    _split_module heap0 chain3 = Ok (g, parts) ∧
    (∀ i, i ∈ concat parts.*1 ↔ i < length (modules_list chain3)) ∧
    (∀ i, i < length (modules_list chain3) →
       ∃ k p, parts.*1 !! k = Some p ∧ i ∈ p ∧
         ∀ k' p', parts.*1 !! k' = Some p' → i ∈ p' → k' = k) ∧
    NoDup (concat parts.*1) ∧
    (∀ p, p ∈ parts.*1 → p ≠ []) ∧
    (∀ p k a b, p ∈ parts.*1 → p !! k = Some a → p !! S k = Some b →
       extension_rule heap0 chain3 a b).
Proof.
  exact (split_module_index_ordered heap0 chain3 chain3_fully_wired chain3_index_ordered
           (heap0_all_instantiated chain3)).
Defined.

Example chain3_one_partition :
  (λ gp, gp.2.*1) <$> (match _split_module heap0 chain3 with Ok gp => Some gp | _ => None end)
    = Some [[0; 1; 2]].
Proof. reflexivity. Qed.

Lemma two_inputs_built : built two_inputs.
Proof.
  apply (built_add_multi_input_layer
           (mkGraph [0; 1] [Some [((-1)%Z, 0%Z)]; Some [((-1)%Z, 1%Z)]] [] []) 2 [0; 1]);
    [|reflexivity].
  apply (built_feed_model_input (mkGraph [0] [Some [((-1)%Z, 0%Z)]] [] []) 1 1);
    [|reflexivity].
  apply (built_feed_model_input new_graph 0 0); [exact built_new|reflexivity].
Qed.

Lemma consumers_head_partitions_witness :
  ∃ feeds,
    DistributedPipeline.find_input_feeds (DistributedPipeline.graph pipeline2)
      (DistributedPipeline.partitions pipeline2) = Ok feeds.
Proof.
  exact (proj1 (proj2 (proj2
    (consumers_head_partitions heap0 two_inputs (DistributedPipeline.graph pipeline2)
       (DistributedPipeline.partitions pipeline2) two_inputs_built eq_refl)))).
Defined.

(** A terminal partition returns the gathered tensor; a partition with a
    user returns [None]. *)
Example run_pipeline_terminal :
  ∃ r' evs,
    PartitionHandler.run_pipeline to_here_ok gather_one handler2 record2_fed
      = (Ok (Some (mkTensor cpu_device 21 [])), r', evs).
Proof. eexists _, _. by vm_compute. Qed.

Example run_pipeline_inner :
  ∃ r' evs,
    PartitionHandler.run_pipeline to_here_ok gather_one handler1 record1_fed = (Ok None, r', evs).
Proof. eexists _, _. by vm_compute. Qed.

(** * Further properties of the code *)

(** ** str.split *)

Lemma split_on_nonempty c s : split_on c s ≠ [].
Proof. destruct s as [|x s]; simpl; [done|]. destruct (Ascii.eqb x c); [done|]. by destruct (split_on c s). Qed.

Lemma split_on_length c s : length (split_on c s) = S (count_char c s).
Proof.
  induction s as [|x s IH]; simpl; [done|].
  destruct (Ascii.eqb x c); simpl; [by rewrite IH|].
  destruct (split_on c s) eqn:E; simpl in *; [done|]. done.
Qed.

Lemma split_on_none c s : count_char c s = 0 → split_on c s = [s].
Proof.
  induction s as [|x s IH]; simpl; [done|].
  destruct (Ascii.eqb x c); [done|]. intros H. by rewrite IH.
Qed.

Lemma split_on_sep c a b :
  count_char c a = 0 → split_on c (a +:+ String c b) = a :: split_on c b.
Proof.
  induction a as [|x a IH]; simpl.
  - intros _. by rewrite Ascii.eqb_refl.
  - destruct (Ascii.eqb x c); [done|]. intros H. by rewrite IH.
Qed.

Lemma split_on_one c s b : split_on c s = [b] → s = b ∧ count_char c s = 0.
Proof.
  revert b. induction s as [|x s IH]; simpl; intros b.
  - by intros [= <-].
  - destruct (Ascii.eqb x c).
    + intros [= _ H]. by apply split_on_nonempty in H.
    + destruct (split_on c s) as [|p ps] eqn:E; [by apply split_on_nonempty in E|].
      intros [= <- ->]. destruct (IH p eq_refl) as [-> ?]. done.
Qed.

Lemma split_on_two c s a b :
  split_on c s = [a; b] → s = a +:+ String c b ∧ count_char c a = 0 ∧ count_char c b = 0.
Proof.
  revert a. induction s as [|x s IH]; simpl; intros a; [done|].
  destruct (Ascii.eqb x c) eqn:Ex.
  - intros [= <- H]. apply split_on_one in H as [-> ?].
    apply Ascii.eqb_eq in Ex as ->. done.
  - destruct (split_on c s) as [|p ps] eqn:E; [by apply split_on_nonempty in E|].
    intros [= <- ->]. destruct (IH p eq_refl) as (-> & ? & ?). simpl. by rewrite Ex.
Qed.

Lemma split_on_head c x s :
  Ascii.eqb x c = false →
  ∃ p, head (split_on c (String x s)) = Some (String x p).
Proof.
  intros Hx. simpl. rewrite Hx.
  destruct (split_on c s) as [|p ps] eqn:E; [by apply split_on_nonempty in E|]. by exists p.
Qed.

(** ** check_pytorch_version *)

(** X1: the local version label is ignored: a version [v+label] is
    accepted exactly when [v] is. *)
Theorem check_pytorch_version_local_label (v label : string) :
  count_char "+" v = 0 →
  check_pytorch_version (v +:+ String "+" label) = check_pytorch_version v.
Proof.
  intros Hv. unfold check_pytorch_version.
  rewrite split_on_sep by done. rewrite (split_on_none "+" v) by done. done.
Qed.

Lemma check_pytorch_version_local_label_witness :
  check_pytorch_version ("1.9.0" +:+ String "+" "cu111") = check_pytorch_version "1.9.0".
Proof. apply check_pytorch_version_local_label. reflexivity. Defined.

(** X2: the two leading components are compared as strings.  Every
    version that starts with [1.9] or with [2.] is accepted, and every
    version that starts with [1.1], so 1.10 to 1.19 as well, is refused. *)
Theorem check_pytorch_version_string_order (rest : string) :
  check_pytorch_version ("1.9" +:+ rest) = Ok () ∧
  check_pytorch_version ("2." +:+ rest) = Ok () ∧
  check_pytorch_version ("1.1" +:+ rest) = Raise too_old.
Proof.
  unfold check_pytorch_version.
  change ("1.9" +:+ rest) with (String "1" (String "." (String "9" rest))).
  change ("2." +:+ rest) with (String "2" (String "." rest)).
  change ("1.1" +:+ rest) with (String "1" (String "." (String "1" rest))).
  simpl.
  destruct (split_on "+" rest) as [|r rs] eqn:E; [by apply split_on_nonempty in E|].
  simpl. destruct (split_on "." r) as [|q qs] eqn:E2; [by apply split_on_nonempty in E2|].
  simpl. split; [by destruct q|]. done.
Qed.

(** ** PipelineModule *)

Lemma instantiate_Ok h l s h' :
  instantiate h l s = Ok h' →
  ∃ on_ dev, s = on_ +:+ String "/" dev ∧ count_char "/" on_ = 0 ∧ count_char "/" dev = 0 ∧
    h' = heap_set h l (mkPipelineModule (num_inputs (h l)) (num_outputs (h l)) (module_args (h l))
                         (Some (mkRemote on_ dev (CreateModuleRef on_ (module_args (h l)) dev)))).
Proof.
  unfold instantiate. destruct (split_on "/" s) as [|a [|b [|c rest]]] eqn:E; try done.
  intros [= <-]. apply split_on_two in E as (-> & ? & ?). by exists a, b.
Qed.

Lemma instantiate_valid h l on_ dev :
  count_char "/" on_ = 0 → count_char "/" dev = 0 →
  instantiate h l (on_ +:+ String "/" dev)
  = Ok (heap_set h l (mkPipelineModule (num_inputs (h l)) (num_outputs (h l)) (module_args (h l))
                        (Some (mkRemote on_ dev (CreateModuleRef on_ (module_args (h l)) dev))))).
Proof.
  intros Ho Hd. unfold instantiate. rewrite split_on_sep by done.
  by rewrite (split_on_none _ dev) by done.
Qed.

Lemma heap_set_same h l m : heap_set h l m l = m.
Proof. unfold heap_set. by rewrite decide_True. Qed.

Lemma heap_set_other h l m l' : l' ≠ l → heap_set h l m l' = h l'.
Proof. intros. unfold heap_set. by rewrite decide_False. Qed.

(** X3: a remote device [worker/device] with no further slash is taken
    apart as written: after [instantiate], and after the constructor called
    with that [remote_device], the module is on [worker] and [device], its
    reference was created on [worker], its other attributes are those given,
    and no other module has changed. *)
Theorem instantiate_round_trip (h : Heap) (l : loc) (worker dev : string) :
  count_char "/" worker = 0 → count_char "/" dev = 0 →
  (∃ h', instantiate h l (worker +:+ String "/" dev) = Ok h' ∧
     get_on (h' l) = Ok worker ∧ get_device (h' l) = Ok dev ∧
     get_module_rref (h' l) = Ok (CreateModuleRef worker (module_args (h l)) dev) ∧
     num_inputs (h' l) = num_inputs (h l) ∧ num_outputs (h' l) = num_outputs (h l) ∧
     module_args (h' l) = module_args (h l) ∧
     ∀ l', l' ≠ l → h' l' = h l') ∧
  (∀ args n_in n_out, ∃ h',
     PipelineModule_init h l args n_in n_out (Some (worker +:+ String "/" dev)) = Ok h' ∧
     h' l = mkPipelineModule n_in n_out args (Some (mkRemote worker dev (CreateModuleRef worker args dev))) ∧
     ∀ l', l' ≠ l → h' l' = h l').
Proof.
  intros Hw Hd. split.
  - eexists. split; [by apply instantiate_valid|].
    unfold get_on, get_device, get_module_rref. rewrite !heap_set_same. simpl.
    repeat split; try done. intros l' Hl. by apply heap_set_other.
  - intros args n_in n_out. unfold PipelineModule_init. eexists.
    split; [by apply instantiate_valid|]. rewrite !heap_set_same. simpl.
    split; [done|]. intros l' Hl. by rewrite !heap_set_other.
Qed.

Lemma instantiate_round_trip_witness :
  ∃ h', instantiate fresh_heap 0 "trainer0/cuda:0" = Ok h' ∧
        get_on (h' 0) = Ok "trainer0" ∧ get_device (h' 0) = Ok "cuda:0".
Proof.
  destruct (instantiate_round_trip fresh_heap 0 "trainer0" "cuda:0") as [(h' & H & Ho & Hd & _) _];
    [reflexivity|reflexivity|].
  exists h'. split; [exact H|]. split; [exact Ho|exact Hd].
Defined.

(** X4: [instantiate] returns exactly for the strings with one slash,
    and then the string is [on], a slash and [device]; for any other string,
    a bare worker name included, the unpacking of [split] raises
    [ValueError] (and so does the constructor given that string). *)
Theorem instantiate_one_slash (h : Heap) (l : loc) (remote_device : string) :
  (count_char "/" remote_device = 1 →
     ∃ h' r, instantiate h l remote_device = Ok h' ∧ remote (h' l) = Some r ∧
             remote_device = on r +:+ String "/" (device r)) ∧
  (count_char "/" remote_device ≠ 1 →
     instantiate h l remote_device = Raise (ValueError "unpack") ∧
     ∀ args n_in n_out,
       PipelineModule_init h l args n_in n_out (Some remote_device) = Raise (ValueError "unpack")).
Proof.
  pose proof (split_on_length "/" remote_device) as Hlen.
  split; intros Hc.
  - rewrite Hc in Hlen.
    destruct (split_on "/" remote_device) as [|a [|b [|c rest]]] eqn:E; try done.
    apply split_on_two in E as (-> & Ha & Hb).
    eexists _, _. split; [by apply instantiate_valid|]. by rewrite heap_set_same.
  - assert (Hi : ∀ h0, instantiate h0 l remote_device = Raise (ValueError "unpack")).
    { intros h0. unfold instantiate.
      destruct (split_on "/" remote_device) as [|a [|b [|c rest]]] eqn:E; try done.
      simpl in Hlen. lia. }
    split; [apply Hi|]. intros args n_in n_out. unfold PipelineModule_init. apply Hi.
Qed.


(** ** list.index *)

Lemma list_index_Some l x i :
  list_index l x = Some i → l !! i = Some x ∧ ∀ j, j < i → l !! j ≠ Some x.
Proof.
  revert i. induction l as [|y l IH]; intros i; simpl; [done|].
  destruct (decide (y = x)) as [->|Hne].
  - intros [= <-]. split; [done|]. lia.
  - destruct (list_index l x) as [k|] eqn:E; [|done]. intros [= <-].
    destruct (IH k eq_refl) as [H1 H2]. split; [done|].
    intros [|j] Hj; simpl; [congruence|]. apply H2. lia.
Qed.

Lemma list_index_None l x : list_index l x = None ↔ x ∉ l.
Proof.
  induction l as [|y l IH]; simpl.
  - split; [intros _; apply not_elem_of_nil|done].
  - destruct (decide (y = x)) as [->|Hne].
    + split; [done|]. intros H. exfalso. apply H. by left.
    + destruct (list_index l x) eqn:E; simpl.
      * split; [done|]. intros H. exfalso. apply not_elem_of_cons in H as [_ H].
        by apply IH in H.
      * split; [|done]. intros _. apply not_elem_of_cons. split; [done|]. by apply IH.
Qed.

Lemma list_index_elem l x : x ∈ l → ∃ i, list_index l x = Some i.
Proof.
  intros H. destruct (list_index l x) as [i|] eqn:E; [by exists i|].
  by apply list_index_None in E.
Qed.

Lemma list_index_lt l x i : list_index l x = Some i → i < length l.
Proof. intros [H _]%list_index_Some. by apply lookup_lt_Some in H. Qed.

Lemma list_index_app_l l l' x i :
  list_index l x = Some i → list_index (l ++ l') x = Some i.
Proof.
  revert i. induction l as [|y l IH]; intros i; simpl; [done|].
  destruct (decide (y = x)); [done|].
  destruct (list_index l x) as [k|] eqn:E; [|done]. intros [= <-]. by rewrite (IH k).
Qed.

Lemma list_index_app_new l x :
  list_index l x = None → list_index (l ++ [x]) x = Some (length l).
Proof.
  induction l as [|y l IH]; simpl.
  - intros _. by rewrite decide_True.
  - destruct (decide (y = x)); [done|].
    destruct (list_index l x) eqn:E; [done|]. intros _. by rewrite IH.
Qed.

Lemma list_index_inj l x y i :
  list_index l x = Some i → list_index l y = Some i → x = y.
Proof. intros [H1 _]%list_index_Some [H2 _]%list_index_Some. congruence. Qed.

Lemma index_Ok l x i : index l x = Ok i ↔ list_index l x = Some i.
Proof. unfold index. destruct (list_index l x); split; congruence. Qed.

Lemma index_missing l x : x ∉ l → index l x = Raise (ValueError "not in list").
Proof. intros H%list_index_None. unfold index. by rewrite H. Qed.

Lemma last_occurrence (l : list loc) (m : loc) :
  m ∈ l → ∃ j, l !! j = Some m ∧ ∀ j', j < j' → l !! j' ≠ Some m.
Proof.
  induction l as [|x l IH]; [by intros ?%elem_of_nil|].
  intros H. destruct (decide (m ∈ l)) as [Hin|Hnin].
  - destruct (IH Hin) as (j & Hj & Hlast). exists (S j). split; [done|].
    intros [|j'] Hlt; [lia|]. simpl. apply Hlast. lia.
  - apply elem_of_cons in H as [->|?]; [|done]. exists 0. split; [done|].
    intros [|j'] Hlt; [lia|]. simpl. intros Hl. apply Hnin. by eapply list_elem_of_lookup_2.
Qed.

(** ** _find_or_add *)

Lemma find_or_add_cases g module g' i :
  _find_or_add g module = (g', i) →
  (list_index (modules_list g) module = Some i ∧ g' = g) ∨
  (list_index (modules_list g) module = None ∧ i = length (modules_list g) ∧
   g' = mkGraph (modules_list g ++ [module]) (inputs g ++ [None])
               (output_users g) (model_input_users g)).
Proof.
  unfold _find_or_add. destruct (list_index (modules_list g) module) as [k|] eqn:E.
  - intros [= <- <-]. by left.
  - intros [= <- <-]. right. split; [done|]. simpl. rewrite length_app. simpl.
    split; [lia|done].
Qed.

Lemma find_or_add_index g module g' i :
  _find_or_add g module = (g', i) → list_index (modules_list g') module = Some i.
Proof.
  intros [[H ->]|(H & -> & ->)]%find_or_add_cases; [done|]. simpl.
  by apply list_index_app_new.
Qed.

Lemma find_or_add_keeps g module g' i m k :
  _find_or_add g module = (g', i) →
  list_index (modules_list g) m = Some k → list_index (modules_list g') m = Some k.
Proof.
  intros [[H ->]|(H & -> & ->)]%find_or_add_cases Hm; [done|]. simpl.
  by apply list_index_app_l.
Qed.

Lemma find_or_add_inputs g module g' i k :
  _find_or_add g module = (g', i) →
  k < length (inputs g) → inputs g' !! k = inputs g !! k.
Proof.
  intros [[H ->]|(H & -> & ->)]%find_or_add_cases Hk; [done|]. simpl.
  by rewrite lookup_app_l.
Qed.

Lemma find_or_add_length g module g' i :
  _find_or_add g module = (g', i) → length (modules_list g) ≤ length (modules_list g').
Proof.
  intros [[H ->]|(H & -> & ->)]%find_or_add_cases; [done|]. simpl. rewrite length_app. lia.
Qed.

(** X5: [_find_or_add] hands back the position of the first occurrence
    of the module, adding the module, with an unassigned input list, at the
    end when it is new.  Modules already in the graph keep their positions
    and their input lists, the graph keeps one input entry per module, and a
    second call finds the module where the first one put it. *)
Theorem find_or_add_position (g : PipelineModulesGraph) (module : loc) :
  balanced g →
  ∃ g' i, _find_or_add g module = (g', i) ∧
    list_index (modules_list g') module = Some i ∧
    balanced g' ∧
    _find_or_add g' module = (g', i) ∧
    (∀ m k, list_index (modules_list g) m = Some k → list_index (modules_list g') m = Some k) ∧
    (∀ k, k < length (inputs g) → inputs g' !! k = inputs g !! k) ∧
    (module ∈ modules_list g → g' = g) ∧
    (module ∉ modules_list g →
       i = length (modules_list g) ∧ modules_list g' = modules_list g ++ [module] ∧
       inputs g' = inputs g ++ [None]).
Proof.
  intros Hb. destruct (_find_or_add g module) as [g' i] eqn:E. exists g', i.
  pose proof (find_or_add_index _ _ _ _ E) as Hi.
  split; [done|]. split; [done|]. split; [by eapply find_or_add_balanced|].
  split; [unfold _find_or_add; by rewrite Hi|].
  split; [intros m k; by eapply find_or_add_keeps|].
  split; [intros k; by eapply find_or_add_inputs|].
  apply find_or_add_cases in E as [[H ->]|(H & -> & ->)].
  - split; [done|]. intros Hn. apply list_index_None in Hn. congruence.
  - split; [|done]. intros Hin. apply list_index_None in H. done.
Qed.

Lemma find_or_add_position_witness :
  ∃ g' i, _find_or_add chain3 7 = (g', i) ∧ list_index (modules_list g') 7 = Some i.
Proof.
  destruct (find_or_add_position chain3 7) as (g' & i & H & Hi & _); [reflexivity|].
  exists g', i. split; [exact H|exact Hi].
Defined.

(** ** The builder methods *)

Lemma assign_input_Ok g i v g' :
  assign_input g i v = Ok g' ↔
  i < length (inputs g) ∧ g' = set_inputs g (<[i := Some v]> (inputs g)).
Proof.
  unfold assign_input. destruct (inputs g !! i) eqn:E.
  - apply lookup_lt_Some in E. split; [by intros [= <-]|by intros [_ ->]].
  - apply lookup_ge_None in E. split; [done|]. intros [? _]. lia.
Qed.

Lemma assign_input_in_range g i v :
  i < length (inputs g) → assign_input g i v = Ok (set_inputs g (<[i := Some v]> (inputs g))).
Proof. intros. by apply assign_input_Ok. Qed.

Lemma assign_input_out_of_range g i v :
  length (inputs g) ≤ i → assign_input g i v = Raise IndexError.
Proof.
  intros H. unfold assign_input. by rewrite (proj2 (lookup_ge_None _ _) H).
Qed.

Lemma foldl_assign_inputs (f : nat → list (Z * Z)) (l : list nat) : ∀ g,
  (∀ i, i ∈ l → i < length (inputs g)) →
  ∃ g', foldl (fun acc i => a ← acc; assign_input a i (f i)) (Ok g) l = Ok g' ∧
    modules_list g' = modules_list g ∧
    output_users g' = output_users g ∧ model_input_users g' = model_input_users g ∧
    length (inputs g') = length (inputs g) ∧
    ∀ i, inputs g' !! i = if decide (i ∈ l) then Some (Some (f i)) else inputs g !! i.
Proof.
  induction l as [|a l IH]; intros g Hl; simpl.
  - exists g. do 5 (split; [done|]). intros i. destruct (decide (i ∈ [])) as [[]%elem_of_nil|]; done.
  - rewrite assign_input_in_range by (apply Hl; by left).
    destruct (IH (set_inputs g (<[a := Some (f a)]> (inputs g)))) as (g' & H & Hm & Ho & Hu & Hn & Hi).
    { intros i Hi. simpl. rewrite length_insert. apply Hl. by right. }
    exists g'. split; [done|]. split; [done|]. split; [done|]. split; [done|].
    split; [by rewrite Hn; simpl; rewrite length_insert|].
    intros i. rewrite Hi. simpl.
    destruct (decide (i ∈ l)) as [Hin|Hnin].
    + rewrite decide_True; [done|by right].
    + destruct (decide (i = a)) as [->|Hne].
      * rewrite decide_True by (by left). apply list_lookup_insert_eq. apply Hl. by left.
      * rewrite decide_False by (intros [?|?]%elem_of_cons; done).
        by rewrite list_lookup_insert_ne.
Qed.

(** The graph [add_sequence] has made before it looks at [first_input]. *)
Lemma add_sequence_None g modules :
  balanced g →
  ∃ g', add_sequence g modules None = Ok g' ∧
    modules_list g' = modules_list g ++ modules ∧
    length (inputs g') = length (modules_list g) + length modules ∧
    (∀ i, i < length (modules_list g) → inputs g' !! i = inputs g !! i) ∧
    (modules ≠ [] → inputs g' !! length (modules_list g) = Some None) ∧
    (∀ k, 0 < k < length modules →
       inputs g' !! (length (modules_list g) + k)
       = Some (Some [(Z.of_nat (length (modules_list g) + k) - 1, 0)%Z])).
Proof.
  intros Hb. unfold balanced in Hb. unfold add_sequence.
  set (g2 := mkGraph _ _ _ _).
  destruct (foldl_assign_inputs (fun i => [(Z.of_nat i - 1, 0)%Z])
              (seq (length (modules_list g) + 1) (length modules - 1)) g2)
    as (g3 & H3 & Hm & _ & _ & Hn & Hi).
  { intros i [Hi1 Hi2]%elem_of_seq. simpl. rewrite length_app, length_replicate. lia. }
  exists g3. rewrite H3. simpl. split; [done|]. split; [done|].
  split; [rewrite Hn; simpl; rewrite length_app, length_replicate; lia|].
  split; [|split].
  - intros i Hlt. rewrite Hi. rewrite decide_False by (rewrite elem_of_seq; lia).
    simpl. rewrite lookup_app_l by lia. done.
  - intros Hne. rewrite Hi. rewrite decide_False by (rewrite elem_of_seq; lia).
    simpl. rewrite lookup_app_r by lia. rewrite Hb, Nat.sub_diag.
    destruct modules; [done|]. done.
  - intros k Hk. rewrite Hi. rewrite decide_True by (rewrite elem_of_seq; lia). done.
Qed.

(** X6: on a graph with one input entry per module, [add_sequence]
    without [first_input] always returns: the modules are appended as given
    (also those the graph already holds), the first of them has no input
    assigned, each later one takes output 0 of the module before it, and the
    wiring that was there is untouched. *)
Theorem add_sequence_wiring (g : PipelineModulesGraph) (modules : list loc) :
  balanced g →
  ∃ g', add_sequence g modules None = Ok g' ∧
    balanced g' ∧
    modules_list g' = modules_list g ++ modules ∧
    (∀ i, i < length (modules_list g) → inputs g' !! i = inputs g !! i) ∧
    (modules ≠ [] → inputs g' !! length (modules_list g) = Some None) ∧
    (∀ k, 0 < k < length modules →
       inputs g' !! (length (modules_list g) + k)
       = Some (Some [(Z.of_nat (length (modules_list g) + k) - 1, 0)%Z])).
Proof.
  intros Hb. destruct (add_sequence_None g modules Hb) as (g' & H & Hm & Hn & H1 & H2 & H3).
  exists g'. split; [done|]. split; [|done].
  unfold balanced. rewrite Hn, Hm, length_app. done.
Qed.

Lemma add_sequence_wiring_witness :
  ∃ g', add_sequence new_graph [0; 1; 2] None = Ok g' ∧
        modules_list g' = [0; 1; 2] ∧
        inputs g' !! 2 = Some (Some [(1, 0)%Z]).
Proof.
  destruct (add_sequence_wiring new_graph [0; 1; 2]) as (g' & H & _ & Hm & _ & _ & Hk);
    [reflexivity|].
  exists g'. split; [exact H|]. split; [exact Hm|]. apply (Hk 2). simpl. lia.
Defined.

(** X7: [first_input] is looked up after the new modules were appended.
    A module found neither in the graph nor among the new modules gives the
    [ValueError] of [list.index]; with no new module the assignment to
    [inputs[old_m]] is out of range; otherwise the first new module takes
    output 0 of [first_input], which may be one of the new modules itself,
    and the rest is as without [first_input]. *)
Theorem add_sequence_first_input (g : PipelineModulesGraph) (modules : list loc) (first_input : loc) :
  balanced g →
  (first_input ∉ modules_list g ++ modules →
     add_sequence g modules (Some first_input) = Raise (ValueError "not in list")) ∧
  (first_input ∈ modules_list g → modules = [] →
     add_sequence g modules (Some first_input) = Raise IndexError) ∧
  (∀ k, list_index (modules_list g ++ modules) first_input = Some k → modules ≠ [] →
     ∃ g0 g', add_sequence g modules None = Ok g0 ∧
       add_sequence g modules (Some first_input) = Ok g' ∧
       modules_list g' = modules_list g0 ∧
       inputs g' = <[length (modules_list g) := Some [(Z.of_nat k, 0%Z)]]> (inputs g0)).
Proof.
  intros Hb. destruct (add_sequence_None g modules Hb) as (g0 & H0 & Hm & Hn & _).
  assert (Hsome : add_sequence g modules (Some first_input)
                  = (k ← index (modules_list g0) first_input;
                     assign_input g0 (length (modules_list g)) [(Z.of_nat k, 0%Z)])).
  { unfold add_sequence in *. apply bind_Ok in H0 as (g3 & H3 & [= <-]). by rewrite H3. }
  rewrite Hsome, Hm. split; [|split].
  - intros Hnin. by rewrite index_missing.
  - intros Hin ->. rewrite app_nil_r. apply list_index_elem in Hin as [k Hk].
    rewrite (proj2 (index_Ok _ _ _) Hk). simpl.
    apply assign_input_out_of_range. rewrite Hn. simpl. lia.
  - intros k Hk Hne. exists g0. eexists. split; [done|].
    rewrite (proj2 (index_Ok _ _ _) Hk). simpl.
    rewrite assign_input_in_range; [done|]. rewrite Hn. destruct modules; [done|]. simpl. lia.
Qed.

Lemma add_sequence_first_input_witness :
  add_sequence chain3 [] (Some 0) = Raise IndexError.
Proof.
  apply (add_sequence_first_input chain3 [] 0); [reflexivity| |reflexivity].
  apply (list_elem_of_lookup_2 _ 0). reflexivity.
Defined.


(** ** feed_model_input and add_multi_input_layer *)

Lemma find_or_add_assign g module v :
  balanced g →
  ∃ g1 i g', _find_or_add g module = (g1, i) ∧
    assign_input g1 i v = Ok g' ∧
    g' = set_inputs g1 (<[i := Some v]> (inputs g1)) ∧
    list_index (modules_list g') module = Some i ∧
    i < length (inputs g1) ∧
    balanced g'.
Proof.
  intros Hb. destruct (_find_or_add g module) as [g1 i] eqn:E. exists g1, i.
  pose proof (find_or_add_index _ _ _ _ E) as Hi.
  pose proof (find_or_add_balanced _ _ _ _ E Hb) as Hb1.
  assert (Hlt : i < length (inputs g1)).
  { rewrite Hb1. by eapply list_index_lt. }
  eexists. split; [done|]. split; [by apply assign_input_in_range|].
  split; [done|]. split; [done|]. split; [done|].
  unfold balanced. simpl. by rewrite length_insert.
Qed.

(** X8: on a graph with one input entry per module, [feed_model_input] always
    returns.  The module, added when it is new, then has the single input
    [(-1, ind)] whatever it was wired to before; no other input list
    changes; and a later call for the same module replaces the model input
    it takes. *)
Theorem feed_model_input_wiring (g : PipelineModulesGraph) (module : loc) (ind : Z) :
  balanced g →
  ∃ g' i, feed_model_input g module ind = Ok g' ∧
    list_index (modules_list g') module = Some i ∧
    inputs g' !! i = Some (Some [((-1)%Z, ind)]) ∧
    balanced g' ∧
    (∀ m k, list_index (modules_list g) m = Some k → list_index (modules_list g') m = Some k) ∧
    (∀ k, k ≠ i → k < length (inputs g) → inputs g' !! k = inputs g !! k) ∧
    (∀ ind', ∃ g'', feed_model_input g' module ind' = Ok g'' ∧
       modules_list g'' = modules_list g' ∧
       inputs g'' = <[i := Some [((-1)%Z, ind')]]> (inputs g')).
Proof.
  intros Hb.
  destruct (find_or_add_assign g module [((-1)%Z, ind)] Hb) as (g1 & i & g' & E & Ha & -> & Hi & Hlt & Hb').
  exists (set_inputs g1 (<[i := Some [((-1)%Z, ind)]]> (inputs g1))), i.
  split; [unfold feed_model_input; by rewrite E|].
  split; [done|]. split; [simpl; by apply list_lookup_insert_eq|]. split; [done|].
  split; [intros m k; simpl; by eapply find_or_add_keeps|].
  split.
  - intros k Hk Hlen. simpl. rewrite list_lookup_insert_ne by done.
    by eapply find_or_add_inputs.
  - intros ind'. unfold feed_model_input, _find_or_add. simpl in Hi. simpl. rewrite Hi.
    rewrite assign_input_in_range by (simpl; by rewrite length_insert).
    eexists. split; [done|]. done.
Qed.

Lemma feed_model_input_wiring_witness :
  ∃ g' i, feed_model_input chain3 1 5 = Ok g' ∧ inputs g' !! i = Some (Some [((-1)%Z, 5%Z)]).
Proof.
  destruct (feed_model_input_wiring chain3 1 5) as (g' & i & H & _ & Hi & _); [reflexivity|].
  exists g', i. split; [exact H|exact Hi].
Defined.

Lemma py_map_index_Ok (ml ins : list loc) :
  (∀ m, m ∈ ins → m ∈ ml) →
  ∃ v, py_map (fun m => k ← index ml m; Ok (Z.of_nat k, 0%Z)) ins = Ok v ∧
       Forall2 (fun m s => ∃ k, list_index ml m = Some k ∧ s = (Z.of_nat k, 0%Z)) ins v.
Proof.
  induction ins as [|m ins IH]; intros Hin; simpl.
  - exists []. split; [done|constructor].
  - destruct (list_index_elem ml m) as [k Hk]; [apply Hin; by left|].
    destruct IH as (v & Hv & HF); [intros m' Hm'; apply Hin; by right|].
    rewrite (proj2 (index_Ok _ _ _) Hk). simpl. rewrite Hv. simpl.
    eexists. split; [done|]. constructor; [by exists k|done].
Qed.

Lemma py_map_index_missing (ml ins : list loc) :
  (∃ m, m ∈ ins ∧ m ∉ ml) →
  py_map (fun m => k ← index ml m; Ok (Z.of_nat k, 0%Z)) ins = Raise (ValueError "not in list").
Proof.
  induction ins as [|m ins IH]; intros (m' & Hin & Hnot); [by apply elem_of_nil in Hin|].
  simpl. destruct (decide (m ∈ ml)) as [Hm|Hm].
  - apply list_index_elem in Hm as [k Hk]. rewrite (proj2 (index_Ok _ _ _) Hk). simpl.
    rewrite IH; [done|]. exists m'. split; [|done].
    apply elem_of_cons in Hin as [->|?]; [|done].
    apply list_index_None in Hnot. congruence.
  - by rewrite index_missing.
Qed.

(** X9: the input modules of [add_multi_input_layer] are looked up
    before the layer itself is added.  If one of them is not in the graph,
    the layer itself when it is new, the call raises the [ValueError] of
    [list.index]; otherwise it returns and the layer takes output 0 of each
    input module, in the order given. *)
Theorem add_multi_input_layer_wiring (g : PipelineModulesGraph) (module : loc) (ins : list loc) :
  balanced g →
  ((∃ m, m ∈ ins ∧ m ∉ modules_list g) →
     add_multi_input_layer g module ins = Raise (ValueError "not in list")) ∧
  ((∀ m, m ∈ ins → m ∈ modules_list g) →
     ∃ g' i v, add_multi_input_layer g module ins = Ok g' ∧
       list_index (modules_list g') module = Some i ∧
       inputs g' !! i = Some (Some v) ∧
       Forall2 (fun m s => ∃ k, list_index (modules_list g) m = Some k ∧ s = (Z.of_nat k, 0%Z)) ins v ∧
       balanced g' ∧
       (∀ k, k ≠ i → k < length (inputs g) → inputs g' !! k = inputs g !! k)).
Proof.
  intros Hb. split.
  - intros Hm. unfold add_multi_input_layer. by rewrite py_map_index_missing.
  - intros Hin. destruct (py_map_index_Ok (modules_list g) ins Hin) as (v & Hv & HF).
    destruct (find_or_add_assign g module v Hb) as (g1 & i & g' & E & Ha & -> & Hi & Hlt & Hb').
    eexists _, i, v. unfold add_multi_input_layer. rewrite Hv. simpl. rewrite E.
    split; [exact Ha|]. split; [done|]. split; [simpl; by apply list_lookup_insert_eq|].
    split; [done|]. split; [done|].
    intros k Hk Hlen. simpl. rewrite list_lookup_insert_ne by done.
    by eapply find_or_add_inputs.
Qed.

Lemma add_multi_input_layer_wiring_witness :
  add_multi_input_layer chain3 3 [3] = Raise (ValueError "not in list").
Proof.
  apply (add_multi_input_layer_wiring chain3 3 [3]); [reflexivity|].
  exists 3. split; [apply list_elem_of_here|].
  apply list_index_None. reflexivity.
Defined.

(** ** fan_out and replicate_output *)

Lemma wire_loop (mi : Z) (slot_of : nat → Z) (l : list loc) : ∀ i0 g,
  balanced g →
  ∃ g', for_enumerate
          (fun i m acc => let '(g1, k) := _find_or_add acc m in
                          assign_input g1 k [(mi, slot_of i)]) i0 l g = Ok g' ∧
    balanced g' ∧
    (∀ m k, list_index (modules_list g) m = Some k → list_index (modules_list g') m = Some k) ∧
    (∀ m k, m ∉ l → list_index (modules_list g) m = Some k → inputs g' !! k = inputs g !! k) ∧
    (∀ j m, l !! j = Some m → (∀ j', j < j' → l !! j' ≠ Some m) →
       ∃ k, list_index (modules_list g') m = Some k ∧
            inputs g' !! k = Some (Some [(mi, slot_of (i0 + j))])).
Proof.
  induction l as [|m l IH]; intros i0 g Hb.
  - exists g. simpl. split; [done|]. split; [done|]. split; [done|]. split; [done|]. done.
  - rewrite for_enumerate_cons.
    destruct (find_or_add_assign g m [(mi, slot_of i0)] Hb) as (g1 & k & g2 & E & Ha & Hg2 & Hk & Hlt & Hb2).
    rewrite E, Ha. simpl.
    destruct (IH (S i0) g2 Hb2) as (g' & H & Hb' & Hkeep & Hsame & Hwire).
    exists g'. split; [done|]. split; [done|].
    assert (Hkeep2 : ∀ m' k', list_index (modules_list g) m' = Some k' →
                              list_index (modules_list g2) m' = Some k').
    { intros m' k' Hm'. subst g2. simpl. by eapply find_or_add_keeps. }
    split; [intros m' k' Hm'; by apply Hkeep, Hkeep2|]. split.
    + intros m' k' Hnin Hm'. apply not_elem_of_cons in Hnin as [Hne Hnin].
      rewrite (Hsame m' k' Hnin (Hkeep2 _ _ Hm')). subst g2. simpl.
      assert (k' ≠ k).
      { intros ->. apply Hne. apply (list_index_inj (modules_list g1) m' m k); [|done].
        by eapply find_or_add_keeps. }
      rewrite list_lookup_insert_ne by done.
      eapply find_or_add_inputs; [done|]. rewrite Hb. by eapply list_index_lt.
    + intros [|j] m' Hj Hlast.
      * injection Hj as ->. exists k. split; [by apply Hkeep|].
        rewrite (Hsame m' k); [|intros Hin|done].
        -- subst g2. simpl. rewrite Nat.add_0_r. by apply list_lookup_insert_eq.
        -- apply list_elem_of_lookup_1 in Hin as [j' Hj'].
           by apply (Hlast (S j')); [lia|].
      * simpl in Hj. destruct (Hwire j m' Hj) as (k' & Hk' & Hin').
        { intros j' Hlt'. apply (Hlast (S j')). lia. }
        exists k'. split; [done|]. rewrite Hin'. by replace (i0 + S j) with (S i0 + j) by lia.
Qed.

(** X10: [fan_out] needs its module in the graph ([ValueError]
    otherwise) and then always returns: the module listed at position [i],
    added when it is new, takes output [i] and nothing else; for a module
    listed twice the later position counts. *)
Theorem fan_out_wiring (g : PipelineModulesGraph) (module : loc) (outputs : list loc) :
  balanced g →
  (module ∉ modules_list g → fan_out g module outputs = Raise (ValueError "not in list")) ∧
  (∀ mi, list_index (modules_list g) module = Some mi →
     ∃ g', fan_out g module outputs = Ok g' ∧ balanced g' ∧
       (∀ m k, m ∉ outputs → list_index (modules_list g) m = Some k →
          list_index (modules_list g') m = Some k ∧ inputs g' !! k = inputs g !! k) ∧
       (∀ i m, outputs !! i = Some m → (∀ i', i < i' → outputs !! i' ≠ Some m) →
          ∃ k, list_index (modules_list g') m = Some k ∧
               inputs g' !! k = Some (Some [(Z.of_nat mi, Z.of_nat i)]))).
Proof.
  intros Hb. split.
  - intros Hm. unfold fan_out. by rewrite index_missing.
  - intros mi Hmi. unfold fan_out. rewrite (proj2 (index_Ok _ _ _) Hmi). simpl.
    destruct (wire_loop (Z.of_nat mi) Z.of_nat outputs 0 g Hb) as (g' & H & Hb' & Hkeep & Hsame & Hwire).
    exists g'. split; [exact H|]. split; [done|]. split.
    + intros m k Hnin Hk. split; [by apply Hkeep|by apply (Hsame m)].
    + intros i m Hi Hlast. apply (Hwire i m Hi Hlast).
Qed.

Lemma fan_out_wiring_witness :
  fan_out chain3 9 [3; 4] = Raise (ValueError "not in list").
Proof.
  apply (fan_out_wiring chain3 9 [3; 4]); [reflexivity|].
  apply list_index_None. reflexivity.
Defined.

(** X11: [replicate_output] needs its module in the graph
    ([ValueError] otherwise) and then always returns: every module listed,
    added when it is new, takes output 0 of the module and nothing else, and
    the modules not listed keep their inputs. *)
Theorem replicate_output_wiring (g : PipelineModulesGraph) (module : loc) (outputs : list loc) :
  balanced g →
  (module ∉ modules_list g → replicate_output g module outputs = Raise (ValueError "not in list")) ∧
  (∀ mi, list_index (modules_list g) module = Some mi →
     ∃ g', replicate_output g module outputs = Ok g' ∧ balanced g' ∧
       (∀ m k, m ∉ outputs → list_index (modules_list g) m = Some k →
          list_index (modules_list g') m = Some k ∧ inputs g' !! k = inputs g !! k) ∧
       (∀ m, m ∈ outputs →
          ∃ k, list_index (modules_list g') m = Some k ∧
               inputs g' !! k = Some (Some [(Z.of_nat mi, 0%Z)]))).
Proof.
  intros Hb. split.
  - intros Hm. unfold replicate_output. by rewrite index_missing.
  - intros mi Hmi. unfold replicate_output. rewrite (proj2 (index_Ok _ _ _) Hmi). simpl.
    destruct (wire_loop (Z.of_nat mi) (fun _ => 0%Z) outputs 0 g Hb) as (g' & H & Hb' & Hkeep & Hsame & Hwire).
    exists g'. split; [exact H|]. split; [done|]. split.
    + intros m k Hnin Hk. split; [by apply Hkeep|by apply (Hsame m)].
    + intros m Hin. destruct (last_occurrence outputs m Hin) as (j & Hj & Hlast).
      apply (Hwire j m Hj Hlast).
Qed.

Lemma replicate_output_wiring_witness :
  ∃ g', replicate_output chain3 2 [3; 4] = Ok g' ∧ balanced g'.
Proof.
  destruct (replicate_output_wiring chain3 2 [3; 4]) as [_ H]; [reflexivity|].
  destruct (H 2) as (g' & Hg & Hb & _); [reflexivity|].
  exists g'. split; [exact Hg|exact Hb].
Defined.


(** ** What the builder guarantees about the wiring *)

Lemma assign_input_sources g i v g' :
  assign_input g i v = Ok g' → sources_in_range g →
  (∀ j p s, v !! j = Some (p, s) → (p = -1 ∨ 0 ≤ p < Z.of_nat (length (modules_list g)))%Z) →
  sources_in_range g'.
Proof.
  intros [Hlt ->]%assign_input_Ok Hs Hv i' j p s (l & Hl & Hj). simpl in *.
  destruct (decide (i' = i)) as [->|Hne].
  - rewrite list_lookup_insert_eq in Hl by done. injection Hl as <-. by eapply Hv.
  - rewrite list_lookup_insert_ne in Hl by done. apply (Hs i' j p s). by exists l.
Qed.

Lemma find_or_add_sources g module g1 k :
  _find_or_add g module = (g1, k) → sources_in_range g → sources_in_range g1.
Proof.
  intros [[H ->]|(H & -> & ->)]%find_or_add_cases Hs; [done|].
  intros i j p s (l & Hl & Hj). simpl in *. rewrite length_app. simpl.
  assert (Hi : i < length (inputs g)).
  { destruct (decide (i < length (inputs g))) as [|Hge]; [done|].
    apply lookup_lt_Some in Hl as Hlt. rewrite length_app in Hlt. simpl in Hlt.
    assert (i = length (inputs g)) as -> by lia.
    rewrite lookup_app_r, Nat.sub_diag in Hl by lia. done. }
  rewrite lookup_app_l in Hl by done.
  destruct (Hs i j p s) as [?|?]; [by exists l|by left|right; lia].
Qed.

Lemma for_enumerate_inv {A St} (P : St → Prop) (f : nat → A → St → res St) (l : list A) :
  (∀ i a s s', f i a s = Ok s' → P s → P s') →
  ∀ i s s', for_enumerate f i l s = Ok s' → P s → P s'.
Proof.
  intros Hf. induction l as [|a l IH]; intros i s s' H Hs; simpl in H; [by injection H as <-|].
  apply bind_Ok in H as (s1 & H1 & H). eapply IH; [done|]. by eapply Hf.
Qed.

Lemma wire_step_sources (mi : nat) (slot : Z) g m g' :
  (let '(g1, k) := _find_or_add g m in assign_input g1 k [(Z.of_nat mi, slot)]) = Ok g' →
  sources_in_range g ∧ mi < length (modules_list g) →
  sources_in_range g' ∧ mi < length (modules_list g').
Proof.
  destruct (_find_or_add g m) as [g1 k] eqn:E. intros H [Hs Hmi].
  pose proof (find_or_add_length _ _ _ _ E) as Hlen.
  pose proof (assign_input_modules _ _ _ _ H) as Hm.
  split; [|rewrite Hm; lia].
  eapply assign_input_sources; [done|by eapply find_or_add_sources|].
  intros [|j] p s; [|done]. intros [= <- <-]. right. lia.
Qed.

Lemma add_sequence_sources g modules first_input g' :
  balanced g → sources_in_range g →
  add_sequence g modules first_input = Ok g' → sources_in_range g'.
Proof.
  intros Hb Hs H.
  destruct (add_sequence_None g modules Hb) as (g0 & H0 & Hm & Hn & Hold & Hfirst & Hnext).
  assert (Hs0 : sources_in_range g0).
  { intros i j p s (l & Hl & Hj). rewrite Hm, length_app.
    apply lookup_lt_Some in Hl as Hlt. rewrite Hn in Hlt.
    destruct (decide (i < length (modules_list g))) as [Hi|Hi].
    - rewrite Hold in Hl by done. destruct (Hs i j p s) as [?|?]; [by exists l|by left|right; lia].
    - destruct (decide (i = length (modules_list g))) as [->|Hne].
      + rewrite Hfirst in Hl; [done|]. intros ->. simpl in Hlt. lia.
      + replace i with (length (modules_list g) + (i - length (modules_list g))) in Hl by lia.
        rewrite Hnext in Hl by lia. injection Hl as <-.
        destruct j as [|j]; [|done]. injection Hj as <- <-. right. lia. }
  destruct first_input as [fi|]; [|rewrite H0 in H; by injection H as <-].
  unfold add_sequence in H, H0. apply bind_Ok in H0 as (g3 & H3 & [= <-]).
  rewrite H3 in H. simpl in H. apply bind_Ok in H as (k & Hk & H).
  apply index_Ok, list_index_lt in Hk.
  eapply assign_input_sources; [done|done|].
  intros [|j] p s; [|done]. intros [= <- <-]. right. lia.
Qed.

Lemma built_sources g : built g → sources_in_range g.
Proof.
  induction 1 as [|g modules fi g' Hg IH H|g m ind g' Hg IH H|g m ins g' Hg IH H
                  |g m outs g' Hg IH H|g m outs g' Hg IH H|g g' Hg IH H].
  - intros i j p s (l & Hl & _). by destruct i.
  - eapply add_sequence_sources; [by apply built_balanced|done|done].
  - unfold feed_model_input in H. destruct (_find_or_add g m) as [g1 i] eqn:E.
    eapply assign_input_sources; [done|by eapply find_or_add_sources|].
    intros [|j] p s; [|done]. intros [= <- <-]. by left.
  - unfold add_multi_input_layer in H. apply bind_Ok in H as (v & Hv & H).
    destruct (_find_or_add g m) as [g1 i] eqn:E.
    pose proof (find_or_add_length _ _ _ _ E) as Hlen.
    eapply assign_input_sources; [done|by eapply find_or_add_sources|].
    assert (HF : Forall (fun ps : Z * Z => (0 ≤ ps.1 < Z.of_nat (length (modules_list g)))%Z) v).
    { clear H. revert v Hv. clear. induction ins as [|a ins IH]; intros v Hv; simpl in Hv.
      - injection Hv as <-. constructor.
      - apply bind_Ok in Hv as (b & Hb & Hv). apply bind_Ok in Hv as (bs & Hbs & [= <-]).
        apply bind_Ok in Hb as (k & Hk & [= <-]).
        apply index_Ok, list_index_lt in Hk. constructor; [simpl; lia|by apply IH]. }
    intros j p s Hj. rewrite Forall_lookup in HF. specialize (HF j (p, s) Hj). simpl in HF.
    right. lia.
  - unfold fan_out in H. apply bind_Ok in H as (mi & Hmi & H).
    apply index_Ok, list_index_lt in Hmi.
    apply (for_enumerate_inv (fun acc => sources_in_range acc ∧ mi < length (modules_list acc))) in H;
      [by destruct H|intros i a s s'; apply wire_step_sources|done].
  - unfold replicate_output in H. apply bind_Ok in H as (mi & Hmi & H).
    apply index_Ok, list_index_lt in Hmi.
    apply (for_enumerate_inv (fun acc => sources_in_range acc ∧ mi < length (modules_list acc))) in H;
      [by destruct H|intros i a s s'; apply wire_step_sources|done].
  - apply compute_output_users_Ok in H as (Hm & Hi & _).
    intros i j p s (l & Hl & Hj). rewrite Hm. apply (IH i j p s). exists l. by rewrite <- Hi.
Qed.

(** X12: whatever sequence of builder calls made a graph, it has one
    input entry per module, and every source in an input list is the model
    input or the position of a module of the graph: no connection points
    outside the graph. *)
Theorem built_wiring_in_graph (g : PipelineModulesGraph) :
  built g →
  length (inputs g) = length (modules_list g) ∧
  ∀ i l j p s, inputs g !! i = Some (Some l) → l !! j = Some (p, s) →
    (p = -1)%Z ∨ ∃ m, modules_list g !! Z.to_nat p = Some m ∧ (0 ≤ p)%Z.
Proof.
  intros Hg. split; [by apply built_balanced|].
  intros i l j p s Hl Hj. destruct (built_sources g Hg i j p s) as [?|Hp]; [by exists l|by left|].
  right. destruct (lookup_lt_is_Some_2 (modules_list g) (Z.to_nat p)) as [m Hm]; [lia|].
  exists m. split; [done|lia].
Qed.

Lemma built_wiring_in_graph_witness :
  length (inputs two_inputs) = length (modules_list two_inputs).
Proof. apply (built_wiring_in_graph two_inputs), two_inputs_built. Defined.

(** ** compute_output_users *)

Lemma unassigned_or_wired (ins : list (option (list (Z * Z)))) :
  (∀ i, i < length ins → ∃ l, ins !! i = Some (Some l)) ∨ (∃ k, ins !! k = Some None).
Proof.
  induction ins as [|[l|] ins IH].
  - left. simpl. lia.
  - destruct IH as [IH|[k Hk]].
    + left. intros [|i] Hi; simpl; [by exists l|]. apply IH. simpl in Hi. lia.
    + right. by exists (S k).
  - right. by exists 0.
Qed.

Lemma record_users_loop_unassigned ins : ∀ i0 ou miu,
  (∃ k, ins !! k = Some None) →
  (∀ k l j p s, ins !! k = Some (Some l) → l !! j = Some (p, s) → (p < Z.of_nat (length ou))%Z) →
  for_enumerate record_users i0 ins (ou, miu) = Raise AssertionError.
Proof.
  induction ins as [|[items|] ins IH]; intros i0 ou miu [k Hk] Hr.
  - done.
  - rewrite for_enumerate_cons. simpl.
    destruct (record_user_loop_total i0 items 0 ou miu) as ([ou' miu'] & H & Hlen).
    { intros j p s Hj. by apply (Hr 0 items j p s). }
    rewrite H. simpl in *. apply IH.
    + destruct k as [|k]; [done|]. by exists k.
    + intros k' l j p s Hl Hj. rewrite Hlen. by apply (Hr (S k') l j p s).
  - done.
Qed.

(** X13: on a graph made by the builder, [compute_output_users] returns
    exactly when every module has been given its inputs, and otherwise
    fails the assertion [input is not None]; it never indexes
    [output_users] out of range. *)
Theorem compute_output_users_built (g : PipelineModulesGraph) :
  built g →
  ((∃ g', compute_output_users g = Ok g') ↔ fully_wired g) ∧
  (¬ fully_wired g → compute_output_users g = Raise AssertionError).
Proof.
  intros Hg. pose proof (built_balanced g Hg) as Hb. pose proof (built_sources g Hg) as Hs.
  assert (Hr : ∀ k l j p s, inputs g !! k = Some (Some l) → l !! j = Some (p, s) →
                 (p < Z.of_nat (length (replicate (length (modules_list g)) ([] : list (nat * nat * Z)))))%Z).
  { intros k l j p s Hl Hj. rewrite length_replicate.
    destruct (Hs k j p s) as [?|?]; [by exists l|lia|lia]. }
  assert (Hraise : ¬ fully_wired g → compute_output_users g = Raise AssertionError).
  { intros Hn. destruct (unassigned_or_wired (inputs g)) as [Hall|Hk].
    - exfalso. apply Hn. by split.
    - unfold compute_output_users. by rewrite record_users_loop_unassigned. }
  split; [|done]. split.
  - intros [g' H]. destruct (unassigned_or_wired (inputs g)) as [Hall|Hk]; [by split|].
    unfold compute_output_users in H. by rewrite record_users_loop_unassigned in H.
  - intros [_ Hall]. unfold compute_output_users.
    destruct (record_users_loop_total (inputs g) 0 (replicate (length (modules_list g)) []) [])
      as ([ou miu] & H & _); [done|done|].
    rewrite H. simpl. by eexists.
Qed.

Lemma compute_output_users_built_witness :
  (∃ g', compute_output_users two_inputs = Ok g') ↔ fully_wired two_inputs.
Proof. apply (compute_output_users_built two_inputs), two_inputs_built. Defined.

(** X14: when [compute_output_users] returns, the graph is as it was
    except for the two user tables, which list the wiring exactly: [(i, j,
    s)] is a user of output [a] iff input [j] of module [i] is [(a, s)], and
    a user of the model input iff that input has a negative source.  The
    tables are rebuilt from nothing, so running it again changes nothing. *)
Theorem compute_output_users_lists_wiring (g g' : PipelineModulesGraph) :
  compute_output_users g = Ok g' →
  modules_list g' = modules_list g ∧ inputs g' = inputs g ∧
  length (output_users g') = length (modules_list g) ∧
  (∀ a i j s, (∃ us, output_users g' !! a = Some us ∧ (i, j, s) ∈ us) ↔
              (∃ l, inputs g !! i = Some (Some l) ∧ l !! j = Some (Z.of_nat a, s))) ∧
  (∀ i j s, (i, j, s) ∈ model_input_users g' ↔
            (∃ l p, inputs g !! i = Some (Some l) ∧ l !! j = Some (p, s) ∧ (p < 0)%Z)) ∧
  compute_output_users g' = Ok g'.
Proof.
  intros H. pose proof (compute_output_users_Ok g g' H) as (Hm & Hi & [Hlen _ Hou Hmiu]).
  split; [done|]. split; [done|]. split; [by rewrite Hlen, Hm|]. split; [|split].
  - intros a i j s. rewrite <- Hi. apply (Hou a (i, j, s)).
  - intros i j s. rewrite (Hmiu (i, j, s)). simpl. rewrite <- Hi. unfold wired. split.
    + intros (p & (l & Hl & Hj) & Hp). by exists l, p.
    + intros (l & p & Hl & Hj & Hp). exists p. split; [by exists l|done].
  - unfold compute_output_users in *. rewrite Hm, Hi.
    destruct (for_enumerate record_users 0 (inputs g) (replicate (length (modules_list g)) [], []))
      as [[ou miu]| |]; simpl in *; [|done|done].
    injection H as <-. done.
Qed.

Lemma compute_output_users_lists_wiring_witness :
  ∃ g', compute_output_users two_inputs = Ok g' ∧ compute_output_users g' = Ok g'.
Proof.
  eexists. split; [reflexivity|].
  apply (compute_output_users_lists_wiring two_inputs). reflexivity.
Defined.


(** ** Indexing with Python integers *)

Lemma py_norm_nonneg len i :
  (0 ≤ i)%Z → py_norm len i = if decide (i < Z.of_nat len)%Z then Some (Z.to_nat i) else None.
Proof.
  intros Hi. unfold py_norm. destruct (decide (i < 0)%Z); [lia|]. cbv zeta.
  destruct (decide (i < Z.of_nat len)%Z); destruct (decide (0 ≤ i < Z.of_nat len)%Z); try done; lia.
Qed.

Lemma py_norm_negative len i :
  (- Z.of_nat len ≤ i < 0)%Z → py_norm len i = py_norm len (i + Z.of_nat len).
Proof.
  intros Hi. unfold py_norm. destruct (decide (i < 0)%Z); [|lia].
  destruct (decide (i + Z.of_nat len < 0)%Z); [lia|]. cbv zeta.
  destruct (decide (0 ≤ i + Z.of_nat len < Z.of_nat len)%Z); [done|lia].
Qed.

Lemma py_norm_outside len i :
  ¬ (- Z.of_nat len ≤ i < Z.of_nat len)%Z → py_norm len i = None.
Proof.
  intros Hi. unfold py_norm. destruct (decide (i < 0)%Z); cbv zeta.
  - destruct (decide (0 ≤ i + Z.of_nat len < Z.of_nat len)%Z); [lia|done].
  - destruct (decide (0 ≤ i < Z.of_nat len)%Z); [lia|done].
Qed.

Lemma py_index_outside {A} (l : list A) i :
  ¬ (- Z.of_nat (length l) ≤ i < Z.of_nat (length l))%Z → py_index l i = Raise IndexError.
Proof. intros Hi. unfold py_index. by rewrite py_norm_outside. Qed.

Lemma py_index_not_Hang {A} (l : list A) i : py_index l i ≠ Hang.
Proof. unfold py_index, py_get. by repeat case_match. Qed.

Lemma py_index_insert_ne {A} (l : list A) i k x :
  py_norm (length l) i ≠ Some k → py_index (<[k := x]> l) i = py_index l i.
Proof.
  intros Hne. unfold py_index. rewrite length_insert.
  destruct (py_norm (length l) i) as [k'|]; [|done].
  unfold py_get. rewrite list_lookup_insert_ne; [done|]. intros ->. done.
Qed.

Lemma py_index_replicate {A} (n : nat) (x : A) i :
  (0 ≤ i < Z.of_nat n)%Z → py_index (replicate n x) i = Ok x.
Proof.
  intros Hi. apply py_index_Ok. rewrite length_replicate, py_norm_nonneg by lia.
  rewrite decide_True by lia. eexists. split; [done|]. apply lookup_replicate_2. lia.
Qed.

Lemma all_some_Some {A} (l : list (option A)) ts :
  all_some l = Some ts ↔ l = Some <$> ts.
Proof.
  revert ts. induction l as [|[a|] l IH]; intros ts; simpl.
  - split; [intros [= <-]; done|]. destruct ts; [done|]. done.
  - destruct (all_some l) as [ts'|] eqn:E; simpl.
    + split.
      * intros [= <-]. simpl. f_equal. by apply IH.
      * destruct ts as [|t ts]; [done|]. simpl. intros [= -> H]. apply IH in H.
        by injection H as ->.
    + split; [done|]. destruct ts as [|t ts]; [done|]. simpl. intros [= -> H].
      apply IH in H. done.
  - split; [done|]. destruct ts; done.
Qed.

Lemma all_some_None {A} (l : list (option A)) :
  all_some l = None ↔ None ∈ l.
Proof.
  induction l as [|[a|] l IH]; simpl.
  - split; [done|]. by intros ?%elem_of_nil.
  - destruct (all_some l) eqn:E; simpl.
    + split; [done|]. intros [?|H]%elem_of_cons; [done|]. by apply IH in H.
    + split; [|done]. intros _. right. by apply IH.
  - split; [|done]. intros _. by left.
Qed.

(** ** DistributedPipelineRecord *)

Lemma feed_Ok (self : DistributedPipelineRecord.t) chunk input_idx input ph self' :
  DistributedPipelineRecord.feed self chunk input_idx input = (Ok ph, self') →
  ∃ kc ki row,
    py_norm (length (DistributedPipelineRecord.tensors self)) chunk = Some kc ∧
    DistributedPipelineRecord.tensors self !! kc = Some row ∧
    py_norm (length row) input_idx = Some ki ∧
    row !! ki = Some None ∧
    DistributedPipelineRecord.tensors self'
      = <[kc := <[ki := Some (delivered (DistributedPipelineRecord.device self) input)]> row]>
          (DistributedPipelineRecord.tensors self) ∧
    DistributedPipelineRecord.batches self' = DistributedPipelineRecord.batches self ∧
    DistributedPipelineRecord.forwarded_phony self' = DistributedPipelineRecord.forwarded_phony self ∧
    DistributedPipelineRecord.users self' = DistributedPipelineRecord.users self ∧
    DistributedPipelineRecord.rank self' = DistributedPipelineRecord.rank self ∧
    DistributedPipelineRecord.device self' = DistributedPipelineRecord.device self.
Proof.
  unfold DistributedPipelineRecord.feed.
  destruct (DistributedPipelineRecord.feed_locked self chunk input_idx input) as [[ph' s]| |] eqn:E;
    [|done|done].
  intros [= -> ->]. unfold DistributedPipelineRecord.feed_locked in E.
  apply bind_Ok in E as (row & Hrow & E). apply bind_Ok in E as (sl & Hsl & E).
  destruct (decide (sl ≠ None)) as [|Hnone]; [done|].
  assert (sl = None) as -> by (by destruct sl; [exfalso; apply Hnone|]).
  simpl in E. apply bind_Ok in E as (erow & Herow & E). apply bind_Ok in E as (erow' & Herow' & E).
  apply bind_Ok in E as (events' & Hev & E). apply bind_Ok in E as (row' & Hrow' & E).
  apply bind_Ok in E as (tensors' & Ht & [= <- <-]).
  apply py_index_Ok in Hrow as (kc & Hkc & Hrow). apply py_index_Ok in Hsl as (ki & Hki & Hsl).
  apply py_store_Ok in Hrow' as (ki' & Hki' & ->). apply py_store_Ok in Ht as (kc' & Hkc' & ->).
  rewrite Hki in Hki'. injection Hki' as <-. rewrite Hkc in Hkc'. injection Hkc' as <-.
  exists kc, ki, row. simpl. unfold delivered. by case_decide.
Qed.

(** X15: a feed that returns changes one slot of the tensor table and
    nothing else a later step reads: every other slot (addressed from the
    front) keeps its content, and the batches, the forwarded tokens, the
    users, the rank and the device are as before. *)
Theorem feed_other_slots (self : DistributedPipelineRecord.t) (chunk input_idx : Z) (input : Tensor)
    (ph : Phony) (self' : DistributedPipelineRecord.t) :
  DistributedPipelineRecord.feed self chunk input_idx input = (Ok ph, self') →
  (0 ≤ chunk)%Z → (0 ≤ input_idx)%Z →
  (∀ c i, (0 ≤ c)%Z → (0 ≤ i)%Z → (c, i) ≠ (chunk, input_idx) →
     slot self' c i = slot self c i) ∧
  DistributedPipelineRecord.batches self' = DistributedPipelineRecord.batches self ∧
  DistributedPipelineRecord.forwarded_phony self' = DistributedPipelineRecord.forwarded_phony self ∧
  DistributedPipelineRecord.users self' = DistributedPipelineRecord.users self ∧
  DistributedPipelineRecord.rank self' = DistributedPipelineRecord.rank self ∧
  DistributedPipelineRecord.device self' = DistributedPipelineRecord.device self.
Proof.
  intros H Hc Hi.
  apply feed_Ok in H as (kc & ki & row & Hkc & Hrow & Hki & Hsl & Ht & Hb & Hp & Hu & Hr & Hd).
  split; [|done]. intros c i Hc0 Hi0 Hne. unfold slot. rewrite Ht.
  rewrite py_norm_nonneg in Hkc, Hki by done.
  destruct (decide (chunk < _)%Z) as [Hclt|]; [|done]. injection Hkc as <-.
  destruct (decide (input_idx < _)%Z) as [Hilt|]; [|done]. injection Hki as <-.
  destruct (decide (c = chunk)) as [->|Hcne].
  - rewrite py_index_insert; [|by rewrite py_norm_nonneg, decide_True by done].
    assert (Hrow' : py_index (DistributedPipelineRecord.tensors self) chunk = Ok row).
    { apply py_index_Ok. exists (Z.to_nat chunk). by rewrite py_norm_nonneg, decide_True by done. }
    rewrite Hrow'. simpl. apply py_index_insert_ne. rewrite py_norm_nonneg by done.
    case_decide; [|done]. intros [= Heq]. apply Hne. f_equal. lia.
  - rewrite py_index_insert_ne; [done|]. rewrite py_norm_nonneg by done.
    case_decide; [|done]. intros [= Heq]. lia.
Qed.

Lemma feed_other_slots_witness :
  slot (DistributedPipelineRecord.feed record22 1 0 tensor7).2 0 1 = slot record22 0 1.
Proof.
  edestruct (feed_other_slots record22 1 0 tensor7) as [H _]; [reflexivity|lia|lia|].
  apply H; try lia. intros [=].
Defined.

(** X16: [feed] addresses the tables like Python lists.  A chunk index
    outside [-n, n), [n] being the number of chunks of the record, raises
    [IndexError] and leaves the record alone; a negative index in range is
    not refused but counts from the last chunk; and in an existing chunk an
    input index outside the row raises [IndexError] as well. *)
Theorem feed_index_range (self : DistributedPipelineRecord.t) (chunk input_idx : Z) (input : Tensor) :
  same_shape self →
  (¬ (- Z.of_nat (length (DistributedPipelineRecord.tensors self)) ≤ chunk
      < Z.of_nat (length (DistributedPipelineRecord.tensors self)))%Z →
     DistributedPipelineRecord.feed self chunk input_idx input = (Raise IndexError, self)) ∧
  ((- Z.of_nat (length (DistributedPipelineRecord.tensors self)) ≤ chunk < 0)%Z →
     DistributedPipelineRecord.feed self chunk input_idx input
     = DistributedPipelineRecord.feed self
         (chunk + Z.of_nat (length (DistributedPipelineRecord.tensors self))) input_idx input) ∧
  (∀ row, py_index (DistributedPipelineRecord.tensors self) chunk = Ok row →
     ¬ (- Z.of_nat (length row) ≤ input_idx < Z.of_nat (length row))%Z →
     DistributedPipelineRecord.feed self chunk input_idx input = (Raise IndexError, self)).
Proof.
  intros Hshape.
  assert (Hlen : length (DistributedPipelineRecord.recv_events self)
                 = length (DistributedPipelineRecord.tensors self))
    by (symmetry; by eapply Forall2_length).
  split; [|split].
  - intros Hout. unfold DistributedPipelineRecord.feed, DistributedPipelineRecord.feed_locked.
    by rewrite (py_index_outside (DistributedPipelineRecord.tensors self) chunk Hout).
  - intros Hneg. unfold DistributedPipelineRecord.feed, DistributedPipelineRecord.feed_locked.
    unfold py_index, py_store. rewrite Hlen.
    by rewrite (py_norm_negative _ chunk) by done.
  - intros row Hrow Hout. unfold DistributedPipelineRecord.feed, DistributedPipelineRecord.feed_locked.
    rewrite Hrow. simpl. by rewrite (py_index_outside row input_idx Hout).
Qed.

Lemma feed_index_range_witness :
  DistributedPipelineRecord.feed record22 (-1) 0 tensor7
  = DistributedPipelineRecord.feed record22 1 0 tensor7.
Proof.
  apply (feed_index_range record22 (-1) 0 tensor7); [apply init_same_shape|].
  simpl. lia.
Defined.

Lemma wait_for_hangs (chunk : Z) (s : DistributedPipelineRecord.t) :
  py_index (DistributedPipelineRecord.batches s) chunk = Ok None →
  (∃ row, py_index (DistributedPipelineRecord.tensors s) chunk = Ok row ∧ None ∈ row) →
  DistributedPipelineRecord.wait_for chunk s = (Hang, s, []).
Proof.
  intros Hb (row & Hrow & Hin).
  unfold DistributedPipelineRecord.wait_for, act_bind, act_get, act_lift, act_ret, act_put.
  rewrite Hb. simpl. rewrite Hrow. simpl. apply all_some_None in Hin. by rewrite Hin.
Qed.

Lemma wait_for_assembles (chunk : Z) (s : DistributedPipelineRecord.t) ts :
  py_index (DistributedPipelineRecord.batches s) chunk = Ok None →
  py_index (DistributedPipelineRecord.tensors s) chunk = Ok (Some <$> ts) →
  ∃ s', DistributedPipelineRecord.wait_for chunk s = (Ok (), s', []) ∧
        DistributedPipelineRecord.get_batch s' chunk = Ok (mkBatch ts chunk) ∧
        DistributedPipelineRecord.tensors s' = DistributedPipelineRecord.tensors s.
Proof.
  intros Hb Hrow.
  unfold DistributedPipelineRecord.wait_for, act_bind, act_get, act_lift, act_ret, act_put.
  rewrite Hb. simpl. rewrite Hrow. simpl.
  rewrite (proj2 (all_some_Some (Some <$> ts) ts) eq_refl). simpl.
  pose proof (proj1 (py_index_Ok _ _ _) Hb) as (k & Hk & _).
  unfold py_store. rewrite Hk. simpl. eexists. split; [done|].
  unfold DistributedPipelineRecord.get_batch. simpl.
  by rewrite (py_index_insert _ _ _ _ Hk).
Qed.

(** X17: [wait_for] emits nothing and never touches the tensors.  When
    it returns, [get_batch] of that chunk returns too: the batch that was
    already there, or else a new batch made of the tensors of the chunk in
    slot order.  It is stuck exactly when the chunk has no batch and one of
    its slots is still empty. *)
Theorem wait_for_batch (chunk : Z) (s : DistributedPipelineRecord.t) :
  (∀ s' evs, DistributedPipelineRecord.wait_for chunk s = (Ok (), s', evs) →
     evs = [] ∧
     DistributedPipelineRecord.tensors s' = DistributedPipelineRecord.tensors s ∧
     ∃ b, DistributedPipelineRecord.get_batch s' chunk = Ok b ∧
       (DistributedPipelineRecord.get_batch s chunk = Ok b ∧ s' = s ∨
        DistributedPipelineRecord.get_batch s chunk = Raise AssertionError ∧
        py_index (DistributedPipelineRecord.tensors s) chunk = Ok (Some <$> value b) ∧
        batch_index b = chunk)) ∧
  (DistributedPipelineRecord.wait_for chunk s = (Hang, s, []) ↔
     py_index (DistributedPipelineRecord.batches s) chunk = Ok None ∧
     ∃ row, py_index (DistributedPipelineRecord.tensors s) chunk = Ok row ∧ None ∈ row).
Proof.
  unfold DistributedPipelineRecord.wait_for, DistributedPipelineRecord.get_batch,
    act_bind, act_get, act_lift, act_ret, act_put.
  destruct (py_index (DistributedPipelineRecord.batches s) chunk) as [[b|]| |] eqn:Hb; simpl.
  - split; [|split; [done|by intros [[=] _]]].
    intros s' evs [= <- <-]. rewrite Hb. simpl. split; [done|]. split; [done|].
    exists b. split; [done|]. by left.
  - destruct (py_index (DistributedPipelineRecord.tensors s) chunk) as [row| |] eqn:Hrow; simpl.
    + destruct (all_some row) as [ts|] eqn:Hall; simpl.
      * pose proof (proj1 (py_index_Ok _ _ _) Hb) as (k & Hk & _).
        unfold py_store. rewrite Hk. simpl. split.
        -- intros s' evs [= <- <-]. simpl. split; [done|]. split; [done|].
           rewrite (py_index_insert _ _ _ _ Hk). simpl. eexists. split; [done|]. right.
           split; [done|]. simpl. apply all_some_Some in Hall as ->. done.
        -- split; [done|]. intros [_ (row' & [= <-] & Hin)]. apply all_some_None in Hin. congruence.
      * split; [done|]. split; [|done]. intros _. split; [done|].
        exists row. split; [done|]. by apply all_some_None.
    + split; [done|]. split; [done|]. by intros [_ (row & [=] & _)].
    + by apply py_index_not_Hang in Hrow.
  - split; [done|]. split; [done|]. by intros [[=] _].
  - by apply py_index_not_Hang in Hb.
Qed.

(** X18: the record a handler makes starts empty: every slot of every
    chunk is empty and no chunk has a batch, so [get_batch] fails its
    assertion.  [wait_for] on it is stuck while the partition has an input,
    and for a partition declared with no input it returns at once with an
    empty batch. *)
Theorem fresh_record_empty (self : PartitionHandler.t) (users : list (option RecordRef * Z * Z)) (c : Z) :
  (0 ≤ c < PartitionHandler.chunks self)%Z →
  let r := PartitionHandler.make_pipeline_record self users in
  (∀ i, (0 ≤ i < PartitionHandler.num_input self)%Z → slot r c i = Ok None) ∧
  DistributedPipelineRecord.get_batch r c = Raise AssertionError ∧
  ((0 < PartitionHandler.num_input self)%Z →
     DistributedPipelineRecord.wait_for c r = (Hang, r, [])) ∧
  ((PartitionHandler.num_input self ≤ 0)%Z →
     ∃ r', DistributedPipelineRecord.wait_for c r = (Ok (), r', []) ∧
           DistributedPipelineRecord.get_batch r' c = Ok (mkBatch [] c)).
Proof.
  intros Hc r.
  assert (Hrow : py_index (DistributedPipelineRecord.tensors r) c
                 = Ok (replicate (Z.to_nat (PartitionHandler.num_input self)) None)).
  { simpl. apply py_index_replicate. lia. }
  assert (Hb : py_index (DistributedPipelineRecord.batches r) c = Ok None).
  { simpl. apply py_index_replicate. lia. }
  split; [|split; [|split]].
  - intros i Hi. unfold slot. rewrite Hrow. simpl. apply py_index_replicate. lia.
  - unfold DistributedPipelineRecord.get_batch. by rewrite Hb.
  - intros Hn. apply wait_for_hangs; [done|].
    eexists. split; [exact Hrow|]. apply elem_of_replicate. split; [done|lia].
  - intros Hn. destruct (wait_for_assembles c r [] Hb) as (r' & H & Hg & _).
    { rewrite Hrow. by replace (Z.to_nat (PartitionHandler.num_input self)) with 0 by lia. }
    by exists r'.
Qed.

Lemma fresh_record_empty_witness :
  DistributedPipelineRecord.get_batch (PartitionHandler.make_pipeline_record handler1 []) 1
  = Raise AssertionError.
Proof. apply (fresh_record_empty handler1 [] 1). simpl. lia. Defined.


(** ** What one turn of run does to the record *)

Lemma py_norm_of_nat len (i : nat) k : py_norm len (Z.of_nat i) = Some k → k = i ∧ i < len.
Proof.
  rewrite py_norm_nonneg by lia. case_decide; [|done]. intros [= <-]. lia.
Qed.

Lemma py_store_of_nat {A} (l l' : list A) (i : nat) x :
  py_store l (Z.of_nat i) x = Ok l' → l' = <[i := x]> l ∧ i < length l.
Proof. intros (k & Hk & ->)%py_store_Ok. by apply py_norm_of_nat in Hk as [-> ?]. Qed.

Lemma py_index_of_nat {A} (l : list A) (i : nat) x :
  py_index l (Z.of_nat i) = Ok x ↔ l !! i = Some x.
Proof.
  rewrite py_index_Ok. split.
  - intros (k & Hk & Hx). by apply py_norm_of_nat in Hk as [-> ?].
  - intros Hx. exists i. split; [|done]. rewrite py_norm_nonneg by lia.
    apply lookup_lt_Some in Hx. rewrite decide_True by lia. f_equal. lia.
Qed.

Lemma wait_for_Ok chunk s s' evs :
  DistributedPipelineRecord.wait_for chunk s = (Ok (), s', evs) →
  evs = [] ∧
  ((s' = s ∧ ∃ b, py_index (DistributedPipelineRecord.batches s) chunk = Ok (Some b)) ∨
   (py_index (DistributedPipelineRecord.batches s) chunk = Ok None ∧
    ∃ ts bs, py_index (DistributedPipelineRecord.tensors s) chunk = Ok (Some <$> ts) ∧
      py_store (DistributedPipelineRecord.batches s) chunk (Some (mkBatch ts chunk)) = Ok bs ∧
      s' = DistributedPipelineRecord.set_batches s bs)).
Proof.
  unfold DistributedPipelineRecord.wait_for. intros H. act_inv H.
  destruct a0 as [b|].
  - unfold act_ret in H. simplify_eq. split; [done|]. left. eauto.
  - act_inv H. destruct (all_some a0) as [ts|] eqn:Hall; [|done]. act_inv H.
    unfold act_put in H. simplify_eq. split; [done|]. right. split; [done|].
    apply all_some_Some in Hall as ->. eauto.
Qed.

Lemma fence_Ok to_here self chunk s s' evs :
  PartitionHandler.fence to_here self chunk s = (Ok (), s', evs) →
  evs = [] ∧
  (s' = s ∨ ∃ b bs, py_store (DistributedPipelineRecord.batches s) chunk b = Ok bs ∧
                    s' = DistributedPipelineRecord.set_batches s bs).
Proof.
  unfold PartitionHandler.fence. intros H. act_inv H. case_decide.
  - act_inv H. destruct a0 as [b|]; [|done]. act_inv H.
    unfold act_put in H. simplify_eq. split; [done|]. right. eauto.
  - unfold act_ret in H. simplify_eq. split; [done|]. by left.
Qed.

Lemma compute_Ok self chunk s s' evs :
  PartitionHandler.compute self chunk s = (Ok (), s', evs) →
  ∃ batch result bs,
    DistributedPipelineRecord.get_batch s chunk = Ok batch ∧
    PartitionHandler.module_forward self (value batch) = Ok result ∧
    py_store (DistributedPipelineRecord.batches s) chunk (Some (mkBatch result chunk)) = Ok bs ∧
    s' = DistributedPipelineRecord.set_batches s bs.
Proof.
  unfold PartitionHandler.compute. intros H. act_inv H.
  unfold act_put in H. simplify_eq. eauto 10.
Qed.

Lemma forward_one_Ok chunk u s s' evs :
  PartitionHandler.forward_one chunk u s = (Ok (), s', evs) →
  ∃ user batch v fp,
    u.1.1 = Some user ∧
    DistributedPipelineRecord.get_batch s chunk = Ok batch ∧
    py_index (value batch) u.2 = Ok v ∧
    evs = [RemoteFeed user chunk u.1.2 v] ∧
    s' = DistributedPipelineRecord.set_forwarded_phony s fp.
Proof.
  destruct u as [[user_ref input_idx] output_idx]. unfold PartitionHandler.forward_one.
  intros H. act_inv H. unfold act_put in H. simplify_eq. simpl.
  destruct user_ref as [user|]; [|done]. injection Hm4 as <-.
  eexists user, _, _, _. done.
Qed.

Lemma forward_results_Ok self chunk : ∀ s s' evs,
  PartitionHandler.forward_results self chunk s = (Ok (), s', evs) →
  DistributedPipelineRecord.batches s' = DistributedPipelineRecord.batches s ∧
  DistributedPipelineRecord.tensors s' = DistributedPipelineRecord.tensors s ∧
  DistributedPipelineRecord.users s' = DistributedPipelineRecord.users s ∧
  Forall2 (fun (u : option RecordRef * Z * Z) e =>
             ∃ user batch v, u.1.1 = Some user ∧
               DistributedPipelineRecord.get_batch s chunk = Ok batch ∧
               py_index (value batch) u.2 = Ok v ∧
               e = RemoteFeed user chunk u.1.2 v)
          (DistributedPipelineRecord.users s) evs.
Proof.
  intros s s' evs H. unfold PartitionHandler.forward_results in H.
  apply act_bind_Ok in H as (r & s1 & t1 & t2 & Hget & H & ->).
  assert (r = s ∧ s1 = s ∧ t1 = []) as (-> & -> & ->) by (unfold act_get in Hget; by simplify_eq).
  simpl.
  assert (Hgen : ∀ us t2 x, DistributedPipelineRecord.batches x = DistributedPipelineRecord.batches s →
            DistributedPipelineRecord.tensors x = DistributedPipelineRecord.tensors s →
            DistributedPipelineRecord.users x = DistributedPipelineRecord.users s →
            act_for us (PartitionHandler.forward_one chunk) x = (Ok (), s', t2) →
            DistributedPipelineRecord.batches s' = DistributedPipelineRecord.batches s ∧
            DistributedPipelineRecord.tensors s' = DistributedPipelineRecord.tensors s ∧
            DistributedPipelineRecord.users s' = DistributedPipelineRecord.users s ∧
            Forall2 (fun (u : option RecordRef * Z * Z) e =>
               ∃ user batch v, u.1.1 = Some user ∧
                 DistributedPipelineRecord.get_batch s chunk = Ok batch ∧
                 py_index (value batch) u.2 = Ok v ∧
                 e = RemoteFeed user chunk u.1.2 v) us t2).
  { clear H. induction us as [|u us IH]; intros tr x Hb Ht Hu H.
    - simpl in H. unfold act_ret in H. simplify_eq. split; [done|]. split; [done|]. split; [done|].
      constructor.
    - simpl in H. apply act_bind_Ok in H as ([] & x1 & e1 & e2 & H1 & H & ->).
      apply forward_one_Ok in H1 as (user & batch & v & fp & Hu1 & Hbatch & Hv & -> & ->).
      destruct (IH e2 (DistributedPipelineRecord.set_forwarded_phony x fp)) as (? & ? & ? & HF);
        [done|done|done|done|].
      split; [done|]. split; [done|]. split; [done|]. simpl. constructor; [|done].
      exists user, batch, v. split; [done|]. split; [|done].
      unfold DistributedPipelineRecord.get_batch in *. by rewrite <- Hb. }
  by apply (Hgen _ t2 s).
Qed.

(** X19: when [forward_results] returns it has issued exactly one
    remote [feed] per user of the record, in the order of the users: to the
    user's record, for this chunk and the user's input slot, with the output
    of the batch the user is wired to.  The batches and tensors of the record
    are untouched. *)
Theorem forward_results_feeds (self : PartitionHandler.t) (chunk : Z)
    (s s' : DistributedPipelineRecord.t) (evs : list Event) :
  PartitionHandler.forward_results self chunk s = (Ok (), s', evs) →
  DistributedPipelineRecord.batches s' = DistributedPipelineRecord.batches s ∧
  DistributedPipelineRecord.tensors s' = DistributedPipelineRecord.tensors s ∧
  length evs = length (DistributedPipelineRecord.users s) ∧
  Forall2 (fun (u : option RecordRef * Z * Z) e =>
             ∃ user batch v, u.1.1 = Some user ∧
               DistributedPipelineRecord.get_batch s chunk = Ok batch ∧
               py_index (value batch) u.2 = Ok v ∧
               e = RemoteFeed user chunk u.1.2 v)
          (DistributedPipelineRecord.users s) evs.
Proof.
  intros H. apply forward_results_Ok in H as (Hb & Ht & _ & HF).
  split; [done|]. split; [done|]. split; [|done]. symmetry. by eapply Forall2_length.
Qed.

(** ** The tasks run submits *)

Lemma submitted_app (a b : list Event) : submitted (a ++ b) = submitted a ++ submitted b.
Proof. unfold submitted. apply omap_app. Qed.

Lemma submitted_bind {St A B} (m : Act St Event A) (f : A → Act St Event B) (s : St) :
  submitted (act_bind m f s).2
  = submitted (m s).2 ++ match m s with
                         | (Ok a, s1, _) => submitted (f a s1).2
                         | _ => []
                         end.
Proof.
  unfold act_bind. destruct (m s) as [[[a|e|] s1] t1]; simpl.
  - destruct (f a s1) as [[x s2] t2]. simpl. apply submitted_app.
  - by rewrite app_nil_r.
  - by rewrite app_nil_r.
Qed.

Lemma no_submit_bind {St A B} (m : Act St Event A) (f : A → Act St Event B) :
  no_submit m → (∀ a, no_submit (f a)) → no_submit (act_bind m f).
Proof.
  intros Hm Hf s. rewrite submitted_bind, Hm. simpl.
  destruct (m s) as [[[a|e|] s1] t1]; try done. apply Hf.
Qed.

Lemma no_submit_lift {St A} (r : res A) : no_submit (act_lift r : Act St Event A).
Proof. done. Qed.
Lemma no_submit_ret {St A} (a : A) : no_submit (act_ret a : Act St Event A).
Proof. done. Qed.
Lemma no_submit_get {St} : no_submit (act_get : Act St Event St).
Proof. done. Qed.
Lemma no_submit_put {St} (s : St) : no_submit (act_put s : Act St Event unit).
Proof. done. Qed.

Lemma no_submit_for {St A} (l : list A) (body : A → Act St Event unit) :
  (∀ a, no_submit (body a)) → no_submit (act_for l body).
Proof.
  intros Hb. induction l as [|a l IH]; simpl; [apply no_submit_ret|].
  apply no_submit_bind; [apply Hb|done].
Qed.

Ltac no_submit_tac :=
  repeat first
    [ apply no_submit_lift | apply no_submit_ret | apply no_submit_get | apply no_submit_put
    | (apply no_submit_bind; [|intros ?])
    | case_match
    | case_decide ].

Lemma wait_for_no_submit chunk : no_submit (DistributedPipelineRecord.wait_for chunk).
Proof. unfold DistributedPipelineRecord.wait_for. no_submit_tac; done. Qed.

Lemma fence_no_submit to_here self chunk : no_submit (PartitionHandler.fence to_here self chunk).
Proof. unfold PartitionHandler.fence. no_submit_tac; done. Qed.

Lemma forward_results_no_submit self chunk : no_submit (PartitionHandler.forward_results self chunk).
Proof.
  unfold PartitionHandler.forward_results. apply no_submit_bind; [apply no_submit_get|].
  intros r. apply no_submit_for. intros [[user_ref input_idx] output_idx].
  unfold PartitionHandler.forward_one. no_submit_tac; done.
Qed.

Lemma compute_submitted self chunk s :
  submitted (PartitionHandler.compute self chunk s).2 = [] ∨
  submitted (PartitionHandler.compute self chunk s).2 = [(chunk, PartitionHandler.make_task self chunk)].
Proof.
  unfold PartitionHandler.compute, act_bind, act_get, act_lift, act_ret, act_emit, act_put.
  repeat (case_match; simplify_eq; simpl in *); auto.
Qed.

Section run.
Variable to_here : PhonyRRef → res Phony.
Variable self : PartitionHandler.t.


Lemma turn_Ok i s s' evs :
  run_turn to_here self i s = (Ok (), s', evs) →
  submitted evs = [(Z.of_nat i, PartitionHandler.make_task self (Z.of_nat i))] ∧
  ∃ s1 s2 s3 t,
    DistributedPipelineRecord.wait_for (Z.of_nat i) s = (Ok (), s1, []) ∧
    PartitionHandler.fence to_here self (Z.of_nat i) s1 = (Ok (), s2, []) ∧
    PartitionHandler.compute self (Z.of_nat i) s2
      = (Ok (), s3, [Submit (Z.of_nat i) (PartitionHandler.make_task self (Z.of_nat i))]) ∧
    PartitionHandler.forward_results self (Z.of_nat i) s3 = (Ok (), s', t).
Proof.
  unfold run_turn. intros H.
  apply act_bind_Ok in H as ([] & s1 & t1 & t2 & Hw & H & ->).
  apply act_bind_Ok in H as ([] & s2 & t3 & t4 & Hf & H & ->).
  apply act_bind_Ok in H as ([] & s3 & t5 & t6 & Hc & H & ->).
  pose proof (wait_for_Ok _ _ _ _ Hw) as [-> _].
  pose proof (fence_Ok _ _ _ _ _ _ Hf) as [-> _].
  pose proof (compute_submits _ _ _ _ _ Hc) as ->.
  split; [|by eauto 10].
  simpl. pose proof (forward_results_no_submit self (Z.of_nat i) s3) as Hn.
  rewrite H in Hn. simpl in Hn. by rewrite Hn.
Qed.

Lemma turn_submitted i s :
  submitted (run_turn to_here self i s).2 = [] ∨
  submitted (run_turn to_here self i s).2 = [(Z.of_nat i, PartitionHandler.make_task self (Z.of_nat i))].
Proof.
  unfold run_turn. rewrite submitted_bind, wait_for_no_submit. simpl.
  destruct (DistributedPipelineRecord.wait_for (Z.of_nat i) s) as [[[[]|e|] s1] t1]; [|by left..].
  rewrite submitted_bind, fence_no_submit. simpl.
  destruct (PartitionHandler.fence to_here self (Z.of_nat i) s1) as [[[[]|e|] s2] t2]; [|by left..].
  rewrite submitted_bind.
  destruct (compute_submitted self (Z.of_nat i) s2) as [H|H]; rewrite H;
    destruct (PartitionHandler.compute self (Z.of_nat i) s2) as [[[[]|e|] s3] t3];
    rewrite ?forward_results_no_submit; auto.
Qed.

Lemma act_bind_not_Ok {St E A B} (m : Act St E A) (f : A → Act St E B) s b s' evs :
  (∀ a s1 t1, m s ≠ (Ok a, s1, t1)) → act_bind m f s ≠ (Ok b, s', evs).
Proof.
  intros Hm H. apply act_bind_Ok in H as (a & s1 & t1 & t2 & H1 & _). by eapply Hm.
Qed.

Lemma loop_submitted n : ∀ i s,
  submitted (act_for (seq i n) (run_turn to_here self) s).2 `prefix_of` expected_tasks self i n ∧
  (∀ s' evs, act_for (seq i n) (run_turn to_here self) s = (Ok (), s', evs) → submitted evs = expected_tasks self i n).
Proof.
  induction n as [|n IH]; intros i s.
  - split; [apply prefix_nil|]. intros s' evs [= <- <-]. done.
  - change (seq i (S n)) with (i :: seq (S i) n). change (expected_tasks self i (S n))
      with ((Z.of_nat i, PartitionHandler.make_task self (Z.of_nat i)) :: expected_tasks self (S i) n).
    cbn [act_for]. split.
    + rewrite submitted_bind.
      destruct (run_turn to_here self i s) as [[[[]|e|] s1] t1] eqn:Ht; cbn [snd fst].
      * apply turn_Ok in Ht as [-> _]. refine (prefix_cons _ _ _ _). apply (proj1 (IH _ _)).
      * rewrite app_nil_r. destruct (turn_submitted i s) as [H|H]; rewrite Ht in H; simpl in H;
          rewrite H; [apply prefix_nil|apply prefix_cons, prefix_nil].
      * rewrite app_nil_r. destruct (turn_submitted i s) as [H|H]; rewrite Ht in H; simpl in H;
          rewrite H; [apply prefix_nil|apply prefix_cons, prefix_nil].
    + intros s' evs H. apply act_bind_Ok in H as ([] & s1 & t1 & t2 & Ht & H & ->).
      apply turn_Ok in Ht as [Ht _]. rewrite submitted_app, Ht. simpl. f_equal.
      by apply (proj2 (IH (S i) s1) s').
Qed.

Lemma act_bind_get {St E A} (f : St → Act St E A) (s : St) :
  act_bind act_get f s = f s s.
Proof. unfold act_bind, act_get. by destruct (f s s) as [[? ?] ?]. Qed.

Lemma run_turns (s : DistributedPipelineRecord.t) :
  PartitionHandler.run to_here self s
  = act_for (seq 0 (length (DistributedPipelineRecord.batches s))) (run_turn to_here self) s.
Proof. unfold PartitionHandler.run. by rewrite act_bind_get. Qed.

(** X20: [run] puts the chunks on the queue one by one in increasing
    order.  However the run ends, the tasks submitted are those of chunks 0,
    1, ... up to some chunk, each once and each the task [compute] chooses for
    that chunk, and none is submitted after a failure; when [run] returns,
    every chunk of the record has been submitted. *)
Theorem run_submits_in_order (s : DistributedPipelineRecord.t) :
  submitted (PartitionHandler.run to_here self s).2
    `prefix_of` ((fun k => (Z.of_nat k, PartitionHandler.make_task self (Z.of_nat k)))
                   <$> seq 0 (length (DistributedPipelineRecord.batches s))) ∧
  (∀ s' evs, PartitionHandler.run to_here self s = (Ok (), s', evs) →
     submitted evs = (fun k => (Z.of_nat k, PartitionHandler.make_task self (Z.of_nat k)))
                       <$> seq 0 (length (DistributedPipelineRecord.batches s))).
Proof.
  rewrite run_turns.
  destruct (loop_submitted (length (DistributedPipelineRecord.batches s)) 0 s) as [Hp Heq].
  split; [exact Hp|exact Heq].
Qed.

Lemma same_but_batch_refl i s : same_but_batch i s s.
Proof. done. Qed.

Lemma same_but_batch_trans i s1 s2 s3 :
  same_but_batch i s1 s2 → same_but_batch i s2 s3 → same_but_batch i s1 s3.
Proof.
  intros (Ht1 & Hl1 & Hb1) (Ht2 & Hl2 & Hb2). split; [congruence|]. split; [congruence|].
  intros c Hc. by rewrite Hb2, Hb1.
Qed.

Lemma same_but_batch_store (i : nat) s x bs :
  py_store (DistributedPipelineRecord.batches s) (Z.of_nat i) x = Ok bs →
  same_but_batch i s (DistributedPipelineRecord.set_batches s bs).
Proof.
  intros [-> Hlt]%py_store_of_nat. split; [done|]. simpl. split; [by rewrite length_insert|].
  intros c Hc. by rewrite list_lookup_insert_ne.
Qed.

Lemma turn_frame i s s' evs :
  run_turn to_here self i s = (Ok (), s', evs) →
  same_but_batch i s s' ∧
  (DistributedPipelineRecord.batches s !! i = Some None →
     ∃ ts, DistributedPipelineRecord.tensors s !! i = Some (Some <$> ts)).
Proof.
  intros (_ & s1 & s2 & s3 & t & Hw & Hf & Hc & Hr)%turn_Ok.
  apply wait_for_Ok in Hw as [_ Hw]. apply fence_Ok in Hf as [_ Hf].
  apply compute_Ok in Hc as (batch & result & bs & _ & _ & Hbs & ->).
  apply forward_results_Ok in Hr as (Hb & Ht & _).
  assert (H1 : same_but_batch i s s1).
  { destruct Hw as [[-> _]|(_ & ts & bs1 & _ & Hs1 & ->)]; [done|by eapply same_but_batch_store]. }
  assert (H2 : same_but_batch i s1 s2).
  { destruct Hf as [->|(b & bs2 & Hs2 & ->)]; [done|by eapply same_but_batch_store]. }
  assert (H3 : same_but_batch i s2 s').
  { eapply same_but_batch_trans; [by eapply same_but_batch_store|].
    split; [done|]. split; [by rewrite Hb|]. intros c _. by rewrite Hb. }
  split; [eauto using same_but_batch_trans|].
  intros Hnone. destruct Hw as [[_ [b Hb']]|(_ & ts & _ & Hts & _)].
  - apply py_index_of_nat in Hb'. congruence.
  - exists ts. by apply py_index_of_nat.
Qed.

Lemma loop_needs_every_chunk n : ∀ i s s' evs,
  act_for (seq i n) (run_turn to_here self) s = (Ok (), s', evs) →
  ∀ c, i ≤ c < i + n →
    DistributedPipelineRecord.batches s !! c = Some None →
    ∃ ts, DistributedPipelineRecord.tensors s !! c = Some (Some <$> ts).
Proof.
  induction n as [|n IH]; intros i s s' evs H c Hc Hnone; [lia|].
  change (seq i (S n)) with (i :: seq (S i) n) in H. cbn [act_for] in H.
  apply act_bind_Ok in H as ([] & s1 & t1 & t2 & Ht & H & ->).
  apply turn_frame in Ht as [(Hten & _ & Hbat) Hi].
  destruct (decide (c = i)) as [->|Hne]; [by apply Hi|].
  rewrite <- Hten. eapply IH; [exact H|lia|]. by rewrite Hbat.
Qed.

(** X21: [run] does not return before every chunk has all its inputs.
    If it returns, each chunk of the record that had no batch when [run]
    started had every one of its slots filled then; and if the first chunk
    has no batch and an empty slot, [run] is stuck in [wait_for] with the
    record as it was and nothing submitted. *)
Theorem run_needs_every_chunk (s : DistributedPipelineRecord.t) :
  (∀ s' evs, PartitionHandler.run to_here self s = (Ok (), s', evs) →
     ∀ c row, DistributedPipelineRecord.batches s !! c = Some None →
       DistributedPipelineRecord.tensors s !! c = Some row → None ∉ row) ∧
  (∀ row, DistributedPipelineRecord.batches s !! 0 = Some None →
     DistributedPipelineRecord.tensors s !! 0 = Some row → None ∈ row →
     PartitionHandler.run to_here self s = (Hang, s, [])).
Proof.
  rewrite run_turns. split.
  - intros s' evs H c row Hnone Hrow.
    destruct (loop_needs_every_chunk _ _ _ _ _ H c) as [ts Hts]; [|done|].
    { apply lookup_lt_Some in Hnone. lia. }
    rewrite Hrow in Hts. injection Hts as ->. by intros (t & ? & _)%list_elem_of_fmap.
  - intros row Hnone Hrow Hin.
    destruct (length (DistributedPipelineRecord.batches s)) as [|m] eqn:Hm.
    { apply lookup_lt_Some in Hnone. lia. }
    change (seq 0 (S m)) with (0 :: seq 1 m). cbn [act_for]. unfold run_turn, act_bind at 1 2.
    rewrite (wait_for_hangs (Z.of_nat 0) s); [done| |].
    + by apply (py_index_of_nat _ 0).
    + exists row. split; [by apply (py_index_of_nat _ 0)|done].
Qed.

End run.

Lemma forward_results_feeds_witness :
  ∃ s' evs,
    PartitionHandler.forward_results handler1 0 record1_computed = (Ok (), s', evs) ∧
    length evs = length (DistributedPipelineRecord.users record1_computed).
Proof.
  eexists _, _. split; [reflexivity|].
  eapply (forward_results_feeds handler1 0 record1_computed). reflexivity.
Defined.


(** ** MultiInputSequential *)

Lemma foldl_res_bind {A B} (f : A → B → res A) (l : list B) (r : res A) :
  foldl (fun acc x => a ← acc; f a x) r l
  = (a ← r; foldl (fun acc x => a ← acc; f a x) (Ok a) l).
Proof.
  destruct r as [a|e|]; simpl; [done|apply foldl_res_Raise|apply foldl_res_Hang].
Qed.

(** X22: a [MultiInputSequential] calls its first module on all the
    inputs and every further module on the one result of the module before
    it.  With no module it raises [IndexError]; with one module it is that
    module; and a sequence cut in two non-empty parts is the first part
    followed by the second part on its result, a failure of the first part
    being the result of the whole. *)
Theorem MultiInputSequential_forward_composes {V : Type} (inputs : list V) :
  MultiInputSequential.forward [] inputs = Raise IndexError ∧
  (∀ m : list V → res V, MultiInputSequential.forward [m] inputs = m inputs) ∧
  (∀ ms1 ms2 : list (list V → res V), ms1 ≠ [] → ms2 ≠ [] →
     MultiInputSequential.forward (ms1 ++ ms2) inputs
     = (x ← MultiInputSequential.forward ms1 inputs; MultiInputSequential.forward ms2 [x])).
Proof.
  split; [done|]. split.
  - intros m. unfold MultiInputSequential.forward. simpl. destruct (m inputs); reflexivity.
  - intros [|m0 ms1] [|m ms2] H1 H2; try done.
    unfold MultiInputSequential.forward. simpl.
    destruct (m0 inputs) as [x|e|]; simpl; [|reflexivity..].
    rewrite !drop_0, foldl_app. simpl.
    rewrite (foldl_res_bind (fun (a : V) (module : list V → res V) => module [a]) ms2).
    destruct (foldl _ (Ok x) ms1) as [y|e|]; simpl; [|reflexivity..].
    destruct (m [y]); reflexivity.
Qed.

(** ** _split_module: when it returns *)

Lemma fully_wired_balanced g : fully_wired g → balanced g.
Proof. by intros [? _]. Qed.

(** X23: on a fully wired graph whose inputs come from the model input
    or from modules with a smaller index, [_split_module] returns exactly
    when every module of the graph has been instantiated; with a module that
    was never given a remote device it raises the [AttributeError] of the
    missing attribute. *)
Theorem split_module_returns_iff_instantiated (h : Heap) (graph : PipelineModulesGraph) :
  fully_wired graph → index_ordered graph →
  ((∃ r, _split_module h graph = Ok r) ↔ all_instantiated h graph) ∧
  (¬ all_instantiated h graph → ∃ attr, _split_module h graph = Raise (AttributeError attr)).
Proof.
  intros Hw Ho. pose proof (_split_module_total h graph Hw Ho) as Ht.
  assert (Hok : (∃ r, _split_module h graph = Ok r) → all_instantiated h graph).
  { intros [[g parts] H]. by eapply split_module_instantiated. }
  split; [split; [done|]|].
  - intros Hall. destruct Ht as [[a Ha]|(attr & m & _ & Hm & Hnone)]; [by exists a|].
    destruct (Hall m Hm) as [r Hr]. congruence.
  - intros Hn. destruct Ht as [[a Ha]|(attr & m & Hr & _)]; [|by exists attr].
    exfalso. apply Hn, Hok. by exists a.
Qed.

Lemma split_module_returns_iff_instantiated_witness :
  (∃ r, _split_module heap0 chain3 = Ok r) ↔ all_instantiated heap0 chain3.
Proof.
  apply (split_module_returns_iff_instantiated heap0 chain3);
    [apply chain3_fully_wired|apply chain3_index_ordered].
Defined.

(** ** _split_module: the order of the partitions *)

Lemma split_step_shape fuel h g k m used parts used' parts' :
  modules_list g !! k = Some m →
  split_step fuel h g k m (used, parts) = Ok (used', parts') →
  parts' = parts ∨ ∃ p r, parts' = parts ++ [(p, r)] ∧ head p = Some k.
Proof.
  intros Hm H. unfold split_step in H.
  apply bind_Ok in H as (b & Hb & H). destruct b.
  - injection H as <- <-. by left.
  - apply bind_Ok in H as ([used1 part] & Hgrow & H).
    apply bind_Ok in H as (r & Hr & H). injection H as <- <-.
    apply grow_partition_Ok in Hgrow as (ext & Hpart & _); [|done].
    simpl in Hpart. subst part. right. by exists (k :: ext), r.
Qed.

Lemma heads_below_mono k k' parts : k ≤ k' → heads_below k parts → heads_below k' parts.
Proof. intros Hk Hb p Hp. destruct (Hb p Hp) as (hd & ? & ?). exists hd. split; [done|lia]. Qed.

Lemma heads_append k parts p r :
  heads_below k parts → heads_increase parts → head p = Some k →
  heads_below (S k) (parts ++ [(p, r)]) ∧ heads_increase (parts ++ [(p, r)]).
Proof.
  intros Hb Hi Hp. split.
  - intros q. rewrite fmap_app, elem_of_app. simpl. rewrite list_elem_of_singleton.
    intros [Hq| ->].
    + destruct (Hb q Hq) as (hd & ? & ?). exists hd. split; [done|lia].
    + exists k. split; [done|lia].
  - intros k1 k2 p1 p2 a b. rewrite fmap_app. simpl. intros H1 H2 Hlt Ha Hhb.
    destruct (decide (k2 < length parts.*1)) as [Hk2|Hk2].
    + rewrite lookup_app_l in H1, H2 by lia. exact (Hi k1 k2 p1 p2 a b H1 H2 Hlt Ha Hhb).
    + rewrite lookup_app_r in H2 by lia.
      destruct (k2 - length parts.*1) as [|n] eqn:En; [|by destruct n].
      injection H2 as <-. assert (b = k) as -> by congruence.
      rewrite lookup_app_l in H1 by lia.
      destruct (Hb p1) as (hd & Hhd & ?); [by eapply list_elem_of_lookup_2|]. congruence.
Qed.

Lemma split_loop_heads fuel h g ms : ∀ k used parts used' parts',
  (∀ j m, ms !! j = Some m → modules_list g !! (k + j) = Some m) →
  for_enumerate (split_step fuel h g) k ms (used, parts) = Ok (used', parts') →
  heads_below k parts → heads_increase parts →
  heads_below (k + length ms) parts' ∧ heads_increase parts'.
Proof.
  induction ms as [|m ms IH]; intros k used parts used' parts' Hms H Hb Hi; simpl in H.
  - injection H as <- <-. simpl. by rewrite Nat.add_0_r.
  - apply bind_Ok in H as ([used1 parts1] & Hstep & H).
    assert (Hm : modules_list g !! k = Some m).
    { specialize (Hms 0 m eq_refl). by rewrite Nat.add_0_r in Hms. }
    assert (Hb1 : heads_below (S k) parts1 ∧ heads_increase parts1).
    { apply (split_step_shape _ _ _ _ _ _ _ _ _ Hm) in Hstep as [->|(p & r & -> & Hp)].
      - split; [|done]. eapply heads_below_mono; [|done]. lia.
      - by apply heads_append. }
    destruct Hb1 as [Hb1 Hi1].
    eapply IH in H; [|intros j m' Hj|done|done].
    + simpl. by rewrite <- Nat.add_succ_comm.
    + specialize (Hms (S j) m' Hj). by rewrite <- Nat.add_succ_comm in Hms.
Qed.

Lemma split_module_heads h graph g parts :
  _split_module h graph = Ok (g, parts) → heads_increase parts.
Proof.
  intros H. unfold _split_module in H.
  apply bind_Ok in H as (g0 & Hg0 & H). apply bind_Ok in H as ([used parts0] & Hloop & [= <- <-]).
  eapply split_loop_heads in Hloop as [_ Hi]; [done| | |].
  - intros j m Hj. done.
  - intros p Hp. by apply elem_of_nil in Hp.
  - intros k1 k2 p1 p2 a b Hk1. by destruct k1.
Qed.

Lemma chain_sorted h g (p : list nat) :
  (∀ i j q s, wired g i j q s → (q < Z.of_nat i)%Z) →
  chain h g p → increasing p.
Proof.
  intros Hord. induction p as [|a p IH]; intros Hc; [by intros [|i] j x y|].
  destruct Hc as [Hab Hc]. specialize (IH Hc).
  assert (Hall : ∀ j y, p !! j = Some y → a < y).
  { destruct p as [|b p]; [by intros [|j]|].
    assert (Hlt : a < b).
    { destruct Hab as (ma & mb & u & _ & _ & _ & _ & _ & Hin & _).
      assert (Hw : wired g b 0 (Z.of_nat a) 0) by (by exists [(Z.of_nat a, 0%Z)]).
      apply Hord in Hw. lia. }
    intros [|j] y Hy; [by injection Hy as <-|].
    assert (b < y) by (apply (IH 0 (S j) b y); [done|done|lia]). lia. }
  intros [|i] [|j] x y Hx Hy Hlt; try lia; simpl in *.
  - injection Hx as <-. by eapply Hall.
  - apply (IH i j x y); [done|done|lia].
Qed.

Lemma sorted_head_le_last (p : list nat) hd l :
  increasing p → head p = Some hd → last p = Some l → hd ≤ l.
Proof.
  intros Hs Hhd Hl. rewrite last_lookup in Hl.
  assert (H0 : p !! 0 = Some hd) by (by destruct p).
  destruct (pred (length p)) as [|n] eqn:En.
  - rewrite H0 in Hl. injection Hl as ->. lia.
  - assert (hd < l) by (apply (Hs 0 (S n) hd l); [done|done|lia]). lia.
Qed.

Lemma find_partition_Ok parts user : ∀ i k,
  find_partition i parts user = Ok k →
  ∃ p, parts.*1 !! (k - i) = Some p ∧ head p = Some user ∧ i ≤ k.
Proof.
  induction parts as [|pm parts IH]; intros i k H; simpl in H; [done|].
  apply bind_Ok in H as (p0 & Hp0 & H). apply py_get_Ok in Hp0.
  destruct (decide (p0 = user)) as [->|Hne].
  - injection H as <-. exists pm.1. rewrite Nat.sub_diag. simpl. split; [done|].
    split; [|done]. by destruct pm.1.
  - apply IH in H as (p & Hp & Hhd & Hle). exists p.
    replace (k - i) with (S (k - S i)) by lia. simpl. split; [done|]. split; [done|lia].
Qed.

Section order.
Variable h : Heap.
Variables graph g : PipelineModulesGraph.
Variable parts : list (list nat * RRef).
Hypothesis Hwired : fully_wired graph.
Hypothesis Hord : index_ordered graph.
Hypothesis Hsplit : _split_module h graph = Ok (g, parts).

Lemma split_ordered_g i j q s : wired g i j q s → (q < Z.of_nat i)%Z.
Proof.
  pose proof (_split_module_Ok h graph g parts Hsplit) as (_ & Hin & _).
  intros (l & Hl & Hj). apply (Hord i j q s). exists l. by rewrite <- Hin.
Qed.

Lemma split_partition_sorted p : p ∈ parts.*1 → increasing p.
Proof.
  intros Hp. apply (chain_sorted h g); [apply split_ordered_g|].
  by apply (split_chain h graph g parts Hsplit).
Qed.

(** The assertion [user_partition > part_idx] of [forward]. *)
Lemma user_partition_later k p l us u :
  parts.*1 !! k = Some p → last p = Some l →
  output_users g !! l = Some us → u ∈ us →
  ∃ k', find_partition 0 parts u.1.1 = Ok k' ∧ k < k' ∧ k' < length parts.
Proof.
  intros Hk Hlast Hus Hu.
  pose proof (_split_module_Ok h graph g parts Hsplit) as (_ & _ & Huc & _).
  pose proof (_split_module_partitions h graph g parts Hsplit) as (_ & _ & Hne & _).
  pose proof (split_module_heads h graph g parts Hsplit) as Hinc.
  destruct (find_partition_returns parts u.1.1 0 Hne) as [k' Hk'].
  { by apply (last_user_head h graph g parts (fully_wired_balanced _ Hwired) Hsplit k p l us u). }
  exists k'. split; [done|].
  apply find_partition_Ok in Hk' as (q & Hq & Hhq & _). rewrite Nat.sub_0_r in Hq.
  split; [|apply lookup_lt_Some in Hq; by rewrite length_fmap in Hq].
  assert (Hw : wired g u.1.1 u.1.2 (Z.of_nat l) u.2).
  { apply (uc_output g Huc). by exists us. }
  apply split_ordered_g in Hw.
  destruct (head p) as [a|] eqn:Ha.
  2:{ by destruct p. }
  assert (a ≤ l).
  { eapply sorted_head_le_last; [|done..]. apply split_partition_sorted.
    by eapply list_elem_of_lookup_2. }
  destruct (decide (k < k')) as [|Hge]; [done|]. exfalso.
  destruct (decide (k' = k)) as [->|Hne'].
  - rewrite Hk in Hq. injection Hq as <-. rewrite Ha in Hhq. injection Hhq as ->. lia.
  - assert (u.1.1 < a) by (eapply (Hinc k' k q p); [done|done|lia|done|done]). lia.
Qed.

End order.

(** X24: on a fully wired graph whose inputs come from the model input
    or from smaller indices, the partitions [_split_module] returns are in
    the order of their first modules, each lists its modules in increasing
    order, and every consumer of the last module of a partition starts a
    partition that comes later in the list: the look-up [forward] makes for
    it succeeds with an index above that of the partition, as the assertion
    [user_partition > part_idx] demands. *)
Theorem split_module_partition_order (h : Heap) (graph g : PipelineModulesGraph)
    (parts : list (list nat * RRef)) :
  fully_wired graph → index_ordered graph →
  _split_module h graph = Ok (g, parts) →
  (∀ k1 k2 p1 p2 a b,
     parts.*1 !! k1 = Some p1 → parts.*1 !! k2 = Some p2 → k1 < k2 →
     head p1 = Some a → head p2 = Some b → a < b) ∧
  (∀ p, p ∈ parts.*1 → increasing p) ∧
  (∀ k p l us u,
     parts.*1 !! k = Some p → last p = Some l →
     output_users g !! l = Some us → u ∈ us →
     ∃ k', find_partition 0 parts u.1.1 = Ok k' ∧ k < k' ∧ k' < length parts).
Proof.
  intros Hw Ho Hs. split; [|split].
  - by apply (split_module_heads h graph g parts).
  - intros p. by apply (split_partition_sorted h graph g parts).
  - by apply (user_partition_later h graph g parts).
Qed.

Lemma two_inputs_fully_wired : fully_wired two_inputs.
Proof. split; [done|]. intros [|[|[|i]]] Hi; simpl in *; eauto; lia. Qed.

Lemma two_inputs_index_ordered : index_ordered two_inputs.
Proof.
  intros i j p s (l & Hl & Hj). unfold two_inputs in Hl. simpl in Hl.
  destruct i as [|[|[|i]]]; simpl in Hl; try done; injection Hl as <-;
    (destruct j as [|[|j]]; simpl in Hj; try done); injection Hj as <- _; lia.
Qed.

Lemma split_module_partition_order_witness :
  ∃ g parts, _split_module heap0 two_inputs = Ok (g, parts) ∧
    ∀ p, p ∈ parts.*1 → increasing p.
Proof.
  eexists _, _. split; [reflexivity|].
  eapply (split_module_partition_order heap0 two_inputs);
    [apply two_inputs_fully_wired|apply two_inputs_index_ordered|reflexivity].
Defined.


(** ** What __init__ builds *)

Lemma py_norm_minus_one len :
  py_norm len (-1) = if decide (len = 0) then None else Some (pred len).
Proof.
  unfold py_norm. destruct (decide (-1 < 0)%Z); [|lia]. cbv zeta.
  destruct (decide (0 ≤ -1 + Z.of_nat len < Z.of_nat len)%Z); destruct (decide (len = 0));
    try lia; try done. f_equal. lia.
Qed.

Lemma py_index_last {A} (l : list A) x : py_index l (-1) = Ok x ↔ last l = Some x.
Proof.
  rewrite py_index_Ok, last_lookup, py_norm_minus_one. case_decide as Hl.
  - apply length_zero_iff_nil in Hl as ->. split; [by intros (k & ? & ?)|done].
  - split; [by intros (k & [= <-] & Hk)|]. intros Hk. by eexists.
Qed.

Lemma py_get_head {A} (l : list A) x : py_get l 0 = Ok x ↔ head l = Some x.
Proof. rewrite py_get_Ok. by destruct l. Qed.

Lemma handler_args_Ok h g chunks cs i p m hr :
  DistributedPipeline.handler_args h g chunks cs i (p, m) = Ok hr →
  ∃ p0 m0 rem plast mlast,
    head p = Some p0 ∧ modules_list g !! p0 = Some m0 ∧ remote (h m0) = Some rem ∧
    last p = Some plast ∧ modules_list g !! plast = Some mlast ∧
    hr = mkHandlerRef (owner m) m (device rem) (num_inputs (h m0)) (num_outputs (h mlast))
                      i chunks cs.
Proof.
  unfold DistributedPipeline.handler_args. intros H.
  apply bind_Ok in H as (p0 & Hp0 & H). apply bind_Ok in H as (m0 & Hm0 & H).
  apply bind_Ok in H as (dev & Hdev & H). apply bind_Ok in H as (plast & Hplast & H).
  apply bind_Ok in H as (mlast & Hmlast & [= <-]).
  apply py_get_head in Hp0. apply py_get_Ok in Hm0, Hmlast. apply py_index_last in Hplast.
  unfold get_device in Hdev. destruct (remote (h m0)) as [rem|] eqn:Hrem; [|done].
  injection Hdev as <-. by exists p0, m0, rem, plast, mlast.
Qed.

Lemma create_handlers_Ok h g chunks cs : ∀ parts i created created' hs,
  DistributedPipeline.create_handlers h g chunks cs i parts created = (created', Ok hs) →
  created' = hs ∧
  ∃ new, hs = created ++ new ∧ length new = length parts ∧
    ∀ j pm, parts !! j = Some pm →
      ∃ hr, new !! j = Some hr ∧
            DistributedPipeline.handler_args h g chunks cs (i + j) pm = Ok hr.
Proof.
  induction parts as [|pm parts IH]; intros i created created' hs H; simpl in H.
  - injection H as <- <-. split; [done|]. exists []. by rewrite app_nil_r.
  - destruct (DistributedPipeline.handler_args h g chunks cs i pm) as [hr0| |] eqn:E; [|done|done].
    apply IH in H as (-> & new & -> & Hlen & Hnew). split; [done|].
    exists (hr0 :: new). rewrite <- app_assoc. split; [done|]. split; [simpl; lia|].
    intros [|j] pm' Hj; simpl in *.
    + injection Hj as <-. exists hr0. by rewrite Nat.add_0_r.
    + destruct (Hnew j pm' Hj) as (hr & Hhr & Ha). exists hr. split; [done|].
      by rewrite <- Nat.add_succ_comm.
Qed.

Lemma find_input_feeds_Ok g parts feeds :
  DistributedPipeline.find_input_feeds g parts = Ok feeds →
  Forall2 (fun (u f : nat * nat * Z) =>
             find_partition 0 parts u.1.1 = Ok f.1.1 ∧ f.1.2 = u.1.2 ∧ f.2 = u.2)
          (model_input_users g) feeds.
Proof.
  unfold DistributedPipeline.find_input_feeds. generalize (model_input_users g) as us.
  intros us. revert feeds. induction us as [|u us IH]; intros feeds H; simpl in H.
  - injection H as <-. constructor.
  - apply bind_Ok in H as (f & Hf & H). apply bind_Ok in H as (fs & Hfs & [= <-]).
    apply bind_Ok in Hf as (i & Hi & [= <-]). constructor; [done|by apply IH].
Qed.

Lemma init_Ok torch_version h graph chunks checkpoint created p :
  DistributedPipeline.__init__ torch_version h graph chunks checkpoint = (created, Ok p) →
  check_pytorch_version torch_version = Ok () ∧ (0 < chunks)%Z ∧ valid_checkpoint checkpoint ∧
  DistributedPipeline.chunks p = chunks ∧
  _split_module h graph = Ok (DistributedPipeline.graph p, DistributedPipeline.partitions p) ∧
  DistributedPipeline.find_input_feeds (DistributedPipeline.graph p) (DistributedPipeline.partitions p)
    = Ok (DistributedPipeline.input_feeds p) ∧
  ∃ cs, DistributedPipeline.checkpoint_stop_of chunks checkpoint = Ok cs ∧
    DistributedPipeline.create_handlers h (DistributedPipeline.graph p) chunks cs 0
      (DistributedPipeline.partitions p) []
    = (created, Ok (DistributedPipeline.partition_handlers p)).
Proof.
  unfold DistributedPipeline.__init__.
  destruct (DistributedPipeline.prepare torch_version h graph chunks checkpoint)
    as [[[[g parts] feeds] cs]|e|] eqn:E; [|done|done].
  destruct (DistributedPipeline.create_handlers h g chunks cs 0 parts []) as [created0 r] eqn:Hc.
  intros [= -> H]. destruct r as [hs| |]; [|done|done]. injection H as <-. simpl.
  unfold DistributedPipeline.prepare in E.
  apply bind_Ok in E as ([] & Hv & E). apply bind_Ok in E as (? & _ & E).
  case_decide as Hchunks; [done|]. case_decide as Hcp; [done|].
  apply bind_Ok in E as ([g' parts'] & Hs & E). apply bind_Ok in E as (feeds' & Hf & E).
  apply bind_Ok in E as (cs' & Hcs & [= <- <- <- <-]). simpl in *.
  split; [done|]. split; [lia|]. split.
  { unfold valid_checkpoint. destruct (decide (checkpoint ∈ ["always"; "except_last"; "never"])); [done|].
    by exfalso. }
  split; [done|]. split; [done|]. split; [done|]. by exists cs'.
Qed.

(** X25: a pipeline that [__init__] has built holds the partitions
    [_split_module] returned for the graph, one handler per partition and
    one input feed per consumer of a model input.  Handler [i] is created on
    the worker that owns the remote module of partition [i], for that module,
    with rank [i], the device and the number of inputs of the first module of
    the partition, the number of outputs of its last module and the chunks of
    the pipeline; the feed for a consumer names the partition that starts
    with the consuming module, the consumer's input slot and the model
    input. *)
Theorem init_pipeline_shape (torch_version : string) (h : Heap) (graph : PipelineModulesGraph)
    (chunks : Z) (checkpoint : string) (created : list HandlerRef) (p : DistributedPipeline.t) :
  DistributedPipeline.__init__ torch_version h graph chunks checkpoint = (created, Ok p) →
  _split_module h graph = Ok (DistributedPipeline.graph p, DistributedPipeline.partitions p) ∧
  created = DistributedPipeline.partition_handlers p ∧
  length (DistributedPipeline.partition_handlers p) = length (DistributedPipeline.partitions p) ∧
  (∀ i part r, DistributedPipeline.partitions p !! i = Some (part, r) →
     ∃ hr p0 m0 rem plast mlast,
       DistributedPipeline.partition_handlers p !! i = Some hr ∧
       hr_rank hr = i ∧ hr_module hr = r ∧ hr_owner hr = owner r ∧
       hr_chunks hr = chunks ∧
       head part = Some p0 ∧ modules_list graph !! p0 = Some m0 ∧
       remote (h m0) = Some rem ∧ hr_device hr = device rem ∧
       hr_num_input hr = num_inputs (h m0) ∧
       last part = Some plast ∧ modules_list graph !! plast = Some mlast ∧
       hr_num_output hr = num_outputs (h mlast)) ∧
  Forall2 (fun (u f : nat * nat * Z) =>
             (∃ q, (DistributedPipeline.partitions p).*1 !! f.1.1 = Some q ∧ head q = Some u.1.1) ∧
             f.1.2 = u.1.2 ∧ f.2 = u.2)
          (model_input_users (DistributedPipeline.graph p)) (DistributedPipeline.input_feeds p).
Proof.
  intros (_ & _ & _ & _ & Hs & Hf & cs & _ & Hc)%init_Ok.
  pose proof (_split_module_Ok _ _ _ _ Hs) as (Hml & _).
  apply create_handlers_Ok in Hc as (-> & new & Hnew & Hlen & Hargs). simpl in Hnew.
  split; [done|]. split; [done|]. split; [by rewrite Hnew|]. split.
  - intros i part r Hi. destruct (Hargs i (part, r) Hi) as (hr & Hhr & Ha).
    apply handler_args_Ok in Ha as (p0 & m0 & rem & plast & mlast & H1 & H2 & H3 & H4 & H5 & ->).
    rewrite Hml in H2, H5. eexists _, p0, m0, rem, plast, mlast. rewrite Hnew.
    split; [exact Hhr|]. by simpl.
  - apply find_input_feeds_Ok in Hf. eapply Forall2_impl; [exact Hf|].
    intros u f (Hfp & ? & ?). split; [|done].
    apply find_partition_Ok in Hfp as (q & Hq & Hhd & _). rewrite Nat.sub_0_r in Hq. eauto.
Qed.

Lemma init_pipeline_shape_witness :
  length (DistributedPipeline.partition_handlers pipeline2)
  = length (DistributedPipeline.partitions pipeline2).
Proof.
  eapply (init_pipeline_shape "1.9.0" heap0 two_inputs 2 "never"). reflexivity.
Defined.

(** ** The calls forward makes *)

Section calls.
Variable check : Tensor → res unit.
Variable scatter : Tensor → Z → res (list Tensor).
Variable worker_name : string.
Variable self : DistributedPipeline.t.

Lemma launch_Ok part_idx recs res loc s' evs :
  DistributedPipeline.launch worker_name self part_idx (recs, res, loc) = (Ok (), s', evs) →
  launch_calls part_idx evs ∧
  s'.1.1 = <[part_idx := Some part_idx]> recs ∧ part_idx < length recs.
Proof.
  unfold DistributedPipeline.launch. intros H. act_inv H.
  unfold act_put in H. simplify_eq. simpl in *.
  match goal with
  | Hs : py_store _ _ _ = Ok _ |- _ => apply py_store_of_nat in Hs as [-> Hlt]
  end.
  split; [|done]. by eexists.
Qed.

Lemma launches_Ok (l : list nat) : ∀ recs res loc s' evs,
  act_for l (DistributedPipeline.launch worker_name self) (recs, res, loc) = (Ok (), s', evs) →
  length s'.1.1 = length recs ∧
  (∀ k, k ∈ l → s'.1.1 !! k = Some (Some k)) ∧
  (∀ k, k ∉ l → s'.1.1 !! k = recs !! k) ∧
  ∃ groups, evs = concat groups ∧ Forall2 launch_calls l groups.
Proof.
  induction l as [|a l IH]; intros recs res loc s' evs H; simpl in H.
  - unfold act_ret in H. simplify_eq. simpl. split; [done|]. split; [by intros k ?%elem_of_nil|].
    split; [done|]. exists []. split; [done|constructor].
  - apply act_bind_Ok in H as ([] & [[recs1 res1] loc1] & t1 & t2 & Ha & H & ->).
    apply launch_Ok in Ha as (Hcalls & Hrecs & Hlt). simpl in Hrecs. subst recs1.
    apply IH in H as (Hlen & Hin & Hout & groups & -> & HF).
    rewrite length_insert in Hlen. split; [done|]. split; [|split].
    + intros k Hk. destruct (decide (k ∈ l)) as [Hkl|Hkl]; [by apply Hin|].
      apply elem_of_cons in Hk as [->|?]; [|done].
      rewrite Hout by done. by apply list_lookup_insert_eq.
    + intros k Hk. apply not_elem_of_cons in Hk as [Hne Hk].
      rewrite Hout by done. by rewrite list_lookup_insert_ne.
    + exists (t1 :: groups). split; [done|]. by constructor.
Qed.

Lemma feed_one_Ok recs i b (f : nat * nat * Z) s s' evs :
  DistributedPipeline.feed_one worker_name self recs i b f s = (Ok (), s', evs) →
  s'.1 = s.1 ∧
  ∃ r v, recs !! f.1.1 = Some (Some r) ∧ py_index b f.2 = Ok v ∧
         evs = [Feed r (Z.of_nat i) (Z.of_nat f.1.2) v].
Proof.
  destruct f as [[fi fj] feed_idx]. unfold DistributedPipeline.feed_one. intros H.
  act_inv H. destruct a as [r|]; [|done]. apply py_get_Ok in Hm. case_decide.
  - act_inv H.
    destruct (DistributedPipelineRecord.feed _ _ _ _) as [phony record'].
    act_inv H. unfold act_ret in H. simplify_eq. split; [done|]. by exists r, a1.
  - act_inv H. unfold act_emit in H. simplify_eq. split; [done|]. by exists r, a.
Qed.

Lemma feed_chunk_Ok recs i b : ∀ s s' evs,
  DistributedPipeline.feed_chunk worker_name self recs i b s = (Ok (), s', evs) →
  s'.1 = s.1 ∧
  Forall2 (fun (f : nat * nat * Z) c =>
             ∃ r v, recs !! f.1.1 = Some (Some r) ∧ py_index b f.2 = Ok v ∧
                    c = Feed r (Z.of_nat i) (Z.of_nat f.1.2) v)
          (DistributedPipeline.input_feeds self) evs.
Proof.
  unfold DistributedPipeline.feed_chunk.
  induction (DistributedPipeline.input_feeds self) as [|f fs IH];
    intros s s' evs H; simpl in H.
  - unfold act_ret in H. simplify_eq. split; [done|constructor].
  - apply act_bind_Ok in H as ([] & s1 & t1 & t2 & Hf & H & ->).
    apply IH in H as [Hs HF]. apply feed_one_Ok in Hf as (Hs1 & r & v & Hr & Hv & ->).
    split; [congruence|]. simpl. constructor; [|done]. by exists r, v.
Qed.

Lemma feeds_Ok recs (cols : list (nat * list Tensor)) : ∀ s s' evs,
  act_for cols (fun ib => DistributedPipeline.feed_chunk worker_name self recs ib.1 ib.2) s
    = (Ok (), s', evs) →
  s'.1 = s.1 ∧
  ∃ groups, evs = concat groups ∧
    Forall2 (fun (ib : nat * list Tensor) fs =>
               Forall2 (fun (f : nat * nat * Z) c =>
                          ∃ r v, recs !! f.1.1 = Some (Some r) ∧ py_index ib.2 f.2 = Ok v ∧
                                 c = Feed r (Z.of_nat ib.1) (Z.of_nat f.1.2) v)
                       (DistributedPipeline.input_feeds self) fs)
            cols groups.
Proof.
  induction cols as [|[i b] cols IH]; intros s s' evs H; simpl in H.
  - unfold act_ret in H. simplify_eq. split; [done|]. exists []. split; [done|constructor].
  - apply act_bind_Ok in H as ([] & s1 & t1 & t2 & Hf & H & ->).
    apply feed_chunk_Ok in Hf as [Hs1 Hf]. apply IH in H as (Hs & groups & -> & HF).
    split; [congruence|]. exists (t1 :: groups). split; [done|]. by constructor.
Qed.

Lemma forward_Ok inputs result calls :
  DistributedPipeline.forward check scatter worker_name self inputs = (Ok result, calls) →
  ∃ batches_list recs res loc s' launches feeds,
    py_map (fun input => scatter input (DistributedPipeline.chunks self)) inputs = Ok batches_list ∧
    act_for (reverse (seq 0 (length (DistributedPipeline.partition_handlers self))))
      (DistributedPipeline.launch worker_name self)
      (replicate (length (DistributedPipeline.partition_handlers self) + 1) None, None, ∅)
    = (Ok (), (recs, res, loc), launches) ∧
    act_for (imap (fun i b => (i, b)) (zip_star batches_list))
      (fun ib => DistributedPipeline.feed_chunk worker_name self recs ib.1 ib.2) (recs, res, loc)
    = (Ok (), s', feeds) ∧
    calls = launches ++ feeds.
Proof.
  unfold DistributedPipeline.forward.
  destruct (DistributedPipeline.forward_body check scatter worker_name self inputs ([], None, ∅))
    as [[r st] cs] eqn:E.
  intros [= -> ->]. unfold DistributedPipeline.forward_body in E.
  act_inv E. simplify_eq. destruct a2, a4, a3 as [[recs res] loc].
  exists a0, recs, res, loc, a5, t, t4. split; [done|]. split; [done|]. split; [done|].
  destruct (a5.1.2) as [result'|]; [|done]. unfold act_ret in E. simpl in E. simplify_eq.
  by rewrite !app_nil_r.
Qed.

(** X26: when [forward] returns, the calls it has made are, in this
    order: for every partition from the last to the first, the creation of
    its record ([make_pipeline_record]) followed at once by its
    [run_pipeline] on that record; and only then the feeds, chunk by chunk
    and, within a chunk, one per input feed in the order of [input_feeds],
    each to the record of the feed's partition, for that chunk and input
    slot, with the slice of the model input the feed names. *)
Theorem forward_calls (inputs : list Tensor) (result : ResultRef) (calls : list Call) :
  DistributedPipeline.forward check scatter worker_name self inputs = (Ok result, calls) →
  ∃ batches_list launches feeds,
    py_map (fun input => scatter input (DistributedPipeline.chunks self)) inputs = Ok batches_list ∧
    calls = concat launches ++ concat feeds ∧
    Forall2 launch_calls
      (reverse (seq 0 (length (DistributedPipeline.partition_handlers self)))) launches ∧
    Forall2 (fun (ib : nat * list Tensor) fs =>
               Forall2 (feed_call ib.1 ib.2) (DistributedPipeline.input_feeds self) fs)
            (imap (fun i b => (i, b)) (zip_star batches_list)) feeds.
Proof.
  intros (bl & recs & res & loc & s' & launches & feeds & Hbl & Hl & Hf & ->)%forward_Ok.
  apply launches_Ok in Hl as (Hlen & Hin & Hout & lgroups & -> & HL). cbn [fst snd] in *.
  apply feeds_Ok in Hf as (_ & fgroups & -> & HF).
  exists bl, lgroups, fgroups. split; [done|]. split; [done|]. split; [done|].
  eapply Forall2_impl; [exact HF|]. intros [i b] fs HF'. cbn [fst snd] in *.
  eapply Forall2_impl; [exact HF'|]. intros [[fi fj] idx] c (r & v & Hr & Hv & ->).
  unfold feed_call. cbn [fst snd] in *.
  exists v. split; [done|].
  destruct (decide (fi ∈ reverse (seq 0 (length (DistributedPipeline.partition_handlers self)))))
    as [Hfi|Hfi].
  - assert (Some (Some r) = Some (Some fi)) as [= ->]; [|done].
    rewrite <- Hr. apply Hin, Hfi.
  - assert (replicate (length (DistributedPipeline.partition_handlers self) + 1)
              (None : option RecordRef) !! fi = Some (Some r)) as [? _]%lookup_replicate; [|done].
    rewrite <- Hr. symmetry. apply Hout, Hfi.
Qed.

End calls.

Lemma forward_calls_witness :
  ∃ batches_list launches feeds,
    py_map (fun input : Tensor => Ok [input; input]) [input_tensor 1; input_tensor 2] = Ok batches_list ∧
    (DistributedPipeline.forward (fun _ => Ok ()) (fun t _ => Ok [t; t]) "w0" pipeline2
       [input_tensor 1; input_tensor 2]).2 = concat launches ++ concat feeds.
Proof.
  edestruct (forward_calls (fun _ => Ok ()) (fun t _ => Ok [t; t]) "w0" pipeline2
               [input_tensor 1; input_tensor 2]) as (bl & ls & fs & Hbl & Hc & _); [reflexivity|].
  exists bl, ls, fs. split; [exact Hbl|exact Hc].
Defined.

(** ** When forward returns *)

Lemma act_bind_run {St E A B} (m : Act St E A) (f : A → Act St E B) s a s1 t1 r s2 t2 :
  m s = (Ok a, s1, t1) → f a s1 = (r, s2, t2) → act_bind m f s = (r, s2, t1 ++ t2).
Proof. intros Hm Hf. unfold act_bind. by rewrite Hm, Hf. Qed.

Lemma py_map_all_Ok {A B} (f : A → res B) (l : list A) :
  (∀ a, a ∈ l → ∃ b, f a = Ok b) → ∃ bs, py_map f l = Ok bs.
Proof.
  induction l as [|a l IH]; intros H; simpl; [by eexists|].
  destruct (H a) as [b ->]; [by left|].
  destruct IH as [bs ->]; [intros a' Ha'; apply H; by right|]. simpl. by eexists.
Qed.

Lemma py_map_length {A B} (f : A → res B) (l : list A) bs :
  py_map f l = Ok bs → length bs = length l.
Proof.
  revert bs. induction l as [|a l IH]; intros bs H; simpl in H; [by injection H as <-|].
  apply bind_Ok in H as (b & _ & H). apply bind_Ok in H as (bs' & Hbs & [= <-]).
  simpl. f_equal. by apply IH.
Qed.

Lemma zip_star_columns {A} (ls : list (list A)) b :
  b ∈ zip_star ls → length b = length ls.
Proof.
  revert b. induction ls as [|l ls IH]; intros b Hb; [by apply elem_of_nil in Hb|].
  destruct ls as [|l' ls].
  - simpl in Hb. apply list_elem_of_fmap in Hb as (a & -> & _). done.
  - change (zip_star (l :: l' :: ls)) with (zip_with cons l (zip_star (l' :: ls))) in Hb.
    apply elem_of_zip_with in Hb as (a & c & -> & _ & Hc). simpl. f_equal. by apply IH.
Qed.

(** ** The records of the caller's worker *)

Lemma record_of_handler module_training module_forward hr users :
  DistributedPipeline.record_of hr users
  = PartitionHandler.make_pipeline_record
      (PartitionHandler.__init__ module_training module_forward (hr_device hr) (hr_num_input hr)
         (hr_num_output hr) (Z.of_nat (hr_rank hr)) (hr_chunks hr) (hr_checkpoint_stop hr))
      users.
Proof. reflexivity. Qed.

Lemma record_of_shaped hr users :
  shaped (Z.to_nat (hr_chunks hr)) (Z.to_nat (hr_num_input hr)) (DistributedPipeline.record_of hr users).
Proof.
  split; [apply init_same_shape|]. simpl. split; [by rewrite length_replicate|].
  apply Forall_replicate. by rewrite length_replicate.
Qed.

Lemma record_of_empty hr users c j t :
  cell (DistributedPipeline.record_of hr users) c j ≠ Some (Some t).
Proof.
  unfold cell. simpl. intros H.
  destruct (replicate (Z.to_nat (hr_chunks hr)) (replicate (Z.to_nat (hr_num_input hr)) None) !! c)
    as [row|] eqn:Hrow; [|done].
  apply lookup_replicate in Hrow as [-> _]. simpl in H.
  by apply lookup_replicate in H as [? _].
Qed.

Lemma feed_cell (r : DistributedPipelineRecord.t) (c j nr nc : nat) (v : Tensor) :
  shaped nr nc r → c < nr → j < nc → (∀ t, cell r c j ≠ Some (Some t)) →
  ∃ ph r', DistributedPipelineRecord.feed r (Z.of_nat c) (Z.of_nat j) v = (Ok ph, r') ∧
    shaped nr nc r' ∧
    ∀ c' j' t, cell r' c' j' = Some (Some t) → (c' = c ∧ j' = j) ∨ cell r c' j' = Some (Some t).
Proof.
  intros (Hsame & Hnr & Hnc) Hc Hj Hempty.
  destruct (lookup_lt_is_Some_2 (DistributedPipelineRecord.tensors r) c) as [row Hrow]; [lia|].
  pose proof (Forall_lookup_1 _ _ _ _ Hnc Hrow) as Hlen. simpl in Hlen.
  destruct (lookup_lt_is_Some_2 row j) as [x Hx]; [lia|].
  assert (x = None) as ->.
  { destruct x as [t|]; [|done]. exfalso. apply (Hempty t). unfold cell. by rewrite Hrow. }
  destruct (feed_empty r (Z.of_nat c) (Z.of_nat j) v Hsame) as (r' & Hfeed & _ & Hsame').
  { unfold slot. rewrite (proj2 (py_index_of_nat _ _ _) Hrow). simpl.
    by apply py_index_of_nat. }
  exists (PhonyOf (t_data v)), r'. split; [done|].
  apply feed_Ok in Hfeed as (kc & ki & row' & Hkc & Hrow' & Hki & _ & Ht & _).
  apply py_norm_of_nat in Hkc as [-> _]. rewrite Hrow in Hrow'. injection Hrow' as <-.
  apply py_norm_of_nat in Hki as [-> _].
  split.
  - split; [done|]. rewrite Ht. split; [by rewrite length_insert|].
    apply Forall_insert; [done|]. by rewrite length_insert.
  - intros c' j' t. unfold cell. rewrite Ht.
    destruct (decide (c' = c)) as [->|Hne].
    + rewrite list_lookup_insert_eq by lia. simpl. rewrite Hrow. simpl.
      destruct (decide (j' = j)) as [->|Hnej]; [by left|].
      rewrite list_lookup_insert_ne by done. by right.
    + rewrite list_lookup_insert_ne by done. by right.
Qed.

Lemma feed_outside (r : DistributedPipelineRecord.t) (c j nr nc : nat) (v : Tensor) :
  shaped nr nc r → ¬ (c < nr ∧ j < nc) →
  DistributedPipelineRecord.feed r (Z.of_nat c) (Z.of_nat j) v = (Raise IndexError, r).
Proof.
  intros (_ & Hnr & Hnc) Hout.
  unfold DistributedPipelineRecord.feed, DistributedPipelineRecord.feed_locked.
  destruct (decide (c < nr)) as [Hc|Hc].
  - destruct (lookup_lt_is_Some_2 (DistributedPipelineRecord.tensors r) c) as [row Hrow]; [lia|].
    pose proof (Forall_lookup_1 _ _ _ _ Hnc Hrow) as Hlen. simpl in Hlen.
    rewrite (proj2 (py_index_of_nat _ _ _) Hrow). simpl.
    by rewrite (py_index_outside row (Z.of_nat j)) by lia.
  - by rewrite (py_index_outside (DistributedPipelineRecord.tensors r) (Z.of_nat c)) by lia.
Qed.

Lemma fresh_local_records worker (self : DistributedPipeline.t) l records :
  (∀ k, k < length (DistributedPipeline.partition_handlers self) → k ∈ l) →
  fresh_records worker self l records →
  local_records worker self records ∧ ∀ i fs, fed_before i fs records.
Proof.
  intros Hall [Hhas Hfresh]. split; [split|].
  - intros k hr Hhr Ho. apply (Hhas k hr); [|done|done].
    apply Hall. by eapply lookup_lt_Some.
  - intros k r Hr. destruct (Hfresh k r Hr) as (hr & users & Hhr & ->).
    exists hr. split; [done|apply record_of_shaped].
  - intros i fs k r c j t Hr Hc. destruct (Hfresh k r Hr) as (hr & users & _ & ->).
    by apply record_of_empty in Hc.
Qed.

Lemma fed_before_next i records :
  fed_before i [] records → ∀ fs, fed_before (S i) fs records.
Proof.
  intros H fs k r c j t Hr Hc. destruct (H k r c j t Hr Hc) as [?|[-> _]]; left; lia.
Qed.

Lemma act_bind_raise {St E A B} (m : Act St E A) (f : A → Act St E B) s e s1 t1 :
  m s = (Raise e, s1, t1) → act_bind m f s = (Raise e, s1, t1).
Proof. intros Hm. unfold act_bind. by rewrite Hm. Qed.

Lemma feed_fits_dec worker (self : DistributedPipeline.t) i f :
  feed_fits worker self i f ∨ ¬ feed_fits worker self i f.
Proof.
  unfold feed_fits.
  destruct (DistributedPipeline.partition_handlers self !! f.1.1) as [hr|]; [|by left].
  destruct (decide (hr_owner hr = worker)) as [Ho|Ho].
  - destruct (decide ((Z.of_nat f.1.2 < hr_num_input hr)%Z ∧ (Z.of_nat i < hr_chunks hr)%Z))
      as [Hb|Hb].
    + left. by intros hr' [= <-] _.
    + right. intros H. by apply Hb, H.
  - left. by intros hr' [= <-] ?.
Qed.

Lemma feeds_fit_dec worker (self : DistributedPipeline.t) i (fs : list (nat * nat * Z)) :
  (∀ f, f ∈ fs → feed_fits worker self i f) ∨ ¬ (∀ f, f ∈ fs → feed_fits worker self i f).
Proof.
  induction fs as [|f fs IH]; [left; by intros f ?%elem_of_nil|].
  destruct (feed_fits_dec worker self i f) as [Hf|Hf].
  - destruct IH as [IH|IH].
    + left. intros f' [->|?]%elem_of_cons; [done|by apply IH].
    + right. intros H. apply IH. intros f' Hf'. apply H. by right.
  - right. intros H. apply Hf, H. by left.
Qed.

Section returns.
Variable check : Tensor → res unit.
Variable scatter : Tensor → Z → res (list Tensor).
Variable worker_name : string.
Variable self : DistributedPipeline.t.

Hypothesis Hlen : length (DistributedPipeline.partitions self) = num_partitions self.
Hypothesis Hne : ∀ p, p ∈ (DistributedPipeline.partitions self).*1 → p ≠ [].
Hypothesis Hou : ∀ k p l,
  (DistributedPipeline.partitions self).*1 !! k = Some p → last p = Some l →
  ∃ us, output_users (DistributedPipeline.graph self) !! l = Some us.
Hypothesis Hlater : ∀ k p l us u,
  (DistributedPipeline.partitions self).*1 !! k = Some p → last p = Some l →
  output_users (DistributedPipeline.graph self) !! l = Some us → u ∈ us →
  ∃ k', find_partition 0 (DistributedPipeline.partitions self) u.1.1 = Ok k' ∧ k < k' ∧ k' < num_partitions self.

Lemma launch_returns k recs res loc :
  k < num_partitions self → length recs = num_partitions self + 1 →
  ∃ s' evs hr users,
    DistributedPipeline.launch worker_name self k (recs, res, loc) = (Ok (), s', evs) ∧
    length s'.1.1 = num_partitions self + 1 ∧
    s'.1.2 = (if decide (k = num_partitions self - 1) then Some (RunPipelineResult k k) else res) ∧
    DistributedPipeline.partition_handlers self !! k = Some hr ∧
    s'.2 = (if decide (hr_owner hr = worker_name)
            then <[k := DistributedPipeline.record_of hr users]> loc else loc).
Proof.
  intros Hk Hrecs.
  destruct (lookup_lt_is_Some_2 (DistributedPipeline.partition_handlers self) k) as [hr Hhr]; [done|].
  destruct (lookup_lt_is_Some_2 (DistributedPipeline.partitions self) k) as [[p r] Hpm]; [lia|].
  assert (Hp : (DistributedPipeline.partitions self).*1 !! k = Some p).
  { by rewrite list_lookup_fmap, Hpm. }
  assert (Hpne : p ≠ []) by (apply Hne; by eapply list_elem_of_lookup_2).
  destruct (last p) as [l|] eqn:Hl; [|by apply last_None in Hl].
  destruct (Hou k p l Hp Hl) as [us Hus].
  destruct (py_map_all_Ok (DistributedPipeline.resolve_user self k recs) us) as [users Husers].
  { intros [[user input_idx] output_idx] Hu.
    destruct (Hlater k p l us _ Hp Hl Hus Hu) as (k' & Hk' & Hlt & Hn). simpl in Hk'.
    unfold DistributedPipeline.resolve_user. rewrite Hk'. simpl.
    rewrite decide_True by done.
    destruct (py_get_lt recs k') as (rr & -> & _); [lia|]. simpl. by eexists. }
  eexists _, _, hr, users. split.
  - unfold DistributedPipeline.launch.
    eapply act_bind_run; [reflexivity|]. cbn [fst snd].
    eapply act_bind_run; [unfold act_lift; by rewrite (proj2 (py_get_Ok _ _ _) Hhr)|].
    eapply act_bind_run; [unfold act_lift; by rewrite (proj2 (py_get_Ok _ _ _) Hpm)|].
    eapply act_bind_run; [unfold act_lift; cbn [fst snd]; by rewrite (proj2 (py_index_last _ _) Hl)|].
    eapply act_bind_run; [unfold act_lift; by rewrite (proj2 (py_get_Ok _ _ _) Hus)|].
    eapply act_bind_run; [unfold act_lift; by rewrite Husers|].
    eapply act_bind_run; [reflexivity|].
    eapply act_bind_run.
    { unfold act_lift, py_store. rewrite py_norm_nonneg by lia.
      rewrite decide_True by lia. reflexivity. }
    eapply act_bind_run; [reflexivity|]. reflexivity.
  - simpl. rewrite length_insert. done.
Qed.

Lemma launches_return (l : list nat) : ∀ l0 recs res loc,
  (∀ k, k ∈ l → k < num_partitions self) → length recs = num_partitions self + 1 →
  fresh_records worker_name self l0 loc →
  ∃ s' evs, act_for l (DistributedPipeline.launch worker_name self) (recs, res, loc)
            = (Ok (), s', evs) ∧
    (is_Some res ∨ num_partitions self - 1 ∈ l → is_Some s'.1.2) ∧
    fresh_records worker_name self (l0 ++ l) s'.2.
Proof.
  induction l as [|k l IH]; intros l0 recs res loc Hl Hrecs Hfresh.
  - exists (recs, res, loc), []. split; [done|]. rewrite app_nil_r.
    split; [|done]. intros [?|?%elem_of_nil]; done.
  - destruct (launch_returns k recs res loc)
      as ([[recs1 res1] loc1] & t1 & hr & users & H1 & Hlen1 & Hres1 & Hhr & Hloc1);
      [apply Hl; by left|done|]. simpl in *.
    destruct (IH (l0 ++ [k]) recs1 res1 loc1) as (s' & t2 & H2 & Hres2 & Hfresh2);
      [intros k' Hk'; apply Hl; by right|done| |].
    { destruct Hfresh as [Hhas Hrec]. subst loc1. split.
      - intros k' hr' [Hk'|Hk'%list_elem_of_singleton]%elem_of_app Hhr' Ho.
        + destruct (decide (hr_owner hr = worker_name)); [|by eapply Hhas].
          apply lookup_insert_is_Some. destruct (decide (k = k')); [by left|right].
          split; [done|]. by eapply Hhas.
        + subst k'. rewrite Hhr in Hhr'. injection Hhr' as <-.
          rewrite decide_True by done. rewrite lookup_insert_eq. by eexists.
      - intros k' r Hr. destruct (decide (hr_owner hr = worker_name)); [|by apply Hrec].
        apply lookup_insert_Some in Hr as [[<- <-]|[_ Hr]]; [by exists hr, users|by apply Hrec]. }
    exists s', (t1 ++ t2). split; [by eapply act_bind_run|].
    rewrite <- app_assoc in Hfresh2. split; [|done].
    intros Hsome. apply Hres2. rewrite Hres1.
    destruct (decide (k = num_partitions self - 1)) as [Hk|Hk]; [left; by eexists|].
    destruct Hsome as [?|[Heq|?]%elem_of_cons]; [by left|exfalso; lia|by right].
Qed.

Lemma feed_one_step recs i b (f : nat * nat * Z) rest s :
  local_records worker_name self s.2 →
  fed_before i (f :: rest) s.2 →
  NoDup (slot_of <$> (f :: rest)) →
  recs !! f.1.1 = Some (Some f.1.1) →
  (∃ v, py_index b f.2 = Ok v) →
  f.1.1 < num_partitions self →
  (feed_fits worker_name self i f →
     ∃ s' evs, DistributedPipeline.feed_one worker_name self recs i b f s = (Ok (), s', evs) ∧
       s'.1 = s.1 ∧ local_records worker_name self s'.2 ∧ fed_before i rest s'.2) ∧
  (¬ feed_fits worker_name self i f →
     ∃ s' evs, DistributedPipeline.feed_one worker_name self recs i b f s
               = (Raise IndexError, s', evs)).
Proof.
  destruct f as [[fi fj] idx]. cbn [fst snd].
  intros [Hhas Hshape] Hfed Hnd Hr [v Hv] Hfi.
  destruct (lookup_lt_is_Some_2 (DistributedPipeline.partition_handlers self) fi) as [hr Hhr]; [done|].
  apply NoDup_cons in Hnd as [Hnotin _]. simpl in Hnotin.
  assert (Hget : py_get recs fi = Ok (Some fi)) by (by apply py_get_Ok).
  destruct (decide (hr_owner hr = worker_name)) as [Ho|Ho].
  - destruct (Hhas fi hr Hhr Ho) as [r Hrec].
    destruct (Hshape fi r Hrec) as (hr' & Hhr' & Hsh). rewrite Hhr in Hhr'. injection Hhr' as <-.
    assert (Hown : DistributedPipeline.record_owner self fi = Some worker_name).
    { unfold DistributedPipeline.record_owner. rewrite Hhr. simpl. by rewrite Ho. }
    assert (Hlocal : DistributedPipeline.local_value s.2 fi = Ok r).
    { unfold DistributedPipeline.local_value. by rewrite Hrec. }
    destruct (decide (fj < Z.to_nat (hr_num_input hr) ∧ i < Z.to_nat (hr_chunks hr))) as [[Hj Hi]|Hout].
    + split; [|intros Hnf; exfalso; apply Hnf; intros hr' Hhr' _;
                cbn [fst snd] in *; rewrite Hhr in Hhr'; injection Hhr' as <-; lia].
      intros _.
      destruct (feed_cell r i fj _ _ v Hsh Hi Hj) as (ph & r' & Hfeed & Hsh' & Hcells).
      { intros t Ht. destruct (Hfed fi r i fj t Hrec Ht) as [?|[_ Hn]]; [lia|].
        apply Hn. simpl. by left. }
      eexists _, _. split; [|split; [|split]].
      * unfold DistributedPipeline.feed_one.
        eapply act_bind_run; [unfold act_lift; by rewrite Hget|].
        cbv beta iota. rewrite decide_True by done.
        eapply act_bind_run; [reflexivity|].
        eapply act_bind_run; [unfold act_lift; by rewrite Hlocal|].
        eapply act_bind_run; [unfold act_lift; by rewrite Hv|].
        eapply act_bind_run; [reflexivity|].
        rewrite Hfeed.
        eapply act_bind_run; [reflexivity|].
        eapply act_bind_run; [reflexivity|]. reflexivity.
      * done.
      * cbn [fst snd]. split.
        -- intros k hr' Hhr' Ho'. apply lookup_insert_is_Some.
           destruct (decide (fi = k)); [by left|right]. split; [done|]. by eapply Hhas.
        -- intros k r0 Hr0. apply lookup_insert_Some in Hr0 as [[<- <-]|[_ Hr0]]; [|by apply Hshape].
           by exists hr.
      * cbn [fst snd]. intros k r0 c j t Hr0 Hc.
        apply lookup_insert_Some in Hr0 as [[<- <-]|[Hne0 Hr0]].
        -- destruct (Hcells c j t Hc) as [[-> ->]|Hold]; [by right|].
           destruct (Hfed fi r c j t Hrec Hold) as [?|[-> Hn]]; [by left|right].
           split; [done|]. intros Hin. apply Hn. simpl. by right.
        -- destruct (Hfed k r0 c j t Hr0 Hc) as [?|[-> Hn]]; [by left|right].
           split; [done|]. intros Hin. apply Hn. simpl. by right.
    + split; [intros Hf; exfalso; apply Hout; destruct (Hf hr Hhr Ho); cbn [fst snd] in *; lia|].
      intros _. eexists _, _.
      unfold DistributedPipeline.feed_one.
      eapply act_bind_run; [unfold act_lift; by rewrite Hget|].
      cbv beta iota. rewrite decide_True by done.
      eapply act_bind_run; [reflexivity|].
      eapply act_bind_run; [unfold act_lift; by rewrite Hlocal|].
      eapply act_bind_run; [unfold act_lift; by rewrite Hv|].
      eapply act_bind_run; [reflexivity|].
      rewrite (feed_outside r i fj _ _ v Hsh) by lia.
      eapply act_bind_run; [reflexivity|]. reflexivity.
  - assert (Hown : DistributedPipeline.record_owner self fi ≠ Some worker_name).
    { unfold DistributedPipeline.record_owner. rewrite Hhr. simpl. congruence. }
    split; [|intros Hnf; exfalso; apply Hnf; intros hr' Hhr' Ho';
              cbn [fst snd] in *; rewrite Hhr in Hhr'; by injection Hhr' as <-].
    intros _. exists s. eexists. split; [|split; [done|split; [done|]]].
    + unfold DistributedPipeline.feed_one.
      eapply act_bind_run; [unfold act_lift; by rewrite Hget|].
      cbv beta iota. rewrite decide_False by done.
      eapply act_bind_run; [unfold act_lift; by rewrite Hv|]. reflexivity.
    + intros k r0 c j t Hr0 Hc.
      destruct (Hfed k r0 c j t Hr0 Hc) as [?|[-> Hn]]; [by left|right].
      split; [done|]. intros Hin. apply Hn. simpl. by right.
Qed.

Lemma feed_list_outcome recs i b (fs : list (nat * nat * Z)) : ∀ s,
  local_records worker_name self s.2 →
  fed_before i fs s.2 →
  NoDup (slot_of <$> fs) →
  (∀ f, f ∈ fs → recs !! f.1.1 = Some (Some f.1.1) ∧ (∃ v, py_index b f.2 = Ok v) ∧
                 f.1.1 < num_partitions self) →
  ((∀ f, f ∈ fs → feed_fits worker_name self i f) →
     ∃ s' evs, act_for fs (DistributedPipeline.feed_one worker_name self recs i b) s
               = (Ok (), s', evs) ∧
       s'.1 = s.1 ∧ local_records worker_name self s'.2 ∧ fed_before i [] s'.2) ∧
  (¬ (∀ f, f ∈ fs → feed_fits worker_name self i f) →
     ∃ s' evs, act_for fs (DistributedPipeline.feed_one worker_name self recs i b) s
               = (Raise IndexError, s', evs)).
Proof.
  induction fs as [|f fs IH]; intros s Hloc Hfed Hnd Hfs.
  - split; [intros _; by exists s, []|]. intros Hn. exfalso. apply Hn. by intros f ?%elem_of_nil.
  - destruct (Hfs f) as (Hr & Hv & Hlt); [by left|].
    destruct (feed_one_step recs i b f fs s Hloc Hfed Hnd Hr Hv Hlt) as [Hok Hbad].
    destruct (feed_fits_dec worker_name self i f) as [Hfit|Hfit].
    + destruct (Hok Hfit) as (s1 & t1 & H1 & Hs1 & Hloc1 & Hfed1).
      rewrite fmap_cons in Hnd. apply NoDup_cons in Hnd as [_ Hnd].
      destruct (IH s1 Hloc1 Hfed1 Hnd) as [IHok IHbad]; [intros f' Hf'; apply Hfs; by right|].
      split.
      * intros Hall. destruct IHok as (s' & t2 & H2 & Hs' & Hloc' & Hfed');
          [intros f' Hf'; apply Hall; by right|].
        exists s', (t1 ++ t2). split; [by eapply act_bind_run|]. split; [congruence|done].
      * intros Hn. destruct IHbad as (s' & t2 & H2).
        { intros Hall. apply Hn. intros f' [->|Hf']%elem_of_cons; [done|by apply Hall]. }
        exists s', (t1 ++ t2). by eapply act_bind_run.
    + split; [intros Hall; exfalso; apply Hfit, Hall; by left|].
      intros _. destruct (Hbad Hfit) as (s1 & t1 & H1).
      exists s1, t1. by apply act_bind_raise.
Qed.

Lemma feeds_outcome recs (cols : list (nat * list Tensor)) : ∀ i0 s,
  numbered_from i0 cols →
  local_records worker_name self s.2 →
  fed_before i0 (DistributedPipeline.input_feeds self) s.2 →
  NoDup (slot_of <$> DistributedPipeline.input_feeds self) →
  (∀ ib f, ib ∈ cols → f ∈ DistributedPipeline.input_feeds self →
     recs !! f.1.1 = Some (Some f.1.1) ∧ (∃ v, py_index ib.2 f.2 = Ok v) ∧
     f.1.1 < num_partitions self) →
  ((∀ ib f, ib ∈ cols → f ∈ DistributedPipeline.input_feeds self →
      feed_fits worker_name self ib.1 f) →
     ∃ s' evs,
       act_for cols (fun ib => DistributedPipeline.feed_chunk worker_name self recs ib.1 ib.2) s
       = (Ok (), s', evs) ∧ s'.1 = s.1) ∧
  (¬ (∀ ib f, ib ∈ cols → f ∈ DistributedPipeline.input_feeds self →
        feed_fits worker_name self ib.1 f) →
     ∃ s' evs,
       act_for cols (fun ib => DistributedPipeline.feed_chunk worker_name self recs ib.1 ib.2) s
       = (Raise IndexError, s', evs)).
Proof.
  induction cols as [|[i b] cols IH]; intros i0 s Hnum Hloc Hfed Hnd Hcols.
  - split; [intros _; by exists s, []|]. intros Hn. exfalso. apply Hn. by intros ib f ?%elem_of_nil.
  - assert (i = i0) as ->.
    { specialize (Hnum 0 (i, b) eq_refl). simpl in Hnum. lia. }
    assert (Hnum' : numbered_from (S i0) cols).
    { intros k ib Hk. specialize (Hnum (S k) ib Hk). lia. }
    destruct (feed_list_outcome recs i0 b (DistributedPipeline.input_feeds self) s Hloc Hfed Hnd)
      as [Hok Hbad]; [intros f Hf; apply (Hcols (i0, b)); [by left|done]|].
    destruct (feeds_fit_dec worker_name self i0 (DistributedPipeline.input_feeds self)) as [Hfit|Hfit].
    + destruct (Hok Hfit) as (s1 & t1 & H1 & Hs1 & Hloc1 & Hfed1).
      destruct (IH (S i0) s1 Hnum' Hloc1 (fed_before_next _ _ Hfed1 _) Hnd) as [IHok IHbad];
        [intros ib f Hib; apply Hcols; by right|].
      split.
      * intros Hall. destruct IHok as (s' & t2 & H2 & Hs');
          [intros ib f Hib; apply Hall; by right|].
        exists s', (t1 ++ t2). split; [|congruence].
        cbn [act_for]. eapply act_bind_run; [exact H1|exact H2].
      * intros Hn. destruct IHbad as (s' & t2 & H2).
        { intros Hall. apply Hn. intros ib f [->|Hib]%elem_of_cons Hf; [by apply Hfit|by apply Hall]. }
        exists s', (t1 ++ t2). cbn [act_for]. eapply act_bind_run; [exact H1|exact H2].
    + split; [intros Hall; exfalso; apply Hfit; intros f Hf; apply (Hall (i0, b)); [by left|done]|].
      intros _. destruct (Hbad Hfit) as (s1 & t1 & H1).
      exists s1, t1. cbn [act_for]. by apply act_bind_raise.
Qed.

Lemma forward_outcome inputs cs bl :
  py_map check inputs = Ok cs →
  py_map (fun input => scatter input (DistributedPipeline.chunks self)) inputs = Ok bl →
  0 < num_partitions self →
  NoDup (slot_of <$> DistributedPipeline.input_feeds self) →
  (∀ f, f ∈ DistributedPipeline.input_feeds self →
     f.1.1 < num_partitions self ∧ (0 ≤ f.2 < Z.of_nat (length inputs))%Z) →
  (local_feeds_fit worker_name self (length (zip_star bl)) →
     ∃ result calls,
       DistributedPipeline.forward check scatter worker_name self inputs = (Ok result, calls)) ∧
  (¬ local_feeds_fit worker_name self (length (zip_star bl)) →
     ∃ calls,
       DistributedPipeline.forward check scatter worker_name self inputs
       = (Raise IndexError, calls)).
Proof.
  intros Hcs Hbl Hn Hnd Hfeeds.
  destruct (launches_return (reverse (seq 0 (num_partitions self))) []
              (replicate (num_partitions self + 1) None) None ∅)
    as ([[recs res] loc] & t1 & Hl & Hres & Hfresh).
  { intros k Hk%elem_of_reverse%elem_of_seq. lia. }
  { by rewrite length_replicate. }
  { split; [by intros k hr ?%elem_of_nil|]. intros k r Hr. by rewrite lookup_empty in Hr. }
  destruct Hres as [result Hresult].
  { right. apply elem_of_reverse, elem_of_seq. lia. }
  simpl in Hresult, Hfresh. subst res.
  pose proof (launches_Ok worker_name self _ _ _ _ _ _ Hl) as (_ & Hin & _). cbn [fst] in Hin.
  apply fresh_local_records in Hfresh as [Hloc Hfed];
    [|intros k Hk; apply elem_of_reverse, elem_of_seq; unfold num_partitions; lia].
  set (cols := imap (fun i b => (i, b)) (zip_star bl)).
  assert (Hcols : ∀ ib, ib ∈ cols ↔ zip_star bl !! ib.1 = Some ib.2).
  { intros [i b]. unfold cols. rewrite elem_of_lookup_imap. simpl. split.
    - by intros (i' & b' & [= -> ->] & Hb).
    - intros Hb. by exists i, b. }
  destruct (feeds_outcome recs cols 0 (recs, Some result, loc)) as [Hok Hbad].
  { intros k ib Hk. unfold cols in Hk. rewrite list_lookup_imap in Hk.
    destruct (zip_star bl !! k); [|done]. by injection Hk as <-. }
  { done. }
  { apply Hfed. }
  { done. }
  { intros [i b] f Hib Hf. destruct (Hfeeds f Hf) as [Hlt Hrange].
    apply Hcols in Hib. simpl in Hib. split; [|split; [|done]].
    - apply Hin. apply elem_of_reverse, elem_of_seq. lia.
    - apply py_index_in_range. simpl.
      rewrite (zip_star_columns bl b) by (by eapply list_elem_of_lookup_2).
      by rewrite (py_map_length _ _ _ Hbl). }
  assert (Hfit : local_feeds_fit worker_name self (length (zip_star bl)) ↔
                 ∀ ib f, ib ∈ cols → f ∈ DistributedPipeline.input_feeds self →
                         feed_fits worker_name self ib.1 f).
  { split.
    - intros H [i b] f Hib Hf. apply H; [|done]. apply Hcols in Hib. by eapply lookup_lt_Some.
    - intros H i f Hi Hf. destruct (lookup_lt_is_Some_2 (zip_star bl) i Hi) as [b Hb].
      apply (H (i, b)); [by apply Hcols|done]. }
  unfold DistributedPipeline.forward. split.
  - intros H. destruct (Hok (proj1 Hfit H)) as ([[recs' res'] loc'] & t2 & Hf & Hs).
    simpl in Hs. injection Hs as -> ->.
    exists result. eexists.
    assert (Hbody : DistributedPipeline.forward_body check scatter worker_name self inputs ([], None, ∅)
                    = (Ok result, (recs, Some result, loc'),
                       [] ++ [] ++ [] ++ t1 ++ [] ++ t2 ++ [] ++ [])).
    { unfold DistributedPipeline.forward_body.
      eapply act_bind_run; [unfold act_lift; by rewrite Hcs|].
      eapply act_bind_run; [unfold act_lift; by rewrite Hbl|].
      eapply act_bind_run; [reflexivity|].
      eapply act_bind_run; [exact Hl|].
      eapply act_bind_run; [reflexivity|].
      eapply act_bind_run; [exact Hf|].
      eapply act_bind_run; [reflexivity|]. reflexivity. }
    rewrite Hbody. reflexivity.
  - intros H. destruct Hbad as (s' & t2 & Hf); [intros H'; by apply H, Hfit|].
    eexists.
    assert (Hbody : DistributedPipeline.forward_body check scatter worker_name self inputs ([], None, ∅)
                    = (Raise IndexError, s', [] ++ [] ++ [] ++ t1 ++ [] ++ t2)).
    { unfold DistributedPipeline.forward_body.
      eapply act_bind_run; [unfold act_lift; by rewrite Hcs|].
      eapply act_bind_run; [unfold act_lift; by rewrite Hbl|].
      eapply act_bind_run; [reflexivity|].
      eapply act_bind_run; [exact Hl|].
      eapply act_bind_run; [reflexivity|].
      by apply act_bind_raise. }
    rewrite Hbody. reflexivity.
Qed.

End returns.


(** ** No two model-input users name the same slot *)

Lemma record_user_loop_slots i items : ∀ j0 ou miu ou' miu',
  for_enumerate (record_user i) j0 items (ou, miu) = Ok (ou', miu') →
  NoDup (slot_of <$> miu) →
  (∀ u, u ∈ miu → u.1.1 < i ∨ (u.1.1 = i ∧ u.1.2 < j0)) →
  NoDup (slot_of <$> miu') ∧ ∀ u, u ∈ miu' → u.1.1 < S i.
Proof.
  induction items as [|[p s] items IH]; intros j0 ou miu ou' miu' H Hnd Hlt; simpl in H.
  - injection H as <- <-. split; [done|]. intros u Hu. destruct (Hlt u Hu); lia.
  - apply bind_Ok in H as ([ou1 miu1] & H1 & H).
    apply IH in H; [done| |].
    + unfold record_user in H1. simpl in H1. case_decide.
      * destruct (ou !! Z.to_nat p); [|done]. by injection H1 as <- <-.
      * injection H1 as <- <-. rewrite fmap_app. apply NoDup_app. split; [done|]. split.
        -- intros x Hx [= ->]%list_elem_of_singleton.
           apply list_elem_of_fmap in Hx as (u & Hu & Hin). unfold slot_of in Hu.
           injection Hu as Hu1 Hu2. destruct (Hlt u Hin); lia.
        -- apply NoDup_singleton.
    + intros u Hu. unfold record_user in H1. simpl in H1. case_decide.
      * destruct (ou !! Z.to_nat p); [|done]. injection H1 as <- <-.
        destruct (Hlt u Hu); [by left|right; lia].
      * injection H1 as <- <-. apply elem_of_app in Hu as [Hu|Hu%list_elem_of_singleton].
        -- destruct (Hlt u Hu); [by left|right; lia].
        -- subst u. right. simpl. lia.
Qed.

Lemma record_users_loop_slots ins : ∀ i0 ou miu ou' miu',
  for_enumerate record_users i0 ins (ou, miu) = Ok (ou', miu') →
  NoDup (slot_of <$> miu) → (∀ u, u ∈ miu → u.1.1 < i0) →
  NoDup (slot_of <$> miu').
Proof.
  induction ins as [|input ins IH]; intros i0 ou miu ou' miu' H Hnd Hlt; simpl in H.
  - by injection H as <- <-.
  - apply bind_Ok in H as ([ou1 miu1] & H1 & H).
    destruct input as [items|]; [|done]. simpl in H1.
    apply record_user_loop_slots in H1 as [Hnd1 Hlt1]; [|done|intros u Hu; left; by apply Hlt].
    by eapply IH.
Qed.

Lemma compute_output_users_slots g g' :
  compute_output_users g = Ok g' → NoDup (slot_of <$> model_input_users g').
Proof.
  unfold compute_output_users. intros H.
  apply bind_Ok in H as ([ou miu] & H & [= <-]). simpl.
  eapply record_users_loop_slots; [exact H|apply NoDup_nil_2|by intros u ?%elem_of_nil].
Qed.

Lemma input_feeds_slots g parts feeds :
  DistributedPipeline.find_input_feeds g parts = Ok feeds →
  NoDup (slot_of <$> model_input_users g) → NoDup (slot_of <$> feeds).
Proof.
  intros HF%find_input_feeds_Ok. induction HF as [|u f us fs (Hp & Hj & _) HF IH]; [done|].
  rewrite !fmap_cons, !NoDup_cons. intros [Hu Hnd]. split; [|by apply IH].
  intros Hf. apply Hu. apply list_elem_of_fmap in Hf as (f' & Hf' & Hin).
  apply list_elem_of_lookup_1 in Hin as [k Hk].
  destruct (Forall2_lookup_r _ _ _ _ _ HF Hk) as (u' & Hu' & Hp' & Hj' & _).
  apply list_elem_of_fmap. exists u'. split; [|by eapply list_elem_of_lookup_2].
  unfold slot_of in *. injection Hf' as Hf1 Hf2.
  apply find_partition_Ok in Hp as (q & Hq & Hhd & _).
  apply find_partition_Ok in Hp' as (q' & Hq' & Hhd' & _).
  rewrite Hf1, Hq' in Hq. injection Hq as ->. rewrite Hhd' in Hhd. injection Hhd as ->.
  f_equal. congruence.
Qed.

(** ** forward on a pipeline without partitions *)

Lemma feeds_nothing worker (self : DistributedPipeline.t) recs (cols : list (nat * list Tensor))
    (s : DistributedPipeline.ForwardState) :
  DistributedPipeline.input_feeds self = [] →
  act_for cols (fun ib => DistributedPipeline.feed_chunk worker self recs ib.1 ib.2) s = (Ok (), s, []).
Proof.
  intros Hf. induction cols as [|[i b] cols IH]; [done|].
  cbn [act_for]. eapply (act_bind_run _ _ _ _ _ [] _ _ []); [|exact IH].
  unfold DistributedPipeline.feed_chunk. by rewrite Hf.
Qed.

Lemma forward_no_partition check scatter worker (self : DistributedPipeline.t) inputs cs bl :
  DistributedPipeline.partition_handlers self = [] →
  DistributedPipeline.input_feeds self = [] →
  py_map check inputs = Ok cs →
  py_map (fun input => scatter input (DistributedPipeline.chunks self)) inputs = Ok bl →
  DistributedPipeline.forward check scatter worker self inputs
    = (Raise (UnboundLocalError "result"), []).
Proof.
  intros Hh Hf Hcs Hbl. unfold DistributedPipeline.forward.
  assert (Hbody : DistributedPipeline.forward_body check scatter worker self inputs ([], None, ∅)
                  = (Raise (UnboundLocalError "result"), ([None], None, ∅),
                     [] ++ [] ++ [] ++ [] ++ [] ++ [] ++ [] ++ [])).
  { unfold DistributedPipeline.forward_body. rewrite Hh.
    eapply act_bind_run; [unfold act_lift; by rewrite Hcs|].
    eapply act_bind_run; [unfold act_lift; by rewrite Hbl|].
    eapply act_bind_run; [reflexivity|].
    eapply act_bind_run; [reflexivity|].
    eapply act_bind_run; [reflexivity|].
    eapply act_bind_run; [by apply feeds_nothing|].
    eapply act_bind_run; [reflexivity|]. reflexivity. }
  by rewrite Hbody.
Qed.

(** X27: take a pipeline that [__init__] has built from a fully wired
    graph whose inputs come from the model input or from smaller indices,
    and inputs that pass [microbatch.check] and [microbatch.scatter] and are
    as many as the model inputs the graph names.  The launches cannot fail:
    no look-up of a user partition fails and the assertion
    [user_partition > part_idx] holds for every user.  What is left to fail
    is a feed to a record on the caller's own worker, which [forward] runs
    itself.  If the graph has a module and every such feed goes to a cell its
    record has (an input slot below the [num_input] of the handler, a chunk
    below its [chunks]), [forward] returns, with the reference to the result
    of the last partition; if one of them does not, [forward] raises the
    [IndexError] of that feed.  If the graph has no module, [forward] reaches
    [return result] with [result] never bound and raises
    [UnboundLocalError], having called nothing. *)
Theorem forward_returns (check : Tensor → res unit) (scatter : Tensor → Z → res (list Tensor))
    (worker_name torch_version : string) (h : Heap) (graph : PipelineModulesGraph) (chunks : Z)
    (checkpoint : string) (created : list HandlerRef) (p : DistributedPipeline.t)
    (inputs : list Tensor) (cs : list unit) (bl : list (list Tensor)) :
  DistributedPipeline.__init__ torch_version h graph chunks checkpoint = (created, Ok p) →
  fully_wired graph → index_ordered graph →
  py_map check inputs = Ok cs →
  py_map (fun input => scatter input chunks) inputs = Ok bl →
  (∀ u, u ∈ model_input_users (DistributedPipeline.graph p) →
     (0 ≤ u.2 < Z.of_nat (length inputs))%Z) →
  (modules_list graph ≠ [] → local_feeds_fit worker_name p (length (zip_star bl)) →
     ∃ calls, DistributedPipeline.forward check scatter worker_name p inputs
       = (Ok (RunPipelineResult (length (DistributedPipeline.partitions p) - 1)
                                (length (DistributedPipeline.partitions p) - 1)), calls)) ∧
  (modules_list graph ≠ [] → ¬ local_feeds_fit worker_name p (length (zip_star bl)) →
     ∃ calls, DistributedPipeline.forward check scatter worker_name p inputs
       = (Raise IndexError, calls)) ∧
  (modules_list graph = [] →
     DistributedPipeline.forward check scatter worker_name p inputs
       = (Raise (UnboundLocalError "result"), [])).
Proof.
  intros Hinit Hw Ho Hcs Hbl Hrange.
  pose proof (init_Ok _ _ _ _ _ _ _ Hinit) as (_ & _ & _ & Hchunks & Hs & Hf & cs0 & _ & Hc).
  pose proof (_split_module_Ok _ _ _ _ Hs) as (Hml & Hin & Huc & _).
  pose proof (_split_module_partitions _ _ _ _ Hs) as (Hcover & _ & Hne & _).
  apply create_handlers_Ok in Hc as (_ & new & Hnew & Hlen & _). simpl in Hnew.
  assert (Hn : length (DistributedPipeline.partitions p)
               = length (DistributedPipeline.partition_handlers p)) by (by rewrite Hnew).
  assert (Hnd : NoDup (slot_of <$> DistributedPipeline.input_feeds p)).
  { eapply input_feeds_slots; [exact Hf|]. unfold _split_module in Hs.
    apply bind_Ok in Hs as (g' & Hg' & Hs). apply bind_Ok in Hs as ([used parts'] & _ & [= <- _]).
    by eapply compute_output_users_slots. }
  apply find_input_feeds_Ok in Hf. rewrite <- Hchunks in Hbl.
  assert (Hgen : modules_list graph ≠ [] →
    (local_feeds_fit worker_name p (length (zip_star bl)) →
       ∃ result calls,
         DistributedPipeline.forward check scatter worker_name p inputs = (Ok result, calls)) ∧
    (¬ local_feeds_fit worker_name p (length (zip_star bl)) →
       ∃ calls, DistributedPipeline.forward check scatter worker_name p inputs
                = (Raise IndexError, calls))).
  { intros Hmod.
    assert (Hpos : 0 < length (DistributedPipeline.partition_handlers p)).
    { rewrite <- Hn. destruct (DistributedPipeline.partitions p) as [|pm parts] eqn:Hp; [|simpl; lia].
      exfalso. destruct (modules_list graph) as [|m ms]; [done|].
      assert (H0 : 0 ∈ concat ([] : list (list nat * RRef)).*1) by (apply Hcover; simpl; lia).
      by apply elem_of_nil in H0. }
    apply (forward_outcome check scatter worker_name p Hn Hne) with (cs := cs); try done.
    + intros k q l Hq Hl. apply lookup_lt_is_Some_2.
      rewrite (uc_length _ Huc), Hml. apply Hcover. apply elem_of_concat. exists q.
      split; [by eapply list_elem_of_lookup_2|]. rewrite last_lookup in Hl.
      by eapply list_elem_of_lookup_2.
    + intros k q l us u Hq Hl Hus Hu. unfold num_partitions. rewrite <- Hn.
      by apply (user_partition_later h graph (DistributedPipeline.graph p)
                  (DistributedPipeline.partitions p) Hw Ho Hs k q l us u).
    + intros f Hfeed. unfold num_partitions. apply list_elem_of_lookup_1 in Hfeed as [j Hj].
      destruct (Forall2_lookup_r _ _ _ _ _ Hf Hj) as (u & Hu & Hfp & _ & Hidx).
      split.
      * apply find_partition_Ok in Hfp as (q & Hq & _). rewrite Nat.sub_0_r in Hq.
        apply lookup_lt_Some in Hq. rewrite length_fmap in Hq. lia.
      * rewrite Hidx. apply Hrange. by eapply list_elem_of_lookup_2. }
  split; [|split].
  - intros Hmod Hfit. destruct (proj1 (Hgen Hmod) Hfit) as (result & calls & Hfw).
    exists calls. rewrite Hfw. f_equal. f_equal.
    apply forward_result in Hfw as (_ & -> & _). by rewrite Hn.
  - intros Hmod Hfit. by apply (proj2 (Hgen Hmod)).
  - intros Hmod. apply (forward_no_partition check scatter worker_name p inputs cs bl); try done.
    + apply length_zero_iff_nil. rewrite <- Hn.
      destruct (DistributedPipeline.partitions p) as [|[q r] parts]; [done|]. exfalso.
      destruct q as [|x q]; [apply (Hne []); [by left|done]|].
      assert (Hx : x < length (modules_list graph)).
      { apply Hcover. simpl. by left. }
      rewrite Hmod in Hx. simpl in Hx. lia.
    + destruct (model_input_users (DistributedPipeline.graph p)) as [|u us] eqn:Hmiu.
      { by apply Forall2_nil_inv_l in Hf. }
      exfalso. assert (Hu : u ∈ model_input_users (DistributedPipeline.graph p))
        by (rewrite Hmiu; by left).
      apply (uc_input _ Huc) in Hu as (q & (l & Hl & _) & _).
      apply lookup_lt_Some in Hl. rewrite Hin in Hl. destruct Hw as [Hw _].
      rewrite Hw, Hmod in Hl. simpl in Hl. lia.
Qed.

Lemma forward_returns_witness :
  ∃ calls, DistributedPipeline.forward (fun _ => Ok ()) (fun t _ => Ok [t; t]) "w0" pipeline2
             [input_tensor 1; input_tensor 2]
           = (Ok (RunPipelineResult (length (DistributedPipeline.partitions pipeline2) - 1)
                                    (length (DistributedPipeline.partitions pipeline2) - 1)), calls).
Proof.
  eapply (forward_returns (fun _ => Ok ()) (fun t _ => Ok [t; t]) "w0" "1.9.0" heap0 two_inputs 2
            "never" (DistributedPipeline.partition_handlers pipeline2) pipeline2
            [input_tensor 1; input_tensor 2]).
  - reflexivity.
  - apply two_inputs_fully_wired.
  - apply two_inputs_index_ordered.
  - reflexivity.
  - reflexivity.
  - intros u Hu. simpl in Hu.
    apply elem_of_cons in Hu as [->|Hu]; [simpl; lia|].
    apply elem_of_cons in Hu as [->|Hu]; [simpl; lia|]. by apply elem_of_nil in Hu.
  - discriminate.
  - intros i f Hi Hf hr Hhr _. simpl in Hi, Hf.
    apply elem_of_cons in Hf as [->|Hf];
      [|apply elem_of_cons in Hf as [->|Hf]; [|by apply elem_of_nil in Hf]];
      simpl in Hhr; injection Hhr as <-; simpl; lia.
Defined.

(** The head module of this one-module graph declares no input, yet the
    graph feeds it model input 0.  Called on the worker of the module,
    [forward] runs the feed itself and raises its [IndexError]; called on
    another worker it returns, and the error stays with the feed it sent. *)
Example forward_local_feed_outside :
  ∃ created p,
    DistributedPipeline.__init__ "1.9.0" heap_no_input one_module 1 "never" = (created, Ok p) ∧
    (DistributedPipeline.forward (fun _ => Ok ()) (fun t _ => Ok [t]) "w0" p [input_tensor 1]).1
      = Raise IndexError ∧
    (DistributedPipeline.forward (fun _ => Ok ()) (fun t _ => Ok [t]) "w1" p [input_tensor 1]).1
      = Ok (RunPipelineResult 0 0).
Proof. eexists _, _. split; [by vm_compute|]. split; by vm_compute. Qed.


(** ** When __init__ returns *)

Lemma handler_args_returns h g chunks cs i (p : list nat) (m : RRef) :
  p ≠ [] → (∀ x, x ∈ p → x < length (modules_list g)) → all_instantiated h g →
  ∃ hr, DistributedPipeline.handler_args h g chunks cs i (p, m) = Ok hr.
Proof.
  intros Hne Hlt Hall. unfold DistributedPipeline.handler_args.
  destruct p as [|p0 p'] eqn:Hp; [done|]. rewrite <- Hp in *.
  assert (H0 : py_get p 0 = Ok p0) by (by rewrite Hp).
  destruct (last p) as [pl|] eqn:Hl; [|apply last_None in Hl; congruence].
  assert (Hp0 : p0 ∈ p) by (rewrite Hp; by left).
  assert (Hpl : pl ∈ p) by (rewrite last_lookup in Hl; by eapply list_elem_of_lookup_2).
  destruct (py_get_lt (modules_list g) p0 (Hlt _ Hp0)) as (m0 & Hm0 & Hm0').
  destruct (py_get_lt (modules_list g) pl (Hlt _ Hpl)) as (ml & Hml & _).
  destruct (Hall m0) as [r Hr]; [by eapply list_elem_of_lookup_2|].
  rewrite H0. simpl. rewrite Hm0. simpl. unfold get_device. rewrite Hr. simpl.
  rewrite (proj2 (py_index_last _ _) Hl). simpl. rewrite Hml. simpl. by eexists.
Qed.

Lemma create_handlers_returns h g chunks cs (parts : list (list nat * RRef)) :
  (∀ p, p ∈ parts.*1 → p ≠ [] ∧ ∀ x, x ∈ p → x < length (modules_list g)) →
  all_instantiated h g →
  ∀ i created, ∃ hs,
    DistributedPipeline.create_handlers h g chunks cs i parts created = (hs, Ok hs).
Proof.
  intros Hparts Hall. induction parts as [|[p m] parts IH]; intros i created;
    cbn [DistributedPipeline.create_handlers].
  - by eexists.
  - destruct (Hparts p) as [Hne Hlt]; [simpl; by left|].
    destruct (handler_args_returns h g chunks cs i p m Hne Hlt Hall) as [hr ->].
    apply IH. intros q Hq. apply Hparts. simpl. by right.
Qed.

Lemma find_input_feeds_returns h graph g parts :
  balanced graph → _split_module h graph = Ok (g, parts) →
  ∃ feeds, DistributedPipeline.find_input_feeds g parts = Ok feeds.
Proof.
  intros Hb Hsplit.
  pose proof (_split_module_partitions h graph g parts Hsplit) as (_ & _ & Hne & _).
  unfold DistributedPipeline.find_input_feeds. apply py_map_all_Ok.
  intros u Hu. destruct (find_partition_returns parts u.1.1 0 Hne) as [k ->].
  { by apply (model_input_user_head h graph g parts). }
  simpl. by eexists.
Qed.

Lemma init_returns_for (torch_version : string) (h : Heap) (graph : PipelineModulesGraph)
    (chunks : Z) (checkpoint : string) :
  check_pytorch_version torch_version = Ok () →
  (0 < chunks)%Z → valid_checkpoint checkpoint →
  fully_wired graph → index_ordered graph → all_instantiated h graph →
  ∃ p, DistributedPipeline.__init__ torch_version h graph chunks checkpoint
       = (DistributedPipeline.partition_handlers p, Ok p) ∧
       DistributedPipeline.chunks p = chunks ∧
       modules_list (DistributedPipeline.graph p) = modules_list graph ∧
       inputs (DistributedPipeline.graph p) = inputs graph.
Proof.
  intros Hv Hc Hcp Hw Ho Hall.
  destruct (_split_module_total h graph Hw Ho) as [[[g parts] Hs]|(attr & m & _ & Hm & Hnone)].
  2:{ destruct (Hall m Hm) as [r Hr]. congruence. }
  pose proof (_split_module_Ok _ _ _ _ Hs) as (Hml & Hin & _).
  pose proof (_split_module_partitions _ _ _ _ Hs) as (Hcover & _ & Hne & _).
  destruct (find_input_feeds_returns h graph g parts (fully_wired_balanced _ Hw) Hs) as [feeds Hf].
  assert (Hcs : ∃ cs, DistributedPipeline.checkpoint_stop_of chunks checkpoint = Ok cs).
  { destruct (checkpoint_stop_values chunks) as (H1 & H2 & H3). unfold valid_checkpoint in Hcp.
    apply elem_of_cons in Hcp as [->|Hcp]; [eauto|].
    apply elem_of_cons in Hcp as [->|Hcp]; [eauto|].
    apply elem_of_cons in Hcp as [->|Hcp]; [eauto|]. by apply elem_of_nil in Hcp. }
  destruct Hcs as [cs Hcs].
  destruct (create_handlers_returns h g chunks cs parts) with (i := 0) (created := @nil HandlerRef)
    as [hs Hhs].
  { intros p Hp. split; [by apply Hne|]. intros x Hx. rewrite Hml. apply Hcover.
    apply elem_of_concat. by exists p. }
  { intros m Hm. apply Hall. by rewrite <- Hml. }
  exists (DistributedPipeline.mk chunks parts feeds hs g). simpl.
  unfold DistributedPipeline.__init__, DistributedPipeline.prepare.
  rewrite Hv. simpl. rewrite decide_False by lia.
  rewrite decide_False by (intros Hn; by apply Hn).
  rewrite Hs. simpl. rewrite Hf. simpl. rewrite Hcs. simpl. rewrite Hhs. done.
Qed.

(** X28: for a fully wired graph whose inputs come from the model input
    or from smaller indices and whose modules are all instantiated,
    [__init__] returns whenever the PyTorch version is accepted, [chunks] is
    positive and [checkpoint] is one of the three modes: the partitioning, the
    look-up of the input feeds and the creation of the handlers cannot fail.
    Every handler it created belongs to the pipeline it returns. *)
Theorem init_returns (torch_version : string) (h : Heap) (graph : PipelineModulesGraph)
    (chunks : Z) (checkpoint : string) :
  check_pytorch_version torch_version = Ok () →
  (0 < chunks)%Z → valid_checkpoint checkpoint →
  fully_wired graph → index_ordered graph → all_instantiated h graph →
  ∃ created p, DistributedPipeline.__init__ torch_version h graph chunks checkpoint = (created, Ok p) ∧
    created = DistributedPipeline.partition_handlers p ∧
    DistributedPipeline.chunks p = chunks ∧
    ∃ g parts, _split_module h graph = Ok (g, parts) ∧
      DistributedPipeline.graph p = g ∧ DistributedPipeline.partitions p = parts.
Proof.
  intros Hv Hc Hcp Hw Ho Hall.
  destruct (init_returns_for torch_version h graph chunks checkpoint Hv Hc Hcp Hw Ho Hall)
    as (p & Hp & Hch & _).
  exists (DistributedPipeline.partition_handlers p), p. split; [done|]. split; [done|].
  split; [done|]. apply init_Ok in Hp as (_ & _ & _ & _ & Hs & _). eauto.
Qed.

Lemma init_returns_witness :
  ∃ created p, DistributedPipeline.__init__ "1.9.0" heap0 chain3 4 "except_last" = (created, Ok p).
Proof.
  destruct (init_returns "1.9.0" heap0 chain3 4 "except_last") as (created & p & Hp & _).
  - reflexivity.
  - lia.
  - apply elem_of_cons. right. apply elem_of_cons. by left.
  - apply chain3_fully_wired.
  - apply chain3_index_ordered.
  - apply heap0_all_instantiated.
  - exists created, p. exact Hp.
Defined.

(** ** create_sequence_pipeline *)

Lemma instantiate_layers_empty layers (pairs : list (Z * string)) :
  length layers = 0 →
  ∀ h (a : Z),
  instantiate_layers h layers a pairs = Ok h ∨ instantiate_layers h layers a pairs = Raise IndexError.
Proof.
  intros Hlen. induction pairs as [|[num dev] pairs IH]; intros h a; [by left|].
  rewrite instantiate_layers_cons. unfold instantiate_range.
  destruct (decide (a < a + num)%Z) as [Hlt|Hge].
  - right. rewrite py_range_cons by done. simpl.
    rewrite (py_index_outside layers a) by (rewrite Hlen; lia). simpl.
    by rewrite foldl_res_Raise.
  - rewrite py_range_nil by lia. simpl. apply IH.
Qed.

(** X29: with an empty list of layers, [create_sequence_pipeline]
    raises [IndexError] whatever the balance, the devices and the keyword
    arguments are: while instantiating, or else at [layers[0]], before any
    pipeline is constructed. *)
Theorem create_sequence_pipeline_no_layers (torch_version : string) (h : Heap)
    (balance : list Z) (devices : list string) (chunks : Z) (checkpoint : string) :
  create_sequence_pipeline torch_version h [] balance devices chunks checkpoint = Raise IndexError.
Proof.
  unfold create_sequence_pipeline.
  destruct (instantiate_layers_empty [] (zip balance devices) eq_refl h 0) as [-> | ->]; done.
Qed.

Lemma instantiate_one h l dev :
  count_char "/" dev = 1 →
  ∃ m, instantiate h l dev = Ok (heap_set h l m) ∧ placed_on (heap_set h l m) l dev.
Proof.
  intros Hc. pose proof (split_on_length "/" dev) as Hlen. rewrite Hc in Hlen.
  destruct (split_on "/" dev) as [|a [|b [|c rest]]] eqn:E; try done.
  apply split_on_two in E as (-> & Ha & Hb).
  eexists. split; [by apply instantiate_valid|].
  unfold placed_on. rewrite heap_set_same. by eexists.
Qed.

Lemma instantiate_range_Ok layers dev (n : nat) :
  count_char "/" dev = 1 → NoDup layers →
  ∀ h (a : Z), (0 ≤ a)%Z → (a + Z.of_nat n ≤ Z.of_nat (length layers))%Z →
  ∃ h', instantiate_range h layers a (a + Z.of_nat n) dev = Ok h' ∧
    (∀ k l, Z.to_nat a ≤ k < Z.to_nat a + n → layers !! k = Some l → placed_on h' l dev) ∧
    (∀ l, (∀ k, Z.to_nat a ≤ k < Z.to_nat a + n → layers !! k ≠ Some l) → h' l = h l).
Proof.
  intros Hdev Hnd. induction n as [|n IH]; intros h a Ha Hb.
  - exists h. unfold instantiate_range. rewrite py_range_nil by lia.
    split; [done|]. split; [intros k l Hk; lia|done].
  - destruct (lookup_lt_is_Some_2 layers (Z.to_nat a)) as [la Hla]; [lia|].
    assert (Hidx : py_index layers a = Ok la).
    { apply py_index_Ok. exists (Z.to_nat a). rewrite py_norm_nonneg, decide_True by lia. done. }
    destruct (instantiate_one h la dev Hdev) as (m & Hinst & Hplaced).
    destruct (IH (heap_set h la m) (a + 1)%Z) as (h' & Hr & Hpl & Hfr); [lia|lia|].
    replace (a + 1 + Z.of_nat n)%Z with (a + Z.of_nat (S n))%Z in Hr by lia.
    exists h'. split.
    { unfold instantiate_range in *. rewrite py_range_cons by lia. simpl.
      rewrite Hidx. simpl. by rewrite Hinst. }
    assert (Hla' : h' la = heap_set h la m la).
    { apply Hfr. intros k Hk Hl. assert (k = Z.to_nat a) by (by eapply NoDup_lookup). lia. }
    split.
    + intros k l Hk Hl. destruct (decide (k = Z.to_nat a)) as [->|Hne].
      * rewrite Hla in Hl. injection Hl as <-. destruct Hplaced as (r & Hr' & Hd).
        exists r. by rewrite Hla'.
      * apply (Hpl k l); [lia|done].
    + intros l Hl. rewrite Hfr by (intros k Hk; apply Hl; lia).
      apply heap_set_other. intros ->. apply (Hl (Z.to_nat a)); [lia|done].
Qed.

Lemma sum_Z_take_S (nums : list Z) (x : Z) (j : nat) :
  sum_Z (take (S j) (x :: nums)) = (x + sum_Z (take j nums))%Z.
Proof. reflexivity. Qed.

Lemma instantiate_layers_Ok layers :
  NoDup layers →
  ∀ (pairs : list (Z * string)) h (a : Z),
  (0 ≤ a)%Z → (a + sum_Z pairs.*1 ≤ Z.of_nat (length layers))%Z →
  Forall (fun n => 0 ≤ n)%Z pairs.*1 →
  Forall (fun d => count_char "/" d = 1) pairs.*2 →
  ∃ h', instantiate_layers h layers a pairs = Ok h' ∧
    (∀ j num dev k l, pairs !! j = Some (num, dev) →
       (a + sum_Z (take j pairs.*1) ≤ k < a + sum_Z (take j pairs.*1) + num)%Z →
       layers !! Z.to_nat k = Some l → placed_on h' l dev) ∧
    (∀ l, (∀ k, Z.to_nat a ≤ k < Z.to_nat (a + sum_Z pairs.*1) → layers !! k ≠ Some l) →
       h' l = h l).
Proof.
  intros Hnd. induction pairs as [|[num dev] pairs IH]; intros h a Ha Hb Hnn Hdev.
  - exists h. split; [done|]. split; [by intros [|j]|done].
  - rewrite fmap_cons in *. apply Forall_cons in Hnn as [Hnum Hnn].
    apply Forall_cons in Hdev as [Hd Hdev]. simpl in Hnum, Hd.
    rewrite sum_Z_cons in Hb. simpl fst in Hb.
    pose proof (sum_Z_nonneg _ Hnn) as Hsum.
    destruct (instantiate_range_Ok layers dev (Z.to_nat num) Hd Hnd h a) as (h1 & Hr & Hpl1 & Hfr1);
      [lia|lia|].
    replace (a + Z.of_nat (Z.to_nat num))%Z with (a + num)%Z in Hr by lia.
    destruct (IH h1 (a + num)%Z) as (h' & Hrest & Hpl & Hfr); [lia|lia|done|done|].
    exists h'. split; [rewrite instantiate_layers_cons, Hr; exact Hrest|]. split.
    + intros [|j] num' dev' k l Hj Hk Hl.
      * injection Hj as <- <-. change (sum_Z (take 0 _)) with 0%Z in Hk. cbn [fst] in Hk.
        assert (Hsame : h' l = h1 l).
        { apply Hfr. intros k' Hk' Hl'.
          assert (k' = Z.to_nat k) by (by eapply NoDup_lookup). lia. }
        destruct (Hpl1 (Z.to_nat k) l) as (r & Hr1 & Hd1); [lia|done|].
        exists r. by rewrite Hsame.
      * simpl in Hj. rewrite sum_Z_take_S in Hk. cbn [fst] in Hk.
        apply (Hpl j num' dev' k l Hj); [lia|done].
    + intros l Hl. rewrite sum_Z_cons in Hl. simpl fst in Hl.
      rewrite Hfr, Hfr1; [done| |]; intros k Hk; apply Hl; lia.
Qed.

Lemma sum_Z_locate (nums : list Z) : ∀ k : Z,
  Forall (fun n => 0 ≤ n)%Z nums → (0 ≤ k < sum_Z nums)%Z →
  ∃ j num, nums !! j = Some num ∧ (sum_Z (take j nums) ≤ k < sum_Z (take j nums) + num)%Z.
Proof.
  induction nums as [|x nums IH]; intros k Hnn Hk.
  - change (sum_Z []) with 0%Z in Hk. lia.
  - apply Forall_cons in Hnn as [Hx Hnn]. rewrite sum_Z_cons in Hk.
    destruct (decide (k < x)%Z) as [Hlt|Hge].
    + exists 0, x. split; [done|]. change (sum_Z (take 0 _)) with 0%Z. lia.
    + destruct (IH (k - x)%Z Hnn) as (j & num & Hj & Hr); [lia|].
      exists (S j), num. split; [done|]. rewrite sum_Z_take_S. lia.
Qed.

Lemma sequence_graph (layers : list loc) (l0 : loc) :
  head layers = Some l0 →
  ∃ g1 g2, add_sequence new_graph layers None = Ok g1 ∧
    feed_model_input g1 l0 0 = Ok g2 ∧
    modules_list g2 = layers ∧ fully_wired g2 ∧ index_ordered g2.
Proof.
  intros Hhd.
  destruct (add_sequence_None new_graph layers) as (g1 & H1 & Hm & Hn & _ & _ & Hnext); [done|].
  simpl in Hm, Hn, Hnext.
  assert (Hidx : list_index (modules_list g1) l0 = Some 0).
  { rewrite Hm. destruct layers as [|x layers]; [done|]. injection Hhd as ->.
    simpl. by rewrite decide_True. }
  assert (Hpos : 0 < length (inputs g1)).
  { rewrite Hn. destruct layers; [done|simpl; lia]. }
  exists g1, (set_inputs g1 (<[0 := Some [((-1)%Z, 0%Z)]]> (inputs g1))).
  split; [done|]. split.
  { unfold feed_model_input, _find_or_add. rewrite Hidx. by apply assign_input_in_range. }
  split; [done|]. split; [split|].
  - simpl. by rewrite length_insert, Hn, Hm.
  - simpl. rewrite length_insert. intros i Hi. destruct i as [|i].
    + eexists. by apply list_lookup_insert_eq.
    + rewrite list_lookup_insert_ne by done. eexists. apply (Hnext (S i)). lia.
  - intros i j q s (l & Hl & Hj). simpl in Hl. destruct i as [|i].
    + rewrite list_lookup_insert_eq in Hl by done. injection Hl as <-.
      destruct j as [|j]; [|done]. injection Hj as <- _. lia.
    + rewrite list_lookup_insert_ne in Hl by done.
      apply lookup_lt_Some in Hl as Hlt. rewrite Hn in Hlt.
      rewrite (Hnext (S i)) in Hl by lia. injection Hl as <-.
      destruct j as [|j]; [|done]. injection Hj as <- _. lia.
Qed.

(** X30: [create_sequence_pipeline] returns a pipeline when the layers
    are distinct and at least one, every balance entry is non-negative,
    there is a device string with exactly one slash for every balance entry,
    the balance entries add up to the number of layers, the PyTorch version is
    accepted, [chunks] is positive and [checkpoint] is a valid mode.  The
    graph of the pipeline is the sequence of the layers; layer [k] has been
    instantiated with the device of the balance entry whose range holds [k];
    and no module outside [layers] has been touched. *)
Theorem create_sequence_pipeline_balanced (torch_version : string) (h : Heap)
    (layers : list loc) (balance : list Z) (devices : list string)
    (chunks : Z) (checkpoint : string) :
  check_pytorch_version torch_version = Ok () →
  (0 < chunks)%Z → valid_checkpoint checkpoint →
  NoDup layers → layers ≠ [] →
  Forall (fun n => 0 ≤ n)%Z balance →
  length balance ≤ length devices →
  Forall (fun d => count_char "/" d = 1) devices →
  sum_Z balance = Z.of_nat (length layers) →
  ∃ h' p, create_sequence_pipeline torch_version h layers balance devices chunks checkpoint
          = Ok (h', p) ∧
    modules_list (DistributedPipeline.graph p) = layers ∧
    DistributedPipeline.chunks p = chunks ∧
    (∀ j num dev k l, balance !! j = Some num → devices !! j = Some dev →
       (sum_Z (take j balance) ≤ k < sum_Z (take j balance) + num)%Z →
       layers !! Z.to_nat k = Some l → placed_on h' l dev) ∧
    (∀ l, l ∉ layers → h' l = h l).
Proof.
  intros Hv Hc Hcp Hnd Hne Hnn Hlen Hdev Hsum.
  assert (Hfst : (zip balance devices).*1 = balance) by (by apply fst_zip).
  destruct (instantiate_layers_Ok layers Hnd (zip balance devices) h 0) as (h' & Hinst & Hpl & Hfr).
  { lia. }
  { rewrite Hfst. lia. }
  { by rewrite Hfst. }
  { apply Forall_forall. intros d Hd. apply list_elem_of_fmap in Hd as ([n d'] & -> & Hd).
    apply elem_of_zip_r in Hd. rewrite Forall_forall in Hdev. by apply Hdev. }
  rewrite Hfst in Hpl, Hfr.
  destruct layers as [|l0 layers'] eqn:Hlayers; [done|]. rewrite <- Hlayers in *.
  destruct (sequence_graph layers l0) as (g1 & g2 & Hg1 & Hg2 & Hm & Hw & Ho); [by rewrite Hlayers|].
  assert (Hall : all_instantiated h' g2).
  { intros m Hmem. rewrite Hm in Hmem. apply list_elem_of_lookup_1 in Hmem as [k Hk].
    apply lookup_lt_Some in Hk as Hlt.
    destruct (sum_Z_locate balance (Z.of_nat k) Hnn) as (j & num & Hj & Hr); [lia|].
    destruct (lookup_lt_is_Some_2 devices j) as [dev Hd].
    { apply lookup_lt_Some in Hj. lia. }
    destruct (Hpl j num dev (Z.of_nat k) m) as (r & Hr' & _).
    - apply lookup_zip_with_Some. by exists num, dev.
    - lia.
    - by rewrite Nat2Z.id.
    - by exists r. }
  destruct (init_returns_for torch_version h' g2 chunks checkpoint Hv Hc Hcp Hw Ho Hall)
    as (p & Hp & Hch & Hpm & _).
  exists h', p. split.
  { unfold create_sequence_pipeline. rewrite Hinst. simpl. rewrite Hg1. simpl.
    assert (H0 : py_get layers 0 = Ok l0) by (by rewrite Hlayers). rewrite H0. simpl.
    rewrite Hg2. simpl. by rewrite Hp. }
  split; [by rewrite Hpm|]. split; [done|]. split.
  - intros j num dev k l Hj Hd Hk Hl. apply (Hpl j num dev k l); [|lia|done].
    apply lookup_zip_with_Some. by exists num, dev.
  - intros l Hl. apply Hfr. intros k _ Hk. apply Hl. by eapply list_elem_of_lookup_2.
Qed.

Lemma create_sequence_pipeline_balanced_witness :
  ∃ h' p, create_sequence_pipeline "1.9.0" fresh_heap [0; 1; 2] [2; 1]%Z ["w0/cpu"; "w1/cuda:0"]
            2 "except_last" = Ok (h', p).
Proof.
  destruct (create_sequence_pipeline_balanced "1.9.0" fresh_heap [0; 1; 2] [2; 1]%Z
              ["w0/cpu"; "w1/cuda:0"] 2 "except_last") as (h' & p & Hp & _).
  - reflexivity.
  - lia.
  - apply elem_of_cons. right. apply elem_of_cons. by left.
  - repeat (apply NoDup_cons; split;
              [intros Hin; repeat (apply elem_of_cons in Hin as [Hin|Hin]; [lia|]);
               by apply elem_of_nil in Hin|]).
    apply NoDup_nil_2.
  - discriminate.
  - repeat constructor; lia.
  - simpl. lia.
  - repeat constructor.
  - reflexivity.
  - exists h', p. exact Hp.
Defined.

(** ** What create_sequence_pipeline raises on a balance that does not add up *)

Lemma instantiate_range_inside layers remote_device (n : nat) : ∀ h (a : Z),
  (0 ≤ a)%Z → (a + Z.of_nat n ≤ Z.of_nat (length layers))%Z →
  ∀ e, instantiate_range h layers a (a + Z.of_nat n) remote_device = Raise e →
       e = ValueError "unpack".
Proof.
  induction n as [|n IH]; intros h a Ha Hb e; unfold instantiate_range.
  - by rewrite py_range_nil by lia.
  - rewrite py_range_cons by lia. simpl.
    destruct (py_index_in_range layers a) as (l & Hl); [lia|]. rewrite Hl. simpl.
    destruct (instantiate_cases h l remote_device) as [(m & ->)| ->].
    + specialize (IH (heap_set h l m) (a + 1)%Z). unfold instantiate_range in IH.
      replace (a + 1 + Z.of_nat n)%Z with (a + Z.of_nat (S n))%Z in IH by lia.
      apply IH; lia.
    + rewrite foldl_res_Raise. by intros [= <-].
Qed.

Lemma instantiate_layers_inside layers (pairs : list (Z * string)) : ∀ h (a : Z),
  (0 ≤ a)%Z → (a + sum_Z pairs.*1 ≤ Z.of_nat (length layers))%Z →
  Forall (fun n => 0 ≤ n)%Z pairs.*1 →
  ∀ e, instantiate_layers h layers a pairs = Raise e → e = ValueError "unpack".
Proof.
  induction pairs as [|[num dev] pairs IH]; intros h a Ha Hb Hnn e; [done|].
  rewrite fmap_cons in *. apply Forall_cons in Hnn as [Hnum Hnn]. simpl in Hnum.
  rewrite sum_Z_cons in Hb. simpl fst in Hb. pose proof (sum_Z_nonneg _ Hnn) as Hsum.
  rewrite instantiate_layers_cons.
  pose proof (instantiate_range_inside layers dev (Z.to_nat num) h a Ha) as Hr.
  replace (a + Z.of_nat (Z.to_nat num))%Z with (a + num)%Z in Hr by lia.
  destruct (instantiate_range h layers a (a + num) dev) as [h1|e1|]; simpl.
  - apply IH; [lia|lia|done].
  - intros [= <-]. apply Hr; [lia|done].
  - done.
Qed.

Lemma init_uninstantiated torch_version h graph chunks checkpoint :
  fully_wired graph → index_ordered graph → ¬ all_instantiated h graph →
  ∃ e, (DistributedPipeline.__init__ torch_version h graph chunks checkpoint).2 = Raise e ∧
    (check_pytorch_version torch_version ≠ Ok () ∧ e = too_old ∨
     check_pytorch_version torch_version = Ok () ∧
       ((chunks ≤ 0)%Z ∨ ¬ valid_checkpoint checkpoint) ∧ (∃ msg, e = ValueError msg) ∨
     check_pytorch_version torch_version = Ok () ∧ (0 < chunks)%Z ∧ valid_checkpoint checkpoint ∧
       ∃ attr m, e = AttributeError attr ∧ m ∈ modules_list graph ∧ remote (h m) = None).
Proof.
  intros Hw Ho Hn. unfold DistributedPipeline.__init__, DistributedPipeline.prepare.
  destruct (check_pytorch_version torch_version) as [[]|e|] eqn:Hv.
  2:{ exists e. split; [done|]. left. split; [done|].
      unfold check_pytorch_version in Hv. destruct (list_string_lt _ _); [|done].
      by injection Hv as <-. }
  2:{ unfold check_pytorch_version in Hv. by destruct (list_string_lt _ _). }
  simpl. case_decide as Hc.
  { eexists. split; [done|]. right. left. split; [done|]. split; [by left|by eexists]. }
  case_decide as Hcp.
  { eexists. split; [done|]. right. left. split; [done|]. split; [by right|by eexists]. }
  destruct (_split_module_total h graph Hw Ho) as [[[g parts] Hs]|(attr & m & Hs & Hm & Hr)].
  - exfalso. apply Hn. by eapply split_module_instantiated.
  - rewrite Hs. simpl. eexists. split; [done|]. right. right. split; [done|]. split; [lia|].
    split; [exact Hcp|by exists attr, m].
Qed.

(** C7, as the code has it: there is no check of the balance.  For
    distinct modules not yet given a remote device, non-negative balance
    entries and a device for every entry, a balance whose sum is not the
    number of modules makes the call raise.  When the sum is larger, it
    raises while instantiating: the [IndexError] of going past the end of
    [layers], or the [ValueError] of a device string that was refused
    first.  When the sum is smaller, it raises either that [ValueError]
    while instantiating, or else, all the layers of the balance being
    instantiated, what the pipeline constructor raises on the graph of the
    layers: the exception of its version check when that fails, else the
    [ValueError] of its check of [chunks] and [checkpoint] when one of them
    is refused, and else the [AttributeError] for a layer nobody
    instantiated. *)
Theorem create_sequence_pipeline_unbalanced (torch_version : string) (h : Heap)
    (layers : list loc) (balance : list Z) (devices : list string)
    (chunks : Z) (checkpoint : string) :
  NoDup layers →
  fresh_layers h layers →
  Forall (fun n => 0 ≤ n)%Z balance →
  length balance ≤ length devices →
  sum_Z balance ≠ Z.of_nat (length layers) →
  raises (create_sequence_pipeline torch_version h layers balance devices chunks checkpoint) ∧
  ((Z.of_nat (length layers) < sum_Z balance)%Z →
     create_sequence_pipeline torch_version h layers balance devices chunks checkpoint
       = Raise IndexError ∨
     create_sequence_pipeline torch_version h layers balance devices chunks checkpoint
       = Raise (ValueError "unpack")) ∧
  ((sum_Z balance < Z.of_nat (length layers))%Z →
     (instantiate_layers h layers 0 (zip balance devices) = Raise (ValueError "unpack") ∧
      create_sequence_pipeline torch_version h layers balance devices chunks checkpoint
        = Raise (ValueError "unpack")) ∨
     ∃ h' graph e,
       instantiate_layers h layers 0 (zip balance devices) = Ok h' ∧
       modules_list graph = layers ∧
       (DistributedPipeline.__init__ torch_version h' graph chunks checkpoint).2 = Raise e ∧
       create_sequence_pipeline torch_version h layers balance devices chunks checkpoint
         = Raise e ∧
       (check_pytorch_version torch_version ≠ Ok () ∧ e = too_old ∨
        check_pytorch_version torch_version = Ok () ∧
          ((chunks ≤ 0)%Z ∨ ¬ valid_checkpoint checkpoint) ∧ (∃ msg, e = ValueError msg) ∨
        check_pytorch_version torch_version = Ok () ∧ (0 < chunks)%Z ∧
          valid_checkpoint checkpoint ∧
          ∃ attr l, e = AttributeError attr ∧ l ∈ layers ∧ remote (h' l) = None)).
Proof.
  intros Hnd Hfresh Hnn Hlen Hsum.
  assert (Hlarge : (Z.of_nat (length layers) < sum_Z balance)%Z →
     create_sequence_pipeline torch_version h layers balance devices chunks checkpoint
       = Raise IndexError ∨
     create_sequence_pipeline torch_version h layers balance devices chunks checkpoint
       = Raise (ValueError "unpack")).
  { intros Hgt. unfold create_sequence_pipeline.
    pose proof (instantiate_layers_spec layers (zip balance devices) h 0) as Hspec.
    rewrite fst_zip in Hspec by done.
    destruct (instantiate_layers h layers 0 (zip balance devices)) as [h'|e|].
    - destruct Hspec as [Hb _]; [lia|done|lia].
    - simpl. destruct Hspec as [->| ->]; [lia|done|by left|by right].
    - exfalso. apply Hspec; [lia|done]. }
  assert (Hsmall : (sum_Z balance < Z.of_nat (length layers))%Z →
     (instantiate_layers h layers 0 (zip balance devices) = Raise (ValueError "unpack") ∧
      create_sequence_pipeline torch_version h layers balance devices chunks checkpoint
        = Raise (ValueError "unpack")) ∨
     ∃ h' graph e,
       instantiate_layers h layers 0 (zip balance devices) = Ok h' ∧
       modules_list graph = layers ∧
       (DistributedPipeline.__init__ torch_version h' graph chunks checkpoint).2 = Raise e ∧
       create_sequence_pipeline torch_version h layers balance devices chunks checkpoint
         = Raise e ∧
       (check_pytorch_version torch_version ≠ Ok () ∧ e = too_old ∨
        check_pytorch_version torch_version = Ok () ∧
          ((chunks ≤ 0)%Z ∨ ¬ valid_checkpoint checkpoint) ∧ (∃ msg, e = ValueError msg) ∨
        check_pytorch_version torch_version = Ok () ∧ (0 < chunks)%Z ∧
          valid_checkpoint checkpoint ∧
          ∃ attr l, e = AttributeError attr ∧ l ∈ layers ∧ remote (h' l) = None)).
  { intros Hlt. unfold create_sequence_pipeline.
    pose proof (sum_Z_nonneg _ Hnn) as H0.
    pose proof (instantiate_layers_spec layers (zip balance devices) h 0) as Hspec.
    pose proof (instantiate_layers_inside layers (zip balance devices) h 0) as Hin.
    rewrite fst_zip in Hspec, Hin by done.
    destruct (instantiate_layers h layers 0 (zip balance devices)) as [h'|e|].
    - right. destruct Hspec as [_ Hsame]; [lia|done|].
      destruct (lookup_lt_is_Some_2 layers (Z.to_nat (sum_Z balance))) as [ls Hls]; [lia|].
      assert (Hnone : remote (h' ls) = None).
      { rewrite Hsame; [apply Hfresh; by eapply list_elem_of_lookup_2|].
        intros k Hk Hk'. assert (k = Z.to_nat (sum_Z balance)) by (by eapply NoDup_lookup). lia. }
      destruct layers as [|l0 layers'] eqn:El; [simpl in Hlt; lia|]. rewrite <- El in *.
      destruct (sequence_graph layers l0) as (g1 & g2 & H1 & H2 & Hm & Hw & Ho); [by rewrite El|].
      destruct (init_uninstantiated torch_version h' g2 chunks checkpoint Hw Ho) as (e & He & Hcases).
      { intros Hall. destruct (Hall ls) as [r Hr]; [|congruence].
        rewrite Hm. by eapply list_elem_of_lookup_2. }
      exists h', g2, e. split; [done|]. split; [done|]. split; [done|]. split.
      + simpl. rewrite H1. simpl. rewrite El at 1. simpl. rewrite H2. simpl. by rewrite He.
      + rewrite Hm in Hcases. exact Hcases.
    - left. assert (e = ValueError "unpack") as -> by (apply Hin; [lia|lia|done|done]). done.
    - exfalso. apply Hspec; [lia|done]. }
  split; [|split; [exact Hlarge|exact Hsmall]].
  destruct (decide (Z.of_nat (length layers) < sum_Z balance)%Z) as [Hgt|Hle].
  - destruct (Hlarge Hgt) as [->| ->]; by eexists.
  - destruct Hsmall as [[_ ->]|(h' & graph & e & _ & _ & _ & -> & _)]; [lia|by eexists|by eexists].
Qed.

Lemma create_sequence_pipeline_unbalanced_witness :
  raises (create_sequence_pipeline "1.9.0" fresh_heap [0; 1] [1%Z] ["w0/cpu"] 1 "except_last").
Proof.
  apply (create_sequence_pipeline_unbalanced "1.9.0" fresh_heap [0; 1] [1%Z] ["w0/cpu"] 1 "except_last").
  - apply NoDup_cons. split; [by intros ?%list_elem_of_singleton|apply NoDup_singleton].
  - intros l _. reflexivity.
  - apply Forall_cons. split; [lia|apply Forall_nil_2].
  - simpl. lia.
  - vm_compute. discriminate.
Defined.

(** One layer less in the balance than there are, and a device string
    without a slash: the call raises while instantiating, before it comes to
    the constructor. *)
Example create_sequence_pipeline_refused_device :
  create_sequence_pipeline "1.9.0" fresh_heap [0; 1] [1%Z] ["bad"] 1 "except_last"
    = Raise (ValueError "unpack").
Proof. by vm_compute. Qed.

